(* ===== verification/_CoqProject ===== *)
-Q . S2P
Prelude.v
Crc32.v
Posix.v
FileIo.v
Codec.v
WalRecord.v
Wal.v
SyncLoop.v
SnapshotEntry.v
Snapshot.v
KvStore.v
SlidingWindow.v
PersistentStore.v
Durability.v
Survival.v
Crash.v
StoreTheorems.v
ConcurrentStore.v
FormatTheorems.v
CppString.v
Protocol.v
KvServer.v
ServerTheorems.v
Client.v
Robustness.v
EndToEnd.v
ClientProgram.v
Interleaving.v
D2dTest.v
CliParser.v
Config.v
ClientMain.v
ThreadPool.v
TcpServer.v
ServerCrash.v
Iocp.v
Logger.v
ServerMain.v
