(* ===== verification/Prelude.v ===== *)
(** * kv-cache: a verification development

    The program is a key-value cache in C++20: a client sends commands over TCP in a
    RESP-like protocol; a server parses them, one reader per connection, and executes
    them against a store; the store keeps a hash table in memory and makes it durable
    with a write-ahead log and snapshots. This library models that path from the
    programs that use the client down to the system calls of the log, and proves what the
    parts promise one another. Paths are relative to the root of the repository.

    ** Parts and files

    Storage formats.
    - [Crc32.v]: [src/common/crc32.cpp]. The table is generated as in the source
      ([MakeTable]); the three [CRC32] overloads and the stored-checksum helpers.
    - [Codec.v]: the interface [RecordCodec] between record formats and the loops that
      scan files of records: round trip, framing, and when a tail of a file is dead.
    - [WalRecord.v], [SnapshotEntry.v]: [WALRecord] of [src/common/wal.cpp] and
      [SnapshotEntry] of [src/common/snapshot.cpp], with decoders over a checked buffer
      (an access outside it is the outcome [Undefined]), and their [RecordCodec] instances.

    Files.
    - [Posix.v]: the state of the file system and the descriptors, and the system calls
      the [File*] wrappers make. [files] survives the process, [disk] the device. Which
      calls fail, transfer less than asked, or never return because the process dies in
      them is a list of faults, over which the theorems quantify.
    - [FileIo.v]: the read-until-end loop that both readers contain.
    - [Wal.v]: class [WAL]: [Init], [TryOpen], [Append*], [WriteRecord], [Sync],
      [ReadAll], [Clear*], [Close], with the singleton's fields as a Record.
    - [Snapshot.v]: class [Snapshot]: [Create], [Load], [Exists], [IsValid],
      [WriteSnapshot], which replaces the file by write, unlink, rename, and
      [ReadSnapshot], which reserves memory for the entries the header claims.

    The store.
    - [KvStore.v]: class [KvStore] as transitions of a finite map, and the interface
      [KvBackend] with its laws [KvLaws], against which the server is verified.
    - [SlidingWindow.v]: the burst detector.
    - [PersistentStore.v]: class [PersistentKvStore] of
      [src/storage/persistent_kv_store.cpp]: construction and recovery, [Set], [Delete],
      the snapshot trigger. It calls the four parts above in the source's order.
    - [Durability.v], [Survival.v], [Crash.v]: its lemmas. [Survival] relates a run that
      may be killed to its fault-free twin, a simulation closed under the monad's
      combinators; [Crash] lists the file systems each stage can leave behind.

    Protocol, server, client.
    - [CppString.v]: what the protocol code uses of [std::string], [std::stoi] and
      [std::to_string].
    - [Protocol.v]: [src/common/protocol.cpp]: serialisers and [RespReader].
    - [KvServer.v]: the message handler of [src/server/kv_server.cpp], with its sharded
      table of readers; [Client.v]: [src/client/client.cpp].
    - [Robustness.v]: the handler on arbitrary bytes.
    - [EndToEnd.v]: the two joined by a socket that cuts streams anywhere.
    - [ClientProgram.v]: programs that call a client, as trees of calls and continuations,
      and their meaning on a map; [Interleaving.v]: several of them taking turns.

    The processes.
    - [CliParser.v]: [src/client/cli_parser.cpp]; [ClientMain.v]: [Connect] and
      [Disconnect], and the terminal loop of [src/client/client_main.cpp], as a program.
    - [D2dTest.v]: the client programs of the integration test in [src/d2dtest/clients].
    - [Config.v]: [src/server/config.cpp]; [Logger.v]: [include/common/logger.h];
      [ServerMain.v]: start and stop of the TCP server and of the key-value server, the
      signal handler and [main] of [src/server/server_main.cpp], over the descriptors, the
      connections, the pool and the log of the process, with whatever the event loop and the
      workers do in between.

    Threads. These files interleave the code above at the points where it holds no lock;
    each is a transition system with an executable step function.
    - [ConcurrentStore.v]: concurrent calls of [Set], [Delete] and [ForceSnapshot], cut
      into their locked sections; [sections_are_methods] ties the sections to
      [PersistentStore.v].
    - [SyncLoop.v]: the background sync thread of the log with concurrent appends,
      [Shutdown] and [Init], over the state of [Wal.v].
    - [ThreadPool.v]: [include/common/thread_pool.h], cut at every access to shared state.
    - [TcpServer.v]: the Linux event loop of [src/server/tcp_server.cpp], and the system
      of the pool and the message handler, whose [send]s may take part of a reply or kill
      the process.
    - [ServerCrash.v]: that system on the persistent store, killed anywhere; the store's side
      is the interface [KvMortalLaws] of [KvStore.v].
    - [Iocp.v]: the Windows branch of the same file: completion port, contexts, threads.

    The methods that change state are programs of the monad [M] of this file: state
    passing with the outcomes [Ret], [Throw] (a C++ exception), [Undefined] (undefined
    behaviour reached) and [Crashed] (the process died in a system call). The state
    survives every outcome, because a C++ object keeps what was assigned before a
    [throw], and the files what was written before the death of the process.

    ** What is proved

    [StoreTheorems]. Without faults a restart restores exactly the map
    ([durable_history]); a process killed anywhere restarts with the map before or after
    the interrupted operation, apart from one window that is stated exactly
    ([kill_atomic], [unlink_window]); both for operations that fit the formats and leave
    the map nonempty; a log cut anywhere gives the longest prefix of
    complete records ([torn_log_prefix]); the operation counter is bounded
    ([op_count_bounded]). Then the cases in which the code loses data: a snapshot of an
    empty map, a failed snapshot, a write behind a torn tail.

    [FormatTheorems] and [Crc32]. What is written is read back, for the log and the
    snapshot; on any file whatever the readers terminate, stay in bounds and return the
    complete records the file starts with, except a 16-byte snapshot, where the reader
    leaves its buffer; under any faults an append adds a prefix of its record, and
    a snapshot file is never partial; a record whose checksum or content was damaged is not
    replayed, and nothing behind it ([altered_record_rejected]); a header that claims many
    entries makes the reader throw ([huge_count_throws]). The table-driven
    checksum is the bit-serial one and detects every burst of up to 32 bits.

    [ServerTheorems] and [Robustness]. Commands survive any segmentation of the stream
    and are executed in order ([server_streaming]); acknowledged commands survive a restart
    ([acknowledged_survive]; [kept_promises] below is the stronger one); whatever bytes arrive and however the call ends, the handler
    keeps its shape and the other connections, and the store changes only by commands
    ([on_message_typed]); and what malformed input does to a connection.

    [ClientProgram], [Interleaving], [D2dTest], [ClientMain]. A program that uses the client
    does against the server what it does against a map ([program_refines]); programs with
    disjoint keys, served in turns, end as each does alone ([clients_do_not_interfere]).
    From these: the programs of the integration test print and find what the test expects,
    for every order in which a server that handles one request at a time serves them
    ([d2d_programs_in_turns]; not the server with four workers that the test starts), and
    a terminal session shows what its lines yield on a map ([session_transcript]).

    [ConcurrentStore]. If no two operations on a key, and no snapshot, overlap an
    operation between log and memory, any interleaving is durable at any moment, inside
    a system call of a section too ([concurrent_durable], whose [clean] also excludes a
    snapshot of an empty map over an older one); the two overlaps lose acknowledged writes ([same_key_divergence], [snapshot_loses_in_flight]).

    [SyncLoop]. What a power failure can cost under EVERYSEC, that [Shutdown] returns,
    and that [Init] of a log in use deadlocks.

    [ThreadPool], [TcpServer], [Iocp]. Tasks are taken once and in
    order, no wake-up of [Submit] is lost, joining can return from every state
    ([destroyable]) and does unless a worker is caught between its test and its wait
    ([join_returns], [join_can_hang]), and queued tasks are dropped. Chunks
    reach the pool in order, on Linux ([event_loop_in_order]) and, until [Stop], on Windows
    ([iocp_in_order]; [stray_drops_chunk] shows what [Stop]'s packets can do). One worker
    thread serves all connections in one order, which the store and, where sockets take
    whole replies, the replies follow ([one_thread_in_order]); with two or more any two
    chunks can change places ([two_threads_reorder]). A partial [send] drops the rest of a
    reply ([partial_send_drops]); one to a client that has gone is the end of the process,
    by SIGPIPE ([gone_client_kills]).

    [ServerCrash]. The server with one worker on the persistent store, in a process that may
    die in any system call, or of SIGPIPE: at any moment a new process has the map of the
    commands answered so far, or, if it died inside one, the map before or after it, apart
    from the window of [kill_atomic] ([kept_promises]).

    [ServerMain], [Config], [Logger]. Whatever the network calls return and whatever happens
    until the signal, [main] starts, waits for a signal, stops, and returns exactly when the
    pool's destructor does, with the descriptors it opened closed and its log flushed
    ([server_lifecycle]); connections stay open and the event loop keeps waiting
    ([stop_leaves_event_loop]); the options override the file, which overrides the
    defaults ([server_command_line]); a saved configuration loads as itself.

    ** Bounds, fuel and hypotheses

    Buffers are shorter than 2^63 bytes, the [max_size] of a string. [fits16] bounds
    keys and values by the 16-bit length fields; [oversize_never_recovered] shows what
    the bound protects from. A map has fewer than 2^32 entries, the count field of a
    snapshot. [arg_fits] bounds an argument on the wire by [INT_MAX - 2], so that
    [len + 2] does not overflow. [op_fits] asks that an operation of a history fits and
    leaves the map nonempty, [empty_snapshot_resurrects] shows why.

    Loops with fuel: the read and write loops and the record scan get one unit per
    byte, and each round moves at least one byte or ends; [TryOpen] gets the attempts
    of [max_retries_]; the message handler takes its fuel as an argument and returns
    [None] while it is still running, and one round more than the complete commands of
    its buffer suffices; the decimal printer gets the binary logarithm of its argument. Where fuel
    runs out for reasons of the model the outcome is [Undefined], so a theorem that
    says a call returns [Ret] (or that a reader is never [Undefined]) also says that
    the fuel suffices. [negative_length_diverges] proves that for some input no fuel does.

    Parameters: the order in which a traversal yields the entries of the hash table
    ([traversal]: each entry once), the clock, the faults, what the network calls return,
    what a [send] takes or that it raises SIGPIPE, the peer behind a client's socket, the
    steps of the scheduler, and the hash that picks a shard.

    ** Not modelled

    - Data races as such (for example the unlocked [data_.size()] in a log message of
      [CreateSnapshot]): sections under a lock are atomic steps, and accesses to atomics
      are sequentially consistent, as the source's default memory order makes them.
    - The Windows branches of the [File*] wrappers ([Posix.v] follows the POSIX ones), and
      [create_directories]: paths are flat names.
    - The library behind [include/common/logger.h] and the other third-party code: the
      logger's sinks are the list of lines that reach them. The log messages of the storage
      and protocol code are left out of those parts; [ServerMain.v] has those of the process.
    - Allocations other than [entries.reserve] in [ReadSnapshot] succeed. The client's
      [send] to a server that has gone is taken to return an error, not to raise SIGPIPE.
    - In [ServerMain.v] the tasks of the pool return and leave the store alone: what they do
      is in [TcpServer.v] and [ServerCrash.v].
    - The unit tests and benchmarks.

    ** Where it can grow

    [server_lifecycle] composed with [kept_promises], so that one theorem spans the server
    process from [main] to its death; several worker threads for clients that wait for each
    reply; the races above as an explicit weaker memory model. *)

From stdpp Require Export base gmap list numbers strings.
From Stdlib Require Export ZArith Lia.
From Stdlib.Strings Require Export Byte.
From Stdlib.Strings Require String.

#[global] Open Scope Z_scope.

(** ** Bytes *)

Abbreviation byte := Byte.byte.
Abbreviation bytes := (list Byte.byte).

#[export] Instance byte_eq_decision : EqDecision byte := Byte.byte_eq_dec.

#[export] Instance byte_countable : Countable byte :=
  inj_countable Byte.to_N Byte.of_N Byte.of_to_N.

#[export] Instance byte_inhabited : Inhabited byte := populate Byte.x00.

(** A string literal of the source as bytes. *)
Definition str (s : string) : bytes := String.list_byte_of_string s.

(** The value of an [unsigned char], and the conversion [static_cast<char>] of an integer. *)
Definition b2z (b : byte) : Z := Z.of_N (Byte.to_N b).

Definition z2b (z : Z) : byte := default Byte.x00 (Byte.of_N (Z.to_N (z mod 256))).

#[global] Arguments b2z : simpl never.
#[global] Arguments z2b : simpl never.
#[global] Arguments Z.land : simpl never.
#[global] Arguments Z.shiftr : simpl never.
#[global] Arguments Z.shiftl : simpl never.
#[global] Arguments Z.modulo : simpl never.

Lemma b2z_range b : 0 <= b2z b < 256.
Proof. unfold b2z. pose proof (Byte.to_N_bounded b). lia. Qed.

Lemma z2b_b2z b : z2b (b2z b) = b.
Proof.
  unfold z2b. rewrite Z.mod_small by apply b2z_range.
  unfold b2z. by rewrite N2Z.id, Byte.of_to_N.
Qed.

Lemma b2z_z2b z : b2z (z2b z) = z mod 256.
Proof.
  unfold z2b. pose proof (Z.mod_pos_bound z 256 ltac:(lia)) as Hr.
  destruct (Byte.of_N _) as [b|] eqn:E; simpl.
  - apply Byte.to_of_N in E. unfold b2z. rewrite E. lia.
  - apply Byte.of_N_None_iff in E. lia.
Qed.

#[export] Instance b2z_inj : Inj (=) (=) b2z.
Proof. intros b1 b2 H. by rewrite <-(z2b_b2z b1), <-(z2b_b2z b2), H. Qed.

(** ** Machine integers *)

Definition u16 (z : Z) : Z := z mod 2 ^ 16.
Definition u32 (z : Z) : Z := z mod 2 ^ 32.
Definition u64 (z : Z) : Z := z mod 2 ^ 64.

Definition INT_MAX : Z := 2147483647.
Definition INT_MIN : Z := -2147483648.

Lemma testbit_above a n i : 0 <= a < 2 ^ n -> n <= i -> Z.testbit a i = false.
Proof.
  intros Ha Hi. destruct (decide (n < 0)); [rewrite Z.pow_neg_r in Ha by lia; lia|].
  rewrite <-(Z.mod_small a (2 ^ n)) by done. apply Z.mod_pow2_bits_high; lia.
Qed.

Lemma lor_shiftl_add a b n :
  0 <= n -> 0 <= a < 2 ^ n -> Z.lor a (Z.shiftl b n) = a + b * 2 ^ n.
Proof.
  intros Hn Ha.
  assert (Z.land a (Z.shiftl b n) = 0) as Hdis.
  { apply Z.bits_inj'. intros i Hi. rewrite Z.land_spec, Z.bits_0, Z.shiftl_spec by lia.
    destruct (decide (n <= i)).
    - by rewrite (testbit_above a n).
    - rewrite (Z.testbit_neg_r b) by lia. apply andb_false_r. }
  rewrite <-Z.lxor_lor, <-Z.add_nocarry_lxor by done.
  by rewrite Z.shiftl_mul_pow2 by lia.
Qed.

Lemma land_255 z : Z.land z 255 = z mod 256.
Proof. change 255 with (Z.ones 8). by rewrite Z.land_ones by lia. Qed.

Lemma u32_small z : 0 <= z < 2 ^ 32 -> u32 z = z.
Proof. intros. by apply Z.mod_small. Qed.

(** Two and four bytes, least significant first: the runs of
    [data += static_cast<char>((n >> 8*i) & 0xFF)] of the encoders, and the
    [data[i] | data[i+1] << 8 | ...] expressions of the decoders. *)
Definition le16 (n : Z) : bytes :=
  [z2b (Z.land n 255); z2b (Z.land (Z.shiftr n 8) 255)].

Definition le32 (n : Z) : bytes :=
  [z2b (Z.land n 255); z2b (Z.land (Z.shiftr n 8) 255);
   z2b (Z.land (Z.shiftr n 16) 255); z2b (Z.land (Z.shiftr n 24) 255)].

Definition get_le16 (b0 b1 : byte) : Z := u16 (Z.lor (b2z b0) (Z.shiftl (b2z b1) 8)).

Definition get_le32 (b0 b1 b2 b3 : byte) : Z :=
  u32 (Z.lor (Z.lor (Z.lor (b2z b0) (Z.shiftl (b2z b1) 8))
                    (Z.shiftl (b2z b2) 16))
             (Z.shiftl (b2z b3) 24)).

Lemma get_le16_add b0 b1 : get_le16 b0 b1 = b2z b0 + 256 * b2z b1.
Proof.
  unfold get_le16, u16. pose proof (b2z_range b0). pose proof (b2z_range b1).
  rewrite lor_shiftl_add by lia. rewrite Z.mod_small; lia.
Qed.

#[global] Arguments get_le16 : simpl never.
#[global] Arguments get_le32 : simpl never.

Lemma get_le32_add b0 b1 b2 b3 :
  get_le32 b0 b1 b2 b3 =
    b2z b0 + 256 * b2z b1 + 65536 * b2z b2 + 16777216 * b2z b3.
Proof.
  unfold get_le32, u32.
  pose proof (b2z_range b0). pose proof (b2z_range b1).
  pose proof (b2z_range b2). pose proof (b2z_range b3).
  rewrite (lor_shiftl_add (b2z b0)) by lia.
  rewrite (lor_shiftl_add _ (b2z b2)) by lia.
  rewrite (lor_shiftl_add _ (b2z b3)) by lia.
  rewrite Z.mod_small; lia.
Qed.

Lemma get_le16_le16 n : 0 <= n < 65536 ->
  get_le16 (z2b (Z.land n 255)) (z2b (Z.land (Z.shiftr n 8) 255)) = n.
Proof.
  intros Hn. rewrite get_le16_add, !b2z_z2b, !land_255, !Z.shiftr_div_pow2 by lia.
  rewrite !Z.mod_mod by lia. change (2 ^ 8) with 256. 
  Z.div_mod_to_equations. lia.
Qed.

Lemma get_le32_le32 n : 0 <= n < 2 ^ 32 ->
  get_le32 (z2b (Z.land n 255)) (z2b (Z.land (Z.shiftr n 8) 255))
           (z2b (Z.land (Z.shiftr n 16) 255)) (z2b (Z.land (Z.shiftr n 24) 255)) = n.
Proof.
  intros Hn. rewrite get_le32_add, !b2z_z2b, !land_255, !Z.shiftr_div_pow2 by lia.
  rewrite !Z.mod_mod by lia.
  change (2 ^ 8) with 256. change (2 ^ 16) with 65536. change (2 ^ 24) with 16777216.
  Z.div_mod_to_equations. lia.
Qed.

Lemma le16_get b0 b1 : le16 (get_le16 b0 b1) = [b0; b1].
Proof.
  unfold le16. rewrite !land_255, Z.shiftr_div_pow2, get_le16_add by lia. change (2 ^ 8) with 256.
  pose proof (b2z_range b0). pose proof (b2z_range b1).
  f_equal; [|f_equal]; apply (inj b2z); rewrite b2z_z2b; Z.div_mod_to_equations; lia.
Qed.

Lemma le32_get b0 b1 b2 b3 : le32 (get_le32 b0 b1 b2 b3) = [b0; b1; b2; b3].
Proof.
  unfold le32. rewrite !land_255, !Z.shiftr_div_pow2, get_le32_add by lia.
  change (2 ^ 8) with 256. change (2 ^ 16) with 65536. change (2 ^ 24) with 16777216.
  pose proof (b2z_range b0). pose proof (b2z_range b1).
  pose proof (b2z_range b2). pose proof (b2z_range b3).
  repeat f_equal; apply (inj b2z); rewrite b2z_z2b; Z.div_mod_to_equations; lia.
Qed.

Lemma get_le16_range b0 b1 : 0 <= get_le16 b0 b1 < 65536.
Proof. rewrite get_le16_add. pose proof (b2z_range b0). pose proof (b2z_range b1). lia. Qed.

Lemma get_le32_range b0 b1 b2 b3 : 0 <= get_le32 b0 b1 b2 b3 < 2 ^ 32.
Proof. unfold get_le32, u32. apply Z.mod_pos_bound. lia. Qed.

(** ** Lists with integer positions *)

Create Rewrite HintDb zlen.

Definition zlen {A} (l : list A) : Z := Z.of_nat (length l).
Definition ztake {A} (n : Z) (l : list A) : list A := take (Z.to_nat n) l.
Definition zdrop {A} (n : Z) (l : list A) : list A := drop (Z.to_nat n) l.

Lemma zlen_nonneg {A} (l : list A) : 0 <= zlen l.
Proof. unfold zlen. lia. Qed.

Lemma zlen_app {A} (l k : list A) : zlen (l ++ k) = zlen l + zlen k.
Proof. unfold zlen. rewrite length_app. lia. Qed.

Lemma zlen_cons {A} (x : A) l : zlen (x :: l) = 1 + zlen l.
Proof. unfold zlen. simpl. lia. Qed.

Lemma zlen_nil {A} : zlen (@nil A) = 0.
Proof. done. Qed.

Lemma zlen_ztake {A} n (l : list A) : zlen (ztake n l) = Z.min (Z.max 0 n) (zlen l).
Proof. unfold zlen, ztake. rewrite length_take. lia. Qed.

Lemma zlen_zdrop {A} n (l : list A) : zlen (zdrop n l) = Z.max 0 (zlen l - Z.max 0 n).
Proof. unfold zlen, zdrop. rewrite length_drop. lia. Qed.

Lemma zlen_le16 n : zlen (le16 n) = 2.
Proof. done. Qed.

Lemma zlen_le32 n : zlen (le32 n) = 4.
Proof. done. Qed.

Lemma ztake_app_exact {A} (l k : list A) n : n = zlen l -> ztake n (l ++ k) = l.
Proof. intros ->. unfold ztake, zlen. rewrite Nat2Z.id. apply take_app_length. Qed.

Lemma zdrop_app_exact {A} (l k : list A) n : n = zlen l -> zdrop n (l ++ k) = k.
Proof. intros ->. unfold zdrop, zlen. rewrite Nat2Z.id. apply drop_app_length. Qed.

Lemma zdrop_zdrop {A} (l : list A) n m :
  0 <= n -> 0 <= m -> zdrop m (zdrop n l) = zdrop (n + m) l.
Proof. intros. unfold zdrop. rewrite drop_drop. f_equal. lia. Qed.

Lemma ztake_zdrop {A} (l : list A) n : ztake n l ++ zdrop n l = l.
Proof. apply take_drop. Qed.

Lemma zdrop_0 {A} (l : list A) : zdrop 0 l = l.
Proof. done. Qed.

Lemma zdrop_ge {A} (l : list A) n : zlen l <= n -> zdrop n l = [].
Proof. intros. unfold zdrop, zlen in *. apply drop_ge. lia. Qed.

Lemma ztake_ge {A} (l : list A) n : zlen l <= n -> ztake n l = l.
Proof. intros. unfold ztake, zlen in *. apply take_ge. lia. Qed.

Lemma ztake_zlen_ztake {A} n (l : list A) : ztake (zlen (ztake n l)) l = ztake n l.
Proof.
  unfold ztake, zlen. rewrite Nat2Z.id, length_take.
  destruct (decide (Z.to_nat n <= length l)%nat); [f_equal; lia|].
  by rewrite !take_ge by lia.
Qed.

#[export] Hint Rewrite @zlen_app @zlen_cons @zlen_nil @zlen_ztake @zlen_zdrop
  zlen_le16 zlen_le32 : zlen.

(** Close a goal about lengths by normalising [zlen]. *)
Ltac zlen :=
  autorewrite with zlen in *;
  repeat match goal with
  | |- context [zlen ?l] =>
      lazymatch goal with H : 0 <= zlen l |- _ => fail | _ => pose proof (zlen_nonneg l) end
  | _ : context [zlen ?l] |- _ =>
      lazymatch goal with H : 0 <= zlen l |- _ => fail | _ => pose proof (zlen_nonneg l) end
  end; lia.

(** Strings whose length a [uint16_t] length field can hold. *)
Definition fits16 (s : bytes) : Prop := zlen s < 65536.

#[export] Instance fits16_decision s : Decision (fits16 s).
Proof. unfold fits16. apply _. Defined.

(** ** Outcomes of C++ code

    A call returns, throws, runs into undefined behaviour, or the process is
    killed while it runs (only the system calls of [Posix] can be the point of
    such a crash). *)
Inductive exn :=
  | RuntimeError        (* std::runtime_error *)
  | InvalidArgument     (* std::invalid_argument *)
  | OutOfRange          (* std::out_of_range *)
  | LogError            (* spdlog::spdlog_ex *)
  | BadAlloc.           (* std::bad_alloc *)

#[export] Instance exn_eq_decision : EqDecision exn.
Proof. solve_decision. Defined.

Inductive res (A : Type) :=
  | Ret (a : A)
  | Throw (e : exn)
  | Undefined
  | Crashed.
Arguments Ret {A} a.
Arguments Throw {A} e.
Arguments Undefined {A}.
Arguments Crashed {A}.

#[export] Instance res_eq_decision {A} `{EqDecision A} : EqDecision (res A).
Proof. solve_decision. Defined.

Definition res_bind {A B} (m : res A) (f : A -> res B) : res B :=
  match m with
  | Ret a => f a
  | Throw e => Throw e
  | Undefined => Undefined
  | Crashed => Crashed
  end.

(** Code over a state: the state reached is kept whatever the outcome, as a C++
    object keeps the fields assigned before an exception leaves its method. *)
Definition M (S A : Type) : Type := S -> res A * S.

Definition ret {S A} (a : A) : M S A := fun s => (Ret a, s).

Definition bind {S A B} (m : M S A) (f : A -> M S B) : M S B := fun s =>
  match m s with
  | (Ret a, s') => f a s'
  | (Throw e, s') => (Throw e, s')
  | (Undefined, s') => (Undefined, s')
  | (Crashed, s') => (Crashed, s')
  end.

Definition throw {S A} (e : exn) : M S A := fun s => (Throw e, s).
Definition lift {S A} (r : res A) : M S A := fun s => (r, s).
Definition gets {S A} (f : S -> A) : M S A := fun s => (Ret (f s), s).
Definition modify {S} (f : S -> S) : M S unit := fun s => (Ret tt, f s).

(** Run code of a component inside the state that contains it. *)
Definition zoom {S T A} (get : S -> T) (set : T -> S -> S) (m : M T A) : M S A := fun s =>
  let (r, t) := m (get s) in (r, set t s).

Declare Scope kv_scope.
Delimit Scope kv_scope with kv.
Notation "'let!' x ':=' m 'in' k" := (bind m (fun x => k))
  (at level 10, x pattern, m at level 100, k at level 200) : kv_scope.
Notation "'do!' m 'in' k" := (bind m (fun _ => k))
  (at level 10, m at level 100, k at level 200) : kv_scope.
Notation "'let?' x ':=' m 'in' k" := (res_bind m (fun x => k))
  (at level 10, x pattern, m at level 100, k at level 200) : kv_scope.
#[global] Open Scope kv_scope.

Lemma bind_Ret {S A B} (m : M S A) (f : A -> M S B) s a s' :
  m s = (Ret a, s') -> bind m f s = f a s'.
Proof. intros H. unfold bind. by rewrite H. Qed.

Lemma bind_Crashed {S A B} (m : M S A) (f : A -> M S B) s s' :
  m s = (Crashed, s') -> bind m f s = (Crashed, s').
Proof. intros H. unfold bind. by rewrite H. Qed.

Lemma bind_gets {S A B} (f : S -> A) (k : A -> M S B) s : bind (gets f) k s = k (f s) s.
Proof. done. Qed.

Lemma bind_modify {S B} (f : S -> S) (k : unit -> M S B) s : bind (modify f) k s = k tt (f s).
Proof. done. Qed.

Lemma bind_ret {S A B} (a : A) (k : A -> M S B) s : bind (ret a) k s = k a s.
Proof. done. Qed.

Lemma bind_lift_Ret {S A B} (a : A) (k : A -> M S B) s : bind (lift (Ret a)) k s = k a s.
Proof. done. Qed.

Lemma bind_assoc {S A B C} (m : M S A) (f : A -> M S B) (g : B -> M S C) s :
  bind (bind m f) g s = bind m (fun a => bind (f a) g) s.
Proof. unfold bind. by destruct (m s) as [[] ?]. Qed.

(** ** Checked reads of a character buffer

    [at_ buf i] is [buf[i]] and [sub buf off n] is [std::string(buf + off, n)]: an
    access outside the buffer is undefined behaviour. *)
Definition at_ {A} (l : list A) (i : Z) : res A :=
  if decide (0 <= i) then
    match l !! Z.to_nat i with Some b => Ret b | None => Undefined end
  else Undefined.

Definition sub (l : bytes) (off n : Z) : res bytes :=
  if decide (0 <= off /\ 0 <= n /\ off + n <= zlen l)
  then Ret (ztake n (zdrop off l)) else Undefined.

Lemma at_ok {A} (l : list A) i : 0 <= i < zlen l -> exists b, at_ l i = Ret b.
Proof.
  intros Hi. unfold at_, zlen in *. rewrite decide_True by lia.
  destruct (lookup_lt_is_Some_2 l (Z.to_nat i)) as [b ->]; [lia|eauto].
Qed.

Lemma at_app_r {A} (l k : list A) i : zlen l <= i -> at_ (l ++ k) i = at_ k (i - zlen l).
Proof.
  intros Hi. unfold at_, zlen in *. rewrite !decide_True by lia.
  rewrite lookup_app_r by lia.
  replace (Z.to_nat (i - Z.of_nat (length l))) with (Z.to_nat i - length l)%nat by lia. done.
Qed.

Lemma at_app_add {A} (l k : list A) i : 0 <= i -> at_ (l ++ k) (zlen l + i) = at_ k i.
Proof. intros Hi. rewrite at_app_r by lia. f_equal. lia. Qed.

Lemma at_app_end {A} (l k : list A) : at_ (l ++ k) (zlen l) = at_ k 0.
Proof. rewrite at_app_r by lia. f_equal. lia. Qed.

Lemma at_app_l {A} (l k : list A) i : i < zlen l -> at_ (l ++ k) i = at_ l i.
Proof.
  intros Hi. unfold at_, zlen in *. case_decide; [|done].
  rewrite lookup_app_l by lia. done.
Qed.

Lemma sub_ok l off n : 0 <= off -> 0 <= n -> off + n <= zlen l ->
  sub l off n = Ret (ztake n (zdrop off l)).
Proof. intros. unfold sub. by rewrite decide_True. Qed.

Lemma sub_app (p d q : bytes) : sub (p ++ d ++ q) (zlen p) (zlen d) = Ret d.
Proof.
  rewrite sub_ok by zlen. rewrite zdrop_app_exact by done.
  by rewrite ztake_app_exact.
Qed.

(** Reads at a position found by splitting the buffer. *)
Lemma at_split {A} (l a b : list A) x i : l = a ++ x :: b -> i = zlen a -> at_ l i = Ret x.
Proof. intros -> ->. by rewrite at_app_end. Qed.

Lemma sub_split (l a d b : bytes) off n :
  l = a ++ d ++ b -> off = zlen a -> n = zlen d -> sub l off n = Ret d.
Proof. intros -> -> ->. apply sub_app. Qed.

(** What a successful read says about the buffer. *)
Lemma at_zdrop {A} (l : list A) i x :
  at_ l i = Ret x -> 0 <= i /\ zdrop i l = x :: zdrop (i + 1) l.
Proof.
  unfold at_. case_decide; [|done]. destruct (l !! Z.to_nat i) eqn:E; [|done]. intros [= ->].
  split; [done|]. unfold zdrop. replace (Z.to_nat (i + 1)) with (S (Z.to_nat i)) by lia.
  by apply drop_S.
Qed.

Lemma sub_zdrop l off n s :
  sub l off n = Ret s -> 0 <= off /\ zlen s = n /\ zdrop off l = s ++ zdrop (off + n) l.
Proof.
  unfold sub. case_decide as H; [|done]. intros [= <-]. split; [lia|]. split; [zlen|].
  by rewrite <-zdrop_zdrop, ztake_zdrop by lia.
Qed.

Lemma res_bind_Ret {A B} (m : res A) (f : A -> res B) b :
  res_bind m f = Ret b -> exists a, m = Ret a /\ f a = Ret b.
Proof. destruct m; simpl; [eauto|done..]. Qed.

(** Take a successful decoder apart, one read at a time. *)
Ltac read_inv H :=
  repeat lazymatch type of H with
  | res_bind _ _ = Ret _ =>
      let x := fresh "x" in let Hx := fresh "Hx" in
      apply res_bind_Ret in H as (x & Hx & H); cbv beta in H
  | (if ?n <? ?m then _ else _) = Ret _ => destruct (Z.ltb_spec n m); [try congruence|]
  | (let x := _ in _) = Ret _ => cbv zeta in H
  end.

(** Equality of byte strings up to the association of [++]. *)
Ltac list_eq :=
  repeat match goal with x := _ : bytes |- _ => subst x end;
  simpl; rewrite ?app_nil_r; repeat (rewrite <-?app_assoc; simpl); reflexivity.

(** Four consecutive reads of an encoded 32-bit word. *)
Lemma read_le32 {A} (buf a b : bytes) n i (k : byte -> byte -> byte -> byte -> res A) :
  buf = a ++ le32 n ++ b -> i = zlen a ->
  (let? b0 := at_ buf i in
   let? b1 := at_ buf (i + 1) in
   let? b2 := at_ buf (i + 2) in
   let? b3 := at_ buf (i + 3) in
   k b0 b1 b2 b3) =
  k (z2b (Z.land n 255)) (z2b (Z.land (Z.shiftr n 8) 255))
    (z2b (Z.land (Z.shiftr n 16) 255)) (z2b (Z.land (Z.shiftr n 24) 255)).
Proof.
  intros -> ->. rewrite at_app_end. simpl. by do 3 (rewrite at_app_add by lia; simpl).
Qed.

(** [static_cast<int>] of a wider integer. *)
Definition i32 (z : Z) : Z := (z + 2 ^ 31) mod 2 ^ 32 - 2 ^ 31.

Lemma i32_small z : -2 ^ 31 <= z < 2 ^ 31 -> i32 z = z.
Proof. intros. unfold i32. rewrite Z.mod_small; lia. Qed.

Lemma bind_ext {S A B} (m : M S A) (f g : A -> M S B) s :
  (forall a s', f a s' = g a s') -> bind m f s = bind m g s.
Proof. intros Hfg. unfold bind. by destruct (m s) as [[] ?]. Qed.
