(* ===== verification/Crc32.v ===== *)
(** * CRC-32: [src/common/crc32.cpp]

    The table-driven checksum of the write-ahead log and the snapshots, its
    equivalence with the bit-serial shift register it optimises, and the error
    bursts it is certain to detect. *)

From S2P Require Import Prelude.

(** ** The code *)

Definition kCRC32Polynomial : Z := 0xEDB88320.

(** One iteration of the loop of [MakeTable]. *)
Definition crc_shift (crc : Z) : Z :=
  if Z.land crc 1 =? 0 then Z.shiftr crc 1
  else Z.lxor (Z.shiftr crc 1) kCRC32Polynomial.

Definition MakeTable (idx : Z) : Z := Nat.iter 8 crc_shift idx.

Definition kCRC32Table : list Z := map MakeTable (seqZ 0 256).

Definition CRC32Byte (crc : Z) (b : byte) : Z :=
  Z.lxor (kCRC32Table !!! Z.to_nat (Z.land (Z.lxor crc (b2z b)) 0xFF)) (Z.shiftr crc 8).

Definition CRC32 (data : bytes) : Z :=
  Z.lxor (foldl CRC32Byte 0xFFFFFFFF data) 0xFFFFFFFF.

Definition CRC32_byte (b : byte) : Z := CRC32 [b].

Definition AppendChecksum (output data : bytes) : bytes := output ++ le32 (CRC32 data).

(** [ReadChecksum(buf + off)] and [VerifyChecksum(buf + off, data_len)]. *)
Definition ReadChecksum (buf : bytes) (off : Z) : res Z :=
  let? b0 := at_ buf off in
  let? b1 := at_ buf (off + 1) in
  let? b2 := at_ buf (off + 2) in
  let? b3 := at_ buf (off + 3) in
  Ret (get_le32 b0 b1 b2 b3).

Definition VerifyChecksum (buf : bytes) (off data_len : Z) : res bool :=
  let? stored := ReadChecksum buf (off + data_len) in
  let? data := sub buf off data_len in
  Ret (stored =? CRC32 data).

(** ** The reference: a bit-serial linear feedback shift register

    Bits enter least significant first; each one is added to the low bit of the
    register, which is then shifted with feedback. *)
Definition bits_of (b : byte) : list bool :=
  map (fun i => Z.testbit (b2z b) i) (seqZ 0 8).

Definition lfsr_bit (crc : Z) (bit : bool) : Z := crc_shift (Z.lxor crc (Z.b2z bit)).

Definition crc32_serial (data : bytes) : Z :=
  Z.lxor (foldl lfsr_bit 0xFFFFFFFF (data ≫= bits_of)) 0xFFFFFFFF.

(** [n] shifts of the register. *)
Definition crc_shifts (n : nat) (x : Z) : Z := Nat.iter n crc_shift x.

(** A word of bytes as an integer, least significant byte first. *)
Fixpoint le_value (w : bytes) : Z :=
  match w with
  | [] => 0
  | b :: w => Z.lxor (b2z b) (Z.shiftl (le_value w) 8)
  end.

(** ** Linearity of the shift *)

Lemma crc_shift_odd x :
  crc_shift x = Z.lxor (Z.shiftr x 1) (if Z.odd x then kCRC32Polynomial else 0).
Proof.
  unfold crc_shift. change (Z.land x 1) with (Z.land x (Z.ones 1)).
  rewrite Z.land_ones by lia. change (2 ^ 1) with 2.
  rewrite (Zmod_odd x). destruct (Z.odd x); simpl; [done|]. by rewrite Z.lxor_0_r.
Qed.

Lemma crc_shift_lxor x y : crc_shift (Z.lxor x y) = Z.lxor (crc_shift x) (crc_shift y).
Proof.
  rewrite !crc_shift_odd, Z.shiftr_lxor, <-!Z.bit0_odd, Z.lxor_spec.
  apply Z.bits_inj'. intros i Hi. rewrite !Z.lxor_spec.
  destruct (Z.testbit x 0), (Z.testbit y 0); simpl; rewrite ?Z.bits_0;
    by repeat match goal with |- context [Z.testbit ?a ?b] => destruct (Z.testbit a b) end.
Qed.

Lemma crc_shifts_lxor n x y :
  crc_shifts n (Z.lxor x y) = Z.lxor (crc_shifts n x) (crc_shifts n y).
Proof. induction n as [|n IH]; [done|]. simpl. by rewrite IH, crc_shift_lxor. Qed.

Lemma crc_shifts_add n m x : crc_shifts (n + m) x = crc_shifts n (crc_shifts m x).
Proof. unfold crc_shifts. induction n as [|n IH]; [done|]. simpl. by rewrite IH. Qed.

Lemma crc_shift_double x : crc_shift (2 * x) = x.
Proof.
  rewrite crc_shift_odd, Z.odd_mul, andb_false_l, Z.lxor_0_r.
  rewrite Z.shiftr_div_pow2 by lia. change (2 ^ 1) with 2. rewrite Z.mul_comm. by apply Z.div_mul.
Qed.

(** Zero low bits are shifted out without feedback. *)
Lemma crc_shifts_shiftl n x : crc_shifts n (Z.shiftl x (Z.of_nat n)) = x.
Proof.
  revert x. induction n as [|n IH]; intros x; [simpl; by rewrite Z.shiftl_0_r|].
  replace (S n) with (n + 1)%nat by lia. rewrite crc_shifts_add.
  replace (Z.shiftl x (Z.of_nat (n + 1))) with (2 * Z.shiftl x (Z.of_nat n)).
  - simpl. by rewrite crc_shift_double.
  - rewrite !Z.shiftl_mul_pow2 by lia. rewrite Nat2Z.inj_add, Z.pow_add_r by lia. lia.
Qed.

(** ** The register stays a 32-bit word *)

Lemma lxor_range n x y :
  0 <= n -> 0 <= x < 2 ^ n -> 0 <= y < 2 ^ n -> 0 <= Z.lxor x y < 2 ^ n.
Proof.
  intros Hn Hx Hy. assert (0 <= Z.lxor x y) as H0 by (apply Z.lxor_nonneg; lia).
  split; [done|]. destruct (decide (Z.lxor x y = 0)) as [->|]; [lia|].
  apply Z.log2_lt_pow2; [lia|].
  apply Z.le_lt_trans with (Z.max (Z.log2 x) (Z.log2 y)); [apply Z.log2_lxor; lia|].
  assert (forall z, 0 <= z < 2 ^ n -> z <> 0 -> Z.log2 z < n) as Hlog.
  { intros z ??. apply Z.log2_lt_pow2; lia. }
  destruct (decide (x = 0)) as [->|]; [destruct (decide (y = 0)) as [->|]|].
  - by rewrite Z.lxor_0_l in *.
  - specialize (Hlog y). simpl. rewrite Z.max_r; [lia|apply Z.log2_nonneg].
  - destruct (decide (y = 0)) as [->|].
    + specialize (Hlog x). simpl. rewrite Z.max_l; [lia|apply Z.log2_nonneg].
    + pose proof (Hlog x). pose proof (Hlog y). lia.
Qed.

Lemma crc_shift_range x : 0 <= x < 2 ^ 32 -> 0 <= crc_shift x < 2 ^ 32.
Proof.
  intros Hx. rewrite crc_shift_odd. apply lxor_range; [lia| |].
  - rewrite Z.shiftr_div_pow2 by lia. change (2 ^ 1) with 2.
    Z.div_mod_to_equations. lia.
  - destruct (Z.odd x); unfold kCRC32Polynomial; lia.
Qed.

Lemma crc_shifts_range n x : 0 <= x < 2 ^ 32 -> 0 <= crc_shifts n x < 2 ^ 32.
Proof. intros Hx. induction n as [|n IH]; [done|]. by apply crc_shift_range. Qed.

(** Shifting is injective on words: the feedback polynomial has its top bit set, so
    that bit of the result tells whether there was feedback. *)
Lemma crc_shift_0 x : 0 <= x < 2 ^ 32 -> crc_shift x = 0 -> x = 0.
Proof.
  intros Hx. rewrite crc_shift_odd. rewrite Z.lxor_eq_0_iff.
  rewrite Z.shiftr_div_pow2 by lia. change (2 ^ 1) with 2.
  pose proof (Zmod_odd x) as Hodd. destruct (Z.odd x); unfold kCRC32Polynomial; intros H.
  - exfalso. Z.div_mod_to_equations. lia.
  - Z.div_mod_to_equations. lia.
Qed.

Lemma crc_shifts_inj n x y :
  0 <= x < 2 ^ 32 -> 0 <= y < 2 ^ 32 -> crc_shifts n x = crc_shifts n y -> x = y.
Proof.
  intros Hx Hy H. apply Z.lxor_eq.
  assert (crc_shifts n (Z.lxor x y) = 0) as H0.
  { rewrite crc_shifts_lxor, H. apply Z.lxor_nilpotent. }
  assert (0 <= Z.lxor x y < 2 ^ 32) as Hr by (apply lxor_range; lia).
  revert H0 Hr. generalize (Z.lxor x y). clear.
  induction n as [|n IH]; intros z H0 Hr; [done|].
  simpl in H0. apply crc_shift_0 in H0; [by apply IH|by apply crc_shifts_range].
Qed.

(** ** The table entry and the byte step *)

Lemma kCRC32Table_lookup i : 0 <= i < 256 -> kCRC32Table !!! Z.to_nat i = crc_shifts 8 i.
Proof.
  intros Hi. unfold kCRC32Table. rewrite list_lookup_total_alt, list_lookup_fmap.
  rewrite lookup_seqZ_lt by lia. rewrite Z.add_0_l, Z2Nat.id by lia. done.
Qed.

Lemma CRC32Byte_shifts crc b :
  0 <= crc -> CRC32Byte crc b = crc_shifts 8 (Z.lxor crc (b2z b)).
Proof.
  intros Hc. pose proof (b2z_range b) as Hb. unfold CRC32Byte.
  set (x := Z.lxor crc (b2z b)).
  assert (0 <= x) as Hx by (apply Z.lxor_nonneg; lia).
  rewrite land_255, kCRC32Table_lookup by (apply Z.mod_pos_bound; lia).
  assert (Z.shiftr crc 8 = Z.shiftr x 8) as ->.
  { unfold x. rewrite Z.shiftr_lxor, (Z.shiftr_div_pow2 (b2z b)) by lia.
    rewrite (Z.div_small (b2z b)) by lia. by rewrite Z.lxor_0_r. }
  rewrite <-(crc_shifts_shiftl 8 (Z.shiftr x 8)), <-crc_shifts_lxor. f_equal.
  apply Z.bits_inj'. intros i Hi. rewrite Z.lxor_spec, Z.shiftl_spec by lia.
  change 256 with (2 ^ 8). destruct (decide (i < 8)).
  - rewrite Z.mod_pow2_bits_low by lia. rewrite (Z.testbit_neg_r _ (i - _)) by lia.
    by rewrite xorb_false_r.
  - rewrite Z.mod_pow2_bits_high by lia. rewrite Z.shiftr_spec by lia.
    simpl. f_equal. lia.
Qed.

Lemma CRC32Byte_range crc b : 0 <= crc < 2 ^ 32 -> 0 <= CRC32Byte crc b < 2 ^ 32.
Proof.
  intros Hc. rewrite CRC32Byte_shifts by lia. apply crc_shifts_range.
  pose proof (b2z_range b). apply lxor_range; lia.
Qed.

Lemma crc_fold_range data crc :
  0 <= crc < 2 ^ 32 -> 0 <= foldl CRC32Byte crc data < 2 ^ 32.
Proof. revert crc. induction data; intros; [done|]. by apply IHdata, CRC32Byte_range. Qed.

Lemma CRC32_range data : 0 <= CRC32 data < 2 ^ 32.
Proof. apply lxor_range; [lia| |lia]. by apply crc_fold_range. Qed.

(** ** The table against the register *)

(** After [k] serial steps the register holds [k] shifts of [crc] xored with the
    low [k] bits of the byte. *)
Lemma lfsr_bits_prefix b crc (k : nat) : (k <= 8)%nat ->
  foldl lfsr_bit crc (map (fun i => Z.testbit (b2z b) i) (seqZ 0 (Z.of_nat k))) =
  crc_shifts k (Z.lxor crc (b2z b mod 2 ^ Z.of_nat k)).
Proof.
  induction k as [|k IH]; intros Hk.
  { simpl. by rewrite Z.mod_1_r, Z.lxor_0_r. }
  replace (Z.of_nat (S k)) with (Z.of_nat k + 1) by lia.
  rewrite seqZ_app by lia. rewrite List.map_app, foldl_app, IH by lia. simpl.
  unfold lfsr_bit. set (bit := Z.b2z _).
  assert (bit = crc_shifts k (Z.shiftl bit (Z.of_nat k))) as Hbit.
  { by rewrite crc_shifts_shiftl. }
  rewrite Hbit, <-crc_shifts_lxor. do 2 f_equal. rewrite Z.lxor_assoc. f_equal.
  subst bit. apply Z.bits_inj'. intros i Hi.
  rewrite Z.lxor_spec, Z.shiftl_spec by lia.
  destruct (decide (i < Z.of_nat k)).
  { rewrite !Z.mod_pow2_bits_low by lia. rewrite (Z.testbit_neg_r _ (i - _)) by lia.
    apply xorb_false_r. }
  rewrite (Z.mod_pow2_bits_high _ (Z.of_nat k)) by lia.
  destruct (decide (i = Z.of_nat k)) as [->|].
  - rewrite Z.mod_pow2_bits_low by lia. rewrite Z.sub_diag, Z.b2z_bit0. simpl. f_equal; lia.
  - rewrite Z.mod_pow2_bits_high by lia. rewrite (testbit_above _ 1); [done| |lia].
    destruct (Z.testbit _ _); simpl; lia.
Qed.

Lemma CRC32Byte_serial crc b :
  0 <= crc -> foldl lfsr_bit crc (bits_of b) = CRC32Byte crc b.
Proof.
  intros Hc. unfold bits_of. change 8 with (Z.of_nat 8). rewrite lfsr_bits_prefix by lia.
  rewrite CRC32Byte_shifts by done. pose proof (b2z_range b).
  by rewrite (Z.mod_small (b2z b)) by (simpl; lia).
Qed.

Lemma crc_fold_serial data crc : 0 <= crc < 2 ^ 32 ->
  foldl lfsr_bit crc (data ≫= bits_of) = foldl CRC32Byte crc data.
Proof.
  revert crc. induction data as [|b data IH]; intros crc Hc; [done|].
  rewrite bind_cons, foldl_app, CRC32Byte_serial by lia. simpl.
  by rewrite IH by by apply CRC32Byte_range.
Qed.

(** ** Bursts *)

Lemma le_value_range w : 0 <= le_value w < 2 ^ (8 * Z.of_nat (length w)).
Proof.
  induction w as [|b w IH]; simpl; [lia|]. pose proof (b2z_range b).
  apply lxor_range; [lia| |].
  - split; [lia|]. apply Z.lt_le_trans with (2 ^ 8); [lia|]. apply Z.pow_le_mono_r; lia.
  - rewrite Z.shiftl_mul_pow2 by lia.
    replace (8 * Z.of_nat (S (length w))) with (8 * Z.of_nat (length w) + 8) by lia.
    rewrite Z.pow_add_r by lia. nia.
Qed.

Lemma le_value_inj w1 w2 : length w1 = length w2 -> le_value w1 = le_value w2 -> w1 = w2.
Proof.
  revert w2. induction w1 as [|b1 w1 IH]; intros [|b2 w2] Hlen H; try done.
  simpl in *. pose proof (b2z_range b1). pose proof (b2z_range b2).
  assert (forall b w, 0 <= b < 256 -> Z.lxor b (Z.shiftl w 8) mod 2 ^ 8 = b
          /\ Z.shiftr (Z.lxor b (Z.shiftl w 8)) 8 = w) as Hsplit.
  { intros b w Hb. split.
    - rewrite <-(Z.mod_small b (2 ^ 8)) at 2 by lia. apply Z.bits_inj'. intros i Hi.
      destruct (decide (i < 8)).
      + rewrite !Z.mod_pow2_bits_low, Z.lxor_spec, Z.shiftl_spec by lia.
        rewrite (Z.testbit_neg_r w) by lia. apply xorb_false_r.
      + by rewrite !Z.mod_pow2_bits_high by lia.
    - rewrite Z.shiftr_lxor, Z.shiftr_shiftl_l, Z.shiftr_div_pow2 by lia.
      rewrite Z.div_small by lia. by rewrite Z.shiftl_0_r. }
  destruct (Hsplit (b2z b1) (le_value w1)) as [Hb1 Hw1]; [done|].
  destruct (Hsplit (b2z b2) (le_value w2)) as [Hb2 Hw2]; [done|].
  rewrite H in Hb1, Hw1. f_equal; [apply (inj b2z); congruence|].
  apply IH; [lia|congruence].
Qed.

Lemma crc_fold_word w crc : 0 <= crc < 2 ^ 32 ->
  foldl CRC32Byte crc w = crc_shifts (8 * length w) (Z.lxor crc (le_value w)).
Proof.
  revert crc. induction w as [|b w IH]; intros crc Hc.
  { simpl. by rewrite Z.lxor_0_r. }
  simpl foldl. rewrite IH by by apply CRC32Byte_range.
  rewrite CRC32Byte_shifts by lia.
  replace (8 * length (b :: w))%nat with (8 * length w + 8)%nat by (simpl; lia).
  rewrite crc_shifts_add. simpl le_value.
  rewrite <-Z.lxor_assoc, (crc_shifts_lxor 8 _ (Z.shiftl _ _)).
  change (Z.shiftl (le_value w) 8) with (Z.shiftl (le_value w) (Z.of_nat 8)).
  by rewrite crc_shifts_shiftl.
Qed.

Lemma crc_fold_inj q c1 c2 : 0 <= c1 < 2 ^ 32 -> 0 <= c2 < 2 ^ 32 ->
  foldl CRC32Byte c1 q = foldl CRC32Byte c2 q -> c1 = c2.
Proof.
  revert c1 c2. induction q as [|b q IH]; intros c1 c2 H1 H2 H; [done|].
  pose proof (b2z_range b).
  apply IH in H; [|by apply CRC32Byte_range..].
  rewrite !CRC32Byte_shifts in H by lia.
  apply crc_shifts_inj in H; [|apply lxor_range; lia..].
  rewrite <-(Z.lxor_0_r c1), <-(Z.lxor_0_r c2), <-(Z.lxor_nilpotent (b2z b)).
  by rewrite <-!Z.lxor_assoc, H.
Qed.

Lemma CRC32_burst_inj p q w1 w2 :
  length w1 = length w2 -> (length w1 <= 4)%nat ->
  CRC32 (p ++ w1 ++ q) = CRC32 (p ++ w2 ++ q) -> w1 = w2.
Proof.
  intros Hlen H4 H. unfold CRC32 in H. rewrite !foldl_app in H.
  pose proof (crc_fold_range p 0xFFFFFFFF ltac:(lia)) as Hp.
  set (c := foldl CRC32Byte 0xFFFFFFFF p) in *.
  assert (forall x y, Z.lxor x 0xFFFFFFFF = Z.lxor y 0xFFFFFFFF -> x = y) as Hinj.
  { intros x y Hxy. rewrite <-(Z.lxor_0_r x), <-(Z.lxor_0_r y).
    by rewrite <-(Z.lxor_nilpotent 0xFFFFFFFF), <-!Z.lxor_assoc, Hxy. }
  apply Hinj, crc_fold_inj in H; [|by apply crc_fold_range..].
  rewrite !crc_fold_word in H by done. rewrite <-Hlen in H.
  assert (forall w, (length w <= 4)%nat -> 0 <= le_value w < 2 ^ 32) as Hle.
  { intros w Hw. pose proof (le_value_range w). split; [lia|].
    eapply Z.lt_le_trans; [apply H0|]. apply Z.pow_le_mono_r; lia. }
  apply crc_shifts_inj in H; [|apply lxor_range; [lia|done|apply Hle; lia]..].
  apply le_value_inj; [done|].
  rewrite <-(Z.lxor_0_l (le_value w1)), <-(Z.lxor_0_l (le_value w2)).
  by rewrite <-(Z.lxor_nilpotent c), !Z.lxor_assoc, H.
Qed.

(** ** Stored checksums *)

Lemma ReadChecksum_le32 p n q : 0 <= n < 2 ^ 32 ->
  ReadChecksum (p ++ le32 n ++ q) (zlen p) = Ret n.
Proof.
  intros Hn. unfold ReadChecksum.
  rewrite at_app_end. simpl. do 3 (rewrite at_app_add by lia; simpl).
  by rewrite get_le32_le32.
Qed.

Lemma ReadChecksum_ok buf off : 0 <= off -> off + 4 <= zlen buf ->
  exists c, ReadChecksum buf off = Ret c.
Proof.
  intros H0 H4. unfold ReadChecksum.
  destruct (at_ok buf off) as [b0 ->]; [lia|].
  destruct (at_ok buf (off + 1)) as [b1 ->]; [lia|].
  destruct (at_ok buf (off + 2)) as [b2 ->]; [lia|].
  destruct (at_ok buf (off + 3)) as [b3 ->]; [lia|]. simpl. eauto.
Qed.

Lemma ReadChecksum_zdrop buf off c :
  ReadChecksum buf off = Ret c -> 0 <= off /\ zdrop off buf = le32 c ++ zdrop (off + 4) buf.
Proof.
  unfold ReadChecksum. intros H. read_inv H. injection H as <-.
  apply at_zdrop in Hx as [H0 E0], Hx0 as [_ E1], Hx1 as [_ E2], Hx2 as [_ E3].
  rewrite le32_get. split; [done|]. rewrite E0, E1. cbn [app]. do 2 f_equal.
  replace (off + 1 + 1) with (off + 2) by lia. rewrite E2. f_equal.
  replace (off + 2 + 1) with (off + 3) by lia. rewrite E3. do 2 f_equal. lia.
Qed.

Lemma VerifyChecksum_true buf off n :
  VerifyChecksum buf off n = Ret true ->
  exists d, zlen d = n /\ 0 <= off /\ zdrop off buf = d ++ le32 (CRC32 d) ++ zdrop (off + n + 4) buf.
Proof.
  unfold VerifyChecksum. intros H. read_inv H. injection H as H. apply Z.eqb_eq in H. subst x.
  match goal with
  | H1 : ReadChecksum _ _ = _, H2 : sub _ _ _ = Ret ?d |- _ =>
      apply ReadChecksum_zdrop in H1 as [_ E1]; apply sub_zdrop in H2 as (? & Ln & E2); exists d
  end.
  split; [done|]. split; [done|]. by rewrite E2, E1.
Qed.

Lemma VerifyChecksum_ok buf off n : 0 <= off -> 0 <= n -> off + n + 4 <= zlen buf ->
  exists b, VerifyChecksum buf off n = Ret b.
Proof.
  intros. unfold VerifyChecksum. destruct (ReadChecksum_ok buf (off + n)) as [c ->]; [lia..|].
  rewrite sub_ok by lia. simpl. eauto.
Qed.

Lemma VerifyChecksum_stored p d q c : 0 <= c < 2 ^ 32 ->
  VerifyChecksum (p ++ d ++ le32 c ++ q) (zlen p) (zlen d) = Ret (c =? CRC32 d).
Proof.
  intros Hc. unfold VerifyChecksum.
  rewrite sub_app. rewrite app_assoc, <-zlen_app, ReadChecksum_le32 by done. done.
Qed.

(** ** Properties *)

(** C30: the table-driven checksum computes the bit-serial CRC-32 of every byte
    string. *)
Theorem CRC32_table_correct : forall data, CRC32 data = crc32_serial data.
Proof. intros data. unfold CRC32, crc32_serial. by rewrite crc_fold_serial. Qed.

(** a stored checksum verifies against the data it was appended to, and fails
    to verify when the data is altered inside any window of four bytes. *)
Theorem VerifyChecksum_detects_burst :
  forall p w w' q, length w' = length w -> (length w <= 4)%nat -> w' <> w ->
  let stored := p ++ w ++ q in
  VerifyChecksum (AppendChecksum stored stored) 0 (zlen stored) = Ret true /\
  VerifyChecksum (AppendChecksum (p ++ w' ++ q) stored) 0 (zlen stored) = Ret false.
Proof.
  intros p w w' q Hlen H4 Hne stored. unfold AppendChecksum.
  assert (zlen stored = zlen (p ++ w' ++ q)) as Hz by (subst stored; unfold zlen in *; rewrite !length_app; lia).
  pose proof (VerifyChecksum_stored [] stored [] _ (CRC32_range stored)) as H1.
  pose proof (VerifyChecksum_stored [] (p ++ w' ++ q) [] _ (CRC32_range stored)) as H2.
  rewrite app_nil_r, zlen_nil, app_nil_l in H1, H2.
  rewrite H1, Hz, H2, Z.eqb_refl. split; [done|]. f_equal. apply Z.eqb_neq.
  intros E. by apply CRC32_burst_inj in E.
Qed.

Lemma VerifyChecksum_detects_burst_witness :
  VerifyChecksum (AppendChecksum (str "key=va1ue") (str "key=value")) 0 9 = Ret false.
Proof.
  apply (VerifyChecksum_detects_burst (str "key=va") (str "l") (str "1") (str "ue"));
    [reflexivity | simpl; lia | discriminate].
Defined.

Example CRC32_check_value : CRC32 (str "123456789") = 0xCBF43926.
Proof. reflexivity. Qed.
