(* ===== verification/Posix.v ===== *)
(** * The operating system under the store

    The system calls that [src/common/wal.cpp] and [src/common/snapshot.cpp] make
    through their [File*] wrappers, with the behaviour POSIX documents. A file is
    its contents; [files] is what every process sees (it survives the death of the
    process), [disk] what a completed [fsync] has forced to the device. Descriptor
    numbers are not reused.

    What the system may decide is a list of [fault]s, one consumed by each call that
    can fail: short transfers, errors, and the death of the process inside the call.
    An empty plan lets every further call succeed. *)

From S2P Require Import Prelude.

Inductive fault :=
  | FOk
  | FShort (n : Z)     (* a transfer moves at most [n] bytes *)
  | FErr (e : Z)       (* the call fails and sets [errno] *)
  | FCrash (n : Z).    (* the process dies; a write has stored its first [n] bytes *)

#[export] Instance fault_eq_decision : EqDecision fault.
Proof. solve_decision. Defined.

Definition ENOENT : Z := 2.
Definition EACCES : Z := 13.
Definition EBADF : Z := 9.

Record os := MkOs {
  files : gmap bytes bytes;
  disk : gmap bytes bytes;
  fds : gmap Z (bytes * Z);      (* descriptor: path and offset *)
  next_fd : Z;
  errno : Z;
  plan : list fault
}.

Definition set_files (f : gmap bytes bytes) (o : os) : os :=
  MkOs f (disk o) (fds o) (next_fd o) (errno o) (plan o).
Definition set_disk (d : gmap bytes bytes) (o : os) : os :=
  MkOs (files o) d (fds o) (next_fd o) (errno o) (plan o).
Definition set_fds (f : gmap Z (bytes * Z)) (o : os) : os :=
  MkOs (files o) (disk o) f (next_fd o) (errno o) (plan o).
Definition set_errno (e : Z) (o : os) : os :=
  MkOs (files o) (disk o) (fds o) (next_fd o) e (plan o).
Definition set_plan (p : list fault) (o : os) : os :=
  MkOs (files o) (disk o) (fds o) (next_fd o) (errno o) p.
Definition new_fd (e : bytes * Z) (o : os) : os :=
  MkOs (files o) (disk o) (<[next_fd o := e]> (fds o)) (next_fd o + 1) (errno o) (plan o).

Definition next_fault : M os fault := fun o =>
  match plan o with
  | [] => (Ret FOk, o)
  | f :: p => (Ret f, set_plan p o)
  end.

Definition fail (e : Z) : M os Z := do! modify (set_errno e) in ret (-1).

Definition die {A} : M os A := lift Crashed.

(** [vector::reserve(n)]: an allocation is refused, or is the death of the process, when
    the system says so. *)
Definition sys_reserve (n : Z) : M os unit :=
  if decide (n <= 0) then ret tt else
  let! f := next_fault in
  match f with
  | FErr _ => throw BadAlloc
  | FCrash _ => die
  | _ => ret tt
  end.

(** [open(path, ... | (creat ? O_CREAT : 0) | (trunc ? O_TRUNC : 0))] *)
Definition sys_open (path : bytes) (creat trunc : bool) : M os Z :=
  let! f := next_fault in
  match f with
  | FErr e => fail e
  | FCrash _ => die
  | _ =>
      let! fs := gets files in
      if decide (fs !! path = None /\ creat = false) then fail ENOENT else
      do! modify (fun o => if decide (fs !! path = None \/ trunc = true)
                           then set_files (<[path := []]> fs) o else o) in
      let! fd := gets next_fd in
      do! modify (new_fd (path, 0)) in
      ret fd
  end.

Definition sys_close (fd : Z) : M os unit :=
  modify (fun o => set_fds (delete fd (fds o)) o).

Inductive whence := SEEK_SET | SEEK_CUR | SEEK_END.

Definition file_contents (o : os) (path : bytes) : bytes := default [] (files o !! path).

Definition sys_lseek (fd off : Z) (w : whence) : M os Z :=
  let! o := gets id in
  match fds o !! fd with
  | None => fail EBADF
  | Some (path, cur) =>
      let pos := match w with
                 | SEEK_SET => off
                 | SEEK_CUR => cur + off
                 | SEEK_END => zlen (file_contents o path) + off
                 end in
      do! modify (set_fds (<[fd := (path, pos)]> (fds o))) in
      ret pos
  end.

(** [read(fd, buf, count)]: the count returned and the bytes stored in [buf]. *)
Definition sys_read (fd count : Z) : M os (Z * bytes) :=
  let! f := next_fault in
  let! o := gets id in
  match fds o !! fd with
  | None => let! r := fail EBADF in ret (r, [])
  | Some (path, cur) =>
      let move n :=
        let got := ztake n (zdrop cur (file_contents o path)) in
        do! modify (set_fds (<[fd := (path, cur + zlen got)]> (fds o))) in
        ret (zlen got, got) in
      match f with
      | FErr e => let! r := fail e in ret (r, [])
      | FCrash _ => die
      | FShort n => move (Z.min n count)
      | FOk => move count
      end
  end.

(** Store [data] at [off] in a file, filling a hole before it with zero bytes. *)
Definition overwrite (off : Z) (data old : bytes) : bytes :=
  ztake off (old ++ replicate (Z.to_nat (off - zlen old)) Byte.x00)
    ++ data ++ zdrop (off + zlen data) old.

Definition sys_write (fd : Z) (data : bytes) : M os Z :=
  let! f := next_fault in
  let! o := gets id in
  match fds o !! fd with
  | None => fail EBADF
  | Some (path, cur) =>
      let store n :=
        let put := ztake n data in
        modify (fun o => set_fds (<[fd := (path, cur + zlen put)]> (fds o))
                 (set_files (<[path := overwrite cur put (file_contents o path)]> (files o)) o)) in
      match f with
      | FErr e => fail e
      | FCrash n => do! store n in die
      | FShort n => do! store n in ret (zlen (ztake n data))
      | FOk => do! store (zlen data) in ret (zlen data)
      end
  end.

Definition sys_fsync (fd : Z) : M os Z :=
  let! f := next_fault in
  let! o := gets id in
  match fds o !! fd with
  | None => fail EBADF
  | Some (path, _) =>
      match f with
      | FErr e => fail e
      | FCrash _ => die
      | _ => do! modify (set_disk (<[path := file_contents o path]> (disk o))) in ret 0
      end
  end.

Definition sys_unlink (path : bytes) : M os Z :=
  let! f := next_fault in
  let! fs := gets files in
  match f with
  | FErr e => fail e
  | FCrash _ => die
  | _ => if decide (fs !! path = None) then fail ENOENT
         else do! modify (set_files (delete path fs)) in ret 0
  end.

Definition sys_rename (old new : bytes) : M os Z :=
  let! f := next_fault in
  let! fs := gets files in
  match f with
  | FErr e => fail e
  | FCrash _ => die
  | _ => match fs !! old with
         | None => fail ENOENT
         | Some c => do! modify (set_files (<[new := c]> (delete old fs))) in ret 0
         end
  end.

(** A machine whose processes have all died: the files survive, descriptors do not. *)
Definition reboot (p : list fault) (o : os) : os :=
  MkOs (files o) (disk o) ∅ 3 0 p.

(** A system on which nothing more goes wrong. *)
Definition fault_free (o : os) : Prop := plan o = [].

(** ** What a call does when it succeeds, and all a write can do *)

Lemma next_fault_free o : fault_free o -> next_fault o = (Ret FOk, o).
Proof. unfold fault_free, next_fault. by intros ->. Qed.

Lemma sys_open_ok path creat trunc o :
  fault_free o -> files o !! path <> None \/ creat = true ->
  sys_open path creat trunc o =
    (Ret (next_fd o),
     new_fd (path, 0)
       (if decide (files o !! path = None \/ trunc = true)
        then set_files (<[path := []]> (files o)) o else o)).
Proof.
  intros Hf Hc. unfold sys_open. rewrite (bind_Ret _ _ _ _ _ (next_fault_free o Hf)).
  unfold bind, gets, modify. rewrite decide_False by (intros [??]; destruct Hc; congruence).
  by repeat case_decide.
Qed.

Lemma sys_open_missing path trunc o :
  fault_free o -> files o !! path = None ->
  sys_open path false trunc o = (Ret (-1), set_errno ENOENT o).
Proof.
  intros Hf Hn. unfold sys_open. rewrite (bind_Ret _ _ _ _ _ (next_fault_free o Hf)).
  unfold bind, gets, modify. by rewrite decide_True.
Qed.

Lemma sys_lseek_ok fd off w path cur o :
  fds o !! fd = Some (path, cur) ->
  let pos := match w with
             | SEEK_SET => off
             | SEEK_CUR => cur + off
             | SEEK_END => zlen (file_contents o path) + off
             end in
  sys_lseek fd off w o = (Ret pos, set_fds (<[fd := (path, pos)]> (fds o)) o).
Proof. intros H. unfold sys_lseek, bind, gets. simpl. by rewrite H. Qed.

Lemma sys_read_ok fd count path cur o :
  fault_free o -> fds o !! fd = Some (path, cur) ->
  let got := ztake count (zdrop cur (file_contents o path)) in
  sys_read fd count o =
    (Ret (zlen got, got), set_fds (<[fd := (path, cur + zlen got)]> (fds o)) o).
Proof.
  intros Hf H. unfold sys_read. rewrite (bind_Ret _ _ _ _ _ (next_fault_free o Hf)).
  unfold bind, gets. simpl. by rewrite H.
Qed.

Lemma overwrite_end data old : overwrite (zlen old) data old = old ++ data.
Proof.
  unfold overwrite. rewrite Z.sub_diag. simpl. rewrite app_nil_r.
  rewrite ztake_ge by lia. rewrite zdrop_ge by zlen. by rewrite app_nil_r.
Qed.

(** The effect of an appending [write] that has stored [k] bytes. *)
Definition appended (fd : Z) (path c : bytes) (data : bytes) (k : Z) (o : os) : os :=
  set_fds (<[fd := (path, zlen c + k)]> (fds o))
    (set_files (<[path := c ++ ztake k data]> (files o)) o).

Lemma sys_write_ok fd data path c o :
  fault_free o -> fds o !! fd = Some (path, zlen c) -> files o !! path = Some c ->
  sys_write fd data o = (Ret (zlen data), appended fd path c data (zlen data) o).
Proof.
  intros Hf H Hc. unfold sys_write. rewrite (bind_Ret _ _ _ _ _ (next_fault_free o Hf)).
  unfold bind, gets, modify. simpl. rewrite H. simpl. unfold appended, file_contents.
  rewrite Hc. simpl. by rewrite overwrite_end, (ztake_ge data) by lia.
Qed.

(** Whatever the plan, a write to the end of a file appends a prefix of its data: as
    much as the count it returns, nothing when it fails, and anything when it is the
    last thing the process does. *)
Lemma sys_write_cases fd data path c o :
  fds o !! fd = Some (path, zlen c) -> files o !! path = Some c ->
  exists r o' k, sys_write fd data o = (r, o') /\ 0 <= k <= zlen data /\
    files o' = <[path := c ++ ztake k data]> (files o) /\ next_fd o' = next_fd o /\
    (r = Ret k /\ fds o' = <[fd := (path, zlen c + k)]> (fds o)
     \/ r = Ret (-1) /\ k = 0 /\ fds o' = fds o
     \/ r = Crashed).
Proof.
  intros H Hc. unfold sys_write, bind, next_fault, gets, modify, fail, die, lift, ret.
  assert (<[path := c ++ ztake 0 data]> (files o) = files o) as Hid.
  { change (ztake 0 data) with (@nil byte). rewrite app_nil_r. by apply insert_id. }
  pose proof (zlen_nonneg data).
  destruct (plan o) as [|f p]; [|destruct f as [|n|e|n]]; simpl; rewrite H; simpl;
    unfold file_contents; simpl; rewrite ?Hc; simpl; rewrite ?overwrite_end;
    rewrite ?(ztake_ge data (zlen data)) by lia.
  - eexists _, _, (zlen data). rewrite (ztake_ge data (zlen data)) by lia.
    split; [done|]. split; [lia|]. auto.
  - eexists _, _, (zlen data). rewrite (ztake_ge data (zlen data)) by lia.
    split; [done|]. split; [lia|]. auto.
  - eexists _, _, (zlen (ztake n data)). split; [done|]. split; [zlen|].
    rewrite ztake_zlen_ztake. auto 10.
  - eexists _, _, 0. split; [done|]. split; [lia|]. rewrite Hid. auto 10.
  - eexists _, _, (zlen (ztake n data)). split; [done|]. split; [zlen|].
    rewrite ztake_zlen_ztake. auto 10.
Qed.

(** An [fsync] changes nothing a process can see. *)
Lemma sys_fsync_cases fd o :
  exists r o', sys_fsync fd o = (r, o') /\ ((exists n, r = Ret n) \/ r = Crashed) /\
    files o' = files o /\ fds o' = fds o /\ next_fd o' = next_fd o.
Proof.
  unfold sys_fsync, bind, next_fault, gets, modify, fail, die, lift, ret.
  destruct (plan o) as [|f p]; [|destruct f]; simpl;
    destruct (fds o !! fd) as [[]|]; simpl;
    eexists _, _; (split; [reflexivity|]); (split; [by eauto|done]).
Qed.

(** An [open] either yields the next descriptor, at the start of a file it may have
    created or emptied, or fails (or dies) without effect on files and descriptors. *)
Lemma sys_open_cases path creat trunc o :
  exists r o', sys_open path creat trunc o = (r, o') /\
    (r = Ret (next_fd o) /\
       files o' = (if decide (files o !! path = None \/ trunc = true)
                   then <[path := []]> (files o) else files o) /\
       fds o' = <[next_fd o := (path, 0)]> (fds o) /\ next_fd o' = next_fd o + 1
     \/ (r = Ret (-1) \/ r = Crashed) /\
       files o' = files o /\ fds o' = fds o /\ next_fd o' = next_fd o).
Proof.
  unfold sys_open, bind, next_fault, gets, modify, fail, die, lift, ret.
  destruct (plan o) as [|f p]; [|destruct f as [|n|e|n]]; simpl;
    try case_decide; eexists _, _; (split; [reflexivity|]); try (right; by auto);
    left; simpl; by case_decide.
Qed.

Lemma sys_unlink_cases path o :
  exists r o', sys_unlink path o = (r, o') /\ ((exists n, r = Ret n) \/ r = Crashed) /\
    (files o' = files o \/ files o' = delete path (files o)) /\
    fds o' = fds o /\ next_fd o' = next_fd o.
Proof.
  unfold sys_unlink, bind, next_fault, gets, modify, fail, die, lift, ret.
  destruct (plan o) as [|f p]; [|destruct f]; simpl; try case_decide;
    eexists _, _; (split; [reflexivity|]); (split; [by eauto|]); simpl; auto.
Qed.

Lemma sys_rename_cases old new c o :
  files o !! old = Some c ->
  exists r o', sys_rename old new o = (r, o') /\
    (r = Ret 0 /\ files o' = <[new := c]> (delete old (files o))
     \/ (r = Ret (-1) \/ r = Crashed) /\ files o' = files o) /\
    fds o' = fds o /\ next_fd o' = next_fd o.
Proof.
  intros Hc. unfold sys_rename, bind, next_fault, gets, modify, fail, die, lift, ret.
  destruct (plan o) as [|f p]; [|destruct f]; simpl; rewrite ?Hc;
    eexists _, _; (split; [reflexivity|]); simpl; auto.
Qed.

Lemma sys_unlink_ok path o :
  fault_free o ->
  exists n o', sys_unlink path o = (Ret n, o') /\ files o' = delete path (files o) /\ fault_free o'.
Proof.
  intros Hf. unfold sys_unlink. rewrite (bind_Ret _ _ _ _ _ (next_fault_free o Hf)).
  unfold bind, gets, fail, modify, bind, ret. case_decide as Hd; eexists _, _; (split; [done|]); [|done].
  split; [|done]. simpl. by rewrite delete_id.
Qed.

Lemma sys_rename_ok old new c o :
  fault_free o -> files o !! old = Some c ->
  sys_rename old new o = (Ret 0, set_files (<[new := c]> (delete old (files o))) o).
Proof.
  intros Hf Hc. unfold sys_rename. rewrite (bind_Ret _ _ _ _ _ (next_fault_free o Hf)).
  unfold bind, gets. by rewrite Hc.
Qed.

(** ** Frames *)

(** [o'] has kept the descriptors of [o] (and perhaps opened and closed others). *)
Definition fds_kept (o o' : os) : Prop :=
  next_fd o <= next_fd o' /\ forall fd, fd < next_fd o -> fds o' !! fd = fds o !! fd.

#[export] Instance fds_kept_preorder : PreOrder fds_kept.
Proof.
  split; [by split|]. intros o1 o2 o3 [H1 F1] [H2 F2]. split; [lia|].
  intros fd Hfd. rewrite F2 by lia. by apply F1.
Qed.

(** [o'] differs from [o] in the contents of [paths] at most. *)
Definition files_kept (paths : list bytes) (o o' : os) : Prop :=
  forall p, p ∉ paths -> files o' !! p = files o !! p.

#[export] Instance files_kept_preorder paths : PreOrder (files_kept paths).
Proof.
  split; [by intros o p _|]. intros o1 o2 o3 H1 H2 p Hp. by rewrite H2, H1.
Qed.
