(* ===== verification/FileIo.v ===== *)
(** * Reading a whole file

    [WAL::ReadAll] and [Snapshot::ReadSnapshot] each contain the same loop around the
    [FileRead] of their own anonymous namespace; it is stated once, over that
    wrapper. *)

From S2P Require Import Prelude Posix.

Section read_loop.
Context (FileRead : Z -> Z -> M os (Z * bytes)).

(** The loop [while (total_read < file_size)]: what has been read so far, and
    [fuel] for the remaining calls. Every call that does not end the loop stores at
    least one byte, so [file_size] calls are enough; running out of fuel is an
    outcome no caller may have. *)
Fixpoint read_loop (fuel : nat) (fd file_size : Z) (content : bytes) : M os bytes :=
  if decide (file_size <= zlen content) then ret content else
  match fuel with
  | O => lift Undefined
  | S fuel =>
      let! (n, got) := FileRead fd (file_size - zlen content) in
      if decide (n <= 0) then ret content
      else read_loop fuel fd file_size (content ++ got)
  end.

Context (HFileRead : FileRead = sys_read).

(** With no faults the loop returns the rest of the file. *)
Lemma read_loop_ok fuel fd path c o done_ :
  fault_free o -> fds o !! fd = Some (path, zlen done_) -> file_contents o path = c ->
  (exists rest, c = done_ ++ rest /\ (length rest <= fuel)%nat) ->
  read_loop fuel fd (zlen c) done_ o =
    (Ret c, set_fds (<[fd := (path, zlen c)]> (fds o)) o).
Proof.
  intros Hf Hfd Hc (rest & Hsplit & Hfuel).
  destruct (decide (rest = [])) as [->|Hne].
  { rewrite app_nil_r in Hsplit. subst done_.
    destruct fuel; simpl; rewrite decide_True by lia; unfold ret;
      rewrite insert_id by done; by destruct o. }
  destruct fuel as [|fuel]; [destruct rest; simpl in *; (done || lia)|].
  assert (0 < zlen rest) by (destruct rest; [done|zlen]).
  assert (zlen c = zlen done_ + zlen rest) as Hzc by (rewrite Hsplit; zlen).
  assert (FileRead fd (zlen c - zlen done_) o
          = (Ret (zlen rest, rest), set_fds (<[fd := (path, zlen c)]> (fds o)) o)) as Hread.
  { rewrite HFileRead, (sys_read_ok fd _ path (zlen done_)) by done.
    rewrite Hc, Hzc, Hsplit, zdrop_app_exact by done.
    by rewrite ztake_ge by lia. }
  simpl. rewrite decide_False by lia. rewrite (bind_Ret _ _ _ _ _ Hread).
  rewrite decide_False, <-Hsplit by lia.
  destruct fuel; simpl; by rewrite decide_True by lia.
Qed.
End read_loop.
