(* ===== verification/Codec.v ===== *)
(** * Self-delimiting checked records

    What the write-ahead log and the snapshot promise each other's readers about
    their record formats ([WALRecord] and [SnapshotEntry]): the interface the
    scanning loops are verified against. [decode buf off len] stands for
    [Deserialize(buf + off, len, consumed)] and returns the record and [consumed],
    which is 0 when no record was recognised. *)

From S2P Require Import Prelude.

Class RecordCodec (R : Type) := {
  encode : R -> bytes;
  decode : bytes -> Z -> Z -> res (R * Z);
  encodable : R -> Prop;
  encode_nonempty r : 0 < zlen (encode r);
  (** Decoding stays inside the bytes it was given, whatever they are. *)
  decode_safe buf off len :
    0 <= off -> 0 <= len -> off + len <= zlen buf ->
    exists r n, decode buf off len = Ret (r, n) /\ 0 <= n <= len;
  (** A record is read back, whatever surrounds it. *)
  decode_encode p r q len :
    encodable r -> zlen (encode r) <= len -> len <= zlen (encode r ++ q) ->
    decode (p ++ encode r ++ q) (zlen p) len = Ret (r, zlen (encode r));
  (** A record cut short is not recognised. *)
  decode_torn p r k q :
    encodable r -> 0 <= k < zlen (encode r) ->
    exists r0, decode (p ++ ztake k (encode r) ++ q) (zlen p) k = Ret (r0, 0);
  (** Whatever is recognised is the encoding of what is returned. *)
  decode_sound buf off len r n :
    decode buf off len = Ret (r, n) -> n <> 0 ->
    encodable r /\ n = zlen (encode r) /\ 0 <= off /\
    zdrop off buf = encode r ++ zdrop (off + n) buf
}.

Section codec.
Context {R : Type} `{RecordCodec R}.

Definition encode_all (rs : list R) : bytes := rs ≫= encode.

(** A remainder at which a scanning loop stops. *)
Definition dead_tail (t : bytes) : Prop :=
  t = [] \/ forall p, exists r0, decode (p ++ t) (zlen p) (zlen t) = Ret (r0, 0).

Lemma encode_all_app rs1 rs2 : encode_all (rs1 ++ rs2) = encode_all rs1 ++ encode_all rs2.
Proof. apply bind_app. Qed.

Lemma encode_all_cons r rs : encode_all (r :: rs) = encode r ++ encode_all rs.
Proof. done. Qed.

Lemma encode_all_snoc rs r : encode_all (rs ++ [r]) = encode_all rs ++ encode r.
Proof. rewrite encode_all_app, encode_all_cons. by rewrite app_nil_r. Qed.

Lemma encode_all_length rs : Z.of_nat (length rs) <= zlen (encode_all rs).
Proof.
  induction rs as [|r rs IH]; [done|]. rewrite encode_all_cons, zlen_app.
  pose proof (encode_nonempty r). simpl. lia.
Qed.

Lemma dead_tail_torn r k :
  encodable r -> 0 <= k < zlen (encode r) -> dead_tail (ztake k (encode r)).
Proof.
  intros Hr Hk. right. intros p. destruct (decode_torn p r k [] Hr Hk) as [r0 H0].
  exists r0. rewrite app_nil_r in H0.
  by replace (zlen (ztake k (encode r))) with k by zlen.
Qed.

(** A stream of records cut at any byte is a prefix of the records followed by a
    dead tail. *)
Lemma encode_all_cut rs n :
  Forall encodable rs -> 0 <= n ->
  exists k t, ztake n (encode_all rs) = encode_all (take k rs) ++ t /\ dead_tail t
    /\ zlen (encode_all (take k rs)) <= n
    /\ (n < zlen (encode_all rs) -> n < zlen (encode_all (take (S k) rs))).
Proof.
  intros Hrs. revert n. induction Hrs as [|r rs Hr _ IH]; intros n Hn.
  { exists 0%nat, []. split; [|split; [by (left; reflexivity)|]].
    - unfold ztake, encode_all. simpl. by rewrite take_nil.
    - unfold zlen; simpl; lia. }
  pose proof (encode_nonempty r) as Hpos.
  rewrite encode_all_cons. destruct (decide (zlen (encode r) <= n)) as [Hle|Hlt].
  - destruct (IH (n - zlen (encode r))) as (k & t & Ht & Hdead & Hlow & Hk); [lia|].
    exists (S k), t. split; [|split; [done|]].
    + change (take (S k) (r :: rs)) with (r :: take k rs).
      rewrite encode_all_cons, <-app_assoc, <-Ht.
      unfold ztake, zlen in *. rewrite take_app_ge by lia.
      replace (Z.to_nat n - length (encode r))%nat with (Z.to_nat (n - Z.of_nat (length (encode r)))) by lia. done.
    + split; [change (take (S k) (r :: rs)) with (r :: take k rs); rewrite encode_all_cons; zlen|].
      rewrite zlen_app. intros Hlt. change (take (S (S k)) (r :: rs)) with (r :: take (S k) rs).
      rewrite encode_all_cons, zlen_app. lia.
  - exists 0%nat, (ztake n (encode r)). split; [|split].
    + simpl. unfold ztake, zlen in *. rewrite take_app_le by lia. done.
    + apply dead_tail_torn; [done|lia].
    + split; [unfold zlen; simpl; lia|]. intros _. simpl take. rewrite take_0, encode_all_cons. zlen.
Qed.
End codec.
