(* ===== verification/WalRecord.v ===== *)
(** * Records of the write-ahead log: [WALRecord] of [src/common/wal.cpp]

    The binary format [CRC32(4) | op(1) | key_len(2) | key | val_len(2) | value], the
    bounds of the decoder, and the record as an instance of [RecordCodec]. *)

From S2P Require Import Prelude Crc32 Codec.

(** ** The code *)

(** [enum class OpType : uint8_t]. The decoder casts any byte into it. *)
Definition OpType : Type := byte.
Definition OP_SET : OpType := Byte.x01.
Definition OP_DEL : OpType := Byte.x02.

Record WALRecord := MkRecord {
  op : OpType;
  key : bytes;
  value : bytes
}.

#[export] Instance WALRecord_eq_decision : EqDecision WALRecord.
Proof. solve_decision. Defined.

(** [WALRecord{}] *)
Definition empty_record : WALRecord := MkRecord Byte.x00 [] [].

(** The bytes covered by the checksum. *)
Definition record_payload (op : OpType) (key_len : Z) (key : bytes)
    (val_len : Z) (value : bytes) : bytes :=
  [op] ++ le16 key_len ++ key ++ le16 val_len ++ value.

Definition WALRecord_Serialize (r : WALRecord) : bytes :=
  let key_len := u16 (zlen (key r)) in
  let val_len := u16 (zlen (value r)) in
  let data := record_payload (op r) key_len (key r) val_len (value r) in
  let result := AppendChecksum [] data in
  result ++ data.

(** [WALRecord::Deserialize(data + off, len, consumed)]: the record and [consumed]. *)
Definition WALRecord_Deserialize (data : bytes) (off len : Z) : res (WALRecord * Z) :=
  if len <? 9 then Ret (empty_record, 0) else
  let? stored_crc := ReadChecksum data off in
  let? op := at_ data (off + 4) in
  let? k0 := at_ data (off + 5) in
  let? k1 := at_ data (off + 6) in
  let key_len := get_le16 k0 k1 in
  let key_val_len_offset := 7 in
  let min_required := 4 + 1 + 2 + key_len + 2 in
  if len <? min_required then Ret (empty_record, 0) else
  let? key := sub data (off + key_val_len_offset) key_len in
  let val_len_offset := key_val_len_offset + key_len in
  let? v0 := at_ data (off + val_len_offset) in
  let? v1 := at_ data (off + val_len_offset + 1) in
  let val_len := get_le16 v0 v1 in
  let total_len := val_len_offset + 2 + val_len in
  if len <? total_len then Ret (empty_record, 0) else
  let? value := sub data (off + val_len_offset + 2) val_len in
  let data_for_crc := record_payload op key_len key val_len value in
  let calculated_crc := CRC32 data_for_crc in
  if stored_crc =? calculated_crc
  then Ret (MkRecord op key value, total_len)
  else Ret (empty_record, 0).

(** The records whose lengths fit the two-byte length fields. *)
Definition record_fits (r : WALRecord) : Prop := fits16 (key r) /\ fits16 (value r).

#[global] Arguments WALRecord_Serialize : simpl never.
#[global] Arguments WALRecord_Deserialize : simpl never.

(** ** Lemmas *)

Lemma Serialize_length r :
  zlen (WALRecord_Serialize r) = 9 + zlen (key r) + zlen (value r).
Proof. unfold WALRecord_Serialize, record_payload, AppendChecksum. zlen. Qed.

Lemma Deserialize_safe buf off len :
  0 <= off -> 0 <= len -> off + len <= zlen buf ->
  exists r n, WALRecord_Deserialize buf off len = Ret (r, n) /\ 0 <= n <= len.
Proof.
  intros Hoff Hlen Hbuf. unfold WALRecord_Deserialize.
  destruct (Z.ltb_spec len 9); [eexists _, _; split; [done|lia]|].
  destruct (ReadChecksum_ok buf off) as [c ->]; [lia..|]. simpl.
  destruct (at_ok buf (off + 4)) as [o ->]; [lia|]. simpl.
  destruct (at_ok buf (off + 5)) as [k0 ->]; [lia|]. simpl.
  destruct (at_ok buf (off + 6)) as [k1 ->]; [lia|]. cbn -[Z.add].
  pose proof (get_le16_range k0 k1). set (kl := get_le16 k0 k1) in *. clearbody kl.
  destruct (Z.ltb_spec len (4 + 1 + 2 + kl + 2)); [eexists _, _; split; [done|lia]|].
  rewrite sub_ok by lia. cbn -[Z.add].
  destruct (at_ok buf (off + (7 + kl))) as [v0 ->]; [lia|]. cbn -[Z.add].
  destruct (at_ok buf (off + (7 + kl) + 1)) as [v1 ->]; [lia|]. cbn -[Z.add].
  pose proof (get_le16_range v0 v1). set (vl := get_le16 v0 v1) in *. clearbody vl.
  destruct (Z.ltb_spec len (7 + kl + 2 + vl)); [eexists _, _; split; [done|lia]|].
  rewrite sub_ok by lia. cbn -[Z.add].
  destruct (_ =? _); eexists _, _; (split; [done|lia]).
Qed.

(** *** Decoding a frame, one lemma per stage at which the decoder can stop *)

Section frame.
Context (p : bytes) (c : Z) (o k0 k1 : byte).
Context (Hc : 0 <= c < 2 ^ 32).

Local Ltac read_at a b x :=
  rewrite (at_split _ a b x) by (try zlen; list_eq); cbn [res_bind].
Local Ltac read_header rest :=
  unfold WALRecord_Deserialize;
  match goal with |- context [?n <? 9] => destruct (Z.ltb_spec n 9); [try (lia || done)|] end;
  rewrite ReadChecksum_le32 by done; cbn [res_bind];
  read_at (p ++ le32 c) (k0 :: k1 :: rest) o;
  read_at (p ++ le32 c ++ [o]) (k1 :: rest) k0;
  read_at (p ++ le32 c ++ [o; k0]) rest k1.

Lemma Deserialize_short_key rest len :
  len < 9 + get_le16 k0 k1 ->
  WALRecord_Deserialize (p ++ le32 c ++ o :: k0 :: k1 :: rest) (zlen p) len
    = Ret (empty_record, 0).
Proof.
  intros Hlen. read_header rest.
  destruct (Z.ltb_spec len (4 + 1 + 2 + get_le16 k0 k1 + 2)); [done|lia].
Qed.

Context (k : bytes) (v0 v1 : byte) (Hk : get_le16 k0 k1 = zlen k).

Local Ltac read_key rest :=
  read_header (k ++ v0 :: v1 :: rest); rewrite Hk;
  match goal with |- context [?n <? 4 + 1 + 2 + zlen k + 2] =>
    destruct (Z.ltb_spec n (4 + 1 + 2 + zlen k + 2)); [try (lia || done)|] end;
  rewrite (sub_split _ (p ++ le32 c ++ [o; k0; k1]) k (v0 :: v1 :: rest))
    by (try zlen; list_eq); cbn [res_bind];
  read_at (p ++ le32 c ++ [o; k0; k1] ++ k) (v1 :: rest) v0;
  read_at (p ++ le32 c ++ [o; k0; k1] ++ k ++ [v0]) rest v1.

Lemma Deserialize_short_value rest len :
  len < 9 + zlen k + get_le16 v0 v1 ->
  WALRecord_Deserialize (p ++ le32 c ++ o :: k0 :: k1 :: k ++ v0 :: v1 :: rest) (zlen p) len
    = Ret (empty_record, 0).
Proof.
  intros Hlen. pose proof (zlen_nonneg k). read_key rest.
  destruct (Z.ltb_spec len (7 + zlen k + 2 + get_le16 v0 v1)); [done|lia].
Qed.

Lemma Deserialize_frame v q len :
  get_le16 v0 v1 = zlen v -> 9 + zlen k + zlen v <= len ->
  WALRecord_Deserialize (p ++ le32 c ++ o :: k0 :: k1 :: k ++ v0 :: v1 :: v ++ q) (zlen p) len =
    if c =? CRC32 (record_payload o (zlen k) k (zlen v) v)
    then Ret (MkRecord o k v, 9 + zlen k + zlen v)
    else Ret (empty_record, 0).
Proof.
  intros Hv Hlen. pose proof (zlen_nonneg k). pose proof (zlen_nonneg v).
  read_key (v ++ q). rewrite Hv.
  destruct (Z.ltb_spec len (7 + zlen k + 2 + zlen v)); [lia|].
  rewrite (sub_split _ (p ++ le32 c ++ [o; k0; k1] ++ k ++ [v0; v1]) v q)
    by (try zlen; list_eq). cbn [res_bind].
  by replace (7 + zlen k + 2 + zlen v) with (9 + zlen k + zlen v) by lia.
Qed.
End frame.

(** The encoder produces such a frame. *)
Lemma Serialize_frame r : record_fits r ->
  exists c k0 k1 v0 v1, 0 <= c < 2 ^ 32 /\
    get_le16 k0 k1 = zlen (key r) /\ get_le16 v0 v1 = zlen (value r) /\
    c = CRC32 (record_payload (op r) (zlen (key r)) (key r) (zlen (value r)) (value r)) /\
    WALRecord_Serialize r =
      le32 c ++ op r :: k0 :: k1 :: key r ++ v0 :: v1 :: value r.
Proof.
  intros [Hk Hv]. unfold fits16 in *.
  pose proof (zlen_nonneg (key r)). pose proof (zlen_nonneg (value r)).
  eexists _, _, _, _, _. split; [apply CRC32_range|].
  split; [by apply get_le16_le16|]. split; [by apply get_le16_le16|]. split; [done|].
  unfold WALRecord_Serialize, AppendChecksum, u16. rewrite !Z.mod_small by lia. done.
Qed.

Lemma Deserialize_Serialize p r q len :
  record_fits r -> zlen (WALRecord_Serialize r) <= len ->
  WALRecord_Deserialize (p ++ WALRecord_Serialize r ++ q) (zlen p) len =
    Ret (r, zlen (WALRecord_Serialize r)).
Proof.
  intros Hr Hlen. rewrite Serialize_length in *.
  destruct (Serialize_frame r Hr) as (c & k0 & k1 & v0 & v1 & Hc & Hk & Hv & Ec & ->).
  rewrite <-app_assoc. cbn [app]. rewrite <-app_assoc. cbn [app].
  rewrite Deserialize_frame by done. rewrite Ec, Z.eqb_refl. by destruct r.
Qed.

Lemma Deserialize_torn p r n q :
  record_fits r -> 0 <= n < zlen (WALRecord_Serialize r) ->
  WALRecord_Deserialize (p ++ ztake n (WALRecord_Serialize r) ++ q) (zlen p) n =
    Ret (empty_record, 0).
Proof.
  intros Hr Hn. rewrite Serialize_length in Hn.
  destruct (Serialize_frame r Hr) as (c & k0 & k1 & v0 & v1 & Hc & Hk & Hv & _ & ->).
  destruct (Z.ltb_spec n 9) as [H9|H9].
  { unfold WALRecord_Deserialize. by destruct (Z.ltb_spec n 9); [|lia]. }
  destruct (decide (n < 9 + zlen (key r))) as [Hsk|Hsk].
  - set (rest := key r ++ _).
    assert (ztake n (le32 c ++ op r :: k0 :: k1 :: rest)
            = le32 c ++ op r :: k0 :: k1 :: ztake (n - 7) rest) as ->.
    { unfold ztake. replace (Z.to_nat n) with (S (S (S (S (S (S (S (Z.to_nat (n - 7)))))))))%nat by lia.
      done. }
    rewrite <-app_assoc. cbn [app]. apply Deserialize_short_key; [done|lia].
  - assert (ztake n (le32 c ++ op r :: k0 :: k1 :: key r ++ v0 :: v1 :: value r)
            = le32 c ++ op r :: k0 :: k1 :: key r ++ v0 :: v1 ::
                ztake (n - 9 - zlen (key r)) (value r)) as ->.
    { unfold ztake, zlen in *.
      replace (Z.to_nat n) with
        (S (S (S (S (S (S (S (length (key r) + S (S (Z.to_nat (n - 9 - Z.of_nat (length (key r)))))))))))))%nat by lia.
      cbn -[Z.sub]. do 7 f_equal. rewrite take_app_add. done. }
    rewrite <-app_assoc. cbn [app]. rewrite <-app_assoc. cbn [app].
    apply Deserialize_short_value; [done..|lia].
Qed.

(** Only what the encoder writes is recognised. *)
Lemma Deserialize_sound buf off len r n :
  WALRecord_Deserialize buf off len = Ret (r, n) -> n <> 0 ->
  record_fits r /\ n = zlen (WALRecord_Serialize r) /\ 0 <= off /\
  zdrop off buf = WALRecord_Serialize r ++ zdrop (off + n) buf.
Proof.
  unfold WALRecord_Deserialize. intros H Hn. read_inv H.
  destruct (Z.eqb_spec x (CRC32 (record_payload x0 (get_le16 x1 x2) x3 (get_le16 x4 x5) x6)))
    as [Ecrc|]; [|congruence].
  injection H as <- <-.
  apply ReadChecksum_zdrop in Hx as [Hoff E0]. apply at_zdrop in Hx0 as [_ E1].
  apply at_zdrop in Hx1 as [_ E2], Hx2 as [_ E3], Hx4 as [_ E5], Hx5 as [_ E6].
  apply sub_zdrop in Hx3 as (_ & Lk & E4), Hx6 as (_ & Lv & E7).
  pose proof (get_le16_range x1 x2). pose proof (get_le16_range x4 x5).
  split; [by split; unfold fits16; simpl; lia|]. rewrite Serialize_length. cbn [op key value].
  split; [lia|]. split; [done|].
  unfold WALRecord_Serialize, AppendChecksum, u16. cbn [op key value]. rewrite !Z.mod_small by lia.
  rewrite Lk, Lv, <-Ecrc. unfold record_payload. rewrite !le16_get.
  rewrite E0, E1. replace (off + 4 + 1) with (off + 5) by lia. rewrite E2.
  replace (off + 5 + 1) with (off + 6) by lia. rewrite E3.
  replace (off + 6 + 1) with (off + 7) by lia. rewrite E4.
  replace (off + 7 + get_le16 x1 x2) with (off + (7 + get_le16 x1 x2)) by lia. rewrite E5, E6.
  replace (off + (7 + get_le16 x1 x2) + 1 + 1) with (off + (7 + get_le16 x1 x2) + 2) by lia.
  rewrite E7.
  replace (off + (7 + get_le16 x1 x2 + 2 + get_le16 x4 x5))
    with (off + (7 + get_le16 x1 x2) + 2 + get_le16 x4 x5) by lia. list_eq.
Qed.

#[export] Program Instance WALRecord_codec : RecordCodec WALRecord := {|
  encode := WALRecord_Serialize;
  decode := WALRecord_Deserialize;
  encodable := record_fits;
|}.
Next Obligation. intros r. rewrite Serialize_length. zlen. Qed.
Next Obligation. exact Deserialize_safe. Qed.
Next Obligation. intros. by apply Deserialize_Serialize. Qed.
Next Obligation. intros. eexists. by apply Deserialize_torn. Qed.
Next Obligation. intros. by eapply Deserialize_sound. Qed.

Lemma torn_record_dead r k :
  record_fits r -> 0 <= k < zlen (WALRecord_Serialize r) ->
  dead_tail (R := WALRecord) (ztake k (WALRecord_Serialize r)).
Proof. exact (dead_tail_torn r k). Qed.

Lemma log_cut (rs : list WALRecord) n :
  Forall record_fits rs -> 0 <= n ->
  exists k t, ztake n (encode_all rs) = encode_all (take k rs) ++ t /\
    dead_tail (R := WALRecord) t /\ zlen (encode_all (take k rs)) <= n /\
    (n < zlen (encode_all rs) -> n < zlen (encode_all (take (S k) rs))).
Proof. exact (encode_all_cut rs n). Qed.
