(* ===== verification/Wal.v ===== *)
(** * The write-ahead log: class [WAL] of [src/common/wal.cpp]

    The singleton's fields, each of its methods over the operating system of [Posix],
    and the scanning loop of [ReadAll]. The methods run under [mutex_]; the threads
    that compete for it are outside this file, so here a call is one transition. *)

From S2P Require Import Prelude Posix FileIo Codec WalRecord.

(** ** State *)

Inductive FsyncPolicy := ALWAYS | EVERYSEC | NO.

#[export] Instance FsyncPolicy_eq_decision : EqDecision FsyncPolicy.
Proof. solve_decision. Defined.

Record WALConfig := MkConfig {
  policy : FsyncPolicy;
  sync_interval_ms : Z
}.

(** [WALConfig{}] *)
Definition default_config : WALConfig := MkConfig EVERYSEC 1000.

Record WAL := MkWAL {
  config_ : WALConfig;
  filepath_ : bytes;
  fd_ : Z;
  write_pos_ : Z;
  is_open_ : bool;
  enabled_ : bool;
  max_retries_ : nat;
  sync_thread_ : bool;      (* [sync_thread_.joinable()] *)
  running_ : bool
}.

(** [WAL::WAL()] *)
Definition WAL_init : WAL :=
  MkWAL default_config [] (-1) 0 false false 3 false false.

Definition set_config_ c w := MkWAL c (filepath_ w) (fd_ w) (write_pos_ w) (is_open_ w)
  (enabled_ w) (max_retries_ w) (sync_thread_ w) (running_ w).
Definition set_filepath_ p w := MkWAL (config_ w) p (fd_ w) (write_pos_ w) (is_open_ w)
  (enabled_ w) (max_retries_ w) (sync_thread_ w) (running_ w).
Definition set_fd_ fd w := MkWAL (config_ w) (filepath_ w) fd (write_pos_ w) (is_open_ w)
  (enabled_ w) (max_retries_ w) (sync_thread_ w) (running_ w).
Definition set_write_pos_ p w := MkWAL (config_ w) (filepath_ w) (fd_ w) p (is_open_ w)
  (enabled_ w) (max_retries_ w) (sync_thread_ w) (running_ w).
Definition set_is_open_ b w := MkWAL (config_ w) (filepath_ w) (fd_ w) (write_pos_ w) b
  (enabled_ w) (max_retries_ w) (sync_thread_ w) (running_ w).
Definition set_enabled_ b w := MkWAL (config_ w) (filepath_ w) (fd_ w) (write_pos_ w)
  (is_open_ w) b (max_retries_ w) (sync_thread_ w) (running_ w).
Definition set_sync_thread_ b w := MkWAL (config_ w) (filepath_ w) (fd_ w) (write_pos_ w)
  (is_open_ w) (enabled_ w) (max_retries_ w) b (running_ w).
Definition set_running_ b w := MkWAL (config_ w) (filepath_ w) (fd_ w) (write_pos_ w)
  (is_open_ w) (enabled_ w) (max_retries_ w) (sync_thread_ w) b.

(** The log together with the system it writes to. *)
Record wal_os := MkWalOs { the_wal : WAL; the_os : os }.

Definition on_wal (f : WAL -> WAL) : M wal_os unit :=
  modify (fun s => MkWalOs (f (the_wal s)) (the_os s)).
Definition on_os {A} (m : M os A) : M wal_os A :=
  zoom the_os (fun o s => MkWalOs (the_wal s) o) m.
Definition wal_get {A} (f : WAL -> A) : M wal_os A := gets (fun s => f (the_wal s)).

(** ** The file wrappers of the anonymous namespace *)

Definition FileOpenReadWrite (path : bytes) : M os Z := sys_open path true false.
Definition FileOpenTruncate (path : bytes) : M os Z := sys_open path true true.
Definition FileRead (fd count : Z) : M os (Z * bytes) := sys_read fd count.
Definition FileWrite (fd : Z) (buf : bytes) : M os Z := sys_write fd buf.
Definition FileClose (fd : Z) : M os unit := sys_close fd.
Definition FileSync (fd : Z) : M os unit := do! sys_fsync fd in ret tt.

(** ** Methods *)

Definition CloseFD : M wal_os unit :=
  let! fd := wal_get fd_ in
  if decide (0 <= fd) then
    do! on_os (FileClose fd) in
    on_wal (set_fd_ (-1))
  else ret tt.

Definition Sync : M wal_os unit :=
  let! w := wal_get id in
  if negb (enabled_ w) || (fd_ w <? 0) then ret tt
  else on_os (FileSync (fd_ w)).

(** The loop of [TryOpen], [n] attempts left. *)
Fixpoint TryOpen_loop (n : nat) : M wal_os bool :=
  match n with
  | O => do! on_wal (set_is_open_ false) in ret false
  | S n =>
      let! path := wal_get filepath_ in
      let! fd := on_os (FileOpenReadWrite path) in
      do! on_wal (set_fd_ fd) in
      if decide (0 <= fd) then
        let! pos := on_os (sys_lseek fd 0 SEEK_END) in
        do! on_wal (set_write_pos_ pos) in
        do! (if decide (pos = -1) then on_wal (set_write_pos_ 0) else ret tt) in
        do! on_wal (set_is_open_ true) in
        ret true
      else
        let! e := on_os (gets errno) in
        if decide (e <> ENOENT /\ e <> EACCES)
        then do! on_wal (set_is_open_ false) in ret false
        else TryOpen_loop n
  end.

Definition TryOpen : M wal_os bool :=
  let! n := wal_get max_retries_ in TryOpen_loop n.

(** Joining the sync thread: it has left its loop when [join] returns. *)
Definition join_sync_thread : M wal_os unit :=
  let! j := wal_get sync_thread_ in
  if j then on_wal (set_sync_thread_ false) else ret tt.

Definition Init (filepath : bytes) (config : WALConfig) : M wal_os unit :=
  let! open := wal_get is_open_ in
  do! (if open then
         do! on_wal (set_running_ false) in
         do! join_sync_thread in
         do! Sync in
         do! CloseFD in
         on_wal (set_is_open_ false)
       else ret tt) in
  do! on_wal (set_config_ config) in
  do! on_wal (set_filepath_ filepath) in
  let! ok := TryOpen in
  do! on_wal (set_enabled_ ok) in
  if ok && bool_decide (policy config = EVERYSEC) then
    do! on_wal (set_running_ true) in
    on_wal (set_sync_thread_ true)
  else ret tt.

Definition Shutdown : M wal_os unit :=
  do! on_wal (set_running_ false) in
  do! join_sync_thread in
  let! open := wal_get is_open_ in
  do! (if open then
         do! Sync in
         do! CloseFD in
         on_wal (set_is_open_ false)
       else ret tt) in
  on_wal (set_enabled_ false).

Definition WriteRecord (record : WALRecord) : M wal_os unit :=
  let data := WALRecord_Serialize record in
  let! fd := wal_get fd_ in
  let! n := on_os (FileWrite fd data) in
  if decide (n <> zlen data) then throw RuntimeError
  else on_wal (fun w => set_write_pos_ (write_pos_ w + n) w).

Definition Append (record : WALRecord) : M wal_os unit :=
  let! enabled := wal_get enabled_ in
  if negb enabled then ret tt else
  do! WriteRecord record in
  let! c := wal_get config_ in
  if decide (policy c = ALWAYS) then Sync else ret tt.

Definition AppendSet (key value : bytes) : M wal_os unit :=
  Append (MkRecord OP_SET key value).

Definition AppendDel (key : bytes) : M wal_os unit :=
  Append (MkRecord OP_DEL key []).

(** The loop [while (offset < content.size())] around [Deserialize]. *)
Fixpoint parse_records (fuel : nat) (content : bytes) (offset : Z) : res (list WALRecord) :=
  if decide (zlen content <= offset) then Ret [] else
  match fuel with
  | O => Undefined
  | S fuel =>
      let? (record, consumed) :=
        WALRecord_Deserialize content offset (zlen content - offset) in
      if decide (consumed = 0) then Ret []
      else
        let? records := parse_records fuel content (offset + consumed) in
        Ret (record :: records)
  end.

Definition ReadAll : M wal_os (list WALRecord) :=
  let! w := wal_get id in
  if negb (is_open_ w) then ret [] else
  let! file_size := on_os (sys_lseek (fd_ w) 0 SEEK_END) in
  if decide (file_size <= 0) then ret [] else
  do! on_os (sys_lseek (fd_ w) 0 SEEK_SET) in
  let! content := on_os (read_loop FileRead (Z.to_nat file_size) (fd_ w) file_size []) in
  lift (parse_records (length content) content 0).

Definition ClearWithoutLock : M wal_os unit :=
  let! w := wal_get id in
  if negb (enabled_ w) then ret tt else
  do! CloseFD in
  let! fd := on_os (FileOpenTruncate (filepath_ w)) in
  do! on_wal (set_fd_ fd) in
  if decide (fd < 0) then throw RuntimeError
  else on_wal (set_write_pos_ 0).

Definition Clear : M wal_os unit := ClearWithoutLock.

Definition GetFilepath : M wal_os bytes := wal_get filepath_.

Definition GetFileSize : M wal_os Z :=
  let! w := wal_get id in
  if negb (is_open_ w) || (fd_ w <? 0) then ret 0 else
  let! cur := on_os (sys_lseek (fd_ w) 0 SEEK_CUR) in
  let! end_ := on_os (sys_lseek (fd_ w) 0 SEEK_END) in
  do! on_os (sys_lseek (fd_ w) cur SEEK_SET) in
  ret (u64 end_).

Definition IsEnabled : M wal_os bool := wal_get enabled_.

Definition GetPolicy : M wal_os FsyncPolicy := wal_get (fun w => policy (config_ w)).

(** [WAL::~WAL()] *)
Definition WAL_destroy : M wal_os unit :=
  do! on_wal (set_running_ false) in
  do! join_sync_thread in
  let! open := wal_get is_open_ in
  if open then do! Sync in CloseFD else ret tt.

(** ** The log file while the log is enabled

    [wal_ready path c w o]: the log is open on [path], whose contents are [c], and
    positioned at the end. *)
Record wal_ready (path c : bytes) (w : WAL) (o : os) : Prop := {
  wr_enabled : enabled_ w = true;
  wr_open : is_open_ w = true;
  wr_path : filepath_ w = path;
  wr_fd : 0 <= fd_ w < next_fd o;
  wr_pos : write_pos_ w = zlen c;
  wr_ofd : fds o !! fd_ w = Some (path, zlen c);
  wr_file : files o !! path = Some c
}.

(** ** The scanning loop *)

Lemma parse_records_total fuel content offset :
  0 <= offset -> zlen content <= offset + Z.of_nat fuel ->
  exists rs, parse_records fuel content offset = Ret rs.
Proof.
  revert offset. induction fuel as [|fuel IH]; intros offset H0 Hf; simpl; case_decide;
    [eauto|lia|eauto|].
  destruct (Deserialize_safe content offset (zlen content - offset)) as (r & n & -> & Hn); [lia..|].
  simpl. case_decide; [eauto|]. destruct (IH (offset + n)) as [rs ->]; [lia..|]. simpl. eauto.
Qed.

Lemma parse_records_encode_all rs : forall fuel p t,
  Forall record_fits rs -> dead_tail t ->
  zlen (encode_all rs ++ t) <= Z.of_nat fuel ->
  parse_records fuel (p ++ encode_all rs ++ t) (zlen p) = Ret rs.
Proof.
  induction rs as [|r rs IH]; intros fuel p t Hrs Ht Hf.
  - change (encode_all [] ++ t) with t in *. destruct Ht as [->|Ht].
    { rewrite app_nil_r. destruct fuel; simpl; by rewrite decide_True by lia. }
    destruct t as [|b t]; [rewrite app_nil_r; destruct fuel; simpl; by rewrite decide_True by lia|].
    destruct fuel as [|fuel]; [zlen|]. simpl. rewrite decide_False by zlen.
    destruct (Ht p) as [r0 Hr0]. simpl in Hr0.
    replace (zlen (p ++ b :: t) - zlen p) with (zlen (b :: t)) by zlen.
    rewrite Hr0. done.
  - inversion Hrs; subst. rewrite encode_all_cons, <-app_assoc in *.
    pose proof (encode_nonempty r) as Hpos. simpl in Hpos.
    change (encode r) with (WALRecord_Serialize r) in *.
    destruct fuel as [|fuel]; [zlen|]. cbn [parse_records]. rewrite decide_False by zlen.
    rewrite Deserialize_Serialize by (done || zlen). cbn [res_bind]. rewrite decide_False by lia.
    rewrite app_assoc, <-zlen_app, IH; [done..|]. zlen.
Qed.

(** Whatever the bytes are, what is read from them is a prefix of complete records, and
    reading stops at the end or where no record is recognised. *)
Lemma parse_records_sound fuel : forall content offset rs,
  0 <= offset -> parse_records fuel content offset = Ret rs ->
  Forall record_fits rs /\ exists rest, zdrop offset content = encode_all rs ++ rest /\
    (rest = [] \/ exists r0, WALRecord_Deserialize content (offset + zlen (encode_all rs))
                    (zlen content - (offset + zlen (encode_all rs))) = Ret (r0, 0)).
Proof.
  induction fuel as [|fuel IH]; intros content offset rs H0; simpl.
  1,2: case_decide as Hend; [intros [= <-]; split; [done|]; exists []; split; [by apply zdrop_ge|by left]|].
  { done. }
  intros H. apply res_bind_Ret in H as ([r n] & Hr & H).
  case_decide as Hn.
  - injection H as <-. split; [done|]. eexists. split; [reflexivity|]. right. exists r. subst n.
    by rewrite Z.add_0_r.
  - apply res_bind_Ret in H as (rs' & Hrs & H). injection H as <-.
    destruct (Deserialize_sound _ _ _ _ _ Hr Hn) as (Hfit & Hlen & _ & Hsplit).
    pose proof (zlen_nonneg (WALRecord_Serialize r)).
    destruct (IH content (offset + n) rs' ltac:(lia) Hrs) as (Hfits & rest & Hrest & Hend').
    split; [by constructor|]. exists rest. rewrite encode_all_cons, <-app_assoc.
    change (encode r) with (WALRecord_Serialize r). rewrite Hsplit, Hrest. split; [done|].
    rewrite zlen_app, <-Hlen, Z.add_assoc. exact Hend'.
Qed.

(** What [ReadAll] makes of a file. *)
Definition log_records (content : bytes) : list WALRecord :=
  match parse_records (length content) content 0 with Ret rs => rs | _ => [] end.

Lemma log_records_parse content :
  parse_records (length content) content 0 = Ret (log_records content).
Proof.
  unfold log_records.
  by destruct (parse_records_total (length content) content 0) as [rs ->]; [unfold zlen; lia..|].
Qed.

Lemma log_records_encode_all rs t :
  Forall record_fits rs -> dead_tail t -> log_records (encode_all rs ++ t) = rs.
Proof.
  intros Hrs Ht. unfold log_records.
  pose proof (parse_records_encode_all rs (length (encode_all rs ++ t)) [] t Hrs Ht) as H.
  rewrite app_nil_l, zlen_nil in H. rewrite H; [done|]. unfold zlen. lia.
Qed.

(** ** Methods on a ready log *)

(** Run the state monad one operation at a time. *)
Ltac wal_unfold :=
  unfold wal_get, on_wal, on_os, zoom, gets, modify, ret, throw, lift in *.

Lemma CloseFD_ready path c w o :
  wal_ready path c w o ->
  CloseFD (MkWalOs w o) =
    (Ret tt, MkWalOs (set_fd_ (-1) w) (set_fds (delete (fd_ w) (fds o)) o)).
Proof.
  intros Hw. unfold CloseFD, bind. wal_unfold. simpl.
  by rewrite decide_True by apply Hw.
Qed.

Lemma Sync_cases w o :
  exists r o', Sync (MkWalOs w o) = (r, MkWalOs w o') /\ (r = Ret tt \/ r = Crashed) /\
    files o' = files o /\ fds o' = fds o /\ next_fd o' = next_fd o.
Proof.
  unfold Sync, bind. wal_unfold. simpl. unfold FileSync, bind.
  destruct (negb (enabled_ w) || _); [eexists _, _; (split; [reflexivity|]); auto|].
  simpl. destruct (sys_fsync_cases (fd_ w) o) as (r & o' & -> & Hr & ?).
  destruct Hr as [[n ->]| ->]; eexists _, _; (split; [reflexivity|]); auto.
Qed.

Lemma Sync_ok path c w o :
  wal_ready path c w o -> fault_free o ->
  Sync (MkWalOs w o) = (Ret tt, MkWalOs w (set_disk (<[path := c]> (disk o)) o)).
Proof.
  intros [Hen _ _ Hfd _ Hofd Hfile] Hf. unfold Sync, bind. wal_unfold. simpl.
  rewrite Hen. destruct (Z.ltb_spec (fd_ w) 0); [lia|]. simpl.
  unfold FileSync, sys_fsync, bind. rewrite next_fault_free by done. simpl. rewrite Hofd.
  unfold file_contents. by rewrite Hfile.
Qed.

(** The log and the system after a complete record has been written. *)
Definition record_written (path c : bytes) (r : WALRecord) (w : WAL) (o : os) : wal_os :=
  MkWalOs (set_write_pos_ (write_pos_ w + zlen (WALRecord_Serialize r)) w)
    (appended (fd_ w) path c (WALRecord_Serialize r) (zlen (WALRecord_Serialize r)) o).

Lemma record_written_ready path c r w o :
  wal_ready path c w o ->
  wal_ready path (c ++ WALRecord_Serialize r)
    (the_wal (record_written path c r w o)) (the_os (record_written path c r w o)).
Proof.
  intros [Hen Hop Hpath Hfd Hpos Hofd Hfile]. unfold record_written, appended.
  split; simpl; try done.
  - rewrite Hpos. zlen.
  - rewrite lookup_insert_eq. do 2 f_equal. zlen.
  - by rewrite lookup_insert_eq, ztake_ge by lia.
Qed.

Lemma WriteRecord_ok path c r w o :
  wal_ready path c w o -> fault_free o ->
  WriteRecord r (MkWalOs w o) = (Ret tt, record_written path c r w o).
Proof.
  intros [Hen Hop Hpath Hfd Hpos Hofd Hfile] Hf.
  unfold WriteRecord, bind. wal_unfold. simpl. unfold FileWrite.
  rewrite (sys_write_ok _ _ path c) by done. by rewrite decide_False by lia.
Qed.

Lemma Append_ok path c r w o :
  wal_ready path c w o -> fault_free o ->
  exists w' o', Append r (MkWalOs w o) = (Ret tt, MkWalOs w' o') /\
    wal_ready path (c ++ WALRecord_Serialize r) w' o' /\ fault_free o' /\
    files o' = <[path := c ++ WALRecord_Serialize r]> (files o) /\
    config_ w' = config_ w /\ next_fd o' = next_fd o /\
    (policy (config_ w) = ALWAYS -> disk o' !! path = Some (c ++ WALRecord_Serialize r)).
Proof.
  intros Hw Hf. unfold Append. unfold bind at 1. unfold wal_get, gets. simpl.
  rewrite (wr_enabled _ _ _ _ Hw). simpl.
  rewrite (bind_Ret _ _ _ _ _ (WriteRecord_ok path c r w o Hw Hf)).
  pose proof (record_written_ready path c r w o Hw) as Hw'.
  assert (fault_free (the_os (record_written path c r w o))) as Hf' by done.
  assert (files (the_os (record_written path c r w o))
          = <[path := c ++ WALRecord_Serialize r]> (files o)) as Hfiles.
  { simpl. by rewrite ztake_ge by lia. }
  assert (config_ (the_wal (record_written path c r w o)) = config_ w) as Hcfg by done.
  assert (next_fd (the_os (record_written path c r w o)) = next_fd o) as Hnext by done.
  destruct (record_written path c r w o) as [w' o']. simpl in *.
  unfold bind. simpl. rewrite Hcfg. case_decide as Hp.
  - rewrite (Sync_ok _ _ _ _ Hw' Hf'). eexists _, _. split; [done|].
    split; [by destruct Hw'; split|]. split; [done|]. split; [done|]. split; [done|].
    split; [done|]. intros _. simpl. by rewrite lookup_insert_eq.
  - eexists _, _. split; [done|]. naive_solver.
Qed.

(** Whatever the system does, an append leaves a prefix of the new record after the
    old contents, and the whole of it when it returns. *)
Lemma Append_cases path c r w o :
  wal_ready path c w o ->
  exists res w' o' k, Append r (MkWalOs w o) = (res, MkWalOs w' o') /\
    0 <= k <= zlen (WALRecord_Serialize r) /\
    files o' = <[path := c ++ ztake k (WALRecord_Serialize r)]> (files o) /\
    (res = Ret tt /\ k = zlen (WALRecord_Serialize r) /\
       wal_ready path (c ++ WALRecord_Serialize r) w' o'
     \/ res = Throw RuntimeError \/ res = Crashed).
Proof.
  intros Hw. pose proof Hw as [Hen Hop Hpath Hfd Hpos Hofd Hfile].
  unfold Append. unfold bind at 1. unfold wal_get, gets. simpl. rewrite Hen. simpl.
  unfold WriteRecord, bind. wal_unfold. simpl. unfold FileWrite.
  destruct (sys_write_cases (fd_ w) (WALRecord_Serialize r) path c o Hofd Hfile)
    as (res & o' & k & -> & Hk & Hfiles & Hnext & Hcase).
  destruct Hcase as [(-> & Hfds)|[(-> & -> & _)| ->]].
  - case_decide as Hn; [exists (Throw RuntimeError), w, o', k; split; [done|]; auto|].
    assert (k = zlen (WALRecord_Serialize r)) as -> by lia.
    cbn [fst snd the_wal the_os].
    set (w' := set_write_pos_ (write_pos_ w + zlen (WALRecord_Serialize r)) w).
    assert (wal_ready path (c ++ WALRecord_Serialize r) w' o') as Hw'.
    { split; simpl; try done; [lia|rewrite Hpos; zlen| |].
      - rewrite Hfds, lookup_insert_eq. do 2 f_equal. zlen.
      - by rewrite Hfiles, lookup_insert_eq, ztake_ge by lia. }
    simpl. case_decide.
    + destruct (Sync_cases w' o') as (rs & o'' & -> & Hrs & Hf2 & Hfds2 & Hn2).
      exists rs, w', o'', (zlen (WALRecord_Serialize r)). rewrite Hf2.
      split; [done|]. split; [lia|]. split; [done|].
      destruct Hrs as [-> | ->]; [left|by auto].
      split; [done|]. split; [done|]. destruct Hw'. by split; rewrite ?Hn2, ?Hfds2, ?Hf2.
    + exists (Ret tt), w', o', (zlen (WALRecord_Serialize r)).
      split; [done|]. split; [lia|]. split; [done|]. by left.
  - pose proof (Serialize_length r). rewrite decide_True by zlen. eexists _, w, o', 0. split; [done|]. auto.
  - eexists _, w, o', k. split; [done|]. auto.
Qed.

(** ** Opening *)

(** The system after a successful opening for appending. *)
Definition opened_os (path : bytes) (o : os) : os :=
  let c := file_contents o path in
  MkOs (<[path := c]> (files o)) (disk o) (<[next_fd o := (path, zlen c)]> (fds o))
    (next_fd o + 1) (errno o) (plan o).

Definition opened_wal (path : bytes) (cfg : WALConfig) (w : WAL) (o : os) : WAL :=
  let sync := bool_decide (policy cfg = EVERYSEC) in
  MkWAL cfg path (next_fd o) (zlen (file_contents o path)) true true (max_retries_ w)
    (sync_thread_ w || sync) (running_ w || sync).

Lemma TryOpen_loop_ok path n w o :
  filepath_ w = path -> 0 <= next_fd o -> fault_free o ->
  TryOpen_loop (S n) (MkWalOs w o) =
    (Ret true,
     MkWalOs (set_is_open_ true (set_write_pos_ (zlen (file_contents o path))
                (set_fd_ (next_fd o) w))) (opened_os path o)).
Proof.
  intros Hp Hn Hf. cbn [TryOpen_loop]. unfold bind. wal_unfold. simpl. rewrite Hp.
  unfold FileOpenReadWrite. rewrite sys_open_ok by auto. rewrite decide_True by done.
  set (o1 := new_fd _ _).
  assert (fds o1 !! next_fd o = Some (path, 0)) as Hfd1.
  { subst o1. simpl. case_decide; simpl; apply lookup_insert_eq. }
  cbn [the_os the_wal].
  rewrite (sys_lseek_ok (next_fd o) 0 SEEK_END path 0 o1 Hfd1). rewrite Z.add_0_r.
  assert (file_contents o1 path = file_contents o path) as Hc.
  { subst o1. unfold file_contents. simpl. case_decide as Hd; simpl; [|done].
    rewrite lookup_insert_eq. destruct Hd as [->|]; done. }
  rewrite Hc. pose proof (zlen_nonneg (file_contents o path)).
  rewrite decide_False by lia. cbn [the_os the_wal]. do 2 f_equal.
  subst o1. unfold opened_os, set_fds, new_fd, file_contents. simpl.
  case_decide as Hd; simpl; f_equal; rewrite ?insert_insert_eq; try done.
  - destruct Hd as [Hd|]; [by rewrite Hd|done].
  - destruct (files o !! path) eqn:E; [simpl; by rewrite insert_id|naive_solver].
Qed.

(** Initialising a closed log opens the file, creating it if it does not exist, and
    moves to its end. *)
Lemma Init_ok path cfg w o :
  is_open_ w = false -> (0 < max_retries_ w)%nat -> 0 <= next_fd o -> fault_free o ->
  Init path cfg (MkWalOs w o) = (Ret tt, MkWalOs (opened_wal path cfg w o) (opened_os path o)).
Proof.
  intros Hop Hr Hnext Hf. unfold Init, TryOpen. unfold bind at 1 2. wal_unfold. simpl. rewrite Hop.
  unfold bind at 1 2 3. simpl. destruct (max_retries_ w) as [|n] eqn:En; [lia|].
  unfold bind. simpl max_retries_. rewrite En, (TryOpen_loop_ok path) by done.
  unfold opened_wal. simpl. case_bool_decide; simpl.
  - by rewrite !orb_true_r.
  - by rewrite !orb_false_r.
Qed.

Lemma opened_ready path cfg w o :
  0 <= next_fd o ->
  wal_ready path (file_contents o path) (opened_wal path cfg w o) (opened_os path o).
Proof. intros. split; simpl; try done; [lia|apply lookup_insert_eq..]. Qed.

(** ** Reading and clearing *)

Lemma ReadAll_ok path c w o :
  wal_ready path c w o -> fault_free o ->
  ReadAll (MkWalOs w o) = (Ret (log_records c), MkWalOs w o).
Proof.
  intros [Hen Hop Hpath Hfd Hpos Hofd Hfile] Hf. unfold ReadAll.
  unfold bind at 1. wal_unfold. simpl. rewrite Hop. simpl. unfold bind.
  rewrite (sys_lseek_ok _ _ _ _ _ _ Hofd). rewrite Z.add_0_r.
  assert (file_contents o path = c) as Hc by (unfold file_contents; by rewrite Hfile).
  rewrite Hc.
  assert (set_fds (<[fd_ w := (path, zlen c)]> (fds o)) o = o) as ->.
  { rewrite insert_id by done. by destruct o. }
  case_decide as Hz.
  { destruct c; [done|zlen]. }
  cbn [the_os the_wal]. rewrite (sys_lseek_ok _ _ _ _ _ _ Hofd). cbn [the_os the_wal].
  rewrite (read_loop_ok FileRead eq_refl _ _ path c); simpl; [|done|by rewrite lookup_insert_eq|done|].
  - rewrite log_records_parse, insert_insert_eq, insert_id by done. by destruct o.
  - exists c. unfold zlen. split; [done|]. lia.
Qed.

Lemma ClearWithoutLock_ok path c w o :
  wal_ready path c w o -> fault_free o ->
  exists w' o', ClearWithoutLock (MkWalOs w o) = (Ret tt, MkWalOs w' o') /\
    wal_ready path [] w' o' /\ fault_free o' /\ config_ w' = config_ w /\
    files o' = <[path := []]> (files o).
Proof.
  intros Hw Hf. pose proof Hw as [Hen Hop Hpath Hfd Hpos Hofd Hfile].
  unfold ClearWithoutLock. unfold bind at 1. unfold wal_get at 1, gets. simpl. rewrite Hen. simpl.
  rewrite (bind_Ret _ _ _ _ _ (CloseFD_ready path c w o Hw)).
  unfold bind. wal_unfold. simpl. unfold FileOpenTruncate. rewrite sys_open_ok by auto.
  rewrite Hpath, (decide_True (P := _ \/ true = true)) by auto. cbn [the_os the_wal].
  rewrite decide_False by (simpl; lia).
  eexists _, _. split; [done|]. simpl. split; [|done].
  split; simpl; try done; [lia|apply lookup_insert_eq..].
Qed.

(** Whatever the system does, clearing either leaves the file alone or empties it. *)
Lemma ClearWithoutLock_cases path c w o :
  wal_ready path c w o ->
  exists res s', ClearWithoutLock (MkWalOs w o) = (res, s') /\
    (files (the_os s') = files o \/ files (the_os s') = <[path := []]> (files o)) /\
    (res = Ret tt /\ wal_ready path [] (the_wal s') (the_os s')
       /\ files (the_os s') = <[path := []]> (files o)
     \/ res = Throw RuntimeError \/ res = Crashed).
Proof.
  intros Hw. pose proof Hw as [Hen Hop Hpath Hfd Hpos Hofd Hfile].
  unfold ClearWithoutLock. unfold bind at 1. unfold wal_get at 1, gets. simpl. rewrite Hen. simpl.
  rewrite (bind_Ret _ _ _ _ _ (CloseFD_ready path c w o Hw)).
  unfold bind. wal_unfold. simpl. unfold FileOpenTruncate. rewrite Hpath.
  set (o1 := set_fds _ o).
  destruct (sys_open_cases path true true o1) as (r & o2 & -> & [(-> & Hf & Hfds & Hn)|(Hr & Hf & _)]).
  - rewrite decide_True in Hf by auto. cbn [the_os the_wal].
    rewrite decide_False by (simpl; lia). eexists _, _. split; [done|]. simpl.
    split; [by right|]. left. split; [done|]. split; [|done].
    split; simpl; try done; [rewrite Hn; simpl; lia| |].
    + by rewrite Hfds, lookup_insert_eq.
    + by rewrite Hf, lookup_insert_eq.
  - destruct Hr as [-> | ->]; [rewrite decide_True by lia|];
      eexists _, _; (split; [done|]); simpl; auto.
Qed.
