(* ===== verification/SyncLoop.v ===== *)
(** * The background sync of the log: [WAL::SyncLoop] of [src/common/wal.cpp]

    Under the EVERYSEC policy a thread forces the log to the device at intervals. This
    file runs it together with threads that append and one that shuts the log down or
    initialises it again. [Append] and the sections of [SyncLoop] hold [mutex_]; the
    calls of [Shutdown] and [Init] are cut where they wait: for the mutex, and for the
    thread in [join]. *)

From S2P Require Import Prelude Posix FileIo Codec WalRecord Wal.

(** Where the thread stands in its loop; [SExit] when there is none. *)
Inductive sync_pc :=
  | SHead       (* at [while (running_)] *)
  | SLock1      (* before the first lock *)
  | SRead       (* holds the mutex, reads the interval *)
  | SSleep
  | SLock2      (* before the second lock *)
  | SSync       (* holds the mutex, calls [Sync] *)
  | SExit.

(** Where the caller of [Shutdown] or [Init] stands. *)
Inductive caller_pc :=
  | Idle
  | ShJoin                                (* [Shutdown]: [running_] is false, at [join] *)
  | ShLock
  | ShClose                               (* holds the mutex *)
  | InStop (path : bytes) (c : WALConfig) (* [Init] on an open log, holds the mutex *)
  | InJoin (path : bytes) (c : WALConfig) (* the same, at [join] *)
  | InOpen (path : bytes) (c : WALConfig) (* the thread is joined, holds the mutex *).

Inductive owner := BySync | ByCaller.

Record system := MkSys {
  log : wal_os;
  mutex : option owner;
  sync : sync_pc;
  caller : caller_pc;
  acked : list WALRecord;               (* history: appends that returned *)
  synced : option (list WALRecord)      (* history: [acked] at the last completed [Sync] *)
}.

Definition set_log (l : wal_os) (y : system) : system :=
  MkSys l (mutex y) (sync y) (caller y) (acked y) (synced y).
Definition set_mutex (h : option owner) (y : system) : system :=
  MkSys (log y) h (sync y) (caller y) (acked y) (synced y).
Definition set_sync (p : sync_pc) (y : system) : system :=
  MkSys (log y) (mutex y) p (caller y) (acked y) (synced y).
Definition set_caller (p : caller_pc) (y : system) : system :=
  MkSys (log y) (mutex y) (sync y) p (acked y) (synced y).

Definition wal (y : system) : WAL := the_wal (log y).

(** One step of [SyncLoop]. *)
Definition sync_step (y : system) : option system :=
  match sync y with
  | SHead => Some (set_sync (if running_ (wal y) then SLock1 else SExit) y)
  | SLock1 =>
      match mutex y with None => Some (set_mutex (Some BySync) (set_sync SRead y)) | _ => None end
  | SRead => Some (set_mutex None (set_sync SSleep y))
  | SSleep => Some (set_sync SLock2 y)
  | SLock2 =>
      match mutex y with None => Some (set_mutex (Some BySync) (set_sync SSync y)) | _ => None end
  | SSync =>
      match Sync (log y) with
      | (Ret _, l) => Some (MkSys l None SHead (caller y) (acked y) (Some (acked y)))
      | _ => None
      end
  | SExit => None
  end.

(** The part of [Shutdown] under the lock. *)
Definition shutdown_locked : M wal_os unit :=
  let! open := wal_get is_open_ in
  do! (if open then
         do! Sync in
         do! CloseFD in
         on_wal (set_is_open_ false)
       else ret tt) in
  on_wal (set_enabled_ false).

(** [Init] from the point where the thread is joined. *)
Definition init_joined (path : bytes) (c : WALConfig) : M wal_os unit :=
  do! (do! Sync in do! CloseFD in on_wal (set_is_open_ false)) in
  Init path c.

Definition joined (y : system) : bool :=
  negb (sync_thread_ (wal y)) || match sync y with SExit => true | _ => false end.

(** One step of [Shutdown] or [Init]. *)
Definition caller_step (y : system) : option system :=
  match caller y with
  | Idle => None
  | ShJoin | InJoin _ _ =>
      if joined y then
        match join_sync_thread (log y) with
        | (Ret _, l) =>
            Some (set_log l (set_caller (match caller y with
                                         | InJoin path c => InOpen path c
                                         | _ => ShLock end) y))
        | _ => None
        end
      else None
  | ShLock =>
      match mutex y with
      | None => Some (set_mutex (Some ByCaller) (set_caller ShClose y))
      | _ => None
      end
  | ShClose =>
      match shutdown_locked (log y) with
      | (Ret _, l) => Some (set_mutex None (set_caller Idle (set_log l y)))
      | _ => None
      end
  | InStop path c =>
      match on_wal (set_running_ false) (log y) with
      | (Ret _, l) => Some (set_caller (InJoin path c) (set_log l y))
      | _ => None
      end
  | InOpen path c =>
      match init_joined path c (log y) with
      | (Ret _, l) =>
          Some (set_mutex None (set_caller Idle
            (set_sync (if sync_thread_ (the_wal l) then SHead else SExit) (set_log l y))))
      | _ => None
      end
  end.

Inductive event :=
  | EAppend (r : WALRecord)
  | ESync
  | ECaller
  | EShutdown                             (* [Shutdown] is called and stores [running_] *)
  | EInit (path : bytes) (c : WALConfig). (* [Init] is called on an open log and has the lock *)

Definition fire (e : event) (y : system) : option system :=
  match e with
  | EAppend r =>
      match mutex y, Append r (log y) with
      | None, (Ret _, l) => Some (MkSys l None (sync y) (caller y) (acked y ++ [r]) (synced y))
      | _, _ => None
      end
  | ESync => sync_step y
  | ECaller => caller_step y
  | EShutdown =>
      match caller y, on_wal (set_running_ false) (log y) with
      | Idle, (Ret _, l) => Some (set_caller ShJoin (set_log l y))
      | _, _ => None
      end
  | EInit path c =>
      match caller y, mutex y, is_open_ (wal y) with
      | Idle, None, true => Some (set_mutex (Some ByCaller) (set_caller (InStop path c) y))
      | _, _, _ => None
      end
  end.

Fixpoint run (es : list event) (y : system) : option system :=
  match es with
  | [] => Some y
  | e :: es => match fire e y with Some y => run es y | None => None end
  end.

(** The log of a process that has just initialised it with the default configuration. *)
Definition fresh_log (path : bytes) (o : os) : system :=
  MkSys (Init path default_config (MkWalOs WAL_init o)).2 None SHead Idle [] None.

(** The steps of a log in use: appends and the thread. *)
Definition background (e : event) : bool :=
  match e with EAppend _ | ESync => true | _ => false end.

(** ** The pieces are the methods *)

Lemma Shutdown_pieces l :
  Shutdown l = (do! on_wal (set_running_ false) in do! join_sync_thread in shutdown_locked) l.
Proof. done. Qed.

Lemma Init_pieces path c l :
  is_open_ (the_wal l) = true ->
  Init path c l
  = (do! on_wal (set_running_ false) in do! join_sync_thread in init_joined path c) l.
Proof.
  intros Hop. unfold Init at 1, init_joined. unfold bind at 1. unfold wal_get at 1, gets at 1.
  rewrite Hop. rewrite !bind_assoc. apply bind_ext. intros _ l1. rewrite !bind_assoc.
  apply bind_ext. intros _ l2. rewrite !bind_assoc. apply bind_ext. intros _ l3.
  rewrite !bind_assoc. apply bind_ext. intros _ l4. done.
Qed.

(** ** The log in use *)

Definition holds_mutex (p : sync_pc) : bool :=
  match p with SRead | SSync => true | _ => false end.

(** The log is open on [path], whose contents were [c] before the appends; [b] is
    [running_]. *)
Record live (b : bool) (cl : caller_pc) (path c : bytes) (y : system) : Prop := {
  lv_ready : wal_ready path (c ++ encode_all (acked y)) (the_wal (log y)) (the_os (log y));
  lv_faults : fault_free (the_os (log y));
  lv_policy : policy (config_ (wal y)) = EVERYSEC;
  lv_running : running_ (wal y) = b;
  lv_thread : sync_thread_ (wal y) = true;
  lv_sync : b = true -> sync y <> SExit;
  lv_caller : caller y = cl;
  lv_mutex : mutex y = if holds_mutex (sync y) then Some BySync else None;
  lv_disk : forall rs, synced y = Some rs ->
    rs `prefix_of` acked y /\ disk (the_os (log y)) !! path = Some (c ++ encode_all rs)
}.

Lemma live_start path o :
  fault_free o -> 0 <= next_fd o -> live true Idle path (file_contents o path) (fresh_log path o).
Proof.
  intros Hf Hn. unfold fresh_log. rewrite Init_ok by (done || simpl; lia).
  split; simpl; try done.
  - rewrite app_nil_r. by apply opened_ready.
Qed.

(** Where the thread goes. *)
Definition next (b : bool) (p : sync_pc) : sync_pc :=
  match p with
  | SHead => if b then SLock1 else SExit
  | SLock1 => SRead | SRead => SSleep | SSleep => SLock2 | SLock2 => SSync | SSync => SHead
  | SExit => SExit
  end.

Lemma live_sync b cl path c y :
  live b cl path c y -> sync y <> SExit ->
  exists y', fire ESync y = Some y' /\ live b cl path c y' /\ acked y' = acked y /\
    sync y' = next b (sync y) /\ (sync y = SSync -> synced y' = Some (acked y)).
Proof.
  intros [Hw Hf Hp Hr Ht Hs Hc Hm Hd] Hne. cbn [fire]. unfold sync_step.
  destruct (sync y) eqn:Hy; cbn in Hm; rewrite ?Hm, ?Hr; try done.
  1-5: eexists; (split; [reflexivity|]); (split; [|split_and!; done]); split; try done; by destruct b.
  pose proof (Sync_ok _ _ _ _ Hw Hf) as Hsync. unfold wal in *.
  destruct (log y) as [w o] eqn:Hlog. simpl in *.
  rewrite Hsync. eexists. split; [reflexivity|]. split; [|split_and!; done].
  split; try done.
  - destruct Hw. by split.
  - intros rs [= <-]. split; [done|]. simpl. apply lookup_insert_eq.
Qed.

Lemma live_append b cl path c r y :
  live b cl path c y -> mutex y = None ->
  exists y', fire (EAppend r) y = Some y' /\ live b cl path c y' /\ acked y' = acked y ++ [r].
Proof.
  intros [Hw Hf Hp Hr Ht Hs Hc Hm Hd] Hn. cbn [fire]. rewrite Hn.
  destruct (log y) as [w o] eqn:Hlog. simpl in *. unfold wal in *. rewrite Hlog in *. simpl in *.
  assert (Append r (MkWalOs w o) = (Ret tt, record_written path (c ++ encode_all (acked y)) r w o)) as ->.
  { unfold Append. unfold bind at 1. wal_unfold. simpl. rewrite (wr_enabled _ _ _ _ Hw). simpl.
    rewrite (bind_Ret _ _ _ _ _ (WriteRecord_ok _ _ _ _ _ Hw Hf)).
    unfold bind, wal_get, gets. simpl. by rewrite Hp. }
  eexists. split; [reflexivity|]. split; [|done]. split; try done.
  - cbn [acked log]. rewrite encode_all_snoc, app_assoc. by apply record_written_ready.
  - cbn [mutex sync]. by rewrite <-Hm.
  - intros rs Hrs. destruct (Hd rs Hrs) as [Hpre Hdisk]. split; [|done].
    cbn [acked]. by apply prefix_app_r.
Qed.

Lemma sync_run_app es es' y :
  run (es ++ es') y = match run es y with Some y' => run es' y' | None => None end.
Proof. revert y. induction es as [|e es IH]; intros y; simpl; [done|]. by destruct (fire e y). Qed.

Lemma run_defined es y :
  match run es y with Some _ => true | None => false end = true -> exists y', run es y = Some y'.
Proof. destruct (run es y) as [y'|]; [by exists y'|done]. Qed.

Lemma live_run path c es : forall y y',
  live true Idle path c y -> Forall background es -> run es y = Some y' -> live true Idle path c y'.
Proof.
  induction es as [|e es IH]; intros y y' Hy Hes; simpl; [by intros [= <-]|].
  apply Forall_cons in Hes as [He Hes]. destruct (fire e y) as [y1|] eqn:Hf; [|done].
  apply IH; [|done]. destruct e as [r| | | |]; try done.
  - assert (mutex y = None) as Hm by (cbn in Hf; by destruct (mutex y)).
    destruct (live_append _ _ _ _ r y Hy Hm) as (y2 & Hf2 & Hy2 & _). congruence.
  - destruct (live_sync _ _ _ _ y Hy) as (y2 & Hf2 & Hy2 & _); [by apply (lv_sync _ _ _ _ _ Hy)|].
    congruence.
Qed.

(** Steps of the thread up to its next call of [Sync], and up to the end of its loop
    once [running_] is false. *)
Definition until_sync (p : sync_pc) : nat :=
  match p with SHead => 5 | SLock1 => 4 | SRead => 3 | SSleep => 2 | SLock2 => 1 | _ => 0 end.

Definition until_exit (p : sync_pc) : nat :=
  match p with
  | SLock1 => 6 | SRead => 5 | SSleep => 4 | SLock2 => 3 | SSync => 2 | SHead => 1 | SExit => 0
  end.

Lemma live_reaches_sync path c n : forall y,
  live true Idle path c y -> until_sync (sync y) = n ->
  exists y', run (replicate n ESync) y = Some y' /\ live true Idle path c y' /\
    acked y' = acked y /\ sync y' = SSync.
Proof.
  induction n as [|n IH]; intros y Hy Hn.
  - exists y. pose proof (lv_sync _ _ _ _ _ Hy eq_refl). split_and!; try done. by destruct (sync y).
  - destruct (live_sync _ _ _ _ y Hy) as (y1 & Hf & Hy1 & Ha1 & Hs1 & _); [by destruct (sync y)|].
    destruct (IH y1 Hy1) as (y2 & Hrun & Hy2 & Ha2 & Hs2).
    { rewrite Hs1. destruct (sync y); simpl in *; (done || lia). }
    exists y2. cbn [replicate run]. rewrite Hf, Hrun. split_and!; try done. by rewrite Ha2.
Qed.

Lemma live_reaches_exit cl path c n : forall y,
  live false cl path c y -> until_exit (sync y) = n ->
  exists y', run (replicate n ESync) y = Some y' /\ live false cl path c y' /\
    acked y' = acked y /\ sync y' = SExit.
Proof.
  induction n as [|n IH]; intros y Hy Hn.
  - exists y. split_and!; try done. by destruct (sync y).
  - destruct (live_sync _ _ _ _ y Hy) as (y1 & Hf & Hy1 & Ha1 & Hs1 & _); [by destruct (sync y)|].
    destruct (IH y1 Hy1) as (y2 & Hrun & Hy2 & Ha2 & Hs2).
    { rewrite Hs1. destruct (sync y); simpl in *; (done || lia). }
    exists y2. cbn [replicate run]. rewrite Hf, Hrun. split_and!; try done. by rewrite Ha2.
Qed.

(** ** What the background sync guarantees *)

(** C13: With the EVERYSEC policy, if no system call fails, in any interleaving of appends with
    the sync thread: the file holds every acknowledged record; after a power failure the
    device has exactly the records acknowledged before the last completed round; and a
    round that covers everything acknowledged so far is never more than six steps of
    the thread away. *)
Theorem everysec_bounded_loss path o es y :
  fault_free o -> 0 <= next_fd o -> Forall background es -> run es (fresh_log path o) = Some y ->
  let c := file_contents o path in
  files (the_os (log y)) !! path = Some (c ++ encode_all (acked y)) /\
  (forall rs, synced y = Some rs -> rs `prefix_of` acked y /\
     disk (the_os (log y)) !! path = Some (c ++ encode_all rs)) /\
  exists k y', (k <= 6)%nat /\ run (replicate k ESync) y = Some y' /\ synced y' = Some (acked y).
Proof.
  intros Hf Hn Hes Hrun c.
  pose proof (live_run path c es _ _ (live_start path o Hf Hn) Hes Hrun) as Hy.
  split; [apply (lv_ready _ _ _ _ _ Hy)|]. split; [apply (lv_disk _ _ _ _ _ Hy)|].
  destruct (live_reaches_sync path c _ y Hy eq_refl) as (y1 & Hr1 & Hy1 & Ha1 & Hs1).
  destruct (live_sync _ _ _ _ y1 Hy1) as (y2 & Hf2 & _ & _ & _ & Hsy); [by rewrite Hs1|].
  exists (until_sync (sync y) + 1)%nat, y2. split; [destruct (sync y); simpl; lia|].
  rewrite replicate_add, sync_run_app, Hr1. cbn [replicate run]. rewrite Hf2, <-Ha1. split; [done|].
  by apply Hsy.
Qed.

Lemma everysec_bounded_loss_witness :
  let o := MkOs ∅ ∅ ∅ 3 0 [] in
  let r := MkRecord OP_SET (str "a") (str "1") in
  let c := file_contents o (str "w") in
  exists y, run [EAppend r; ESync; ESync] (fresh_log (str "w") o) = Some y /\
  files (the_os (log y)) !! str "w" = Some (c ++ encode_all (acked y)) /\
  (forall rs, synced y = Some rs -> rs `prefix_of` acked y /\
     disk (the_os (log y)) !! str "w" = Some (c ++ encode_all rs)) /\
  exists k y', (k <= 6)%nat /\ run (replicate k ESync) y = Some y' /\ synced y' = Some (acked y).
Proof.
  intros o r c. destruct (run_defined [EAppend r; ESync; ESync] (fresh_log (str "w") o)) as [y Hrun];
    [vm_compute; reflexivity|]. exists y. split; [exact Hrun|].
  apply (everysec_bounded_loss (str "w") o [EAppend r; ESync; ESync]);
    [reflexivity|unfold o; simpl; lia|repeat constructor|exact Hrun].
Defined.

Lemma live_stop path c y :
  live true Idle path c y ->
  exists y', fire EShutdown y = Some y' /\ live false ShJoin path c y' /\
    acked y' = acked y /\ sync y' = sync y.
Proof.
  intros [Hw Hf Hp Hr Ht Hs Hc Hm Hd]. cbn [fire]. rewrite Hc. eexists. split; [reflexivity|].
  split; [|done]. destruct Hw. by split.
Qed.

(** The part of [Shutdown] under the lock puts the log on the device and closes it. *)
Lemma shutdown_locked_ok path c w o :
  wal_ready path c w o -> fault_free o ->
  exists l, shutdown_locked (MkWalOs w o) = (Ret tt, l) /\
    is_open_ (the_wal l) = false /\ enabled_ (the_wal l) = false /\
    disk (the_os l) !! path = Some c.
Proof.
  intros Hw Hf. unfold shutdown_locked. unfold bind at 1, wal_get at 1, gets at 1. simpl.
  rewrite (wr_open _ _ _ _ Hw). rewrite !bind_assoc, (bind_Ret _ _ _ _ _ (Sync_ok path c w o Hw Hf)).
  unfold CloseFD, bind. wal_unfold. simpl. rewrite decide_True by apply Hw. simpl.
  eexists. split; [reflexivity|]. simpl. split; [done|]. split; [done|]. apply lookup_insert_eq.
Qed.

(** The rest of [Shutdown] once the thread has left its loop. *)
Lemma shutdown_rest path c y :
  live false ShJoin path c y -> sync y = SExit ->
  exists y', run [ECaller; ECaller; ECaller] y = Some y' /\
    caller y' = Idle /\ sync y' = SExit /\ mutex y' = None /\
    is_open_ (wal y') = false /\ enabled_ (wal y') = false /\
    disk (the_os (log y')) !! path = Some (c ++ encode_all (acked y)).
Proof.
  intros [Hw Hf Hp Hr Ht Hs Hc Hm Hd] Hx. rewrite Hx in Hm. simpl in Hm.
  destruct (shutdown_locked_ok path (c ++ encode_all (acked y))
              (set_sync_thread_ false (the_wal (log y))) (the_os (log y)))
    as (l & Hrun & H1 & H2 & H3); [by destruct Hw; split|done|].
  cbn [run fire]. unfold caller_step at 1. rewrite Hc. unfold joined. rewrite Hx, orb_true_r.
  unfold join_sync_thread, bind, wal_get, gets. unfold wal in Ht. rewrite Ht. cbn -[shutdown_locked].
  rewrite Hm. cbn -[shutdown_locked]. rewrite Hrun. eexists. split; [reflexivity|]. by split_and!.
Qed.

(** C27: [Shutdown] of a log in use, whatever the sync thread is doing: the
    thread leaves its loop after at most six steps, [Shutdown] returns, the log is
    closed and disabled, and everything acknowledged is on the device. *)
Theorem shutdown_returns path o es y :
  fault_free o -> 0 <= next_fd o -> Forall background es -> run es (fresh_log path o) = Some y ->
  exists k y', (k <= 6)%nat /\
    run (EShutdown :: replicate k ESync ++ [ECaller; ECaller; ECaller]) y = Some y' /\
    caller y' = Idle /\ sync y' = SExit /\ mutex y' = None /\
    is_open_ (wal y') = false /\ enabled_ (wal y') = false /\
    disk (the_os (log y')) !! path = Some (file_contents o path ++ encode_all (acked y)).
Proof.
  intros Hf Hn Hes Hrun. set (c := file_contents o path).
  pose proof (live_run path c es _ _ (live_start path o Hf Hn) Hes Hrun) as Hy.
  destruct (live_stop path c y Hy) as (y1 & Hf1 & Hy1 & Ha1 & _).
  destruct (live_reaches_exit _ path c _ y1 Hy1 eq_refl) as (y2 & Hr2 & Hy2 & Ha2 & Hs2).
  destruct (shutdown_rest path c y2 Hy2 Hs2) as (y3 & Hr3 & H3).
  exists (until_exit (sync y1)), y3. split; [destruct (sync y1); simpl; lia|].
  cbn [run]. rewrite Hf1, sync_run_app, Hr2, Hr3. split; [done|]. by rewrite <-Ha1, <-Ha2.
Qed.

Lemma shutdown_returns_witness :
  let o := MkOs ∅ ∅ ∅ 3 0 [] in
  let r := MkRecord OP_SET (str "a") (str "1") in
  exists y, run [EAppend r; ESync; ESync] (fresh_log (str "w") o) = Some y /\
  exists k y', (k <= 6)%nat /\
    run (EShutdown :: replicate k ESync ++ [ECaller; ECaller; ECaller]) y = Some y' /\
    caller y' = Idle /\ sync y' = SExit /\ mutex y' = None /\
    is_open_ (wal y') = false /\ enabled_ (wal y') = false /\
    disk (the_os (log y')) !! str "w" = Some (file_contents o (str "w") ++ encode_all (acked y)).
Proof.
  intros o r. destruct (run_defined [EAppend r; ESync; ESync] (fresh_log (str "w") o)) as [y Hrun];
    [vm_compute; reflexivity|]. exists y. split; [exact Hrun|].
  apply (shutdown_returns (str "w") o [EAppend r; ESync; ESync]);
    [reflexivity|unfold o; simpl; lia|repeat constructor|exact Hrun].
Defined.

(** [Init] has taken the mutex of an open log while the thread is on its way to a lock. *)
Record stuck_init (path : bytes) (cfg : WALConfig) (y : system) : Prop := {
  si_mutex : mutex y = Some ByCaller;
  si_sync : sync y = SLock1 \/ sync y = SSleep \/ sync y = SLock2;
  si_caller : caller y = InStop path cfg \/ caller y = InJoin path cfg;
  si_thread : sync_thread_ (wal y) = true
}.

Lemma stuck_init_fire path cfg e y y' :
  stuck_init path cfg y -> fire e y = Some y' -> stuck_init path cfg y'.
Proof.
  intros [Hm Hs Hc Ht]. destruct e as [r| | | |p c]; cbn [fire].
  - by rewrite Hm.
  - unfold sync_step. destruct Hs as [Hs|[Hs|Hs]]; rewrite Hs, ?Hm; try done.
    intros [= <-]. split; try done. simpl. auto.
  - unfold caller_step. destruct Hc as [Hc|Hc]; rewrite Hc.
    + intros [= <-]. split; try done. by right.
    + unfold joined. rewrite Ht. by destruct Hs as [->|[->| ->]].
  - by destruct Hc as [-> | ->].
  - by destruct Hc as [-> | ->].
Qed.

Lemma stuck_init_run path cfg es : forall y y',
  stuck_init path cfg y -> run es y = Some y' -> stuck_init path cfg y'.
Proof.
  induction es as [|e es IH]; intros y y' Hy; simpl; [by intros [= <-]|].
  destruct (fire e y) as [y1|] eqn:Hf; [|done]. apply IH. by eapply stuck_init_fire.
Qed.

(** [Init] has stored [running_] and the thread waits for the mutex: nothing moves. *)
Lemma stuck_init_dead path cfg y :
  stuck_init path cfg y -> caller y = InJoin path cfg -> sync y <> SSleep ->
  forall e, fire e y = None.
Proof.
  intros [Hm Hs _ Ht] Hc Hn [r| | | |p c]; cbn [fire].
  - by rewrite Hm.
  - unfold sync_step. by destruct Hs as [-> |[Hs| ->]]; rewrite ?Hm.
  - unfold caller_step, joined. rewrite Hc, Ht. by destruct Hs as [-> |[Hs| ->]].
  - by rewrite Hc.
  - by rewrite Hc.
Qed.

(** C36: [Init] of a log that is open with a running sync thread joins the
    thread while it holds the mutex. If it takes the mutex while the thread sleeps (or
    is on its way to a lock), [Init] never returns, whatever happens next, and the
    system comes to a state in which no thread can move: appends block as well. *)
Theorem reinit_deadlocks path o es y path' cfg :
  fault_free o -> 0 <= next_fd o -> Forall background es -> run es (fresh_log path o) = Some y ->
  sync y = SLock1 \/ sync y = SSleep \/ sync y = SLock2 ->
  exists y1, fire (EInit path' cfg) y = Some y1 /\
    (forall es' y2, run es' y1 = Some y2 ->
       caller y2 = InStop path' cfg \/ caller y2 = InJoin path' cfg) /\
    exists es' y2, run es' y1 = Some y2 /\ forall e, fire e y2 = None.
Proof.
  intros Hf Hn Hes Hrun Hs. set (c := file_contents o path).
  pose proof (live_run path c es _ _ (live_start path o Hf Hn) Hes Hrun) as [Hw _ _ _ Ht _ Hc Hm _].
  assert (mutex y = None) as Hm' by (by rewrite Hm; destruct Hs as [->|[->| ->]]).
  exists (set_mutex (Some ByCaller) (set_caller (InStop path' cfg) y)).
  assert (stuck_init path' cfg (set_mutex (Some ByCaller) (set_caller (InStop path' cfg) y))) as Hst.
  { split; simpl; auto. }
  split; [|split].
  - cbn [fire]. unfold wal. by rewrite Hc, Hm', (wr_open _ _ _ _ Hw).
  - intros es' y2 Hr2. apply (si_caller _ _ _ (stuck_init_run _ _ _ _ _ Hst Hr2)).
  - assert (exists es' y2, run es' (set_mutex (Some ByCaller) (set_caller (InStop path' cfg) y)) = Some y2 /\
      caller y2 = InJoin path' cfg /\ sync y2 <> SSleep) as (es' & y2 & Hr2 & Hc2 & Hs2).
    { destruct Hs as [Hs|[Hs|Hs]].
      - eexists [ECaller], _. split; [reflexivity|]. split; [done|]. simpl. by rewrite Hs.
      - eexists [ECaller; ESync], _. cbn. unfold sync_step. simpl. rewrite Hs.
        split; [reflexivity|done].
      - eexists [ECaller], _. split; [reflexivity|]. split; [done|]. simpl. by rewrite Hs. }
    exists es', y2. split; [done|]. eapply stuck_init_dead; [by eapply stuck_init_run|done..].
Qed.

Lemma reinit_deadlocks_witness :
  let o := MkOs ∅ ∅ ∅ 3 0 [] in
  exists y, run [ESync; ESync; ESync] (fresh_log (str "w") o) = Some y /\
  exists y1, fire (EInit (str "v") default_config) y = Some y1 /\
    (forall es' y2, run es' y1 = Some y2 ->
       caller y2 = InStop (str "v") default_config \/ caller y2 = InJoin (str "v") default_config) /\
    exists es' y2, run es' y1 = Some y2 /\ forall e, fire e y2 = None.
Proof.
  intros o. destruct (run_defined [ESync; ESync; ESync] (fresh_log (str "w") o)) as [y Hrun];
    [vm_compute; reflexivity|]. exists y. split; [exact Hrun|].
  apply (reinit_deadlocks (str "w") o [ESync; ESync; ESync]);
    [reflexivity|unfold o; simpl; lia|repeat constructor|exact Hrun|].
  right. left. enough (sync <$> run [ESync; ESync; ESync] (fresh_log (str "w") o) = Some SSleep) as H
    by (rewrite Hrun in H; by injection H).
  vm_compute. reflexivity.
Defined.
