(* ===== verification/SnapshotEntry.v ===== *)
(** * Entries of a snapshot: [SnapshotEntry] of [src/common/snapshot.cpp]

    The binary format [key_len(2) | key | val_len(2) | value | CRC32(4)], the bounds of
    the decoder, and the entry as an instance of [RecordCodec]. *)

From S2P Require Import Prelude Crc32 Codec.

(** ** The code *)

Record SnapshotEntry := MkEntry {
  entry_key : bytes;
  entry_value : bytes
}.

#[export] Instance SnapshotEntry_eq_decision : EqDecision SnapshotEntry.
Proof. solve_decision. Defined.

Definition SnapshotEntry_Serialize (e : SnapshotEntry) : bytes :=
  let key_len := u16 (zlen (entry_key e)) in
  let val_len := u16 (zlen (entry_value e)) in
  let data := le16 key_len ++ entry_key e ++ le16 val_len ++ entry_value e in
  AppendChecksum data data.

(** [SnapshotEntry::Deserialize(data + off, len, consumed)]: the entry and [consumed]. *)
Definition SnapshotEntry_Deserialize (data : bytes) (off len : Z) : res (SnapshotEntry * Z) :=
  if len <? 4 then Ret (MkEntry [] [], 0) else
  let? k0 := at_ data off in
  let? k1 := at_ data (off + 1) in
  let key_len := get_le16 k0 k1 in
  let key_offset := 2 in
  let min_required := 2 + key_len + 2 + 4 in
  if len <? min_required then Ret (MkEntry [] [], 0) else
  let? key := sub data (off + key_offset) key_len in
  let val_len_offset := key_offset + key_len in
  let? v0 := at_ data (off + val_len_offset) in
  let? v1 := at_ data (off + val_len_offset + 1) in
  let val_len := get_le16 v0 v1 in
  let val_offset := val_len_offset + 2 in
  let total_len := val_offset + val_len + 4 in
  if len <? total_len then Ret (MkEntry [] [], 0) else
  let? value := sub data (off + val_offset) val_len in
  let data_len := val_offset + val_len in
  let? ok := VerifyChecksum data off data_len in
  if negb ok then Ret (MkEntry [] [], 0)
  else Ret (MkEntry key value, total_len).

Definition entry_fits (e : SnapshotEntry) : Prop :=
  fits16 (entry_key e) /\ fits16 (entry_value e).

#[global] Arguments SnapshotEntry_Serialize : simpl never.
#[global] Arguments SnapshotEntry_Deserialize : simpl never.

(** ** Lemmas *)

Lemma entry_Serialize_length e :
  zlen (SnapshotEntry_Serialize e) = 8 + zlen (entry_key e) + zlen (entry_value e).
Proof. unfold SnapshotEntry_Serialize, AppendChecksum. zlen. Qed.

Lemma entry_Deserialize_safe buf off len :
  0 <= off -> 0 <= len -> off + len <= zlen buf ->
  exists r n, SnapshotEntry_Deserialize buf off len = Ret (r, n) /\ 0 <= n <= len.
Proof.
  intros Hoff Hlen Hbuf. unfold SnapshotEntry_Deserialize.
  destruct (Z.ltb_spec len 4); [eexists _, _; split; [done|lia]|].
  destruct (at_ok buf off) as [k0 ->]; [lia|]. cbn [res_bind].
  destruct (at_ok buf (off + 1)) as [k1 ->]; [lia|]. cbn [res_bind].
  pose proof (get_le16_range k0 k1). set (kl := get_le16 k0 k1) in *. clearbody kl.
  destruct (Z.ltb_spec len (2 + kl + 2 + 4)); [eexists _, _; split; [done|lia]|].
  rewrite sub_ok by lia. cbn [res_bind].
  destruct (at_ok buf (off + (2 + kl))) as [v0 ->]; [lia|]. cbn [res_bind].
  destruct (at_ok buf (off + (2 + kl) + 1)) as [v1 ->]; [lia|]. cbn [res_bind].
  pose proof (get_le16_range v0 v1). set (vl := get_le16 v0 v1) in *. clearbody vl.
  destruct (Z.ltb_spec len (2 + kl + 2 + vl + 4)); [eexists _, _; split; [done|lia]|].
  rewrite sub_ok by lia. cbn [res_bind].
  destruct (VerifyChecksum_ok buf off (2 + kl + 2 + vl)) as [b ->]; [lia..|]. cbn [res_bind].
  destruct b; eexists _, _; (split; [done|lia]).
Qed.

Section frame.
Context (p : bytes) (k0 k1 : byte).

Local Ltac read_at a b x :=
  rewrite (at_split _ a b x) by (try zlen; list_eq); cbn [res_bind].
Local Ltac read_header rest :=
  unfold SnapshotEntry_Deserialize;
  match goal with |- context [?n <? 4] => destruct (Z.ltb_spec n 4); [try (lia || done)|] end;
  read_at p (k1 :: rest) k0;
  read_at (p ++ [k0]) rest k1.

Lemma entry_short_key rest len :
  len < 8 + get_le16 k0 k1 ->
  SnapshotEntry_Deserialize (p ++ k0 :: k1 :: rest) (zlen p) len = Ret (MkEntry [] [], 0).
Proof.
  intros Hlen. read_header rest.
  destruct (Z.ltb_spec len (2 + get_le16 k0 k1 + 2 + 4)); [done|lia].
Qed.

Context (k : bytes) (v0 v1 : byte) (Hk : get_le16 k0 k1 = zlen k).

Local Ltac read_key rest :=
  read_header (k ++ v0 :: v1 :: rest); rewrite Hk;
  match goal with |- context [?n <? 2 + zlen k + 2 + 4] =>
    destruct (Z.ltb_spec n (2 + zlen k + 2 + 4)); [try (lia || done)|] end;
  rewrite (sub_split _ (p ++ [k0; k1]) k (v0 :: v1 :: rest))
    by (try zlen; list_eq); cbn [res_bind];
  read_at (p ++ [k0; k1] ++ k) (v1 :: rest) v0;
  read_at (p ++ [k0; k1] ++ k ++ [v0]) rest v1.

Lemma entry_short_value rest len :
  len < 8 + zlen k + get_le16 v0 v1 ->
  SnapshotEntry_Deserialize (p ++ k0 :: k1 :: k ++ v0 :: v1 :: rest) (zlen p) len
    = Ret (MkEntry [] [], 0).
Proof.
  intros Hlen. pose proof (zlen_nonneg k). read_key rest.
  destruct (Z.ltb_spec len (2 + zlen k + 2 + get_le16 v0 v1 + 4)); [done|lia].
Qed.

Lemma entry_frame v c q len :
  0 <= c < 2 ^ 32 -> get_le16 v0 v1 = zlen v -> 8 + zlen k + zlen v <= len ->
  SnapshotEntry_Deserialize
    (p ++ (k0 :: k1 :: k ++ v0 :: v1 :: v) ++ le32 c ++ q) (zlen p) len =
    if c =? CRC32 (k0 :: k1 :: k ++ v0 :: v1 :: v)
    then Ret (MkEntry k v, 8 + zlen k + zlen v)
    else Ret (MkEntry [] [], 0).
Proof.
  intros Hc Hv Hlen. pose proof (zlen_nonneg k). pose proof (zlen_nonneg v).
  set (d := k0 :: k1 :: k ++ v0 :: v1 :: v).
  pose proof (VerifyChecksum_stored p d q c Hc) as Hver.
  replace (p ++ d ++ le32 c ++ q) with (p ++ k0 :: k1 :: k ++ v0 :: v1 :: v ++ le32 c ++ q) in *
    by list_eq.
  read_key (v ++ le32 c ++ q). rewrite Hv.
  destruct (Z.ltb_spec len (2 + zlen k + 2 + zlen v + 4)); [lia|].
  rewrite (sub_split _ (p ++ [k0; k1] ++ k ++ [v0; v1]) v (le32 c ++ q))
    by (try zlen; list_eq). cbn [res_bind].
  replace (2 + zlen k + 2 + zlen v) with (zlen d) by (subst d; zlen).
  rewrite Hver. cbn [res_bind].
  replace (zlen d + 4) with (8 + zlen k + zlen v) by (subst d; zlen).
  by destruct (_ =? _).
Qed.
End frame.

Lemma entry_Serialize_frame e : entry_fits e ->
  exists k0 k1 v0 v1,
    get_le16 k0 k1 = zlen (entry_key e) /\ get_le16 v0 v1 = zlen (entry_value e) /\
    let d := k0 :: k1 :: entry_key e ++ v0 :: v1 :: entry_value e in
    SnapshotEntry_Serialize e = d ++ le32 (CRC32 d).
Proof.
  intros [Hk Hv]. unfold fits16 in *.
  pose proof (zlen_nonneg (entry_key e)). pose proof (zlen_nonneg (entry_value e)).
  eexists _, _, _, _. split; [by apply get_le16_le16|]. split; [by apply get_le16_le16|].
  unfold SnapshotEntry_Serialize, AppendChecksum, u16. rewrite !Z.mod_small by lia. done.
Qed.

Lemma entry_Deserialize_Serialize p e q len :
  entry_fits e -> zlen (SnapshotEntry_Serialize e) <= len ->
  SnapshotEntry_Deserialize (p ++ SnapshotEntry_Serialize e ++ q) (zlen p) len =
    Ret (e, zlen (SnapshotEntry_Serialize e)).
Proof.
  intros He Hlen. rewrite entry_Serialize_length in *.
  destruct (entry_Serialize_frame e He) as (k0 & k1 & v0 & v1 & Hk & Hv & ->).
  rewrite <-app_assoc.
  rewrite entry_frame; [|done|apply CRC32_range|done|lia].
  rewrite Z.eqb_refl. by destruct e.
Qed.

Lemma entry_Deserialize_torn p e n q :
  entry_fits e -> 0 <= n < zlen (SnapshotEntry_Serialize e) ->
  SnapshotEntry_Deserialize (p ++ ztake n (SnapshotEntry_Serialize e) ++ q) (zlen p) n =
    Ret (MkEntry [] [], 0).
Proof.
  intros He Hn. rewrite entry_Serialize_length in Hn.
  destruct (entry_Serialize_frame e He) as (k0 & k1 & v0 & v1 & Hk & Hv & ->).
  destruct (Z.ltb_spec n 4) as [H4|H4].
  { unfold SnapshotEntry_Deserialize. by destruct (Z.ltb_spec n 4); [|lia]. }
  destruct (decide (n < 8 + zlen (entry_key e))) as [Hsk|Hsk].
  - set (d := k0 :: k1 :: _). set (rest := drop 2 d ++ le32 (CRC32 d)).
    change (d ++ le32 (CRC32 d)) with (k0 :: k1 :: rest).
    assert (ztake n (k0 :: k1 :: rest) = k0 :: k1 :: ztake (n - 2) rest) as ->.
    { unfold ztake. by replace (Z.to_nat n) with (S (S (Z.to_nat (n - 2)))) by lia. }
    cbn [app]. apply entry_short_key. lia.
  - set (d := k0 :: k1 :: _). set (rest := entry_value e ++ le32 (CRC32 d)).
    assert (ztake n (d ++ le32 (CRC32 d))
            = k0 :: k1 :: entry_key e ++ v0 :: v1 :: ztake (n - 4 - zlen (entry_key e)) rest) as ->.
    { assert (d ++ le32 (CRC32 d) = k0 :: k1 :: entry_key e ++ v0 :: v1 :: rest) as ->.
      { unfold d at 1. unfold rest. cbn [app]. by rewrite <-app_assoc. }
      clearbody rest. unfold ztake, zlen in *.
      replace (Z.to_nat n) with (S (S (length (entry_key e) +
        S (S (Z.to_nat (n - 4 - Z.of_nat (length (entry_key e))))))))%nat by lia.
      cbn -[Z.sub]. do 2 f_equal. by rewrite take_app_add. }
    cbn [app]. rewrite <-app_assoc. cbn [app].
    apply entry_short_value; [done|lia].
Qed.

(** Only what the encoder writes is recognised. *)
Lemma entry_Deserialize_sound buf off len e n :
  SnapshotEntry_Deserialize buf off len = Ret (e, n) -> n <> 0 ->
  entry_fits e /\ n = zlen (SnapshotEntry_Serialize e) /\ 0 <= off /\
  zdrop off buf = SnapshotEntry_Serialize e ++ zdrop (off + n) buf.
Proof.
  unfold SnapshotEntry_Deserialize. intros H Hn. read_inv H.
  destruct x5; cbn [negb] in H; [|congruence]. injection H as <- <-.
  apply at_zdrop in Hx as [Hoff E0], Hx0 as [_ E1], Hx2 as [_ E3], Hx3 as [_ E4].
  apply sub_zdrop in Hx1 as (_ & Lk & E2), Hx4 as (_ & Lv & E5).
  apply VerifyChecksum_true in Hx5 as (d & Ld & _ & E6).
  set (kl := get_le16 x x0) in *. set (vl := get_le16 x2 x3) in *.
  pose proof (get_le16_range x x0). pose proof (get_le16_range x2 x3).
  split; [by split; unfold fits16; simpl; lia|]. rewrite entry_Serialize_length. cbn [entry_key entry_value].
  split; [lia|]. split; [done|].
  set (d' := x :: x0 :: x1 ++ x2 :: x3 :: x4).
  assert (zdrop off buf = d' ++ zdrop (off + (2 + kl + 2 + vl)) buf) as E.
  { rewrite E0, E1. replace (off + 1 + 1) with (off + 2) by lia. rewrite E2.
    replace (off + 2 + kl) with (off + (2 + kl)) by lia. rewrite E3, E4.
    replace (off + (2 + kl) + 1 + 1) with (off + (2 + kl + 2)) by lia. rewrite E5.
    replace (off + (2 + kl + 2) + vl) with (off + (2 + kl + 2 + vl)) by lia. subst d'. list_eq. }
  assert (d = d') as ->.
  { rewrite E in E6. apply app_inj_1 in E6 as [? _]; [done|]. unfold zlen in *. subst d'.
    simpl. rewrite length_app. simpl. lia. }
  rewrite E6. unfold SnapshotEntry_Serialize, AppendChecksum, u16. cbn [entry_key entry_value].
  rewrite !Z.mod_small, Lk, Lv by lia. subst kl vl. rewrite !le16_get.
  change ([x; x0] ++ x1 ++ [x2; x3] ++ x4) with d'. rewrite <-app_assoc. do 3 f_equal. lia.
Qed.

#[export] Program Instance SnapshotEntry_codec : RecordCodec SnapshotEntry := {|
  encode := SnapshotEntry_Serialize;
  decode := SnapshotEntry_Deserialize;
  encodable := entry_fits;
|}.
Next Obligation. intros e. rewrite entry_Serialize_length. zlen. Qed.
Next Obligation. exact entry_Deserialize_safe. Qed.
Next Obligation. intros. by apply entry_Deserialize_Serialize. Qed.
Next Obligation. intros. eexists. by apply entry_Deserialize_torn. Qed.
Next Obligation. intros. by eapply entry_Deserialize_sound. Qed.
