(* ===== verification/Snapshot.v ===== *)
(** * Snapshots: class [Snapshot] of [src/common/snapshot.cpp]

    The file format [MAGIC(5) | version(4) | count(4) | entries | CRC32(4)], its reader,
    and the protocol that replaces the file: write [snapshot.dat.tmp], remove
    [snapshot.dat], rename. The class has no state besides the file. *)

From S2P Require Import Prelude Posix FileIo Crc32 Codec SnapshotEntry.

(** ** The code *)

Definition MAGIC : bytes := str "KVSNP".
Definition VERSION : Z := 1.

Definition FileOpenRead (path : bytes) : M os Z := sys_open path false false.
Definition FileOpenWrite (path : bytes) : M os Z := sys_open path true true.
Definition FileRead (fd count : Z) : M os (Z * bytes) := sys_read fd count.
Definition FileWrite (fd : Z) (buf : bytes) : M os Z := sys_write fd buf.
Definition FileClose (fd : Z) : M os unit := sys_close fd.
Definition FileSeek (fd off : Z) (w : whence) : M os Z := sys_lseek fd off w.
Definition FileDelete (path : bytes) : M os unit := do! sys_unlink path in ret tt.

Definition entry := (bytes * bytes)%type.

Definition to_entry (e : entry) : SnapshotEntry := MkEntry e.1 e.2.

Definition GetSnapshotPath (data_dir : bytes) : bytes := data_dir ++ str "/snapshot.dat".

(** The file image built by [WriteSnapshot]. *)
Definition snapshot_content (entries : list entry) : bytes :=
  let content := MAGIC ++ le32 VERSION ++ le32 (u32 (zlen entries))
                   ++ (entries ≫= fun e => SnapshotEntry_Serialize (to_entry e)) in
  AppendChecksum content content.

(** The loop [while (remaining > 0)] around [write]. Each call that does not end it
    stores at least one byte, so as many calls as bytes are enough. *)
Fixpoint write_loop (fuel : nat) (fd : Z) (rest : bytes) : M os bool :=
  if decide (zlen rest <= 0) then ret true else
  match fuel with
  | O => lift Undefined
  | S fuel =>
      let! n := FileWrite fd rest in
      if decide (n <= 0) then ret false else write_loop fuel fd (zdrop n rest)
  end.

Definition WriteSnapshot (filepath : bytes) (entries : list entry) : M os bool :=
  let content := snapshot_content entries in
  let tmp_path := filepath ++ str ".tmp" in
  let! fd := FileOpenWrite tmp_path in
  if decide (fd < 0) then ret false else
  let! written := write_loop (length content) fd content in
  if negb written then
    do! FileClose fd in
    do! FileDelete tmp_path in
    ret false
  else
    do! FileClose fd in
    do! FileDelete filepath in
    let! r := sys_rename tmp_path filepath in
    if decide (r <> 0) then ret false else ret true.

(** The loop over the entries: [count] of them are left, [entries] is the output
    vector. *)
Fixpoint parse_entries (count : nat) (content : bytes) (offset : Z) (entries : list entry)
    : res (bool * list entry) :=
  match count with
  | O => Ret (true, entries)
  | S count =>
      let? (e, consumed) :=
        SnapshotEntry_Deserialize content offset (u64 (zlen content - offset - 4)) in
      if decide (consumed = 0) then Ret (false, entries)
      else parse_entries count content (offset + consumed)
             (entries ++ [(entry_key e, entry_value e)])
  end.

(** [ReadSnapshot] once the file has been read into [content], up to the entry count;
    [None] where it returns [false]. *)
Definition parse_header (content : bytes) : res (option Z) :=
  let data_len := zlen content - 4 in
  let? ok := VerifyChecksum content 0 data_len in
  if negb ok then Ret None else
  let? magic := sub content 0 5 in
  if decide (magic <> MAGIC) then Ret None else
  let offset := 5 in
  let? v0 := at_ content offset in
  let? v1 := at_ content (offset + 1) in
  let? v2 := at_ content (offset + 2) in
  let? v3 := at_ content (offset + 3) in
  let version := get_le32 v0 v1 v2 v3 in
  let offset := offset + 4 in
  if decide (version <> VERSION) then Ret None else
  let? c0 := at_ content offset in
  let? c1 := at_ content (offset + 1) in
  let? c2 := at_ content (offset + 2) in
  let? c3 := at_ content (offset + 3) in
  Ret (Some (get_le32 c0 c1 c2 c3)).

(** The rest: [entries.reserve(entry_count)] and the loop. *)
Definition read_entries (content : bytes) (entries : list entry) : M os (bool * list entry) :=
  let! header := lift (parse_header content) in
  match header with
  | None => ret (false, entries)
  | Some entry_count =>
      do! sys_reserve entry_count in
      lift (parse_entries (Z.to_nat entry_count) content 13 [])
  end.

(** What [read_entries] yields when there is memory. *)
Definition parse_snapshot (content : bytes) (entries : list entry) : res (bool * list entry) :=
  let? header := parse_header content in
  match header with
  | None => Ret (false, entries)
  | Some entry_count => parse_entries (Z.to_nat entry_count) content 13 []
  end.

(** [ReadSnapshot(filepath, entries)]: the result and the output vector. *)
Definition ReadSnapshot (filepath : bytes) (entries : list entry) : M os (bool * list entry) :=
  let! fd := FileOpenRead filepath in
  if decide (fd < 0) then ret (false, entries) else
  let! file_size := FileSeek fd 0 SEEK_END in
  do! FileSeek fd 0 SEEK_SET in
  if decide (file_size <= 13) then
    do! FileClose fd in ret (false, entries)
  else
  let! content := read_loop FileRead (Z.to_nat file_size) fd file_size [] in
  do! FileClose fd in
  if decide (zlen content <> file_size) then ret (false, entries) else
  read_entries content entries.

Definition Create (data_dir : bytes) (entries : list entry) : M os bool :=
  WriteSnapshot (GetSnapshotPath data_dir) entries.

Definition Load (data_dir : bytes) (entries : list entry) : M os (bool * list entry) :=
  ReadSnapshot (GetSnapshotPath data_dir) entries.

Definition IsValid (data_dir : bytes) : M os bool :=
  let! (ok, _) := Load data_dir [] in ret ok.

Definition Remove (data_dir : bytes) : M os bool :=
  do! FileDelete (GetSnapshotPath data_dir) in ret true.

Definition pair_fits (e : entry) : Prop := fits16 e.1 /\ fits16 e.2.

(** A list of entries the format can hold. *)
Definition snapshot_fits (entries : list entry) : Prop :=
  Forall pair_fits entries /\ zlen entries < 2 ^ 32.

#[global] Arguments snapshot_content : simpl never.

(** ** The file image is read back *)

Lemma zlen_bind_entries (es : list entry) :
  zlen es <= zlen (es ≫= fun e => SnapshotEntry_Serialize (to_entry e)).
Proof.
  induction es as [|e es IH]; [done|]. rewrite bind_cons.
  pose proof (entry_Serialize_length (to_entry e)). zlen.
Qed.

Lemma parse_entries_ok es : forall p q acc,
  Forall pair_fits es -> zlen q = 4 ->
  zlen (p ++ (es ≫= fun e => SnapshotEntry_Serialize (to_entry e)) ++ q) < 2 ^ 64 ->
  parse_entries (length es) (p ++ (es ≫= fun e => SnapshotEntry_Serialize (to_entry e)) ++ q)
    (zlen p) acc = Ret (true, acc ++ es).
Proof.
  induction es as [|e es IH]; intros p q acc Hfit Hq Hlen.
  { cbn. by rewrite app_nil_r. }
  inversion Hfit as [|?? He Hes]; subst. rewrite bind_cons, <-app_assoc in *.
  cbn [length parse_entries].
  pose proof (entry_Serialize_length (to_entry e)).
  unfold u64. rewrite Z.mod_small by zlen.
  rewrite entry_Deserialize_Serialize by (done || zlen). cbn [res_bind].
  rewrite decide_False by zlen.
  rewrite app_assoc, <-zlen_app in *. rewrite IH by done.
  rewrite <-app_assoc. by destruct e.
Qed.

Lemma parse_header_content es :
  zlen es < 2 ^ 32 -> parse_header (snapshot_content es) = Ret (Some (zlen es)).
Proof.
  intros Hcount. unfold parse_header, snapshot_content.
  set (body := es ≫= _) in *. pose proof (zlen_nonneg es).
  unfold u32 in *. rewrite Z.mod_small in * by lia.
  set (content := MAGIC ++ _ ++ _ ++ body) in *. unfold AppendChecksum in *.
  pose proof (VerifyChecksum_stored [] content [] _ (CRC32_range content)) as Hver.
  rewrite app_nil_l, app_nil_r, zlen_nil, Z.eqb_refl in Hver.
  replace (zlen (content ++ le32 (CRC32 content)) - 4) with (zlen content) by zlen.
  rewrite Hver. cbn [res_bind negb].
  set (footer := le32 (CRC32 content)) in *.
  rewrite (sub_split _ [] MAGIC (le32 VERSION ++ le32 (zlen es) ++ body ++ footer))
    by (try done; subst content; list_eq).
  cbn [res_bind]. rewrite decide_False by auto.
  etrans; [apply (read_le32 _ MAGIC (le32 (zlen es) ++ body ++ footer));
             [subst content; list_eq|done]|].
  rewrite get_le32_le32 by (unfold VERSION; lia). rewrite decide_False by auto.
  etrans; [apply (read_le32 _ (MAGIC ++ le32 VERSION) (body ++ footer));
             [subst content; list_eq|done]|].
  by rewrite get_le32_le32 by lia.
Qed.

Lemma parse_snapshot_content es acc :
  snapshot_fits es -> zlen (snapshot_content es) < 2 ^ 64 ->
  parse_snapshot (snapshot_content es) acc = Ret (true, es).
Proof.
  intros [Hfit Hcount] Hlen. unfold parse_snapshot. rewrite parse_header_content by done.
  cbn [res_bind]. unfold zlen at 1. rewrite Nat2Z.id. pose proof (zlen_nonneg es).
  unfold snapshot_content in *. set (body := es ≫= _) in *.
  unfold u32 in *. rewrite Z.mod_small in * by lia.
  set (content := MAGIC ++ _ ++ _ ++ body) in *. unfold AppendChecksum in *.
  set (footer := le32 (CRC32 content)) in *.
  assert (zlen footer = 4) as Hfooter by done. clearbody footer.
  assert (content ++ footer = (MAGIC ++ le32 VERSION ++ le32 (zlen es)) ++ body ++ footer) as Hc
    by (subst content; list_eq).
  rewrite Hc in *. change 13 with (zlen (MAGIC ++ le32 VERSION ++ le32 (zlen es))).
  by apply (parse_entries_ok es _ footer []).
Qed.

(** ** Memory safety of the reader *)

Lemma parse_entries_safe count : forall content offset acc,
  0 <= offset -> offset + 4 <= zlen content -> zlen content < 2 ^ 64 ->
  exists b es, parse_entries count content offset acc = Ret (b, es).
Proof.
  induction count as [|count IH]; intros content offset acc H0 H4 H64; [eexists _, _; done|].
  cbn [parse_entries]. unfold u64. rewrite Z.mod_small by lia.
  destruct (entry_Deserialize_safe content offset (zlen content - offset - 4))
    as (e & n & -> & Hn); [lia..|]. cbn [res_bind].
  case_decide; [eexists _, _; done|]. apply IH; lia.
Qed.

Lemma parse_header_safe content :
  17 <= zlen content -> exists h, parse_header content = Ret h.
Proof.
  intros H17. unfold parse_header.
  destruct (VerifyChecksum_ok content 0 (zlen content - 4)) as [b ->]; [lia..|]. cbn [res_bind].
  destruct b; [|by eexists]. cbn [negb]. rewrite sub_ok by lia. cbn [res_bind].
  case_decide; [by eexists|].
  do 4 (match goal with |- context [at_ content ?i] =>
    destruct (at_ok content i) as [? ->]; [lia|]; cbn [res_bind] end).
  case_decide; [by eexists|].
  do 4 (match goal with |- context [at_ content ?i] =>
    destruct (at_ok content i) as [? ->]; [lia|]; cbn [res_bind] end).
  by eexists.
Qed.

Lemma parse_snapshot_safe content acc :
  17 <= zlen content -> zlen content < 2 ^ 64 ->
  exists b es, parse_snapshot content acc = Ret (b, es).
Proof.
  intros H17 H64. unfold parse_snapshot.
  destruct (parse_header_safe content H17) as [[n|] ->]; [|by eexists _, _].
  apply parse_entries_safe; lia.
Qed.

Lemma parse_entries_fits count : forall content offset acc es,
  Forall pair_fits acc -> parse_entries count content offset acc = Ret (true, es) ->
  Forall pair_fits es /\ zlen es = zlen acc + Z.of_nat count.
Proof.
  induction count as [|count IH]; intros content offset acc es Hacc; cbn [parse_entries].
  { intros [= <-]. split; [done|lia]. }
  intros H. apply res_bind_Ret in H as ([e n] & He & H). case_decide as Hn; [done|].
  destruct (entry_Deserialize_sound _ _ _ _ _ He Hn) as (Hfit & _).
  apply IH in H as [? Hlen]; [|by apply Forall_app_2; [|constructor; [exact Hfit|]]].
  split; [done|]. rewrite Hlen. zlen.
Qed.

(** Entries read from any file have lengths that fit. *)
Lemma parse_snapshot_fits content acc es :
  parse_snapshot content acc = Ret (true, es) -> Forall pair_fits es.
Proof.
  unfold parse_snapshot. intros H. apply res_bind_Ret in H as ([n|] & _ & H); [|done].
  by eapply parse_entries_fits in H as [? _].
Qed.

(** ** Reading a file *)

(** What [ReadSnapshot] makes of the contents of the file, if there is one. *)
Definition read_result (c : option bytes) (entries : list entry) : res (bool * list entry) :=
  match c with
  | None => Ret (false, entries)
  | Some c => if decide (zlen c <= 13) then Ret (false, entries) else parse_snapshot c entries
  end.

(** [o'] has come from [o] by opening [path] on descriptor [next_fd o], now at [pos]. *)
Record reading (path : bytes) (o : os) (pos : Z) (o' : os) : Prop := {
  rd_fd : fds o' !! next_fd o = Some (path, pos);
  rd_files : files o' = files o;
  rd_kept : forall fd, fd < next_fd o -> fds o' !! fd = fds o !! fd;
  rd_next : next_fd o' = next_fd o + 1;
  rd_free : fault_free o'
}.

Lemma reading_move path o pos pos' o' :
  reading path o pos o' ->
  reading path o pos' (set_fds (<[next_fd o := (path, pos')]> (fds o')) o').
Proof.
  intros [Hfd Hfiles Hkept Hn Hf]. split; simpl; try done; [apply lookup_insert_eq|].
  intros fd Hlt. rewrite lookup_insert_ne by lia. by apply Hkept.
Qed.

Lemma reading_close path o pos o' :
  reading path o pos o' ->
  exists o'', FileClose (next_fd o) o' = (Ret tt, o'') /\
    files o'' = files o /\ fds_kept o o'' /\ fault_free o''.
Proof.
  intros [Hfd Hfiles Hkept Hn Hf]. eexists. split; [done|]. simpl.
  split; [done|]. split; [|done]. split; simpl; [lia|].
  intros fd Hlt. rewrite lookup_delete_ne by lia. by apply Hkept.
Qed.

Lemma reading_open path o c :
  fault_free o -> files o !! path = Some c ->
  exists o', FileOpenRead path o = (Ret (next_fd o), o') /\ reading path o 0 o'.
Proof.
  intros Hf Hc. unfold FileOpenRead.
  rewrite sys_open_ok by (rewrite ?Hc; auto). rewrite decide_False by (rewrite Hc; intros [?|?]; congruence).
  eexists. split; [done|]. split; simpl; try done; [apply lookup_insert_eq|].
  intros fd Hlt. by rewrite lookup_insert_ne by lia.
Qed.

Lemma read_entries_ok content entries o :
  fault_free o -> read_entries content entries o = (parse_snapshot content entries, o).
Proof.
  intros Hf. unfold read_entries, parse_snapshot, bind, lift.
  destruct (parse_header content) as [[n|]| | |]; try done. cbn [res_bind].
  unfold sys_reserve. case_decide; [done|]. unfold bind. by rewrite next_fault_free.
Qed.

Lemma ReadSnapshot_ok path entries o :
  fault_free o -> 0 <= next_fd o ->
  exists o', ReadSnapshot path entries o = (read_result (files o !! path) entries, o') /\
    files o' = files o /\ fds_kept o o' /\ fault_free o'.
Proof.
  intros Hf Hn. unfold ReadSnapshot.
  destruct (files o !! path) as [c|] eqn:Hc; cycle 1.
  { unfold FileOpenRead. rewrite (bind_Ret _ _ _ _ _ (sys_open_missing path false o Hf Hc)).
    rewrite decide_True by lia. eexists. by repeat split. }
  destruct (reading_open path o c Hf Hc) as (o1 & Hopen & Hr1).
  rewrite (bind_Ret _ _ _ _ _ Hopen), decide_False by lia.
  assert (forall pos o', reading path o pos o' -> file_contents o' path = c) as Hcont.
  { intros pos o' Hr. unfold file_contents. by rewrite (rd_files _ _ _ _ Hr), Hc. }
  unfold FileSeek.
  pose proof (sys_lseek_ok (next_fd o) 0 SEEK_END path 0 o1 (rd_fd _ _ _ _ Hr1)) as Hseek.
  simpl in Hseek. rewrite (Hcont _ _ Hr1), Z.add_0_r in Hseek.
  rewrite (bind_Ret _ _ _ _ _ Hseek).
  pose proof (reading_move _ _ _ (zlen c) _ Hr1) as Hr2. clear Hseek Hopen Hr1.
  set (o2 := set_fds _ o1) in *. clearbody o2.
  pose proof (sys_lseek_ok (next_fd o) 0 SEEK_SET path _ o2 (rd_fd _ _ _ _ Hr2)) as Hseek.
  rewrite (bind_Ret _ _ _ _ _ Hseek).
  pose proof (reading_move _ _ _ 0 _ Hr2) as Hr3. clear Hseek Hr2.
  set (o3 := set_fds _ o2) in *. clearbody o3. cbn [read_result].
  case_decide as H13.
  - destruct (reading_close _ _ _ _ Hr3) as (o4 & Hclose & ?).
    rewrite (bind_Ret _ _ _ _ _ Hclose). by exists o4.
  - assert (read_loop FileRead (Z.to_nat (zlen c)) (next_fd o) (zlen c) [] o3
            = (Ret c, set_fds (<[next_fd o := (path, zlen c)]> (fds o3)) o3)) as Hloop.
    { apply read_loop_ok; [done|apply Hr3|apply Hr3|by apply (Hcont 0)|].
      exists c. unfold zlen. split; [done|lia]. }
    rewrite (bind_Ret _ _ _ _ _ Hloop).
    destruct (reading_close _ _ _ _ (reading_move _ _ _ (zlen c) _ Hr3)) as (o4 & Hclose & ?).
    rewrite (bind_Ret _ _ _ _ _ Hclose), decide_False by auto. rewrite read_entries_ok by apply H.
    by exists o4.
Qed.

(** ** Writing a file *)

(** [o'] has come from [o] by opening the temporary file on descriptor [next_fd o] and
    writing [c] to it. *)
Record writing (tmp : bytes) (o : os) (c : bytes) (o' : os) : Prop := {
  wt_fd : fds o' !! next_fd o = Some (tmp, zlen c);
  wt_file : files o' !! tmp = Some c;
  wt_files : files_kept [tmp] o o';
  wt_kept : forall fd, fd < next_fd o -> fds o' !! fd = fds o !! fd;
  wt_next : next_fd o' = next_fd o + 1
}.

(** The end of any call on the temporary file: its contents are whatever they are. *)
Definition tmp_dirty (tmp : bytes) (o o' : os) : Prop :=
  files_kept [tmp] o o' /\ fds_kept o o'.

Lemma writing_dirty tmp o c o' : writing tmp o c o' -> tmp_dirty tmp o o'.
Proof. intros [Hfd Hfile Hfiles Hkept Hn]. split; [done|]. split; [lia|done]. Qed.

Lemma write_loop_cases fuel : forall tmp o c rest o',
  writing tmp o c o' -> (length rest <= fuel)%nat ->
  exists r o'', write_loop fuel (next_fd o) rest o' = (r, o'') /\
    (r = Ret true /\ writing tmp o (c ++ rest) o''
     \/ r = Ret false /\ tmp_dirty tmp o o''
     \/ r = Crashed /\ files_kept [tmp] o o'').
Proof.
  induction fuel as [|fuel IH]; intros tmp o c rest o' Hw Hfuel; cbn [write_loop].
  { destruct rest; [|simpl in *; lia]. rewrite decide_True by done.
    eexists _, _. split; [done|]. left. by rewrite app_nil_r. }
  case_decide as Hrest.
  { destruct rest; [|zlen]. eexists _, _. split; [done|]. left. by rewrite app_nil_r. }
  pose proof Hw as [Hfd Hfile Hfiles Hkept Hn]. unfold FileWrite.
  destruct (sys_write_cases (next_fd o) rest tmp c o' Hfd Hfile)
    as (r & o1 & k & Hwr & Hk & Hf1 & Hn1 & Hcase).
  assert (files_kept [tmp] o o1) as Hfiles1.
  { intros p Hp. rewrite Hf1, lookup_insert_ne; [by apply Hfiles|].
    intros ->. by apply not_elem_of_cons in Hp as [? _]. }
  destruct Hcase as [(-> & Hfds)|[(-> & -> & Hfds)| ->]].
  - assert (forall fd, fd < next_fd o -> fds o1 !! fd = fds o !! fd) as Hkept1.
    { intros fd Hlt. rewrite Hfds, lookup_insert_ne by lia. by apply Hkept. }
    rewrite (bind_Ret _ _ _ _ _ Hwr). case_decide as Hk0.
    + eexists _, _. split; [done|]. right. left. split; [done|]. split; [done|].
      split; [lia|done].
    + destruct (IH tmp o (c ++ ztake k rest) (zdrop k rest) o1) as (r & o2 & -> & Hc2).
      * split; [| |done|done|lia].
        -- rewrite Hfds, lookup_insert_eq. do 2 f_equal. zlen.
        -- by rewrite Hf1, lookup_insert_eq.
      * unfold zdrop. rewrite length_drop. unfold zlen in *. lia.
      * rewrite <-app_assoc, ztake_zdrop in Hc2. eauto.
  - rewrite (bind_Ret _ _ _ _ _ Hwr), decide_True by lia.
    eexists _, _. split; [done|]. right. left. split; [done|]. split; [done|].
    split; [lia|]. intros fd Hlt. rewrite Hfds. by apply Hkept.
  - rewrite (bind_Crashed _ _ _ _ Hwr). eexists _, _. split; [done|]. by right; right.
Qed.

(** What replacing the file can leave behind: the new contents (and success), or
    failure or death with the old contents or with no file at all. *)
Definition replaced (path content : bytes) (o : os) (r : res bool) (o' : os) : Prop :=
  files_kept [path; path ++ str ".tmp"] o o' /\
  (r = Ret true /\ files o' !! path = Some content /\ fds_kept o o'
   \/ r = Ret false /\ (files o' !! path = files o !! path \/ files o' !! path = None)
        /\ fds_kept o o'
   \/ r = Crashed /\ (files o' !! path = files o !! path \/ files o' !! path = None)).

Lemma tmp_ne (path : bytes) : path ++ str ".tmp" <> path.
Proof. intros E. apply (f_equal length) in E. rewrite length_app in E. simpl in E. lia. Qed.

Lemma FileClose_kept fd o o' :
  next_fd o <= fd -> fds_kept o o' ->
  exists o'', FileClose fd o' = (Ret tt, o'') /\ files o'' = files o' /\ fds_kept o o''.
Proof.
  intros Hle [Hn Hk]. eexists. split; [done|]. split; [done|]. split; [done|].
  intros fd' Hlt. simpl. rewrite lookup_delete_ne by lia. by apply Hk.
Qed.

Lemma FileDelete_cases path o o' :
  fds_kept o o' ->
  exists r o'', FileDelete path o' = (r, o'') /\ (r = Ret tt \/ r = Crashed) /\
    (files o'' = files o' \/ files o'' = delete path (files o')) /\ fds_kept o o''.
Proof.
  intros [Hn Hk]. unfold FileDelete.
  destruct (sys_unlink_cases path o') as (r & o'' & Hu & Hr & Hf & Hfds & Hn').
  exists (match r with Ret _ => Ret tt | _ => Crashed end), o''.
  assert (fds_kept o o'') as Hk' by (split; [lia|intros; rewrite Hfds; by apply Hk]).
  destruct Hr as [[n ->]| ->].
  - rewrite (bind_Ret _ _ _ _ _ Hu). auto.
  - rewrite (bind_Crashed _ _ _ _ Hu). auto.
Qed.

(** Giving up: the descriptor is closed and the temporary file removed. *)
Lemma abort_tmp tmp o o' :
  tmp_dirty tmp o o' ->
  exists r o'', (do! FileClose (next_fd o) in do! FileDelete tmp in ret false) o' = (r, o'') /\
    (r = Ret false \/ r = Crashed) /\ files_kept [tmp] o o'' /\ fds_kept o o''.
Proof.
  intros [Hfk Hk]. destruct (FileClose_kept (next_fd o) o o') as (o1 & Hc & Hf1 & Hk1); [lia|done|].
  rewrite (bind_Ret _ _ _ _ _ Hc).
  destruct (FileDelete_cases tmp o o1 Hk1) as (r & o2 & Hd & Hr & Hf2 & Hk2).
  assert (files_kept [tmp] o o2) as Hfk2.
  { intros p Hp. destruct Hf2 as [-> | ->]; rewrite Hf1; [by apply Hfk|].
    rewrite lookup_delete_ne; [by apply Hfk|]. intros ->. by apply not_elem_of_cons in Hp as [? _]. }
  destruct Hr as [-> | ->].
  - rewrite (bind_Ret _ _ _ _ _ Hd). eauto 10.
  - rewrite (bind_Crashed _ _ _ _ Hd). eauto 10.
Qed.

(** Committing: close, remove the old file, rename the temporary one over it. *)
Lemma commit_tmp path c o o' :
  writing (path ++ str ".tmp") o c o' ->
  exists r o'',
    (do! FileClose (next_fd o) in
     do! FileDelete path in
     let! r := sys_rename (path ++ str ".tmp") path in
     if decide (r <> 0) then ret false else ret true) o' = (r, o'') /\
    replaced path c o r o''.
Proof.
  intros Hw. pose proof (tmp_ne path) as Hne. set (tmp := path ++ str ".tmp") in *.
  destruct (writing_dirty _ _ _ _ Hw) as [Hfk Hk].
  destruct (FileClose_kept (next_fd o) o o') as (o1 & Hc & Hf1 & Hk1); [lia|done|].
  rewrite (bind_Ret _ _ _ _ _ Hc).
  destruct (FileDelete_cases path o o1 Hk1) as (r2 & o2 & Hd & Hr2 & Hf2 & Hk2).
  assert (files o1 !! path = files o !! path) as Hp1.
  { rewrite Hf1. apply Hfk. by rewrite list_elem_of_singleton. }
  assert (files o2 !! path = files o !! path \/ files o2 !! path = None) as Hp2.
  { destruct Hf2 as [-> | ->]; [by left|right; apply lookup_delete_eq]. }
  assert (files_kept [path; tmp] o o2) as Hfk2.
  { intros p Hp. apply not_elem_of_cons in Hp as [Hp1' Hp2']. rewrite <-(Hfk p Hp2'), <-Hf1.
    destruct Hf2 as [-> | ->]; [done|]. by rewrite lookup_delete_ne. }
  assert (files o2 !! tmp = Some c) as Ht2.
  { destruct Hf2 as [-> | ->]; [|rewrite lookup_delete_ne by done]; rewrite Hf1; apply Hw. }
  destruct Hr2 as [-> | ->]; cycle 1.
  { rewrite (bind_Crashed _ _ _ _ Hd). eexists _, _. split; [done|]. split; [done|]. auto. }
  rewrite (bind_Ret _ _ _ _ _ Hd).
  destruct (sys_rename_cases tmp path c o2 Ht2) as (r3 & o3 & Hren & Hcase & Hfds & Hn).
  assert (fds_kept o o3) as Hk3.
  { destruct Hk2 as [? Hk2]. split; [lia|]. intros. rewrite Hfds. by apply Hk2. }
  destruct Hcase as [[-> Hf3]|[Hr3 Hf3]].
  - rewrite (bind_Ret _ _ _ _ _ Hren), decide_False by auto.
    eexists _, _. split; [done|]. split.
    + intros p Hp. pose proof (Hfk2 p Hp) as Hp'. apply not_elem_of_cons in Hp as [? Hp].
      rewrite Hf3, lookup_insert_ne, lookup_delete_ne; [done| |done].
      intros <-. apply Hp. by left.
    + left. by rewrite Hf3, lookup_insert_eq.
  - assert (files_kept [path; tmp] o o3) as Hfk3 by (intros p Hp; rewrite Hf3; by apply Hfk2).
    destruct Hr3 as [-> | ->].
    + rewrite (bind_Ret _ _ _ _ _ Hren), decide_True by done.
      eexists _, _. split; [done|]. split; [done|]. right. left. by rewrite Hf3.
    + rewrite (bind_Crashed _ _ _ _ Hren).
      eexists _, _. split; [done|]. split; [done|]. right. right. by rewrite Hf3.
Qed.

Lemma WriteSnapshot_cases path es o :
  0 <= next_fd o ->
  exists r o', WriteSnapshot path es o = (r, o') /\ replaced path (snapshot_content es) o r o'.
Proof.
  intros Hn. unfold WriteSnapshot. set (tmp := path ++ str ".tmp").
  assert (tmp <> path) as Htmp by apply tmp_ne.
  assert (forall o', files_kept [tmp] o o' -> files_kept [path; tmp] o o'
          /\ files o' !! path = files o !! path) as Hweak.
  { intros o' Hk. split.
    - intros p Hp. apply Hk. intros Hin. apply Hp. by right.
    - apply Hk. by rewrite list_elem_of_singleton. }
  unfold FileOpenWrite.
  destruct (sys_open_cases tmp true true o) as (r1 & o1 & Hop & [(-> & Hf & Hfds & Hn1)|(Hr1 & Hf & Hfds & Hn1)]); cycle 1.
  { assert (files_kept [tmp] o o1) as Hk by (intros p _; by rewrite Hf).
    destruct (Hweak _ Hk) as [Hk' Hsame].
    destruct Hr1 as [-> | ->].
    - rewrite (bind_Ret _ _ _ _ _ Hop), decide_True by lia. eexists _, _. split; [done|].
      split; [done|]. right. left. split; [done|]. split; [by left|].
      split; [lia|]. intros fd _. by rewrite Hfds.
    - rewrite (bind_Crashed _ _ _ _ Hop). eexists _, _. split; [done|]. split; [done|].
      right. right. auto. }
  rewrite (bind_Ret _ _ _ _ _ Hop), decide_False by lia. rewrite decide_True in Hf by auto.
  assert (writing tmp o [] o1) as Hw.
  { split.
    - by rewrite Hfds, lookup_insert_eq.
    - by rewrite Hf, lookup_insert_eq.
    - intros p Hp. rewrite Hf, lookup_insert_ne; [done|]. intros ->.
      by apply not_elem_of_cons in Hp as [? _].
    - intros fd Hlt. by rewrite Hfds, lookup_insert_ne by lia.
    - done. }
  destruct (write_loop_cases (length (snapshot_content es)) tmp o [] (snapshot_content es) o1 Hw)
    as (r2 & o2 & Hloop & Hcase); [lia|].
  destruct Hcase as [(-> & Hw2)|[(-> & Hfk & Hk2)|(-> & Hfk)]]; cycle 2.
  { rewrite (bind_Crashed _ _ _ _ Hloop). destruct (Hweak _ Hfk).
    eexists _, _. split; [done|]. split; [done|]. right. right. auto. }
  - rewrite (bind_Ret _ _ _ _ _ Hloop). cbn [negb]. by apply commit_tmp.
  - rewrite (bind_Ret _ _ _ _ _ Hloop). cbn [negb].
    destruct (abort_tmp tmp o o2) as (r & o3 & -> & Hr & Hfk3 & Hk3); [by split|].
    destruct (Hweak _ Hfk3) as [Hfk' Hsame]. eexists _, _. split; [done|]. split; [done|].
    right. destruct Hr as [-> | ->]; [left|right]; auto.
Qed.

(** With no faults the new file is in place and the call succeeds. *)
Lemma WriteSnapshot_ok path es o :
  fault_free o -> 0 <= next_fd o ->
  exists o', WriteSnapshot path es o = (Ret true, o') /\
    replaced path (snapshot_content es) o (Ret true) o' /\ fault_free o'.
Proof.
  intros Hf Hn. destruct (WriteSnapshot_cases path es o Hn) as (r & o' & Hws & Hrep).
  enough (r = Ret true /\ fault_free o') as [-> Hf'] by eauto.
  revert Hws. unfold WriteSnapshot, FileOpenWrite. set (tmp := path ++ str ".tmp").
  pose proof (tmp_ne path) as Hne. fold tmp in Hne.
  assert (sys_open tmp true true o = (Ret (next_fd o), new_fd (tmp, 0) (set_files (<[tmp := []]> (files o)) o)))
    as Hopen by (rewrite sys_open_ok by auto; by rewrite decide_True by auto).
  rewrite (bind_Ret _ _ _ _ _ Hopen), decide_False by lia. clear Hopen.
  set (o1 := new_fd _ _). set (content := snapshot_content es).
  assert (0 < zlen content) as Hpos.
  { subst content. unfold snapshot_content, AppendChecksum. zlen. }
  assert (write_loop (length content) (next_fd o) content o1 =
          (Ret true, appended (next_fd o) tmp [] content (zlen content) o1)) as Hloop.
  { destruct (length content) as [|fuel] eqn:El; [unfold zlen in *; lia|]. cbn [write_loop].
    rewrite decide_False by lia. unfold FileWrite.
    rewrite (bind_Ret _ _ _ _ _ (sys_write_ok (next_fd o) content tmp [] o1 Hf
      (lookup_insert_eq _ _ _) (lookup_insert_eq _ _ _))).
    rewrite decide_False, zdrop_ge by lia. by destruct fuel. }
  rewrite (bind_Ret _ _ _ _ _ Hloop). cbn [negb]. set (o2 := appended _ _ _ _ _ o1).
  unfold FileClose, sys_close. unfold bind at 1, modify. set (o3 := set_fds _ o2).
  assert (fault_free o3) as Hf3 by done.
  destruct (sys_unlink_ok path o3 Hf3) as (n & o4 & Hu & Hfiles4 & Hf4).
  assert (FileDelete path o3 = (Ret tt, o4)) as Hd.
  { unfold FileDelete. by rewrite (bind_Ret _ _ _ _ _ Hu). }
  assert (files o4 !! tmp = Some content) as Ht.
  { rewrite Hfiles4, lookup_delete_ne by done. simpl. rewrite lookup_insert_eq. by rewrite ztake_ge by lia. }
  rewrite (bind_Ret _ _ _ _ _ Hd), (bind_Ret _ _ _ _ _ (sys_rename_ok tmp path _ o4 Hf4 Ht)).
  rewrite decide_False by auto. intros [= <- <-]. done.
Qed.
