(* ===== verification/KvStore.v ===== *)
(** * The in-memory store: class [KvStore] of [src/storage/kv_store.cpp]

    Its operations over a finite map, what a traversal of the hash table may yield,
    and the interface ([KvBackend]) that the server's request handler is verified
    against. Every method holds the store's [shared_mutex] from its first line to its
    last, so a method is one transition of the map. *)

From S2P Require Import Prelude.

(** ** Traversing the table

    [absl::flat_hash_map] promises each element once, in no particular order. *)
Definition entries := list (bytes * bytes).

Definition traversal (order : gmap bytes bytes -> entries) : Prop :=
  forall m, order m ≡ₚ map_to_list m.

(** ** The class *)

Record KvStore := MkKv { data_ : gmap bytes bytes }.

Definition KvStore_new : KvStore := MkKv ∅.

Definition KvStore_Set (key value : bytes) : M KvStore unit :=
  modify (fun s => MkKv (<[key := value]> (data_ s))).

Definition KvStore_Get (key : bytes) : M KvStore (option bytes) :=
  gets (fun s =>
    match data_ s !! key with
    | None => None
    | Some v => Some v
    end).

(** [data_.erase(key) > 0]: the number of elements erased is 0 or 1. *)
Definition KvStore_Delete (key : bytes) : M KvStore bool := fun s =>
  let erased := if decide (is_Some (data_ s !! key)) then 1 else 0 in
  (Ret (bool_decide (0 < erased)), MkKv (delete key (data_ s))).

Definition KvStore_Exists (key : bytes) : M KvStore bool :=
  gets (fun s => let count := if decide (is_Some (data_ s !! key)) then 1 else 0 in
                 bool_decide (0 < count)).

Definition KvStore_AllKeys (order : gmap bytes bytes -> entries) : M KvStore (list bytes) :=
  gets (fun s => map fst (order (data_ s))).

Definition KvStore_Size : M KvStore Z :=
  gets (fun s => Z.of_nat (size (data_ s))).

(** ** The interface to the server

    The methods the request handler calls, and the abstract map of a store. *)
Class KvBackend (S : Type) := {
  kv_set : bytes -> bytes -> M S unit;
  kv_get : bytes -> M S (option bytes);
  kv_delete : bytes -> M S bool;
  kv_exists : bytes -> M S bool;
  kv_all_keys : M S (list bytes);
  contents : S -> gmap bytes bytes
}.

(** What a client of the store relies on, for stores in [ok] states and for the
    requests [admits] lets through at the current contents. *)
Class KvLaws (S : Type) `{KvBackend S}
    (ok : S -> Prop) (admits : gmap bytes bytes -> bytes -> option bytes -> Prop) : Prop := {
  kv_set_law s k v : ok s -> admits (contents s) k (Some v) ->
    exists s', kv_set k v s = (Ret tt, s') /\ ok s' /\ contents s' = <[k := v]> (contents s);
  kv_delete_law s k : ok s -> admits (contents s) k None ->
    exists s', kv_delete k s = (Ret (bool_decide (is_Some (contents s !! k))), s') /\
      ok s' /\ contents s' = delete k (contents s);
  kv_get_law s k : ok s -> kv_get k s = (Ret (contents s !! k), s);
  kv_exists_law s k : ok s ->
    kv_exists k s = (Ret (bool_decide (is_Some (contents s !! k))), s);
  kv_keys_law s : ok s ->
    exists ks s', kv_all_keys s = (Ret ks, s') /\ ok s' /\ contents s' = contents s /\
      ks ≡ₚ (map_to_list (contents s)).*1
}.

(** The same for a store whose process may be killed inside a write: [dead s k v s'] says
    what a write of [v] to [k] on [s] leaves behind in that case. *)
Class KvMortalLaws (S : Type) `{KvBackend S}
    (ok : S -> Prop) (admits : gmap bytes bytes -> bytes -> option bytes -> Prop)
    (dead : S -> bytes -> option bytes -> S -> Prop) : Prop := {
  mortal_set_law s k v : ok s -> admits (contents s) k (Some v) ->
    exists r s', kv_set k v s = (r, s') /\
      (r = Ret tt /\ ok s' /\ contents s' = <[k := v]> (contents s)
       \/ r = Crashed /\ dead s k (Some v) s');
  mortal_delete_law s k : ok s -> admits (contents s) k None ->
    exists r s', kv_delete k s = (r, s') /\
      (r = Ret (bool_decide (is_Some (contents s !! k))) /\
       ok s' /\ contents s' = delete k (contents s)
       \/ r = Crashed /\ dead s k None s');
  mortal_get_law s k : ok s -> kv_get k s = (Ret (contents s !! k), s);
  mortal_exists_law s k : ok s ->
    kv_exists k s = (Ret (bool_decide (is_Some (contents s !! k))), s);
  mortal_keys_law s : ok s ->
    exists ks s', kv_all_keys s = (Ret ks, s') /\ ok s' /\ contents s' = contents s /\
      ks ≡ₚ (map_to_list (contents s)).*1
}.

Lemma immortal {S} `{KvBackend S} {ok admits} (laws : KvLaws S ok admits) :
  KvMortalLaws S ok admits (fun _ _ _ _ => False).
Proof.
  split; intros.
  - destruct (kv_set_law s k v) as (s' & ? & ? & ?); try done. eexists _, _. split; [done|by left].
  - destruct (kv_delete_law s k) as (s' & ? & ? & ?); try done. eexists _, _. split; [done|by left].
  - by apply kv_get_law.
  - by apply kv_exists_law.
  - by apply kv_keys_law.
Qed.

(** ** The in-memory store implements it *)

Lemma erased_positive (o : option bytes) :
  bool_decide (0 < (if decide (is_Some o) then 1 else 0)) = bool_decide (is_Some o).
Proof. case_decide; by repeat case_bool_decide. Qed.

Section kv_store.
Context (order : gmap bytes bytes -> entries) (Horder : traversal order).

#[export] Instance KvStore_backend : KvBackend KvStore := {|
  kv_set := KvStore_Set;
  kv_get := KvStore_Get;
  kv_delete := KvStore_Delete;
  kv_exists := KvStore_Exists;
  kv_all_keys := KvStore_AllKeys order;
  contents := data_
|}.

#[export] Instance KvStore_laws :
  KvLaws KvStore (fun _ => True) (fun _ _ _ => True).
Proof.
  split; intros; simpl.
  - eexists. by repeat split.
  - eexists. unfold KvStore_Delete. by rewrite erased_positive.
  - unfold KvStore_Get, gets. by destruct (data_ s !! k).
  - unfold KvStore_Exists, gets. by rewrite erased_positive.
  - eexists _, s. split; [done|]. split; [done|]. split; [done|].
    apply fmap_Permutation, Horder.
Qed.
End kv_store.
