(* ===== verification/SlidingWindow.v ===== *)
(** * Burst detection: class [SlidingWindow] of [src/storage/persistent_kv_store.cpp]

    Time stamps are nanoseconds of [steady_clock]. *)

From stdpp Require Import sorting.
From S2P Require Import Prelude.

Record SlidingWindow := MkWindow {
  max_ops_ : Z;
  window_size_ : Z;              (* milliseconds *)
  timestamps_ : list Z           (* oldest first *)
}.

Definition SlidingWindow_new (max_ops window_size : Z) : SlidingWindow :=
  MkWindow max_ops window_size [].

Definition ms : Z := 1000000.

Definition AddOp (now : Z) (w : SlidingWindow) : SlidingWindow :=
  MkWindow (max_ops_ w) (window_size_ w) (timestamps_ w ++ [now]).

(** The loop from the newest stamp backwards, which stops at the first expired one. *)
Fixpoint count_recent (cutoff : Z) (newest_first : list Z) (count : Z) : Z :=
  match newest_first with
  | [] => count
  | t :: older => if decide (t < cutoff) then count else count_recent cutoff older (count + 1)
  end.

Definition Count (now : Z) (w : SlidingWindow) : Z :=
  let cutoff := now - window_size_ w * ms in
  count_recent cutoff (rev (timestamps_ w)) 0.

Definition IsExceeded (now : Z) (w : SlidingWindow) : bool :=
  let cutoff := now - window_size_ w * ms in
  let count := count_recent cutoff (rev (timestamps_ w)) 0 in
  bool_decide (max_ops_ w < i32 count).

Definition Window_Clear (w : SlidingWindow) : SlidingWindow :=
  MkWindow (max_ops_ w) (window_size_ w) [].

(** ** What the early exit counts *)

Lemma count_recent_acc cutoff l n : count_recent cutoff l n = n + count_recent cutoff l 0.
Proof.
  revert n. induction l as [|t l IH]; intros n; simpl; [lia|]. case_decide; [lia|].
  rewrite (IH (n + 1)), (IH (0 + 1)). lia.
Qed.

(** On stamps in order, stopping at the first expired stamp loses nothing. *)
Lemma count_recent_filter cutoff l :
  StronglySorted Z.ge l ->
  count_recent cutoff l 0 = zlen (filter (fun t => cutoff <= t) l).
Proof.
  induction 1 as [|t l Hs IH Ht]; [done|]. simpl. case_decide as Hc.
  - rewrite filter_cons_False by lia.
    assert (filter (fun t => cutoff <= t) l = []) as ->; [|done].
    apply Forall_impl with (Q := fun x => ~ cutoff <= x) in Ht; [|intros x Hx; lia].
    clear - Ht. induction Ht as [|x l Hx _ IHl]; [done|]. by rewrite filter_cons_False.
  - rewrite filter_cons_True by lia. rewrite count_recent_acc, IH. zlen.
Qed.

Lemma count_recent_bound cutoff l : 0 <= count_recent cutoff l 0 <= zlen l.
Proof.
  induction l as [|t l IH]; simpl; [done|]. case_decide; [zlen|].
  rewrite count_recent_acc. zlen.
Qed.

Lemma StronglySorted_rev l : StronglySorted Z.le l -> StronglySorted Z.ge (rev l).
Proof.
  induction 1 as [|t l Hs IH Ht]; simpl; [constructor|].
  apply StronglySorted_app_2; [|done|repeat constructor].
  intros x y Hx Hy. apply list_elem_of_singleton in Hy as ->.
  rewrite Forall_forall in Ht. apply list_elem_of_In in Hx.
  apply in_rev, list_elem_of_In in Hx. specialize (Ht _ Hx). lia.
Qed.
