(* ===== verification/PersistentStore.v ===== *)
(** * The persistent store: [PersistentKvStore] of
    [src/storage/persistent_kv_store.cpp]

    The class composed from the in-memory store, the write-ahead log, the snapshot and
    the burst window, one definition per method. Methods are run to completion here;
    how the locked sections of concurrent calls interleave is outside this file. *)

From S2P Require Import Prelude Posix Codec WalRecord Wal SnapshotEntry Snapshot.
From S2P Require Import KvStore SlidingWindow.

(** ** State *)

(** What the methods read from outside: the clock, one reading per call of
    [steady_clock::now()], and the order of each traversal of the hash table. *)
Record Env := MkEnv {
  clock : nat -> Z;
  ticks : nat;
  order : nat -> gmap bytes bytes -> entries;
  walks : nat
}.

Definition env_ok (e : Env) : Prop := forall n, traversal (order e n).

(** A clock that stands still and one traversal order. *)
Definition plain_env : Env := MkEnv (fun _ => 0) 0 (fun _ m => map_to_list m) 0.

Record PersistentKvStore := MkStore {
  base_ : KvStore;               (* the [KvStore] subobject *)
  data_dir_ : bytes;
  wos : wal_os;                  (* [wal_] and the system under it *)
  op_count_ : Z;
  burst_window_ : SlidingWindow;
  env : Env
}.

Definition data (s : PersistentKvStore) : gmap bytes bytes := data_ (base_ s).
Definition store_os (s : PersistentKvStore) : os := the_os (wos s).
Definition store_wal (s : PersistentKvStore) : WAL := the_wal (wos s).

Definition on_base {A} (m : M KvStore A) : M PersistentKvStore A :=
  zoom base_ (fun b s => MkStore b (data_dir_ s) (wos s) (op_count_ s) (burst_window_ s) (env s)) m.
Definition on_wos {A} (m : M wal_os A) : M PersistentKvStore A :=
  zoom wos (fun w s => MkStore (base_ s) (data_dir_ s) w (op_count_ s) (burst_window_ s) (env s)) m.
Definition set_op_count_ (n : Z) (s : PersistentKvStore) : PersistentKvStore :=
  MkStore (base_ s) (data_dir_ s) (wos s) n (burst_window_ s) (env s).
Definition set_burst_window_ (w : SlidingWindow) (s : PersistentKvStore) : PersistentKvStore :=
  MkStore (base_ s) (data_dir_ s) (wos s) (op_count_ s) w (env s).
Definition set_env (e : Env) (s : PersistentKvStore) : PersistentKvStore :=
  MkStore (base_ s) (data_dir_ s) (wos s) (op_count_ s) (burst_window_ s) e.

(** [steady_clock::now()] *)
Definition now : M PersistentKvStore Z := fun s =>
  let e := env s in
  (Ret (clock e (ticks e)), set_env (MkEnv (clock e) (S (ticks e)) (order e) (walks e)) s).

(** [for (const auto& [key, value] : data_)] *)
Definition walk : M PersistentKvStore entries := fun s =>
  let e := env s in
  (Ret (order e (walks e) (data s)),
   set_env (MkEnv (clock e) (ticks e) (order e) (S (walks e))) s).

Definition kSnapshotInterval : Z := 500.
Definition kBurstMaxOps : Z := 100.
Definition kBurstWindowMs : Z := 1000.

(** ** Methods *)

(** [data_.insert_or_assign] for each loaded entry. *)
Definition load_entries (es : entries) (m : gmap bytes bytes) : gmap bytes bytes :=
  foldl (fun m e => <[e.1 := e.2]> m) m es.

(** The [switch (record.op)] of the replay loop: other values of the byte match no case. *)
Definition replay_record (m : gmap bytes bytes) (r : WALRecord) : gmap bytes bytes :=
  if decide (op r = OP_SET) then <[key r := value r]> m
  else if decide (op r = OP_DEL) then delete (key r) m
  else m.

Definition replay (records : list WALRecord) (m : gmap bytes bytes) : gmap bytes bytes :=
  foldl replay_record m records.

Definition Recover : M PersistentKvStore unit :=
  let! dir := gets data_dir_ in
  let! valid := on_wos (on_os (IsValid dir)) in
  do! (if valid then
         let! (ok, es) := on_wos (on_os (Load dir [])) in
         if ok then on_base (modify (fun b => MkKv (load_entries es (data_ b)))) else ret tt
       else ret tt) in
  let! records := on_wos ReadAll in
  on_base (modify (fun b => MkKv (replay records (data_ b)))).

Definition wal_path (dir : bytes) : bytes := dir ++ str "/wal.log".

(** The constructor's initialisers, and its body. *)
Definition blank_store (dir : bytes) (w : wal_os) (e : Env) : PersistentKvStore :=
  MkStore KvStore_new dir w 0 (SlidingWindow_new kBurstMaxOps kBurstWindowMs) e.

Definition construct (dir : bytes) (w : wal_os) (e : Env) : res unit * PersistentKvStore :=
  (do! on_wos (Init (wal_path dir) (MkConfig NO 1000)) in Recover) (blank_store dir w e).

Definition CreateSnapshot : M PersistentKvStore unit :=
  let! dir := gets data_dir_ in
  let! snapshot_data := walk in
  do! (if decide (snapshot_data = []) then ret tt
       else do! on_wos (on_os (Create dir snapshot_data)) in ret tt) in
  do! on_wos ClearWithoutLock in
  do! modify (set_op_count_ 0) in
  modify (fun s => set_burst_window_ (Window_Clear (burst_window_ s)) s).

Definition ForceSnapshot : M PersistentKvStore unit := CreateSnapshot.

Definition CheckSnapshotTrigger : M PersistentKvStore unit :=
  let! count := gets op_count_ in
  let by_count := bool_decide (kSnapshotInterval <= count) in
  let! t := now in
  let! window := gets burst_window_ in
  if by_count || IsExceeded t window then CreateSnapshot else ret tt.

(** Step 3 of [Set] and [Delete]. *)
Definition count_and_check : M PersistentKvStore unit :=
  do! modify (fun s => set_op_count_ (u64 (op_count_ s + 1)) s) in
  let! t := now in
  do! modify (fun s => set_burst_window_ (AddOp t (burst_window_ s)) s) in
  CheckSnapshotTrigger.

Definition Set_ (key value : bytes) : M PersistentKvStore unit :=
  do! on_wos (AppendSet key value) in
  do! on_base (KvStore_Set key value) in
  count_and_check.

Definition Delete (key : bytes) : M PersistentKvStore bool :=
  do! on_wos (AppendDel key) in
  let! result := on_base (KvStore_Delete key) in
  do! count_and_check in
  ret result.

Definition Get (key : bytes) : M PersistentKvStore (option bytes) := on_base (KvStore_Get key).
Definition Exists_ (key : bytes) : M PersistentKvStore bool := on_base (KvStore_Exists key).
Definition AllKeys : M PersistentKvStore (list bytes) :=
  let! es := walk in ret (map fst es).
Definition GetOpCount : M PersistentKvStore Z := gets op_count_.
Definition GetSnapshotInterval : M PersistentKvStore Z := ret kSnapshotInterval.

(** ** The abstract state of the files

    The map a fresh process recovers from the two files of [dir]. *)
Definition snapshot_map (dir : bytes) (fs : gmap bytes bytes) : gmap bytes bytes :=
  match read_result (fs !! GetSnapshotPath dir) [] with
  | Ret (true, es) => load_entries es ∅
  | _ => ∅
  end.

Definition wal_records (dir : bytes) (fs : gmap bytes bytes) : list WALRecord :=
  log_records (default [] (fs !! wal_path dir)).

Definition recovered (dir : bytes) (fs : gmap bytes bytes) : gmap bytes bytes :=
  replay (wal_records dir fs) (snapshot_map dir fs).

(** The snapshot file is absent, or can be scanned without undefined behaviour. *)
Definition snapshot_readable (dir : bytes) (fs : gmap bytes bytes) : Prop :=
  exists b es, read_result (fs !! GetSnapshotPath dir) [] = Ret (b, es).

(** A map whose entries the two formats can hold. *)
Definition map_fits (m : gmap bytes bytes) : Prop :=
  map_Forall (fun k v => fits16 k /\ fits16 v) m /\ Z.of_nat (size m) < 2 ^ 32.

(** The log is open at the end of a sequence of complete records, and the files hold
    the map [m]. *)
Record holds (m : gmap bytes bytes) (s : PersistentKvStore) : Prop := {
  hd_log : exists rs, Forall record_fits rs /\
             wal_ready (wal_path (data_dir_ s)) (encode_all rs) (store_wal s) (store_os s);
  hd_data : recovered (data_dir_ s) (files (store_os s)) = m;
  hd_readable : snapshot_readable (data_dir_ s) (files (store_os s));
  hd_env : env_ok (env s)
}.

(** The invariant of a healthy store: the files hold what memory holds. *)
Definition consistent (s : PersistentKvStore) : Prop :=
  holds (data s) s /\ map_fits (data s).

(** The snapshot that clearing the log would expose: [CreateSnapshot] writes no file
    for an empty map, so the map must not be empty while an older snapshot is not. *)
Definition snapshot_current (m : gmap bytes bytes) (s : PersistentKvStore) : Prop :=
  m <> ∅ \/ snapshot_map (data_dir_ s) (files (store_os s)) = ∅.

Lemma plain_env_ok : env_ok plain_env.
Proof. by intros n m. Qed.
