(* ===== verification/Durability.v ===== *)
(** * Durability of the persistent store

    The lemmas behind the recovery and crash properties of [PersistentStore]: the
    algebra of replay, the round trip through a snapshot file, and the effect of each
    method on the files and on the map they hold. *)

From S2P Require Import Prelude Posix FileIo Codec WalRecord Wal SnapshotEntry.
From S2P Require Import Snapshot KvStore SlidingWindow PersistentStore.

(** ** Replay *)

(** What a record says about a key: [Some None] deletes it. *)
Definition effect_on (k : bytes) (r : WALRecord) : option (option bytes) :=
  if decide (key r = k) then
    if decide (op r = OP_SET) then Some (Some (value r))
    else if decide (op r = OP_DEL) then Some None else None
  else None.

(** The last thing a log says about a key. *)
Definition last_write (k : bytes) (rs : list WALRecord) : option (option bytes) :=
  foldl (fun acc r => match effect_on k r with Some e => Some e | None => acc end) None rs.

Lemma replay_record_lookup m r k :
  replay_record m r !! k = match effect_on k r with Some e => e | None => m !! k end.
Proof.
  unfold replay_record, effect_on. repeat case_decide; subst; by simplify_map_eq.
Qed.

Lemma replay_app rs1 rs2 m : replay (rs1 ++ rs2) m = replay rs2 (replay rs1 m).
Proof. apply foldl_app. Qed.

Lemma replay_lookup rs m k :
  replay rs m !! k = match last_write k rs with Some e => e | None => m !! k end.
Proof.
  induction rs as [|r rs IH] using rev_ind; [done|].
  unfold last_write. rewrite replay_app, foldl_app. simpl. rewrite replay_record_lookup.
  fold (last_write k rs). destruct (effect_on k r); [done|]. apply IH.
Qed.

(** A log replayed over its own result changes nothing: recovery may run over a
    snapshot that already contains the logged operations. *)
Lemma replay_idemp rs m : replay rs (replay rs m) = replay rs m.
Proof. apply map_eq. intros k. rewrite !replay_lookup. by destruct (last_write k rs). Qed.

Lemma replay_nil m : replay [] m = m.
Proof. done. Qed.

Lemma replay_set rs m k v :
  replay (rs ++ [MkRecord OP_SET k v]) m = <[k := v]> (replay rs m).
Proof. by rewrite replay_app. Qed.

Lemma replay_del rs m k : replay (rs ++ [MkRecord OP_DEL k []]) m = delete k (replay rs m).
Proof. by rewrite replay_app. Qed.

(** ** Entries of a map *)

Lemma load_entries_list_to_map es m :
  NoDup es.*1 -> load_entries es m = list_to_map es ∪ m.
Proof.
  revert m. induction es as [|[k v] es IH]; intros m Hnd; simpl.
  { by rewrite (left_id_L ∅ (∪)). }
  apply NoDup_cons in Hnd as [Hk Hnd]. rewrite IH by done.
  assert ((list_to_map es : gmap bytes bytes) !! k = None) as Hn by by apply not_elem_of_list_to_map.
  by rewrite <-insert_union_l, insert_union_r.
Qed.

Lemma load_entries_perm es m : es ≡ₚ map_to_list m -> load_entries es ∅ = m.
Proof.
  intros Hp. assert (NoDup es.*1) as Hnd.
  { rewrite Hp. apply NoDup_fst_map_to_list. }
  rewrite load_entries_list_to_map by done. rewrite (right_id_L ∅ (∪)).
  rewrite (list_to_map_proper es _ Hnd Hp). apply list_to_map_to_list.
Qed.

Lemma snapshot_fits_perm es m : map_fits m -> es ≡ₚ map_to_list m -> snapshot_fits es.
Proof.
  intros [Hm Hsize] Hp. split.
  - rewrite Hp. apply map_Forall_to_list in Hm. eapply Forall_impl; [exact Hm|]. by intros [].
  - unfold zlen. rewrite Hp. rewrite <-length_map_to_list in Hsize. exact Hsize.
Qed.

Lemma perm_nil_empty (es : entries) (m : gmap bytes bytes) : es ≡ₚ map_to_list m -> es = [] <-> m = ∅.
Proof.
  intros Hp. split; intros H; subst.
  - apply Permutation_nil_l in Hp. by apply map_to_list_empty_iff.
  - rewrite map_to_list_empty in Hp. by apply Permutation_nil_r in Hp.
Qed.

Lemma snapshot_content_bounds es :
  snapshot_fits es -> 17 <= zlen (snapshot_content es) < 2 ^ 64.
Proof.
  intros [Hfit Hcount].
  assert (zlen (es ≫= fun e => SnapshotEntry_Serialize (to_entry e)) <= 131100 * zlen es) as Hb.
  { clear Hcount. induction Hfit as [|e es [Hk Hv] _ IH]; [done|]. rewrite bind_cons.
    pose proof (entry_Serialize_length (to_entry e)) as Hl. unfold fits16 in *. simpl in Hl. zlen. }
  unfold snapshot_content, Crc32.AppendChecksum, MAGIC. autorewrite with zlen.
  pose proof (zlen_nonneg (es ≫= fun e => SnapshotEntry_Serialize (to_entry e))).
  change (zlen (str "KVSNP")) with 5. lia.
Qed.

(** A written snapshot is read back as the map it was written from. *)
Lemma read_result_snapshot es m acc :
  map_fits m -> es ≡ₚ map_to_list m ->
  read_result (Some (snapshot_content es)) acc = Ret (true, es).
Proof.
  intros Hm Hp. pose proof (snapshot_fits_perm es m Hm Hp) as Hfit.
  pose proof (snapshot_content_bounds es Hfit). cbn [read_result].
  rewrite decide_False by lia. apply parse_snapshot_content; [done|lia].
Qed.

(** ** Paths *)

Lemma wal_path_other dir : wal_path dir ∉ [GetSnapshotPath dir; GetSnapshotPath dir ++ str ".tmp"].
Proof.
  unfold wal_path, GetSnapshotPath.
  intros H. apply elem_of_cons in H as [H|H]; [|apply list_elem_of_singleton in H];
    apply (f_equal length) in H; rewrite ?length_app in H; simpl in H; lia.
Qed.

Lemma snapshot_path_ne dir : wal_path dir <> GetSnapshotPath dir.
Proof. intros H. apply (wal_path_other dir). rewrite H. by left. Qed.

(** ** The map held by the files *)

Lemma snapshot_map_ext dir fs fs' :
  fs' !! GetSnapshotPath dir = fs !! GetSnapshotPath dir ->
  snapshot_map dir fs' = snapshot_map dir fs.
Proof. unfold snapshot_map. by intros ->. Qed.

Lemma snapshot_readable_ext dir fs fs' :
  fs' !! GetSnapshotPath dir = fs !! GetSnapshotPath dir ->
  snapshot_readable dir fs -> snapshot_readable dir fs'.
Proof. unfold snapshot_readable. by intros ->. Qed.

(** A log of complete records, possibly followed by a torn one. *)
Lemma recovered_log dir fs rs t :
  Forall record_fits rs -> dead_tail (R := WALRecord) t -> fs !! wal_path dir = Some (encode_all rs ++ t) ->
  recovered dir fs = replay rs (snapshot_map dir fs).
Proof.
  intros Hrs Ht Hfs. unfold recovered, wal_records. rewrite Hfs. simpl.
  by rewrite log_records_encode_all.
Qed.

Lemma recovered_log_clean dir fs rs :
  Forall record_fits rs -> fs !! wal_path dir = Some (encode_all rs) ->
  recovered dir fs = replay rs (snapshot_map dir fs).
Proof.
  intros Hrs Hfs. apply (recovered_log dir fs rs []); [done|left; reflexivity|by rewrite app_nil_r].
Qed.

Lemma recovered_ext dir fs fs' :
  fs' !! GetSnapshotPath dir = fs !! GetSnapshotPath dir ->
  fs' !! wal_path dir = fs !! wal_path dir ->
  recovered dir fs' = recovered dir fs.
Proof. intros Hs Hw. unfold recovered, wal_records. by rewrite (snapshot_map_ext _ _ _ Hs), Hw. Qed.

(** The state of a call that concerns only the log. *)
Definition with_wos (w : wal_os) (s : PersistentKvStore) : PersistentKvStore :=
  MkStore (base_ s) (data_dir_ s) w (op_count_ s) (burst_window_ s) (env s).

Lemma on_wos_run {A} (m : M wal_os A) s r w :
  m (wos s) = (r, w) -> on_wos m s = (r, with_wos w s).
Proof. intros H. unfold on_wos, zoom. by rewrite H. Qed.

Lemma on_os_run {A} (m : M os A) s r o :
  m (the_os s) = (r, o) -> on_os m s = (r, MkWalOs (the_wal s) o).
Proof. intros H. unfold on_os, zoom. by rewrite H. Qed.

Lemma wal_records_snoc dir fs fs' rs r :
  Forall record_fits rs -> record_fits r ->
  fs !! wal_path dir = Some (encode_all rs) ->
  fs' !! wal_path dir = Some (encode_all rs ++ WALRecord_Serialize r) ->
  wal_records dir fs' = wal_records dir fs ++ [r].
Proof.
  intros Hrs Hr Hs Hs'. unfold wal_records. rewrite Hs, Hs'. simpl.
  pose proof (log_records_encode_all rs [] Hrs ltac:(by left)) as H1.
  pose proof (log_records_encode_all (rs ++ [r]) [] ltac:(by apply Forall_app_2; [|constructor])
                ltac:(by left)) as H2.
  rewrite app_nil_r in H1, H2. rewrite encode_all_snoc in H2. simpl in H2. by rewrite H1, H2.
Qed.

Lemma Append_holds m r s :
  holds m s -> fault_free (store_os s) -> record_fits r ->
  exists w, on_wos (Append r) s = (Ret tt, with_wos w s) /\
    holds (replay_record m r) (with_wos w s) /\ fault_free (the_os w) /\
    files (the_os w) !! GetSnapshotPath (data_dir_ s)
      = files (store_os s) !! GetSnapshotPath (data_dir_ s) /\
    wal_records (data_dir_ s) (files (the_os w))
      = wal_records (data_dir_ s) (files (store_os s)) ++ [r].
Proof.
  intros [(rs & Hrs & Hw) Hdata Hread Henv] Hf Hr.
  destruct (Append_ok _ _ r _ _ Hw Hf) as (w' & o' & Happ & Hw' & Hf' & Hfiles & _ & _ & _).
  exists (MkWalOs w' o'). split.
  { apply on_wos_run. unfold store_wal, store_os in Happ. by destruct (wos s). }
  assert (files o' !! GetSnapshotPath (data_dir_ s)
          = files (store_os s) !! GetSnapshotPath (data_dir_ s)) as Hsnap.
  { rewrite Hfiles, lookup_insert_ne; [done|apply snapshot_path_ne]. }
  assert (files o' !! wal_path (data_dir_ s) = Some (encode_all rs ++ WALRecord_Serialize r)) as Hlog
    by (rewrite Hfiles; apply lookup_insert_eq).
  split; [|split_and!; try done; by apply (wal_records_snoc _ _ _ rs); [..|apply Hw|]].
  split; unfold store_os, store_wal; simpl; [| | |done].
  - exists (rs ++ [r]). rewrite encode_all_snoc. split; [|done]. by apply Forall_app_2; [|constructor].
  - rewrite (recovered_log_clean _ _ (rs ++ [r])).
    + rewrite replay_app, (snapshot_map_ext _ _ _ Hsnap). simpl. f_equal.
      rewrite <-Hdata. symmetry. apply recovered_log_clean; [done|apply Hw].
    + by apply Forall_app_2; [|constructor].
    + by rewrite Hfiles, lookup_insert_eq, encode_all_snoc.
  - by eapply snapshot_readable_ext.
Qed.

(** ** Snapshots *)

(** Once the snapshot file holds [m] and the log has been emptied, the files hold [m]. *)
Lemma recovered_snapshot dir fs es m c :
  map_fits m -> es ≡ₚ map_to_list m ->
  fs !! GetSnapshotPath dir = Some (snapshot_content es) ->
  fs !! wal_path dir = Some c ->
  snapshot_readable dir fs /\ snapshot_map dir fs = m.
Proof.
  intros Hm Hp Hs Hw. unfold snapshot_readable, snapshot_map.
  rewrite Hs, (read_result_snapshot es m [] Hm Hp). split; [eauto|]. by apply load_entries_perm.
Qed.

Lemma wal_ready_frame path c w o o' :
  wal_ready path c w o -> files o' !! path = files o !! path -> fds_kept o o' ->
  wal_ready path c w o'.
Proof.
  intros [Hen Hop Hpath Hfd Hpos Hofd Hfile] Hf [Hn Hk].
  split; try done; [lia| |by rewrite Hf]. rewrite Hk by lia. done.
Qed.

(** ** Taking a snapshot *)

Lemma traversed s : env_ok (env s) -> order (env s) (walks (env s)) (data s) ≡ₚ map_to_list (data s).
Proof. intros H. apply H. Qed.

Lemma ClearWithoutLock_run c s :
  wal_ready (wal_path (data_dir_ s)) c (store_wal s) (store_os s) -> fault_free (store_os s) ->
  exists w, on_wos ClearWithoutLock s = (Ret tt, with_wos w s) /\
    wal_ready (wal_path (data_dir_ s)) [] (the_wal w) (the_os w) /\ fault_free (the_os w) /\
    files (the_os w) = <[wal_path (data_dir_ s) := []]> (files (store_os s)).
Proof.
  intros Hw Hf. destruct (ClearWithoutLock_ok _ _ _ _ Hw Hf) as (w' & o' & Hc & Hw' & Hf' & _ & Hfiles).
  exists (MkWalOs w' o'). split; [|done].
  apply on_wos_run. unfold store_wal, store_os in Hc. by destruct (wos s).
Qed.

(** The part of [CreateSnapshot] that writes the file. *)
Definition write_snapshot (dir : bytes) (es : entries) : M PersistentKvStore unit :=
  if decide (es = []) then ret tt
  else do! on_wos (on_os (Create dir es)) in ret tt.

Lemma Create_run dir es s r o :
  Create dir es (store_os s) = (r, o) ->
  on_wos (on_os (Create dir es)) s = (r, with_wos (MkWalOs (store_wal s) o) s).
Proof.
  intros H. apply on_wos_run. unfold store_wal. by apply on_os_run.
Qed.

(** A snapshot that succeeds leaves the log as it was and the file holding [m]; for an
    empty map it does nothing. *)
Lemma write_snapshot_ok es m c s :
  let dir := data_dir_ s in
  wal_ready (wal_path dir) c (store_wal s) (store_os s) -> fault_free (store_os s) ->
  map_fits m -> es ≡ₚ map_to_list m -> snapshot_readable dir (files (store_os s)) ->
  snapshot_current m s ->
  exists w, write_snapshot dir es s = (Ret tt, with_wos w s) /\
    wal_ready (wal_path dir) c (the_wal w) (the_os w) /\ fault_free (the_os w) /\
    snapshot_readable dir (files (the_os w)) /\ snapshot_map dir (files (the_os w)) = m.
Proof.
  intros dir Hw Hf Hm Hp Hread Hcur. unfold write_snapshot. case_decide as Hes.
  - apply (perm_nil_empty es m Hp) in Hes as ->. destruct Hcur as [|Hcur]; [done|].
    exists (wos s). split; [by destruct s|]. done.
  - assert (0 <= next_fd (store_os s)) as Hn by (pose proof (wr_fd _ _ _ _ Hw); lia).
    destruct (WriteSnapshot_ok (GetSnapshotPath dir) es _ Hf Hn) as (o & Hws & [Hk Hcase] & Hf').
    destruct Hcase as [(_ & Hnew & Hfds)|[(? & _)|(? & _)]]; [|done..].
    exists (MkWalOs (store_wal s) o).
    rewrite (bind_Ret _ _ _ _ _ (Create_run dir es s _ _ Hws)). split; [done|].
    assert (files o !! wal_path dir = files (store_os s) !! wal_path dir) as Hlog
      by apply Hk, wal_path_other.
    assert (wal_ready (wal_path dir) c (store_wal s) o) as Hw' by by eapply wal_ready_frame.
    split; [done|]. split; [done|].
    exact (recovered_snapshot dir _ es m c Hm Hp Hnew (wr_file _ _ _ _ Hw')).
Qed.

(** Whatever map the files held, a snapshot makes them hold the one in memory. *)
Lemma CreateSnapshot_holds m s :
  holds m s -> map_fits (data s) -> fault_free (store_os s) -> snapshot_current (data s) s ->
  exists s', CreateSnapshot s = (Ret tt, s') /\ consistent s' /\ fault_free (store_os s') /\
    data s' = data s /\ data_dir_ s' = data_dir_ s /\ op_count_ s' = 0 /\
    burst_window_ s' = Window_Clear (burst_window_ s) /\
    wal_records (data_dir_ s) (files (store_os s')) = [].
Proof.
  intros [(rs & Hrs & Hw) _ Hread Henv] Hm Hf Hcur.
  pose proof (traversed s Henv) as Hp. unfold CreateSnapshot. rewrite bind_gets.
  unfold bind at 1. unfold walk at 1. set (es := order _ _ _) in *. set (s1 := set_env _ s).
  destruct (write_snapshot_ok es (data s) _ s1 Hw Hf Hm Hp Hread Hcur)
    as (w1 & Hrun1 & Hw1 & Hf1 & Hread1 & Hmap1).
  rewrite (bind_Ret _ _ _ _ _ Hrun1).
  destruct (ClearWithoutLock_run _ (with_wos w1 s1) Hw1 Hf1) as (w2 & Hrun2 & Hw2 & Hf2 & Hfiles2).
  rewrite (bind_Ret _ _ _ _ _ Hrun2). eexists. split; [done|].
  assert (files (the_os w2) !! GetSnapshotPath (data_dir_ s)
          = files (the_os w1) !! GetSnapshotPath (data_dir_ s)) as Hs.
  { rewrite Hfiles2. apply lookup_insert_ne. apply snapshot_path_ne. }
  split; [|split_and!; try done].
  - split; [|exact Hm]. split.
    + exists []. split; [constructor|exact Hw2].
    + etrans; [apply (recovered_log_clean _ _ []); [constructor|apply Hw2]|].
      simpl. etrans; [apply (snapshot_map_ext _ _ _ Hs)|exact Hmap1].
    + by eapply snapshot_readable_ext.
    + exact Henv.
  - pose proof (wr_file _ _ _ _ Hw2) as Hlog. unfold wal_records, store_os. simpl in *.
    by rewrite Hlog.
Qed.

Lemma CreateSnapshot_ok s :
  consistent s -> fault_free (store_os s) -> snapshot_current (data s) s ->
  exists s', CreateSnapshot s = (Ret tt, s') /\ consistent s' /\ fault_free (store_os s') /\
    data s' = data s /\ data_dir_ s' = data_dir_ s /\ op_count_ s' = 0 /\
    burst_window_ s' = Window_Clear (burst_window_ s) /\
    wal_records (data_dir_ s) (files (store_os s')) = [].
Proof. intros [Hh Hm]. by apply (CreateSnapshot_holds (data s)). Qed.

(** ** Writing operations *)

(** Step 3 of [Set] and [Delete] keeps the map; the counters stay below the two
    thresholds that trigger a snapshot. *)
Lemma count_and_check_ok s :
  consistent s -> fault_free (store_os s) -> snapshot_current (data s) s ->
  exists s', count_and_check s = (Ret tt, s') /\ consistent s' /\ fault_free (store_os s') /\
    data s' = data s /\ data_dir_ s' = data_dir_ s.
Proof.
  intros Hc Hf Hcur. unfold count_and_check. rewrite bind_modify.
  unfold bind at 1, now at 1. rewrite bind_modify. set (s1 := set_burst_window_ _ _).
  assert (consistent s1 /\ snapshot_current (data s1) s1 /\ fault_free (store_os s1))
    as (Hc1 & Hcur1 & Hf1) by (destruct Hc as [[? ? ? ?] ?]; by split_and!).
  unfold CheckSnapshotTrigger. rewrite bind_gets.
  unfold bind at 1, now at 1. rewrite bind_gets. set (s2 := set_env _ s1).
  assert (consistent s2 /\ snapshot_current (data s2) s2 /\ fault_free (store_os s2))
    as (Hc2 & Hcur2 & Hf2) by (destruct Hc1 as [[? ? ? ?] ?]; by split_and!).
  destruct (_ || _).
  - destruct (CreateSnapshot_ok s2 Hc2 Hf2 Hcur2) as (s' & Hrun & ? & ? & ? & ? & _). by exists s'.
  - by exists s2.
Qed.

(** The state in which step 3 runs, [s1]: the record is in the log and the change in
    memory. *)
Lemma logged_update_step {A B} r (upd : M KvStore A) m' a s (k : A -> M PersistentKvStore B) :
  consistent s -> fault_free (store_os s) -> record_fits r ->
  upd (base_ s) = (Ret a, MkKv m') -> m' = replay_record (data s) r -> map_fits m' ->
  exists s1, (do! on_wos (Append r) in let! x := on_base upd in k x) s = k a s1 /\
    consistent s1 /\ fault_free (store_os s1) /\
    files (store_os s1) !! GetSnapshotPath (data_dir_ s)
      = files (store_os s) !! GetSnapshotPath (data_dir_ s) /\
    data s1 = m' /\ data_dir_ s1 = data_dir_ s /\ op_count_ s1 = op_count_ s /\
    burst_window_ s1 = burst_window_ s /\ env s1 = env s /\
    wal_records (data_dir_ s) (files (store_os s1))
      = wal_records (data_dir_ s) (files (store_os s)) ++ [r].
Proof.
  intros [Hh _] Hf Hr Hupd Hm' Hfit.
  destruct (Append_holds _ r s Hh Hf Hr) as (w & Hrun & Hh' & Hf' & Hsnap & Hlog).
  rewrite (bind_Ret _ _ _ _ _ Hrun). unfold on_base.
  unfold bind at 1, zoom. change (base_ (with_wos w s)) with (base_ s). rewrite Hupd.
  eexists. split; [reflexivity|]. split; [|by split_and!].
  split; [|done]. change (data _) with m'. rewrite Hm'. by destruct Hh'.
Qed.

Lemma snapshot_current_ext m m' s s' :
  m' <> ∅ \/ snapshot_map (data_dir_ s) (files (store_os s)) = ∅ -> m = m' ->
  data_dir_ s' = data_dir_ s ->
  files (store_os s') !! GetSnapshotPath (data_dir_ s)
    = files (store_os s) !! GetSnapshotPath (data_dir_ s) ->
  snapshot_current m s'.
Proof.
  intros [?|Hcur] -> Hd Hf; [by left|right]. rewrite Hd, <-Hcur. by apply snapshot_map_ext.
Qed.

(** A hundred stamps are no burst. *)
Lemma not_exceeded t w : zlen (timestamps_ w) <= 100 -> max_ops_ w = 100 -> IsExceeded t w = false.
Proof.
  intros Ht Hmax. unfold IsExceeded. set (c := _ - _).
  pose proof (count_recent_bound c (rev (timestamps_ w))) as Hc.
  unfold zlen in *. rewrite length_rev in Hc. rewrite i32_small, Hmax by lia.
  apply bool_decide_false. lia.
Qed.

(** Far from the thresholds, step 3 only counts. *)
Lemma count_and_check_quiet s :
  0 <= op_count_ s < 499 -> zlen (timestamps_ (burst_window_ s)) < 100 ->
  max_ops_ (burst_window_ s) = 100 ->
  exists s', count_and_check s = (Ret tt, s') /\ base_ s' = base_ s /\ wos s' = wos s /\
    data_dir_ s' = data_dir_ s /\ op_count_ s' = op_count_ s + 1 /\
    zlen (timestamps_ (burst_window_ s')) = zlen (timestamps_ (burst_window_ s)) + 1 /\
    max_ops_ (burst_window_ s') = 100 /\ (env_ok (env s) -> env_ok (env s')).
Proof.
  intros Hn Ht Hmax. unfold count_and_check. rewrite bind_modify.
  unfold bind at 1, now at 1. rewrite bind_modify.
  unfold CheckSnapshotTrigger. rewrite bind_gets.
  unfold bind at 1, now at 1. rewrite bind_gets.
  assert (u64 (op_count_ s + 1) = op_count_ s + 1) as Hu by (apply Z.mod_small; lia).
  simpl. rewrite Hu. unfold kSnapshotInterval. rewrite bool_decide_false by lia.
  rewrite not_exceeded; [|simpl; unfold zlen in *; rewrite length_app; simpl; lia|done]. cbn [orb].
  eexists. split; [done|]. split_and!; try done. unfold zlen. simpl. rewrite length_app. simpl. lia.
Qed.

(** With nothing in memory a snapshot only empties the log. *)
Lemma CreateSnapshot_empty s :
  consistent s -> fault_free (store_os s) -> data s = ∅ ->
  exists s', CreateSnapshot s = (Ret tt, s') /\ data s' = ∅ /\ fault_free (store_os s') /\
    data_dir_ s' = data_dir_ s /\ env_ok (env s') /\
    snapshot_readable (data_dir_ s) (files (store_os s')) /\
    recovered (data_dir_ s) (files (store_os s')) = snapshot_map (data_dir_ s) (files (store_os s)).
Proof.
  intros [[(rs & Hrs & Hw) Hdata Hread Henv] Hm] Hf Hd.
  pose proof (traversed s Henv) as Hp. unfold CreateSnapshot. rewrite bind_gets.
  unfold bind at 1. unfold walk at 1. set (es := order _ _ _) in *. set (s1 := set_env _ s).
  rewrite Hd in Hp. rewrite decide_True by by apply (perm_nil_empty es ∅ Hp).
  rewrite bind_ret.
  destruct (ClearWithoutLock_run _ s1 Hw Hf) as (w2 & Hrun2 & Hw2 & Hf2 & Hfiles2).
  rewrite (bind_Ret _ _ _ _ _ Hrun2). eexists. split; [done|].
  assert (files (the_os w2) !! GetSnapshotPath (data_dir_ s)
          = files (store_os s) !! GetSnapshotPath (data_dir_ s)) as Hs.
  { rewrite Hfiles2. apply lookup_insert_ne. apply snapshot_path_ne. }
  split_and!; try done.
  - by eapply snapshot_readable_ext.
  - etrans; [apply (recovered_log_clean _ _ []); [constructor|apply Hw2]|].
    by apply snapshot_map_ext.
Qed.

(** Writing a record and making the change in memory that it describes. *)
Lemma logged_update_ok {A} r (upd : M KvStore A) m' a s :
  consistent s -> fault_free (store_os s) -> record_fits r ->
  upd (base_ s) = (Ret a, MkKv m') -> m' = replay_record (data s) r -> map_fits m' ->
  m' <> ∅ \/ snapshot_map (data_dir_ s) (files (store_os s)) = ∅ ->
  exists s', (do! on_wos (Append r) in
              let! x := on_base upd in
              do! count_and_check in ret x) s = (Ret a, s') /\
    consistent s' /\ fault_free (store_os s') /\ data s' = m' /\ data_dir_ s' = data_dir_ s.
Proof.
  intros Hc Hf Hr Hupd Hm' Hfit Hcur.
  destruct (logged_update_step r upd m' a s (fun x => do! count_and_check in ret x) Hc Hf Hr Hupd
              Hm' Hfit) as (s1 & -> & Hc1 & Hf1 & Hsnap1 & Hd1 & Hdir1 & _).
  pose proof (snapshot_current_ext _ m' s s1 Hcur Hd1 Hdir1 Hsnap1) as Hcur1.
  destruct (count_and_check_ok s1 Hc1 Hf1 Hcur1) as (s' & Hrun' & ? & ? & ? & ?).
  rewrite (bind_Ret _ _ _ _ _ Hrun'). exists s'. split_and!; try done; congruence.
Qed.

Lemma map_fits_insert k v m :
  map_fits m -> fits16 k -> fits16 v -> Z.of_nat (size (<[k := v]> m)) < 2 ^ 32 ->
  map_fits (<[k := v]> m).
Proof. intros [Hm _] Hk Hv Hs. split; [|done]. by apply map_Forall_insert_2. Qed.

Lemma map_fits_delete k m : map_fits m -> map_fits (delete k m).
Proof.
  intros [Hm Hs]. split; [by apply map_Forall_delete|].
  enough (size (delete k m) <= size m)%nat by lia. apply map_subseteq_size, delete_subseteq.
Qed.

Lemma Set_run k v s :
  consistent s -> fault_free (store_os s) -> fits16 k -> fits16 v ->
  Z.of_nat (size (<[k := v]> (data s))) < 2 ^ 32 ->
  exists s', Set_ k v s = (Ret tt, s') /\ consistent s' /\ fault_free (store_os s') /\
    data s' = <[k := v]> (data s) /\ data_dir_ s' = data_dir_ s.
Proof.
  intros Hc Hf Hk Hv Hsize.
  destruct (logged_update_ok (MkRecord OP_SET k v) (KvStore_Set k v) (<[k := v]> (data s)) tt s)
    as (s' & Hrun & H'); try done.
  - apply map_fits_insert; [apply Hc|done..].
  - left. apply insert_non_empty.
  - exists s'. split; [|done]. rewrite <-Hrun. unfold Set_, AppendSet, bind.
    destruct (on_wos _ s) as [[] ?]; try done. destruct (on_base _ _) as [[[]| | |] ?]; try done.
    by destruct (count_and_check _) as [[[]| | |] ?].
Qed.

Lemma Delete_run k s :
  consistent s -> fault_free (store_os s) -> fits16 k ->
  snapshot_current (delete k (data s)) s ->
  exists s', Delete k s = (Ret (bool_decide (is_Some (data s !! k))), s') /\ consistent s' /\
    fault_free (store_os s') /\ data s' = delete k (data s) /\ data_dir_ s' = data_dir_ s.
Proof.
  intros Hc Hf Hk Hcur.
  destruct (logged_update_ok (MkRecord OP_DEL k []) (KvStore_Delete k) (delete k (data s))
              (bool_decide (is_Some (data s !! k))) s) as (s' & Hrun & H'); try done.
  - unfold KvStore_Delete. by rewrite erased_positive.
  - apply map_fits_delete, Hc.
  - by exists s'.
Qed.

(** ** Recovery *)

(** The two reads of the snapshot in [Recover]. *)
Definition load_snapshot (dir : bytes) : M PersistentKvStore unit :=
  let! valid := on_wos (on_os (IsValid dir)) in
  if valid then
    let! (ok, es) := on_wos (on_os (Load dir [])) in
    if ok then on_base (modify (fun b => MkKv (load_entries es (data_ b)))) else ret tt
  else ret tt.

Definition with_data (m : gmap bytes bytes) (s : PersistentKvStore) : PersistentKvStore :=
  MkStore (MkKv m) (data_dir_ s) (wos s) (op_count_ s) (burst_window_ s) (env s).

(** [o'] has the files of [o] and keeps its descriptors. *)
Definition only_read (o o' : os) : Prop :=
  files o' = files o /\ fds_kept o o' /\ fault_free o'.

Lemma read_run {A} (m : M os A) r s o :
  m (store_os s) = (r, o) -> on_wos (on_os m) s = (r, with_wos (MkWalOs (store_wal s) o) s).
Proof. intros H. apply on_wos_run. by apply on_os_run. Qed.

Lemma IsValid_run dir o b es :
  fault_free o -> 0 <= next_fd o -> read_result (files o !! GetSnapshotPath dir) [] = Ret (b, es) ->
  exists o', IsValid dir o = (Ret b, o') /\ only_read o o'.
Proof.
  intros Hf Hn Hr. destruct (ReadSnapshot_ok (GetSnapshotPath dir) [] o Hf Hn) as (o' & Hrun & H').
  rewrite Hr in Hrun. exists o'. split; [|done]. unfold IsValid, Load.
  by rewrite (bind_Ret _ _ _ _ _ Hrun).
Qed.

Lemma load_snapshot_ok dir s :
  data s = ∅ -> fault_free (store_os s) -> 0 <= next_fd (store_os s) ->
  snapshot_readable dir (files (store_os s)) ->
  exists o, load_snapshot dir s =
      (Ret tt, with_data (snapshot_map dir (files (store_os s)))
                 (with_wos (MkWalOs (store_wal s) o) s)) /\
    only_read (store_os s) o.
Proof.
  intros Hd Hf Hn (b & es & Hr). unfold load_snapshot, snapshot_map. rewrite Hr.
  destruct (IsValid_run dir _ b es Hf Hn Hr) as (o1 & Hv & Hfiles1 & Hk1 & Hf1).
  rewrite (bind_Ret _ _ _ _ _ (read_run _ _ s _ Hv)).
  destruct b; cycle 1.
  { exists o1. split; [|by split]. unfold ret, with_data. rewrite <-Hd. by destruct s as [[] ? ? ? ? ?]. }
  assert (0 <= next_fd o1) as Hn1 by (destruct Hk1; lia).
  destruct (ReadSnapshot_ok (GetSnapshotPath dir) [] o1 Hf1 Hn1) as (o2 & Hl & Hfiles2 & Hk2 & Hf2).
  rewrite Hfiles1, Hr in Hl.
  set (s1 := with_wos _ s).
  rewrite (bind_Ret _ _ _ _ _ (read_run (Load dir []) _ s1 _ Hl)).
  exists o2. split; [|split_and!; [congruence|by etrans|done]].
  unfold on_base, zoom, modify, with_data. simpl. fold (data s). by rewrite Hd.
Qed.

Lemma Recover_ok c s :
  data s = ∅ -> wal_ready (wal_path (data_dir_ s)) c (store_wal s) (store_os s) ->
  fault_free (store_os s) -> snapshot_readable (data_dir_ s) (files (store_os s)) ->
  exists o, Recover s =
      (Ret tt, with_data (recovered (data_dir_ s) (files (store_os s)))
                 (with_wos (MkWalOs (store_wal s) o) s)) /\
    only_read (store_os s) o.
Proof.
  intros Hd Hw Hf Hr. unfold Recover. rewrite bind_gets.
  destruct (load_snapshot_ok (data_dir_ s) s Hd Hf) as (o & Hrun & Hread);
    [pose proof (wr_fd _ _ _ _ Hw); lia|done|].
  assert (forall {A} (k : M PersistentKvStore A),
    (let! valid := on_wos (on_os (IsValid (data_dir_ s))) in
     do! (if valid then
         let! (ok, es) := on_wos (on_os (Load (data_dir_ s) [])) in
         if ok then on_base (modify (fun b => MkKv (load_entries es (data_ b)))) else ret tt
       else ret tt) in k) s = (do! load_snapshot (data_dir_ s) in k) s) as Hassoc.
  { intros A k. unfold load_snapshot. by rewrite bind_assoc. }
  rewrite Hassoc, (bind_Ret _ _ _ _ _ Hrun). clear Hassoc.
  destruct Hread as (Hfiles & Hk & Hf'). set (s1 := with_data _ _).
  assert (wal_ready (wal_path (data_dir_ s)) c (store_wal s) o) as Hw'.
  { eapply wal_ready_frame; [exact Hw|by rewrite Hfiles|done]. }
  rewrite (bind_Ret _ _ _ _ _ (on_wos_run _ s1 _ _ (ReadAll_ok _ _ _ _ Hw' Hf'))).
  exists o. split; [|by split]. unfold on_base, zoom, modify, with_data. simpl.
  unfold recovered, wal_records. by rewrite (wr_file _ _ _ _ Hw).
Qed.

(** A process that starts on a directory has the map its files hold. *)
Lemma construct_run dir w e :
  is_open_ (the_wal w) = false -> (0 < max_retries_ (the_wal w))%nat ->
  0 <= next_fd (the_os w) -> fault_free (the_os w) ->
  snapshot_readable dir (files (the_os w)) ->
  exists s, construct dir w e = (Ret tt, s) /\
    data s = recovered dir (files (the_os w)) /\ data_dir_ s = dir /\ env s = e /\
    op_count_ s = 0 /\ burst_window_ s = SlidingWindow_new kBurstMaxOps kBurstWindowMs /\
    fault_free (store_os s) /\
    files (store_os s) = <[wal_path dir := file_contents (the_os w) (wal_path dir)]> (files (the_os w)) /\
    wal_ready (wal_path dir) (file_contents (the_os w) (wal_path dir)) (store_wal s) (store_os s).
Proof.
  intros Hop Hr Hn Hf Hread. unfold construct. destruct w as [w o]. simpl in *.
  set (path := wal_path dir). set (cfg := MkConfig NO 1000).
  set (s0 := blank_store dir (MkWalOs w o) e).
  rewrite (bind_Ret _ _ _ _ _ (on_wos_run _ s0 _ _ (Init_ok path cfg w o Hop Hr Hn Hf))).
  set (s1 := with_wos _ s0). pose proof (opened_ready path cfg w o Hn) as Hw.
  assert (files (store_os s1) !! GetSnapshotPath dir = files o !! GetSnapshotPath dir) as Hs.
  { simpl. apply lookup_insert_ne, snapshot_path_ne. }
  destruct (Recover_ok _ s1 eq_refl Hw Hf) as (o' & Hrun & Hfiles & Hk & Hf').
  { by apply (snapshot_readable_ext dir (files o)). }
  eexists. split; [exact Hrun|]. split; [|split_and!; try done].
  - change (recovered dir (files (store_os s1)) = recovered dir (files o)).
    unfold recovered. rewrite (snapshot_map_ext _ _ _ Hs). f_equal.
    unfold wal_records, file_contents. simpl. fold path. by rewrite lookup_insert_eq.
  - eapply wal_ready_frame; [exact Hw| |exact Hk].
    change (files o' !! path = files (store_os s1) !! path). by rewrite Hfiles.
Qed.
