(* ===== verification/Survival.v ===== *)
(** * Runs cut short by the death of the process

    When the only thing that can go wrong is the death of the process inside a system
    call, a run either dies or goes exactly as it would have gone with no fault at
    all. The statement is a simulation between a state and its fault-free twin, closed
    under the combinators of the state monad, so that it holds of every method. *)

From S2P Require Import Prelude Posix FileIo WalRecord Wal SnapshotEntry Snapshot.
From S2P Require Import KvStore SlidingWindow PersistentStore.

(** ** Twins *)

Definition crash_only (o : os) : Prop :=
  Forall (fun f => f = FOk \/ exists n, f = FCrash n) (plan o).

Class Twin (S : Type) := twin : S -> S -> Prop.

#[export] Instance os_twin : Twin os := fun o t => crash_only o /\ t = set_plan [] o.

#[export] Instance wal_os_twin : Twin wal_os := fun s t =>
  the_wal s = the_wal t /\ twin (the_os s) (the_os t).

#[export] Instance store_twin : Twin PersistentKvStore := fun s t =>
  base_ s = base_ t /\ data_dir_ s = data_dir_ t /\ twin (wos s) (wos t) /\
  op_count_ s = op_count_ t /\ burst_window_ s = burst_window_ t /\ env s = env t.

Definition survives {S A} `{Twin S} (m : M S A) : Prop := forall s t, twin s t ->
  (m s).1 = Crashed \/ (m s).1 = (m t).1 /\ twin (m s).2 (m t).2.

(** ** The combinators *)

Section combinators.
Context {S : Type} `{Twin S}.

Lemma survives_ret {A} (a : A) : survives (S := S) (ret a).
Proof. intros s t Ht. by right. Qed.

Lemma survives_throw {A} e : survives (S := S) (A := A) (throw e).
Proof. intros s t Ht. by right. Qed.

Lemma survives_lift {A} (r : res A) : survives (S := S) (lift r).
Proof. intros s t Ht. by right. Qed.

Lemma survives_gets {A} (f : S -> A) : (forall s t, twin s t -> f s = f t) -> survives (gets f).
Proof. intros Hf s t Ht. right. simpl. by rewrite (Hf s t Ht). Qed.

Lemma survives_modify (f : S -> S) :
  (forall s t, twin s t -> twin (f s) (f t)) -> survives (modify f).
Proof. intros Hf s t Ht. right. split; [done|]. by apply Hf. Qed.

Lemma survives_bind {A B} (m : M S A) (k : A -> M S B) :
  survives m -> (forall a, survives (k a)) -> survives (bind m k).
Proof.
  intros Hm Hk s t Ht. unfold bind. specialize (Hm s t Ht).
  destruct (m s) as [rs s'], (m t) as [rt t']. simpl in *.
  destruct Hm as [->|[-> Ht']]; [by left|]. destruct rt; [|by right..]. by apply Hk.
Qed.

Lemma survives_zoom {T A} `{Twin T} (get : S -> T) (set : T -> S -> S) (m : M T A) :
  (forall s t, twin s t -> twin (get s) (get t)) ->
  (forall s t x y, twin s t -> twin x y -> twin (set x s) (set y t)) ->
  survives m -> survives (zoom get set m).
Proof.
  intros Hget Hset Hm s t Ht. unfold zoom. specialize (Hm _ _ (Hget s t Ht)).
  destruct (m (get s)) as [rs x], (m (get t)) as [rt y]. simpl in *.
  destruct Hm as [->|[-> Hxy]]; [by left|]. right. split; [done|]. by apply Hset.
Qed.
End combinators.

Create HintDb survival.
#[export] Hint Resolve survives_ret survives_throw survives_lift : survival.

(** Take a method apart. *)
Ltac survive :=
  repeat first
    [ solve [eauto with survival]
    | apply survives_bind; [|intros ?]
    | match goal with
      | |- survives (if ?b then _ else _) => destruct b
      | |- survives (match ?x with _ => _ end) => destruct x
      | |- survives (let '(_, _) := ?x in _) => destruct x
      end ].

(** ** System calls *)

Lemma next_fault_twin o t :
  twin o t ->
  next_fault t = (Ret FOk, t) /\ exists f o', next_fault o = (Ret f, o') /\ twin o' t /\
    (f = FOk \/ exists n, f = FCrash n).
Proof.
  intros [Hc ->]. split; [done|]. unfold crash_only in Hc. unfold next_fault.
  destruct o as [fs d fd nf e p]. simpl in *.
  destruct p as [|x p]; [exists FOk; eexists; split; [done|]; split; [by split|auto]|].
  inversion Hc as [|?? Hx Hp]; subst. exists x. eexists. split; [done|]. split; [by split|done].
Qed.

(** Run both sides past the fault the call consumes. *)
Ltac after_fault o :=
  let t := fresh "t" in let Ht := fresh in
  intros o t Ht;
  destruct (next_fault_twin o t Ht) as [Hfree (f & o' & Hf & [Hc ->] & Hcase)];
  rewrite (bind_Ret _ _ _ _ _ Hf), (bind_Ret _ _ _ _ _ Hfree);
  unfold bind, gets, fail, modify, die, lift, ret;
  destruct Hcase as [-> | [? ->]].

Lemma survives_close fd : survives (sys_close fd).
Proof. apply survives_modify. intros s t [Hc ->]. by split. Qed.

Lemma survives_lseek fd off w : survives (sys_lseek fd off w).
Proof.
  intros o t [Hc ->]. right. unfold sys_lseek, bind, gets, fail, modify, ret. simpl.
  destruct (fds o !! fd) as [[]|]; by destruct w.
Qed.

Lemma survives_open path creat trunc : survives (sys_open path creat trunc).
Proof. unfold sys_open. after_fault o; [right|by left]. simpl. by repeat case_decide. Qed.

Lemma survives_read fd n : survives (sys_read fd n).
Proof.
  unfold sys_read. after_fault o; simpl; destruct (fds o' !! fd) as [[]|]; simpl; auto; by right.
Qed.

Lemma survives_write fd data : survives (sys_write fd data).
Proof.
  unfold sys_write. after_fault o; simpl; destruct (fds o' !! fd) as [[]|]; simpl; auto; by right.
Qed.

Lemma survives_fsync fd : survives (sys_fsync fd).
Proof.
  unfold sys_fsync. after_fault o; simpl; destruct (fds o' !! fd) as [[]|]; simpl; auto; by right.
Qed.

Lemma survives_unlink path : survives (sys_unlink path).
Proof. unfold sys_unlink. after_fault o; simpl; [right|by left]. by case_decide. Qed.

Lemma survives_rename old new : survives (sys_rename old new).
Proof. unfold sys_rename. after_fault o; simpl; [right|by left]. by case_match. Qed.

#[export] Hint Resolve survives_close survives_lseek survives_open survives_read survives_write
  survives_fsync survives_unlink survives_rename : survival.

(** ** The snapshot *)

Lemma survives_write_loop fuel : forall fd rest, survives (write_loop fuel fd rest).
Proof. induction fuel; intros fd rest; simpl; survive. Qed.

#[export] Hint Resolve survives_write_loop : survival.

Lemma survives_Create dir es : survives (Create dir es).
Proof.
  unfold Create, WriteSnapshot, FileOpenWrite, Snapshot.FileClose, FileDelete. survive.
Qed.

(** ** The log *)

Lemma survives_on_os {A} (m : M os A) : survives m -> survives (on_os m).
Proof.
  apply survives_zoom; [by intros s t []|]. intros s t x y [] ?. by split.
Qed.

Lemma survives_on_wal f : survives (on_wal f).
Proof. apply survives_modify. intros s t [Hw Ho]. split; simpl; congruence. Qed.

Lemma survives_wal_get {A} (f : WAL -> A) : survives (wal_get f).
Proof. apply survives_gets. intros s t [Hw Ho]. by rewrite Hw. Qed.

#[export] Hint Resolve survives_on_wal survives_wal_get : survival.
#[export] Hint Extern 3 (survives (on_os _)) => apply survives_on_os : survival.

Lemma survives_CloseFD : survives CloseFD.
Proof. unfold CloseFD, FileClose. survive. Qed.

Lemma survives_Sync : survives Sync.
Proof.
  unfold Sync, FileSync. survive. apply survives_on_os. survive.
Qed.

#[export] Hint Resolve survives_CloseFD survives_Sync : survival.

Lemma survives_Append r : survives (Append r).
Proof. unfold Append, WriteRecord, FileWrite. survive. Qed.

Lemma survives_ClearWithoutLock : survives ClearWithoutLock.
Proof. unfold ClearWithoutLock, FileOpenTruncate. survive. Qed.

(** ** The store *)

Lemma survives_on_wos {A} (m : M wal_os A) : survives m -> survives (on_wos m).
Proof.
  apply survives_zoom; [by intros s t (? & ? & ? & ?)|].
  intros s t x y (? & ? & ? & ? & ? & ?) ?. by split_and!.
Qed.

(** A step that neither reads nor writes the log and the files. *)
Lemma survives_private {A} (m : M PersistentKvStore A) :
  (forall w s, m (MkStore (base_ s) (data_dir_ s) w (op_count_ s) (burst_window_ s) (env s)) =
     let (r, s') := m s in
     (r, MkStore (base_ s') (data_dir_ s') w (op_count_ s') (burst_window_ s') (env s'))) ->
  (forall s, wos (m s).2 = wos s) -> survives m.
Proof.
  intros Hm Hw s t (Hb & Hd & Hwos & Hn & Hbw & He). right.
  pose proof (Hm (wos t) s) as Hst. rewrite Hb, Hd, Hn, Hbw, He in Hst.
  assert (MkStore (base_ t) (data_dir_ t) (wos t) (op_count_ t) (burst_window_ t) (env t) = t) as Ht
    by by destruct t.
  rewrite Ht in Hst. specialize (Hw s). rewrite Hst. destruct (m s) as [r s']. simpl in *. split; [done|].
  split_and!; try done. simpl. by rewrite Hw.
Qed.

Lemma survives_on_base {A} (m : M KvStore A) : survives (on_base m).
Proof.
  apply survives_private; intros; unfold on_base, zoom; simpl; by destruct (m (base_ s)).
Qed.

Lemma survives_walk : survives walk.
Proof. by apply survives_private. Qed.

Lemma survives_now : survives now.
Proof. by apply survives_private. Qed.

#[export] Hint Resolve survives_Append survives_ClearWithoutLock survives_Create
  survives_on_base survives_walk survives_now : survival.
#[export] Hint Extern 3 (survives (on_wos _)) => apply survives_on_wos : survival.
#[export] Hint Extern 3 (survives (gets _)) => by apply survives_private : survival.
#[export] Hint Extern 3 (survives (modify _)) => by apply survives_private : survival.

Lemma survives_CreateSnapshot : survives CreateSnapshot.
Proof. unfold CreateSnapshot. survive. Qed.

#[export] Hint Resolve survives_CreateSnapshot : survival.

Lemma survives_count_and_check : survives count_and_check.
Proof. unfold count_and_check, CheckSnapshotTrigger. survive. Qed.
