(* ===== verification/Crash.v ===== *)
(** * The store when the process dies

    What a writing operation of [PersistentStore] leaves on disk for the next process
    when it is killed inside any of its system calls. *)

From S2P Require Import Prelude Posix FileIo Codec WalRecord Wal SnapshotEntry.
From S2P Require Import Snapshot KvStore SlidingWindow PersistentStore Durability.
From S2P Require Import Survival.

(** The state a process leaves, seen through the abstract map. *)
Definition snapshot_file (s : PersistentKvStore) : option bytes :=
  files (store_os s) !! GetSnapshotPath (data_dir_ s).
Definition next_process_map (s : PersistentKvStore) : gmap bytes bytes :=
  recovered (data_dir_ s) (files (store_os s)).
Definition logged (s : PersistentKvStore) : list WALRecord :=
  wal_records (data_dir_ s) (files (store_os s)).
Definition restartable (s : PersistentKvStore) : Prop :=
  snapshot_readable (data_dir_ s) (files (store_os s)).

(** ** Appending, under any plan *)

Lemma Append_any_plan m r s :
  holds m s -> record_fits r ->
  exists res w, on_wos (Append r) s = (res, with_wos w s) /\
    snapshot_file (with_wos w s) = snapshot_file s /\
    (next_process_map (with_wos w s) = m \/
     next_process_map (with_wos w s) = replay_record m r) /\
    (res = Ret tt /\ holds (replay_record m r) (with_wos w s)
     \/ res = Throw RuntimeError \/ res = Crashed).
Proof.
  intros [(rs & Hrs & Hw) Hdata Hread Henv] Hr. set (path := wal_path (data_dir_ s)) in *.
  destruct (Append_cases _ _ r _ _ Hw) as (res & w' & o' & k & Happ & Hk & Hfiles & Hcase).
  exists res, (MkWalOs w' o'). split.
  { apply on_wos_run. unfold store_wal, store_os in Happ. by destruct (wos s). }
  assert (files o' !! GetSnapshotPath (data_dir_ s) = snapshot_file s) as Hsnap.
  { rewrite Hfiles, lookup_insert_ne; [done|apply snapshot_path_ne]. }
  assert (files o' !! path = Some (encode_all rs ++ ztake k (WALRecord_Serialize r))) as Hlog
    by by rewrite Hfiles, lookup_insert_eq.
  assert (recovered (data_dir_ s) (files (store_os s))
          = replay rs (snapshot_map (data_dir_ s) (files (store_os s)))) as Hold
    by (apply recovered_log_clean; [done|apply Hw]).
  pose proof (snapshot_map_ext _ _ (files o') Hsnap) as Hmap.
  assert (k = zlen (WALRecord_Serialize r) ->
          recovered (data_dir_ s) (files o') = replay_record m r) as Hfull.
  { intros ->. rewrite ztake_ge in Hlog by lia.
    rewrite (recovered_log_clean _ _ (rs ++ [r])).
    - by rewrite replay_app, Hmap, <-Hold, Hdata.
    - by apply Forall_app_2; [|constructor].
    - by rewrite encode_all_snoc. }
  split; [done|]. split.
  - destruct (decide (k = zlen (WALRecord_Serialize r))) as [->|Hne]; [right; by apply Hfull|left].
    unfold next_process_map, store_os. simpl.
    rewrite (recovered_log _ _ rs _ Hrs (torn_record_dead r k Hr ltac:(lia)) Hlog).
    by rewrite Hmap, <-Hold.
  - destruct Hcase as [(-> & Hkl & Hw')|?]; [left|by right]. split; [done|]. split; [|by apply Hfull| |done].
    + exists (rs ++ [r]). rewrite encode_all_snoc. split; [by apply Forall_app_2; [|constructor]|done].
    + by eapply snapshot_readable_ext.
Qed.

(** ** Twins hold the same *)

Definition twin_of (s : PersistentKvStore) : PersistentKvStore :=
  with_wos (MkWalOs (store_wal s) (set_plan [] (store_os s))) s.

Lemma twin_of_twin s : crash_only (store_os s) -> twin s (twin_of s).
Proof. intros H. by split_and!. Qed.

Lemma twin_files s t : twin s t ->
  files (store_os s) = files (store_os t) /\ data_dir_ s = data_dir_ t /\ data s = data t.
Proof.
  intros (Hb & ? & (_ & _ & Ho) & _). unfold store_os, data. rewrite Ho, Hb. done.
Qed.

Lemma wal_ready_plan path c w o p : wal_ready path c w (set_plan p o) <-> wal_ready path c w o.
Proof. split; intros []; by split. Qed.

Lemma twin_ready s t path c :
  twin s t -> wal_ready path c (store_wal t) (store_os t) ->
  wal_ready path c (store_wal s) (store_os s).
Proof.
  intros (_ & _ & (Hw & _ & Ho) & _). unfold store_wal, store_os. rewrite Hw, Ho. apply wal_ready_plan.
Qed.

Lemma consistent_twin s t : twin s t -> consistent t -> consistent s.
Proof.
  intros Ht [[(rs & Hrs & Hw) Hdata Hread Henv] Hm].
  pose proof (twin_files s t Ht) as (Hf & Hd & Hdt).
  split; [split|]; rewrite ?Hf, ?Hd, ?Hdt; try done.
  - exists rs. split; [done|]. by eapply twin_ready.
  - destruct Ht as (_ & _ & _ & _ & _ & ->). done.
Qed.

Lemma consistent_twin_of s : consistent s -> consistent (twin_of s).
Proof.
  intros [[(rs & Hrs & Hw) Hdata Hread Henv] Hm]. split; [split|]; try done.
  exists rs. split; [done|]. by apply wal_ready_plan.
Qed.

(** ** Killed while taking a snapshot *)

(** What a killed process may leave: the map it held, or, if it died between removing
    the old snapshot and renaming the new one, what the log alone says. *)
Definition left_behind (m : gmap bytes bytes) (rs : list WALRecord) (old : option bytes)
    (s : PersistentKvStore) : Prop :=
  restartable s /\
  (next_process_map s = m \/
   old <> None /\ snapshot_file s = None /\ next_process_map s = replay rs ∅).

Lemma survives_write_snapshot dir es : survives (write_snapshot dir es).
Proof. unfold write_snapshot. survive. Qed.

Lemma write_snapshot_crash es c s :
  let dir := data_dir_ s in
  wal_ready (wal_path dir) c (store_wal s) (store_os s) -> restartable s ->
  forall s', write_snapshot dir es s = (Crashed, s') ->
  left_behind (next_process_map s) (logged s) (snapshot_file s) s'.
Proof.
  intros dir Hw Hread s'. unfold write_snapshot. case_decide; [by intros [=]|].
  assert (0 <= next_fd (store_os s)) as Hn by (pose proof (wr_fd _ _ _ _ Hw); lia).
  destruct (WriteSnapshot_cases (GetSnapshotPath dir) es _ Hn) as (r & o & Hws & Hk & Hcase).
  pose proof (Create_run dir es s r o Hws) as Hrun.
  destruct Hcase as [(-> & _)|[(-> & _)|(-> & Hsnap)]].
  1,2: rewrite (bind_Ret _ _ _ _ _ Hrun); by intros [=].
  rewrite (bind_Crashed _ _ _ _ Hrun). intros [= <-].
  assert (files o !! wal_path dir = files (store_os s) !! wal_path dir) as Hlog
    by apply Hk, wal_path_other.
  unfold left_behind, restartable, next_process_map, snapshot_file, store_os. simpl.
  destruct Hsnap as [Hsnap|Hsnap].
  - split; [by eapply snapshot_readable_ext|left]. by apply recovered_ext.
  - split; [eexists _, _; unfold dir in *; by rewrite Hsnap|].
    destruct (files (the_os (wos s)) !! GetSnapshotPath (data_dir_ s)) as [old|] eqn:Hold; [right|left].
    + split; [done|]. split; [done|].
      unfold recovered, logged, wal_records, snapshot_map. fold dir. by rewrite Hsnap, Hlog.
    + apply recovered_ext; [|done]. fold dir. rewrite Hsnap. symmetry. exact Hold.
Qed.

(** Clearing a log that says nothing the snapshot does not say. *)
Lemma clear_crash rs m s :
  Forall record_fits rs ->
  wal_ready (wal_path (data_dir_ s)) (encode_all rs) (store_wal s) (store_os s) ->
  restartable s -> snapshot_map (data_dir_ s) (files (store_os s)) = m -> replay rs m = m ->
  exists r s', on_wos ClearWithoutLock s = (r, s') /\
    (r = Crashed -> restartable s' /\ next_process_map s' = m).
Proof.
  intros Hrs Hw Hre Hm Hrep.
  destruct (ClearWithoutLock_cases _ _ _ _ Hw) as (r & w & Hclear & Hf & _).
  exists r, (with_wos w s). split.
  { apply on_wos_run. unfold store_wal, store_os in Hclear. by destruct (wos s). }
  intros _.
  assert (files (the_os w) !! GetSnapshotPath (data_dir_ s)
          = files (store_os s) !! GetSnapshotPath (data_dir_ s)) as Hsnap.
  { destruct Hf as [-> | ->]; [done|]. apply lookup_insert_ne, snapshot_path_ne. }
  split; [by eapply snapshot_readable_ext|].
  unfold next_process_map, store_os. simpl.
  assert (snapshot_map (data_dir_ s) (files (the_os w)) = m) as Hmap
    by by rewrite (snapshot_map_ext _ _ _ Hsnap).
  destruct Hf as [Hf|Hf].
  - by rewrite (recovered_log_clean _ _ rs), Hmap; [|done|rewrite Hf; apply Hw].
  - rewrite (recovered_log_clean _ _ []), Hmap; [done|constructor|]. by rewrite Hf, lookup_insert_eq.
Qed.

Lemma CreateSnapshot_crash s :
  consistent s -> snapshot_current (data s) s -> crash_only (store_os s) ->
  exists r s', CreateSnapshot s = (r, s') /\
    (r = Ret tt /\ consistent s' /\ data s' = data s /\ data_dir_ s' = data_dir_ s
     \/ r = Crashed /\ left_behind (data s) (logged s) (snapshot_file s) s').
Proof.
  intros Hc Hcur Hplan. pose proof (twin_of_twin s Hplan) as Ht.
  pose proof (consistent_twin_of s Hc) as Hct.
  destruct (CreateSnapshot_ok (twin_of s) Hct eq_refl Hcur) as (t' & Hrun & Hct' & _ & Hd & Hdir & _).
  pose proof (survives_CreateSnapshot s _ Ht) as Hsurv. rewrite Hrun in Hsurv.
  destruct (CreateSnapshot s) as [r s'] eqn:Hs. simpl in Hsurv. exists r, s'. split; [done|].
  destruct Hsurv as [-> | [-> Ht']]; [right; split; [done|]|left]; cycle 1.
  { destruct (twin_files _ _ Ht') as (_ & Hdir' & Hdata'). split; [done|].
    split; [by eapply consistent_twin|]. by rewrite Hdata', Hdir'. }
  destruct Hc as [[(rs & Hrs & Hw) Hdata Hread Henv] Hm]. clear Hrun.
  revert Hs. unfold CreateSnapshot. rewrite bind_gets. unfold bind at 1, walk at 1.
  set (es := order _ _ _). set (s1 := set_env _ s). fold (write_snapshot (data_dir_ s) es).
  set (t1 := twin_of s1). pose proof (twin_of_twin s1 Hplan) as Ht1.
  destruct (write_snapshot_ok es (data s) (encode_all rs) t1) as (w & Hrun & Hw1 & _ & Hread1 & Hmap1);
    [by apply wal_ready_plan|done|done|by apply traversed|done..|].
  pose proof (survives_write_snapshot (data_dir_ s) es s1 _ Ht1) as Hsurv.
  change (data_dir_ t1) with (data_dir_ s) in Hrun. fold t1 in Hsurv. rewrite Hrun in Hsurv.
  destruct (write_snapshot (data_dir_ s) es s1) as [r2 s2] eqn:Hs2. simpl in Hsurv.
  destruct Hsurv as [-> | [-> Ht2]].
  { rewrite (bind_Crashed _ _ _ _ Hs2). intros [= <-]. rewrite <-Hdata at 1.
    exact (write_snapshot_crash es _ s1 Hw Hread s2 Hs2). }
  rewrite (bind_Ret _ _ _ _ _ Hs2).
  pose proof (twin_ready _ _ _ _ Ht2 Hw1) as Hw2.
  destruct (twin_files _ _ Ht2) as (Hfiles2 & Hdir2 & _).
  change (data_dir_ (with_wos w t1)) with (data_dir_ s) in *.
  change (files (store_os (with_wos w t1))) with (files (the_os w)) in *.
  change (data_dir_ t1) with (data_dir_ s) in *. rewrite <-Hdir2 in Hw2.
  assert (replay rs (data s) = data s) as Hrs_data.
  { rewrite <-Hdata, (recovered_log_clean _ _ rs) by (done || apply Hw). apply replay_idemp. }
  destruct (clear_crash rs (data s) s2 Hrs Hw2) as (r3 & s3 & Hrun3 & Hr3);
    [unfold restartable; by rewrite Hdir2, Hfiles2|by rewrite Hdir2, Hfiles2|done|].
  unfold bind at 1. rewrite Hrun3. destruct r3 as [[]| | |]; try by intros [=].
  intros [= <-]. destruct (Hr3 eq_refl). by split; [|left].
Qed.

(** ** Killed during a writing operation *)

Lemma count_and_check_crash s :
  consistent s -> snapshot_current (data s) s -> crash_only (store_os s) ->
  exists r s', count_and_check s = (r, s') /\
    (r = Ret tt /\ consistent s' /\ data s' = data s /\ data_dir_ s' = data_dir_ s
     \/ r = Crashed /\ left_behind (data s) (logged s) (snapshot_file s) s').
Proof.
  intros Hc Hcur Hplan. unfold count_and_check. rewrite bind_modify.
  unfold bind at 1, now at 1. rewrite bind_modify. set (s1 := set_burst_window_ _ _).
  unfold CheckSnapshotTrigger. rewrite bind_gets.
  unfold bind at 1, now at 1. rewrite bind_gets. set (s2 := set_env _ s1).
  assert (consistent s2) as Hc2 by (destruct Hc as [[? ? ? ?] ?]; by split_and!).
  destruct (_ || _).
  - by apply (CreateSnapshot_crash s2).
  - exists (Ret tt), s2. split; [done|]. by left.
Qed.

Lemma logged_update_crash {A} r (upd : M KvStore A) m' a s :
  consistent s -> crash_only (store_os s) -> record_fits r ->
  upd (base_ s) = (Ret a, MkKv m') -> m' = replay_record (data s) r -> map_fits m' ->
  m' <> ∅ \/ snapshot_map (data_dir_ s) (files (store_os s)) = ∅ ->
  exists res s', (do! on_wos (Append r) in
                  let! x := on_base upd in
                  do! count_and_check in ret x) s = (res, s') /\
    (res = Ret a /\ consistent s' /\ data s' = m' /\ data_dir_ s' = data_dir_ s
     \/ res = Crashed /\
        (restartable s' /\ next_process_map s' = data s
         \/ left_behind m' (logged s ++ [r]) (snapshot_file s) s')).
Proof.
  intros [Hh Hmf] Hplan Hr Hupd Hm' Hfit Hcur.
  pose proof (twin_of_twin s Hplan) as Ht.
  pose proof (survives_on_wos _ (survives_Append r) _ _ Ht) as Hsurv.
  destruct (Append_any_plan _ r s Hh Hr) as (r1 & w & Hrun & Hsnap & Hmap & Hcase).
  pose proof (consistent_twin_of s (conj Hh Hmf)) as [Hht _].
  destruct (Append_holds _ r (twin_of s) Hht eq_refl Hr) as (wt & Hrunt & _).
  rewrite Hrun, Hrunt in Hsurv. simpl in Hsurv.
  assert (restartable (with_wos w s)) as Hre.
  { eapply snapshot_readable_ext; [exact Hsnap|apply Hh]. }
  destruct Hsurv as [-> | [-> Ht']].
  { rewrite (bind_Crashed _ _ _ _ Hrun). eexists _, _. split; [done|]. right. split; [done|].
    destruct Hmap as [Hmap|Hmap]; [by left|right]. split; [done|left]. by rewrite Hm'. }
  destruct Hcase as [[_ Hh']|[?|?]]; [|done..].
  rewrite (bind_Ret _ _ _ _ _ Hrun). unfold on_base.
  unfold bind at 1, zoom. change (base_ (with_wos w s)) with (base_ s). rewrite Hupd.
  set (s1 := MkStore _ _ _ _ _ _).
  assert (consistent s1) as Hc1.
  { split; [|done]. change (data s1) with m'. rewrite Hm'. by destruct Hh'. }
  assert (snapshot_current (data s1) s1) as Hcur1.
  { destruct Hcur as [?|Hcur]; [by left|right]. rewrite <-Hcur. by apply snapshot_map_ext. }
  assert (crash_only (store_os s1)) as Hplan1.
  { destruct Ht' as (_ & _ & (_ & Hplan1 & _) & _). done. }
  assert (logged s1 = logged s ++ [r]) as Hlog.
  { destruct Hh as [(rs & Hrs & Hw) _ _ _].
    destruct (Append_cases _ _ r _ _ Hw) as (r2 & w2 & o2 & k & Happ & _ & _ & Hcase).
    assert (on_wos (Append r) s = (r2, with_wos (MkWalOs w2 o2) s)) as Hrun2.
    { apply on_wos_run. unfold store_wal, store_os in Happ. by destruct (wos s). }
    rewrite Hrun in Hrun2. injection Hrun2 as <- Hw2.
    destruct Hcase as [(_ & _ & Hw')|[?|?]]; [|done..].
    apply (wal_records_snoc _ _ _ rs r Hrs Hr (wr_file _ _ _ _ Hw)).
    change (store_os s1) with (the_os w). rewrite Hw2. apply Hw'. }
  destruct (count_and_check_crash s1 Hc1 Hcur1 Hplan1) as (r3 & s3 & Hrun3 & Hcase3).
  destruct Hcase3 as [(-> & ? & ? & ?)|(-> & Hleft)].
  - rewrite (bind_Ret _ _ _ _ _ Hrun3). eexists _, _. split; [done|]. by left.
  - rewrite (bind_Crashed _ _ _ _ Hrun3). eexists _, _. split; [done|]. right. split; [done|right].
    rewrite Hlog in Hleft. change (snapshot_file s1) with (snapshot_file (with_wos w s)) in Hleft.
    by rewrite Hsnap in Hleft.
Qed.
