(* ===== verification/StoreTheorems.v ===== *)
(** * What the persistent store guarantees

    The store as an implementation of the map interface, histories of operations and
    restarts, and the theorems: durability, atomicity under a kill, recovery from a
    damaged log, bounds of the counters, and the cases in which data is lost. *)

From S2P Require Import Prelude Posix FileIo Codec WalRecord Wal SnapshotEntry.
From S2P Require Import Snapshot KvStore SlidingWindow PersistentStore Durability.
From S2P Require Import Survival Crash.

(** ** The store as a map *)

#[export] Instance PersistentKvStore_backend : KvBackend PersistentKvStore := {|
  kv_set := Set_;
  kv_get := Get;
  kv_delete := Delete;
  kv_exists := Exists_;
  kv_all_keys := AllKeys;
  contents := data
|}.

Definition store_ok (s : PersistentKvStore) : Prop := consistent s /\ fault_free (store_os s).

(** Requests the store serves: lengths that fit, a key count that fits, and no delete
    of the last key (see [empty_snapshot_resurrects]). *)
Definition store_admits (m : gmap bytes bytes) (k : bytes) (v : option bytes) : Prop :=
  fits16 k /\
  match v with
  | Some v => fits16 v /\ Z.of_nat (size (<[k := v]> m)) < 2 ^ 32
  | None => delete k m <> ∅
  end.

Lemma Get_run k s : Get k s = (Ret (data s !! k), s).
Proof.
  unfold Get, on_base, zoom. simpl. unfold data. destruct s as [b ? ? ? ? ?]. simpl. by destruct (data_ b !! k).
Qed.

Lemma Exists_run k s : Exists_ k s = (Ret (bool_decide (is_Some (data s !! k))), s).
Proof. unfold Exists_, on_base, zoom, KvStore_Exists, gets, data. rewrite erased_positive. by destruct s. Qed.

Lemma AllKeys_run s :
  consistent s ->
  exists ks s', AllKeys s = (Ret ks, s') /\ consistent s' /\ data s' = data s /\ wos s' = wos s /\
    ks ≡ₚ (map_to_list (data s)).*1.
Proof.
  intros Hc. unfold AllKeys, walk, bind, ret. eexists _, _. split; [done|].
  pose proof Hc as [[Hlog Hd Hr Henv] Hm]. split; [by split|]. split; [done|]. split; [done|].
  apply fmap_Permutation. by apply traversed.
Qed.

#[export] Instance PersistentKvStore_laws : KvLaws PersistentKvStore store_ok store_admits.
Proof.
  split; simpl.
  - intros s k v [Hc Hf] (Hk & Hv & Hs). destruct (Set_run k v s) as (s' & ? & ? & ? & ? & _); try done.
    by exists s'.
  - intros s k [Hc Hf] (Hk & Hne).
    destruct (Delete_run k s) as (s' & ? & ? & ? & ? & _); try done; [by left|]. by exists s'.
  - intros s k _. apply Get_run.
  - intros s k _. apply Exists_run.
  - intros s [Hc Hf]. destruct (AllKeys_run s Hc) as (ks & s' & ? & ? & ? & Hw & ?). exists ks, s'.
    split_and!; try done. split; [done|]. unfold store_os. by rewrite Hw.
Qed.

(** ** Histories *)

Inductive kv_op :=
  | OpSet (k v : bytes)
  | OpDel (k : bytes).

Definition apply_op (m : gmap bytes bytes) (o : kv_op) : gmap bytes bytes :=
  match o with
  | OpSet k v => <[k := v]> m
  | OpDel k => delete k m
  end.

(** The caller's code for one operation. *)
Definition run_op (o : kv_op) : M PersistentKvStore unit :=
  match o with
  | OpSet k v => Set_ k v
  | OpDel k => do! Delete k in ret tt
  end.

Fixpoint run_ops (os : list kv_op) : M PersistentKvStore unit :=
  match os with
  | [] => ret tt
  | o :: os => do! run_op o in run_ops os
  end.

Definition op_record (o : kv_op) : WALRecord :=
  match o with
  | OpSet k v => MkRecord OP_SET k v
  | OpDel k => MkRecord OP_DEL k []
  end.

(** An operation the store can carry out on the map [m], leaving some key in it. *)
Definition op_fits (m : gmap bytes bytes) (o : kv_op) : Prop :=
  record_fits (op_record o) /\ apply_op m o <> ∅ /\ Z.of_nat (size (apply_op m o)) < 2 ^ 32.

Fixpoint ops_fit (m : gmap bytes bytes) (os : list kv_op) : Prop :=
  match os with
  | [] => True
  | o :: os => op_fits m o /\ ops_fit (apply_op m o) os
  end.

#[export] Instance op_fits_decision m o : Decision (op_fits m o).
Proof. unfold op_fits, record_fits. apply _. Defined.

#[export] Instance ops_fit_decision m os : Decision (ops_fit m os).
Proof. revert m. induction os; intros m; simpl; apply _. Defined.

(** A new process on the files another one left: a fresh log object, no descriptors. *)
Definition restart (s : PersistentKvStore) (e : Env) : res unit * PersistentKvStore :=
  construct (data_dir_ s) (MkWalOs WAL_init (reboot [] (store_os s))) e.

(** ** Lemmas *)

Lemma restart_ok s e :
  restartable s -> env_ok e ->
  exists s', restart s e = (Ret tt, s') /\ data s' = next_process_map s /\
    data_dir_ s' = data_dir_ s /\ env s' = e /\ fault_free (store_os s') /\
    files (store_os s') !! wal_path (data_dir_ s)
      = Some (file_contents (store_os s) (wal_path (data_dir_ s))) /\
    files (store_os s') !! GetSnapshotPath (data_dir_ s) = snapshot_file s /\
    wal_ready (wal_path (data_dir_ s)) (file_contents (store_os s) (wal_path (data_dir_ s)))
      (store_wal s') (store_os s').
Proof.
  intros Hre He.
  destruct (construct_run (data_dir_ s) (MkWalOs WAL_init (reboot [] (store_os s))) e)
    as (s' & Hrun & Hd & Hdir & Henv & _ & _ & Hf & Hfiles & Hw); try done.
  { simpl. lia. }
  exists s'. split; [done|]. split_and!; try done.
  - rewrite Hfiles. apply lookup_insert_eq.
  - rewrite Hfiles. apply lookup_insert_ne, snapshot_path_ne.
Qed.

(** A consistent store comes back consistent. *)
Lemma restart_consistent s e :
  consistent s -> env_ok e ->
  exists s', restart s e = (Ret tt, s') /\ store_ok s' /\ data s' = data s.
Proof.
  intros [[(rs & Hrs & Hw) Hdata Hread Henv] Hm] He.
  destruct (restart_ok s e Hread He)
    as (s' & Hrun & Hd & Hdir & Henv' & Hf & Hlog & Hsnap & Hw').
  unfold file_contents in *. rewrite (wr_file _ _ _ _ Hw) in *. simpl in *.
  assert (data s' = data s) as Hds by by rewrite Hd.
  exists s'. split; [done|]. split; [|done]. split; [|done]. split; [split|]; rewrite ?Hdir, ?Hds.
  - by exists rs.
  - rewrite <-Hdata. apply recovered_ext; [done|]. by rewrite Hlog, (wr_file _ _ _ _ Hw).
  - by eapply snapshot_readable_ext.
  - by rewrite Henv'.
  - done.
Qed.

Lemma apply_op_record m o : apply_op m o = replay_record m (op_record o).
Proof. by destruct o. Qed.

Lemma run_op_ok o s :
  store_ok s -> op_fits (data s) o ->
  exists s', run_op o s = (Ret tt, s') /\ store_ok s' /\ data s' = apply_op (data s) o.
Proof.
  intros [Hc Hf] ([Hk Hv] & Hne & Hsize). destruct o as [k v|k]; simpl in *.
  - destruct (Set_run k v s) as (s' & Hrun & ? & ? & ? & _); try done. by exists s'.
  - destruct (Delete_run k s) as (s' & Hrun & ? & ? & ? & _); try done; [by left|].
    exists s'. by rewrite (bind_Ret _ _ _ _ _ Hrun).
Qed.

Lemma run_ops_ok os s :
  store_ok s -> ops_fit (data s) os ->
  exists s', run_ops os s = (Ret tt, s') /\ store_ok s' /\ data s' = foldl apply_op (data s) os.
Proof.
  revert s. induction os as [|o os IH]; intros s Hok Hfit; [by exists s|].
  destruct Hfit as [Ho Hos]. destruct (run_op_ok o s Hok Ho) as (s1 & Hrun & Hok1 & Hd).
  rewrite <-Hd in Hos. destruct (IH s1 Hok1 Hos) as (s2 & Hrun2 & ? & Hd2).
  exists s2. simpl. rewrite (bind_Ret _ _ _ _ _ Hrun), Hrun2, Hd2, Hd. done.
Qed.

Lemma map_fits_replay m r :
  map_fits m -> record_fits r -> Z.of_nat (size (replay_record m r)) < 2 ^ 32 ->
  map_fits (replay_record m r).
Proof.
  intros Hm [Hk Hv] Hs. unfold replay_record in *. repeat case_decide; [|by apply map_fits_delete|done].
  by apply map_fits_insert.
Qed.

(** A delete in a process that may be killed. *)
Lemma Delete_crash k s :
  consistent s -> crash_only (store_os s) -> op_fits (data s) (OpDel k) ->
  exists r s', Delete k s = (r, s') /\
    (r = Ret (bool_decide (is_Some (data s !! k))) /\ consistent s' /\ data s' = delete k (data s)
     \/ r = Crashed /\
        (restartable s' /\ next_process_map s' = data s
         \/ left_behind (delete k (data s)) (logged s ++ [MkRecord OP_DEL k []]) (snapshot_file s) s')).
Proof.
  intros Hc Hp (Hr & Hne & Hsize).
  destruct (logged_update_crash (MkRecord OP_DEL k []) (KvStore_Delete k) (delete k (data s))
              (bool_decide (is_Some (data s !! k))) s) as (r & s' & Hrun & Hcase); try done; [| |by left|].
  - unfold KvStore_Delete. by rewrite erased_positive.
  - apply map_fits_delete, Hc.
  - exists r, s'. split; [exact Hrun|]. destruct Hcase as [(-> & ? & ? & ?)|?]; [by left|by right].
Qed.

Lemma run_op_crash o s :
  consistent s -> crash_only (store_os s) -> op_fits (data s) o ->
  exists r s', run_op o s = (r, s') /\
    (r = Ret tt /\ consistent s' /\ data s' = apply_op (data s) o
     \/ r = Crashed /\
        (restartable s' /\ next_process_map s' = data s
         \/ left_behind (apply_op (data s) o) (logged s ++ [op_record o]) (snapshot_file s) s')).
Proof.
  intros Hc Hp Ho. destruct o as [k v|k]; cbn [run_op].
  - destruct Ho as (Hr & Hne & Hsize).
    destruct (logged_update_crash (MkRecord OP_SET k v) (KvStore_Set k v) (<[k := v]> (data s)) tt s)
      as (r & s' & Hrun & Hcase); try done; [|by left|].
    { destruct Hr. by apply map_fits_insert; [apply Hc|..]. }
    exists r, s'. split.
    + rewrite <-Hrun. unfold Set_, AppendSet, bind.
      destruct (on_wos _ s) as [[] ?]; try done. destruct (on_base _ _) as [[[]| | |] ?]; try done.
      by destruct (count_and_check _) as [[[]| | |] ?].
    + destruct Hcase as [(-> & ? & ? & ?)|?]; [by left|by right].
  - destruct (Delete_crash k s Hc Hp Ho) as (r & s' & Hrun & [(-> & ? & ?)|(-> & ?)]).
    + rewrite (bind_Ret _ _ _ _ _ Hrun). eexists _, _. split; [done|]. by left.
    + rewrite (bind_Crashed _ _ _ _ Hrun). eexists _, _. split; [done|]. by right.
Qed.

(** What one operation does to the counters and the log, on the run that does not die. *)
Lemma count_and_check_trace s :
  consistent s -> fault_free (store_os s) -> snapshot_current (data s) s ->
  exists s', count_and_check s = (Ret tt, s') /\
    (op_count_ s' = 0 /\ timestamps_ (burst_window_ s') = [] /\ logged s' = [] \/
     u64 (op_count_ s + 1) < 500 /\ op_count_ s' = u64 (op_count_ s + 1) /\
       logged s' = logged s /\
       exists t, IsExceeded t (burst_window_ s') = false).
Proof.
  intros Hc Hf Hcur. unfold count_and_check. rewrite bind_modify.
  unfold bind at 1, now at 1. rewrite bind_modify. set (s1 := set_burst_window_ _ _).
  unfold CheckSnapshotTrigger. rewrite bind_gets.
  unfold bind at 1, now at 1. rewrite bind_gets. set (s2 := set_env _ s1).
  assert (consistent s2) as Hc2 by (destruct Hc as [[? ? ? ?] ?]; by split_and!).
  case_bool_decide as Hn; cbn [orb]; [|destruct (IsExceeded _ _) eqn:Hex].
  1,2: destruct (CreateSnapshot_ok s2 Hc2 Hf Hcur) as (s' & Hrun & _ & _ & _ & Hd & H0 & Ht & Hl);
    exists s'; (split; [done|left]); (split; [done|]); (split; [by rewrite Ht|]);
    unfold logged; by rewrite Hd.
  exists s2. split; [done|right]. split; [unfold kSnapshotInterval in Hn; simpl in *; lia|].
  split; [done|]. split; [done|]. eexists. exact Hex.
Qed.


Lemma run_op_trace o s :
  store_ok s -> op_fits (data s) o ->
  exists s', run_op o s = (Ret tt, s') /\
    (op_count_ s' = 0 /\ timestamps_ (burst_window_ s') = [] /\ logged s' = [] \/
     u64 (op_count_ s + 1) < 500 /\ op_count_ s' = u64 (op_count_ s + 1) /\
       logged s' = logged s ++ [op_record o] /\
       exists t, IsExceeded t (burst_window_ s') = false).
Proof.
  intros [Hc Hf] (Hr & Hne & Hsize).
  assert (map_fits (apply_op (data s) o)) as Hfit.
  { rewrite apply_op_record in *. apply map_fits_replay; [apply Hc|done..]. }
  assert (forall s1 s', consistent s1 -> fault_free (store_os s1) -> snapshot_current (data s1) s1 ->
    data_dir_ s1 = data_dir_ s -> op_count_ s1 = op_count_ s ->
    wal_records (data_dir_ s) (files (store_os s1)) = logged s ++ [op_record o] ->
    count_and_check s1 = (Ret tt, s') -> run_op o s = (Ret tt, s') ->
    op_count_ s' = 0 /\ timestamps_ (burst_window_ s') = [] /\ logged s' = [] \/
     u64 (op_count_ s + 1) < 500 /\ op_count_ s' = u64 (op_count_ s + 1) /\
       logged s' = logged s ++ [op_record o] /\
       exists t, IsExceeded t (burst_window_ s') = false) as Hgoal.
  { intros s1 s' Hc1 Hf1 Hcur1 Hdir Hop Hlog Hrun _.
    destruct (count_and_check_trace s1 Hc1 Hf1 Hcur1) as (s'' & Hrun' & Hcase).
    rewrite Hrun in Hrun'. injection Hrun' as <-. rewrite Hop in Hcase.
    assert (logged s1 = logged s ++ [op_record o]) as <- by (unfold logged in *; by rewrite Hdir).
    exact Hcase. }
  destruct o as [k v|k]; cbn [run_op].
  - destruct (logged_update_step (MkRecord OP_SET k v) (KvStore_Set k v) (<[k := v]> (data s)) tt s
      (fun _ => count_and_check)) as (s1 & Hstep & Hc1 & Hf1 & Hsnap & Hd & Hdir & Hop & _ & _ & Hlog);
      try done.
    pose proof (snapshot_current_ext _ _ s s1 (or_introl Hne) Hd Hdir Hsnap) as Hcur1.
    destruct (count_and_check_trace s1 Hc1 Hf1 Hcur1) as (s' & Hrun & _).
    rewrite Hrun in Hstep. exists s'. split; [exact Hstep|]. by eapply Hgoal.
  - destruct (logged_update_step (MkRecord OP_DEL k []) (KvStore_Delete k) (delete k (data s))
      (bool_decide (is_Some (data s !! k))) s (fun x => do! count_and_check in ret x))
      as (s1 & Hstep & Hc1 & Hf1 & Hsnap & Hd & Hdir & Hop & _ & _ & Hlog); try done.
    { unfold KvStore_Delete. by rewrite erased_positive. }
    pose proof (snapshot_current_ext _ _ s s1 (or_introl Hne) Hd Hdir Hsnap) as Hcur1.
    destruct (count_and_check_trace s1 Hc1 Hf1 Hcur1) as (s' & Hrun & _).
    rewrite (bind_Ret _ _ _ _ _ Hrun) in Hstep. change (Delete k s = (Ret (bool_decide (is_Some (data s !! k))), s')) in Hstep.
    exists s'. rewrite (bind_Ret _ _ _ _ _ Hstep). split; [done|].
    eapply Hgoal; try done. cbn [run_op]. by rewrite (bind_Ret _ _ _ _ _ Hstep).
Qed.

(** Far from the thresholds any operation is carried out, also one that empties the
    map. *)
Definition quiet (s : PersistentKvStore) : Prop :=
  0 <= op_count_ s < 499 /\ zlen (timestamps_ (burst_window_ s)) < 100 /\
  max_ops_ (burst_window_ s) = 100.

Lemma quiet_op_ok o s :
  store_ok s -> quiet s -> record_fits (op_record o) -> map_fits (apply_op (data s) o) ->
  exists s', run_op o s = (Ret tt, s') /\ store_ok s' /\ data s' = apply_op (data s) o /\
    data_dir_ s' = data_dir_ s /\ snapshot_file s' = snapshot_file s /\
    op_count_ s' = op_count_ s + 1 /\
    zlen (timestamps_ (burst_window_ s')) = zlen (timestamps_ (burst_window_ s)) + 1 /\
    max_ops_ (burst_window_ s') = 100.
Proof.
  intros [Hc Hf] (Hn & Ht & Hmax) Hr Hfit.
  assert (forall A (upd : M KvStore A) (a : A) (k : A -> M PersistentKvStore A),
    upd (base_ s) = (Ret a, MkKv (apply_op (data s) o)) ->
    exists s1 s', (do! on_wos (Append (op_record o)) in let! x := on_base upd in k x) s = k a s1 /\
      count_and_check s1 = (Ret tt, s') /\ store_ok s' /\ data s' = apply_op (data s) o /\
      data_dir_ s' = data_dir_ s /\ snapshot_file s' = snapshot_file s /\
      op_count_ s' = op_count_ s + 1 /\
      zlen (timestamps_ (burst_window_ s')) = zlen (timestamps_ (burst_window_ s)) + 1 /\
      max_ops_ (burst_window_ s') = 100) as Hstep.
  { intros A upd a k Hupd.
    destruct (logged_update_step _ upd _ a s k Hc Hf Hr Hupd (apply_op_record _ _) Hfit)
      as (s1 & Hrun & Hc1 & Hf1 & Hsnap & Hd & Hdir & Hop & Hb & _).
    destruct (count_and_check_quiet s1) as (s' & Hrun' & Hbase & Hwos & Hdir' & Hop' & Ht' & Hmax' & Henv);
      rewrite ?Hop, ?Hb; try done.
    exists s1, s'. split; [done|]. split; [done|].
    assert (store_os s' = store_os s1) as Hos by (unfold store_os; by rewrite Hwos).
    assert (data s' = data s1) as Hdata by (unfold data; by rewrite Hbase).
    rewrite Hop, Hb in *. unfold snapshot_file. rewrite Hdata, Hdir', Hos, Hdir.
    split_and!; try done. split; [|by unfold fault_free in *; rewrite Hos].
    destruct Hc1 as [[(rs & Hrs & Hw) Hdt Hrd Hen] Hm]. split; [split|]; rewrite ?Hdata, ?Hdir', ?Hos; auto.
    exists rs. unfold store_wal in *. by rewrite Hwos. }
  destruct o as [k v|k]; cbn [run_op].
  - destruct (Hstep _ (KvStore_Set k v) tt (fun _ => count_and_check) eq_refl)
      as (s1 & s' & Hrun & Hcc & H'). rewrite Hcc in Hrun. by exists s'.
  - destruct (Hstep _ (KvStore_Delete k) (bool_decide (is_Some (data s !! k)))
      (fun x => do! count_and_check in ret x)) as (s1 & s' & Hrun & Hcc & H').
    { unfold KvStore_Delete. by rewrite erased_positive. }
    rewrite (bind_Ret _ _ _ _ _ Hcc) in Hrun. exists s'. split; [|done].
    change (Delete k s = (Ret (bool_decide (is_Some (data s !! k))), s')) in Hrun.
    by rewrite (bind_Ret _ _ _ _ _ Hrun).
Qed.

(** ** A store on an empty directory *)

Definition blank_os : os := MkOs ∅ ∅ ∅ 3 0 [].

(** The store a server starts with on an empty disk. *)
Definition started_store (dir : bytes) (e : Env) : PersistentKvStore :=
  (construct dir (MkWalOs WAL_init blank_os) e).2.

Definition fresh_store (dir : bytes) : PersistentKvStore := started_store dir plain_env.

(** The same store with a plan of faults to come. *)
Definition with_plan (p : list fault) (s : PersistentKvStore) : PersistentKvStore :=
  with_wos (MkWalOs (store_wal s) (set_plan p (store_os s))) s.

Lemma started_store_ok dir e :
  env_ok e ->
  store_ok (started_store dir e) /\ data (started_store dir e) = ∅ /\
  snapshot_file (started_store dir e) = None /\ op_count_ (started_store dir e) = 0 /\
  burst_window_ (started_store dir e) = SlidingWindow_new kBurstMaxOps kBurstWindowMs.
Proof.
  intros He. unfold started_store.
  destruct (construct_run dir (MkWalOs WAL_init blank_os) e)
    as (s & -> & Hd & Hdir & Henv & Hop & Hb & Hf & Hfiles & Hw); try done; simpl in *.
  { lia. }
  { by eexists _, _. }
  assert (data s = ∅) as Hds by by rewrite Hd.
  assert (snapshot_file s = None) as Hs.
  { unfold snapshot_file. rewrite Hfiles, Hdir, lookup_insert_ne; [done|apply snapshot_path_ne]. }
  split; [|done]. split; [|done]. split; [split|]; rewrite ?Hds, ?Hdir.
  - by exists [].
  - rewrite (recovered_log_clean _ _ []); [|constructor|by rewrite Hfiles, lookup_insert_eq].
    simpl. unfold snapshot_map. unfold snapshot_file in Hs. rewrite Hdir in Hs. by rewrite Hs.
  - unfold snapshot_readable. unfold snapshot_file in Hs. rewrite Hdir in Hs. rewrite Hs. by eexists _, _.
  - by rewrite Henv.
  - split; [apply map_Forall_empty|done].
Qed.

Lemma fresh_store_ok dir :
  store_ok (fresh_store dir) /\ data (fresh_store dir) = ∅ /\ snapshot_file (fresh_store dir) = None /\
  op_count_ (fresh_store dir) = 0 /\
  burst_window_ (fresh_store dir) = SlidingWindow_new kBurstMaxOps kBurstWindowMs.
Proof. exact (started_store_ok dir plain_env plain_env_ok). Qed.

Lemma consistent_with_plan p s : consistent s -> consistent (with_plan p s).
Proof.
  intros [[(rs & Hrs & Hw) Hdata Hread Henv] Hm]. split; [split|]; try done.
  exists rs. split; [done|]. by apply wal_ready_plan.
Qed.

Lemma data_with_plan p s : data (with_plan p s) = data s.
Proof. done. Qed.

(** ** Durability *)

(** C1: Whatever sets and deletes a store carries out without a fault, if their keys and
    values are shorter than 64 KiB, the map keeps fewer than 2^32 entries and no operation
    leaves it empty: they all return, and a process started on the files afterwards, at any
    point and with any clock and traversal order of the hash table, has exactly the map
    those operations build. (Without the conditions this fails: see
    [oversize_never_recovered] and [empty_snapshot_resurrects].) *)
Theorem durable_history os s e :
  store_ok s -> ops_fit (data s) os -> env_ok e ->
  exists s1 s2, run_ops os s = (Ret tt, s1) /\ restart s1 e = (Ret tt, s2) /\
    data s2 = foldl apply_op (data s) os.
Proof.
  intros Hok Hfit He. destruct (run_ops_ok os s Hok Hfit) as (s1 & Hrun & [Hc _] & Hd).
  destruct (restart_consistent s1 e Hc He) as (s2 & Hre & _ & Hd2).
  exists s1, s2. by rewrite Hd2, Hd.
Qed.

Lemma durable_history_witness :
  let s := fresh_store (str "d") in
  let os := [OpSet (str "a") (str "1"); OpSet (str "b") []; OpDel (str "a")] in
  exists s1 s2, run_ops os s = (Ret tt, s1) /\ restart s1 plain_env = (Ret tt, s2) /\
    data s2 = foldl apply_op (data s) os.
Proof.
  apply durable_history; [apply fresh_store_ok| |apply plain_env_ok].
  destruct (fresh_store_ok (str "d")) as (_ & -> & _).
  apply (bool_decide_unpack _). vm_compute. exact I.
Defined.

(** C2: A set or a delete whose key and value are shorter than 64 KiB, which leaves the map
    with at least one and fewer than 2^32 entries. If the process is killed inside any
    system call of it, a new process starts and has the map from before the operation or
    the map from after it; only when an older snapshot existed may it instead have what the
    log alone says (the process died between removing that snapshot and renaming the new
    one). An operation that returned is always found. Nothing but the kill goes wrong. *)
Theorem kill_atomic o s e :
  consistent s -> crash_only (store_os s) -> op_fits (data s) o -> env_ok e ->
  exists r s1 s2, run_op o s = (r, s1) /\ restart s1 e = (Ret tt, s2) /\
    (r = Ret tt /\ data s2 = apply_op (data s) o
     \/ r = Crashed /\
        (data s2 = data s \/ data s2 = apply_op (data s) o
         \/ snapshot_file s <> None /\ snapshot_file s1 = None /\
            data s2 = replay (logged s ++ [op_record o]) ∅)).
Proof.
  intros Hc Hp Ho He. destruct (run_op_crash o s Hc Hp Ho) as (r & s1 & Hrun & Hcase).
  exists r, s1. destruct Hcase as [(-> & Hc1 & Hd)|(-> & Hcase)].
  - destruct (restart_consistent s1 e Hc1 He) as (s2 & Hre & _ & Hd2).
    exists s2. split; [done|]. split; [done|]. left. by rewrite Hd2.
  - assert (restartable s1) as Hre by (destruct Hcase as [[? _]|[? _]]; done).
    destruct (restart_ok s1 e Hre He) as (s2 & Hrun2 & Hd2 & _). rewrite <-Hd2 in Hcase.
    exists s2. split; [done|]. split; [done|]. right. split; [done|].
    unfold left_behind in Hcase. rewrite <-Hd2 in Hcase.
    destruct Hcase as [[_ ?]|[_ [?|(? & ? & ?)]]]; auto.
Qed.

Lemma kill_atomic_witness :
  let s := with_plan [FCrash 7] (fresh_store (str "d")) in
  let o := OpSet (str "a") (str "1") in
  exists r s1 s2, run_op o s = (r, s1) /\ restart s1 plain_env = (Ret tt, s2) /\
    (r = Ret tt /\ data s2 = apply_op (data s) o
     \/ r = Crashed /\
        (data s2 = data s \/ data s2 = apply_op (data s) o
         \/ snapshot_file s <> None /\ snapshot_file s1 = None /\
            data s2 = replay (logged s ++ [op_record o]) ∅)).
Proof.
  apply kill_atomic.
  - apply consistent_with_plan, fresh_store_ok.
  - constructor; [right; exists 7; reflexivity|constructor].
  - rewrite data_with_plan.
    destruct (fresh_store_ok (str "d")) as (_ & -> & _).
    apply (bool_decide_unpack _). vm_compute. exact I.
  - apply plain_env_ok.
Defined.

(** C16: However the log is cut short, at any byte, a new process that no fault hits starts
    and has the map built by the longest run of complete records that is left: no
    complete record is lost and nothing of the torn one is used. *)
Theorem torn_log_prefix dir o e rs n :
  Forall record_fits rs -> 0 <= n -> files o !! wal_path dir = Some (ztake n (encode_all rs)) ->
  snapshot_readable dir (files o) -> fault_free o -> 0 <= next_fd o ->
  exists s k, construct dir (MkWalOs WAL_init o) e = (Ret tt, s) /\
    data s = replay (take k rs) (snapshot_map dir (files o)) /\
    zlen (encode_all (take k rs)) <= n /\
    (n < zlen (encode_all rs) -> n < zlen (encode_all (take (S k) rs))).
Proof.
  intros Hrs Hn Hlog Hread Hf Hnext.
  destruct (log_cut rs n Hrs Hn) as (k & t & Hcut & Hdead & Hlow & Hhigh).
  destruct (construct_run dir (MkWalOs WAL_init o) e) as (s & Hrun & Hd & _); try done.
  { simpl. lia. }
  exists s, k. split; [done|]. split; [|done]. rewrite Hd. simpl.
  apply (recovered_log _ _ _ t); [by apply Forall_take|done|]. by rewrite Hlog, Hcut.
Qed.

Definition torn_example : list WALRecord :=
  [MkRecord OP_SET (str "a") (str "1"); MkRecord OP_SET (str "b") (str "2")].

Lemma torn_log_prefix_witness :
  let fs : gmap bytes bytes := {[ wal_path (str "d") := ztake 15 (encode_all torn_example) ]} in
  exists s k, construct (str "d") (MkWalOs WAL_init (MkOs fs ∅ ∅ 3 0 [])) plain_env = (Ret tt, s) /\
    data s = replay (take k torn_example) (snapshot_map (str "d") fs) /\
    zlen (encode_all (take k torn_example)) <= 15 /\
    (15 < zlen (encode_all torn_example) -> 15 < zlen (encode_all (take (S k) torn_example))).
Proof.
  apply torn_log_prefix.
  - repeat constructor.
  - lia.
  - apply lookup_singleton_eq.
  - eexists _, _. simpl. rewrite lookup_singleton_ne; [reflexivity|]. apply snapshot_path_ne.
  - reflexivity.
  - simpl. lia.
Defined.

(** C24: The operation counter never reaches the snapshot interval at rest: each
    set and delete either takes a snapshot (the counter, the burst window and the log
    are then empty) or adds one to the counter and one record to the log, with the
    burst window below its limit. So the log never grows by 500 records between two snapshots. *)
Theorem op_count_bounded o s :
  store_ok s -> op_fits (data s) o -> 0 <= op_count_ s < 500 ->
  exists s', run_op o s = (Ret tt, s') /\ 0 <= op_count_ s' < 500 /\
    (op_count_ s' = 0 /\ timestamps_ (burst_window_ s') = [] /\ logged s' = [] \/
     op_count_ s' = op_count_ s + 1 /\ logged s' = logged s ++ [op_record o] /\
       exists t, IsExceeded t (burst_window_ s') = false).
Proof.
  intros Hok Ho Hn. destruct (run_op_trace o s Hok Ho) as (s' & Hrun & Hcase).
  assert (u64 (op_count_ s + 1) = op_count_ s + 1) as Hu by (apply Z.mod_small; lia).
  rewrite Hu in Hcase. exists s'. split; [done|].
  destruct Hcase as [(-> & ? & ?)|(? & -> & ? & ?)]; (split; [lia|auto]).
Qed.

Lemma op_count_bounded_witness :
  let s := fresh_store (str "d") in
  let o := OpSet (str "a") (str "1") in
  exists s', run_op o s = (Ret tt, s') /\ 0 <= op_count_ s' < 500 /\
    (op_count_ s' = 0 /\ timestamps_ (burst_window_ s') = [] /\ logged s' = [] \/
     op_count_ s' = op_count_ s + 1 /\ logged s' = logged s ++ [op_record o] /\
       exists t, IsExceeded t (burst_window_ s') = false).
Proof.
  destruct (fresh_store_ok (str "d")) as (Hok & Hd & _ & Hn & _).
  apply op_count_bounded; [exact Hok|rewrite Hd; apply (bool_decide_unpack _); vm_compute; exact I|].
  rewrite Hn. lia.
Defined.

(** ** Where data is lost *)

(** C31: A snapshot taken when the map is empty writes no file and still
    empties the log, so the next process has the older snapshot's entries back. *)
Theorem empty_snapshot_resurrects s e :
  store_ok s -> data s = ∅ -> env_ok e ->
  exists s1 s2, ForceSnapshot s = (Ret tt, s1) /\ data s1 = ∅ /\ restart s1 e = (Ret tt, s2) /\
    data s2 = snapshot_map (data_dir_ s) (files (store_os s)).
Proof.
  intros [Hc Hf] Hd He.
  destruct (CreateSnapshot_empty s Hc Hf Hd) as (s1 & Hrun & Hd1 & Hf1 & Hdir & _ & Hread & Hrec).
  destruct (restart_ok s1 e) as (s2 & Hrun2 & Hd2 & _); [by unfold restartable; rewrite Hdir|done|].
  exists s1, s2. split; [done|]. split; [done|]. split; [done|].
  rewrite Hd2. unfold next_process_map. by rewrite Hdir.
Qed.

(** One key set, saved and deleted again. *)
Lemma emptied_store k v :
  fits16 k -> fits16 v ->
  exists s, store_ok s /\ data s = ∅ /\
    snapshot_map (data_dir_ s) (files (store_os s)) = {[ k := v ]}.
Proof.
  intros Hk Hv. destruct (fresh_store_ok []) as (Hok & Hd & _ & Hop & Hb).
  set (s0 := fresh_store []) in *. clearbody s0.
  destruct (quiet_op_ok (OpSet k v) s0 Hok) as (s1 & _ & [Hc1 Hf1] & Hd1 & _ & _ & Hop1 & Ht1 & Hm1).
  { split; [lia|]. by rewrite Hb. }
  { done. }
  { rewrite Hd. simpl. apply map_fits_insert; [by split; [apply map_Forall_empty|]|done..|].
    by rewrite map_size_insert_None by apply lookup_empty. }
  rewrite Hd in Hd1. simpl in Hd1.
  destruct (CreateSnapshot_ok s1 Hc1 Hf1) as (s2 & _ & Hc2 & Hf2 & Hd2 & Hdir2 & Hop2 & Hb2 & Hl2).
  { left. rewrite Hd1. apply insert_non_empty. }
  assert (snapshot_map (data_dir_ s2) (files (store_os s2)) = {[ k := v ]}) as Hsnap.
  { destruct Hc2 as [[_ Hrec _ _] _]. rewrite Hd2, Hd1 in Hrec.
    unfold recovered in Hrec. by rewrite Hdir2, Hl2 in *. }
  destruct (quiet_op_ok (OpDel k) s2) as (s3 & _ & Hok3 & Hd3 & Hdir3 & Hsf3 & _); try done.
  { split; [lia|]. by rewrite Hb2. }
  { apply map_fits_delete, Hc2. }
  exists s3. split; [done|]. rewrite Hd3, Hd2, Hd1. split; [exact (delete_singleton_eq k v)|].
  unfold snapshot_file in Hsf3. rewrite Hdir3 in *. by rewrite <-Hsnap; apply snapshot_map_ext.
Qed.

Lemma empty_snapshot_resurrects_witness :
  exists s s1 s2, data s = ∅ /\ ForceSnapshot s = (Ret tt, s1) /\
    restart s1 plain_env = (Ret tt, s2) /\ data s2 = {[ str "k" := str "v" ]}.
Proof.
  destruct (emptied_store (str "k") (str "v")) as (s & Hok & Hd & Hsnap); [reflexivity..|].
  destruct (empty_snapshot_resurrects s plain_env Hok Hd plain_env_ok) as (s1 & s2 & ? & _ & ? & Hd2).
  exists s, s1, s2. rewrite Hsnap in Hd2. split_and!; assumption.
Defined.

(** The rest of [CreateSnapshot], once the attempt to write the file has ended without
    a trace other than its temporary file. *)
Lemma clear_after_failure w s :
  consistent s -> the_wal w = store_wal s -> fault_free (the_os w) ->
  files (the_os w) = files (store_os s) -> fds_kept (store_os s) (the_os w) ->
  exists w', on_wos ClearWithoutLock (with_wos w s) = (Ret tt, with_wos w' s) /\
    files (the_os w') = <[wal_path (data_dir_ s) := []]> (files (store_os s)).
Proof.
  intros [[(rs & Hrs & Hw) _ _ _] _] Hwal Hf Hfiles Hk. destruct w as [w o]. simpl in *. subst w.
  assert (wal_ready (wal_path (data_dir_ s)) (encode_all rs) (store_wal s) o) as Hw'.
  { eapply wal_ready_frame; [exact Hw|by rewrite Hfiles|done]. }
  destruct (ClearWithoutLock_run _ (with_wos (MkWalOs (store_wal s) o) s) Hw' Hf)
    as (w' & Hrun & _ & _ & Hf'). exists w'. split; [done|]. rewrite Hf'. simpl. by rewrite <-Hfiles.
Qed.

(** When the snapshot file cannot even be opened, its failure is ignored and the
    log is emptied all the same: the next process has only the previous snapshot. *)
Theorem failed_snapshot_loses_map s e err :
  consistent s -> data s <> ∅ -> plan (store_os s) = [FErr err] -> env_ok e ->
  exists s1 s2, ForceSnapshot s = (Ret tt, s1) /\ data s1 = data s /\
    restart s1 e = (Ret tt, s2) /\ data s2 = snapshot_map (data_dir_ s) (files (store_os s)).
Proof.
  intros Hc Hne Hplan He. pose proof Hc as [[(rs & Hrs & Hw) Hdata Hread Henv] Hm].
  pose proof (traversed s Henv) as Hp. unfold ForceSnapshot, CreateSnapshot. rewrite bind_gets.
  unfold bind at 1. unfold walk at 1. set (es := order _ _ _) in *. set (s1 := set_env _ s).
  rewrite decide_False by (intros Hes; by apply (perm_nil_empty es _ Hp) in Hes).
  set (o1 := set_errno err (set_plan [] (store_os s))).
  assert (Create (data_dir_ s) es (store_os s1) = (Ret false, o1)) as Hcreate.
  { unfold Create, WriteSnapshot, FileOpenWrite, sys_open, bind, next_fault.
    change (store_os s1) with (store_os s). rewrite Hplan. done. }
  rewrite bind_assoc, (bind_Ret _ _ _ _ _ (Create_run _ _ s1 _ _ Hcreate)), bind_ret.
  assert (consistent s1) as Hc1 by (split; [split; [by exists rs|done..]|done]).
  destruct (clear_after_failure (MkWalOs (store_wal s) o1) s1 Hc1) as (w' & Hrun & Hfiles);
    [done..|by split|].
  rewrite (bind_Ret _ _ _ _ _ Hrun). clear Hrun Hcreate.
  assert (files (the_os w') !! GetSnapshotPath (data_dir_ s)
          = files (store_os s) !! GetSnapshotPath (data_dir_ s)) as Hs.
  { rewrite Hfiles. apply lookup_insert_ne, snapshot_path_ne. }
  rewrite bind_modify. unfold modify.
  match goal with |- exists _ _, (_, ?x) = _ /\ _ => set (s2 := x) end. destruct (restart_ok s2 e) as (s3 & Hrun3 & Hd3 & _); [|done|].
  { by eapply snapshot_readable_ext. }
  exists s2, s3. split; [done|]. split; [done|]. split; [done|]. rewrite Hd3.
  etrans; [apply (recovered_log_clean _ _ []); [constructor|]|by apply snapshot_map_ext].
  change (store_os s2) with (the_os w'). rewrite Hfiles. apply lookup_insert_eq.
Qed.

Lemma set_store k v :
  fits16 k -> fits16 v ->
  exists s, store_ok s /\ data s = {[ k := v ]} /\ snapshot_file s = None /\
    snapshot_map (data_dir_ s) (files (store_os s)) = ∅.
Proof.
  intros Hk Hv. destruct (fresh_store_ok []) as (Hok & Hd & Hsf & Hop & Hb).
  set (s0 := fresh_store []) in *. clearbody s0.
  destruct (quiet_op_ok (OpSet k v) s0 Hok) as (s1 & _ & Hok1 & Hd1 & _ & Hsf1 & _).
  { split; [lia|]. by rewrite Hb. }
  { done. }
  { rewrite Hd. simpl. apply map_fits_insert; [by split; [apply map_Forall_empty|]|done..|].
    by rewrite map_size_insert_None by apply lookup_empty. }
  exists s1. rewrite Hd1, Hd, Hsf1, Hsf. split_and!; try done.
  unfold snapshot_map. unfold snapshot_file in Hsf1, Hsf. by rewrite Hsf1, Hsf.
Qed.

Lemma failed_snapshot_loses_map_witness :
  exists s s1 s2, data s = {[ str "k" := str "v" ]} /\ ForceSnapshot s = (Ret tt, s1) /\
    data s1 = data s /\ restart s1 plain_env = (Ret tt, s2) /\ data s2 = ∅.
Proof.
  destruct (set_store (str "k") (str "v")) as (s & [Hc _] & Hd & _ & Hsnap); [reflexivity..|].
  destruct (failed_snapshot_loses_map (with_plan [FErr 28] s) plain_env 28)
    as (s1 & s2 & ? & Hd1 & ? & Hd2).
  - apply consistent_with_plan, Hc.
  - rewrite data_with_plan, Hd. apply insert_non_empty.
  - reflexivity.
  - apply plain_env_ok.
  - exists (with_plan [FErr 28] s), s1, s2. rewrite data_with_plan in *.
    split_and!; try assumption. etransitivity; [exact Hd2|exact Hsnap].
Defined.

Lemma next_fault_FOk p o : plan o = FOk :: p -> next_fault o = (Ret FOk, set_plan p o).
Proof. intros H. unfold next_fault. by rewrite H. Qed.

(** The process dies in the [rename] of [WriteSnapshot]. *)
Lemma Create_killed_before_rename dir es o n c :
  plan o = [FOk; FOk; FOk; FCrash n] -> 0 <= next_fd o ->
  files o !! GetSnapshotPath dir = Some c ->
  exists o', Create dir es o = (Crashed, o') /\ files o' !! GetSnapshotPath dir = None /\
    files_kept [GetSnapshotPath dir; GetSnapshotPath dir ++ str ".tmp"] o o'.
Proof.
  intros Hplan Hn Hc. unfold Create, WriteSnapshot. set (path := GetSnapshotPath dir) in *.
  set (tmp := path ++ str ".tmp"). pose proof (tmp_ne path : tmp <> path) as Hne.
  unfold FileOpenWrite.
  set (o1 := new_fd (tmp, 0) (set_files (<[tmp := []]> (files o)) (set_plan [FOk; FOk; FCrash n] o))).
  assert (sys_open tmp true true o = (Ret (next_fd o), o1)) as Hopen.
  { unfold sys_open. rewrite (bind_Ret _ _ _ _ _ (next_fault_FOk _ _ Hplan)).
    unfold bind, gets, modify. rewrite decide_False by (by intros [_ ?]). by rewrite decide_True by auto. }
  rewrite (bind_Ret _ _ _ _ _ Hopen), decide_False by lia. set (content := snapshot_content es).
  assert (0 < zlen content) as Hpos.
  { subst content. unfold snapshot_content, Crc32.AppendChecksum. zlen. }
  set (o2 := appended (next_fd o) tmp [] content (zlen content) (set_plan [FOk; FCrash n] o1)).
  assert (write_loop (length content) (next_fd o) content o1 = (Ret true, o2)) as Hloop.
  { destruct (length content) as [|fuel] eqn:El; [unfold zlen in *; lia|]. cbn [write_loop].
    rewrite decide_False by lia. unfold FileWrite.
    assert (sys_write (next_fd o) content o1 = (Ret (zlen content), o2)) as Hw.
    { unfold sys_write. rewrite (bind_Ret _ _ _ _ _ (next_fault_FOk [FOk; FCrash n] o1 eq_refl)).
      unfold bind, gets, modify. simpl. rewrite lookup_insert_eq. unfold o2, appended, file_contents. simpl.
      rewrite lookup_insert_eq. simpl. unfold overwrite. simpl.
      rewrite ztake_ge by lia. simpl. by rewrite zdrop_ge, app_nil_r by zlen. }
    rewrite (bind_Ret _ _ _ _ _ Hw), decide_False, zdrop_ge by lia. by destruct fuel. }
  rewrite (bind_Ret _ _ _ _ _ Hloop). cbn [negb].
  unfold FileClose, sys_close. rewrite bind_modify. set (o3 := set_fds _ o2).
  assert (files o3 = <[tmp := content]> (files o)) as Hf3.
  { simpl. by rewrite insert_insert_eq, ztake_ge by lia. }
  assert (plan o3 = [FOk; FCrash n]) as Hp3 by done. clearbody o3.
  set (o4 := set_files (delete path (files o3)) (set_plan [FCrash n] o3)).
  assert (FileDelete path o3 = (Ret tt, o4)) as Hd.
  { unfold FileDelete, sys_unlink. rewrite bind_assoc, (bind_Ret _ _ _ _ _ (next_fault_FOk _ _ Hp3)).
    unfold bind, gets, modify. simpl. rewrite Hf3, lookup_insert_ne by done. rewrite decide_False by congruence.
    by rewrite <-Hf3. }
  rewrite (bind_Ret _ _ _ _ _ Hd).
  eexists. split; [unfold sys_rename, bind, next_fault; simpl; reflexivity|]. simpl.
  split; [apply lookup_delete_eq|].
  intros p Hp. simpl. rewrite Hf3. apply not_elem_of_cons in Hp as [Hp1 Hp2].
  apply not_elem_of_cons in Hp2 as [Hp2 _]. by rewrite lookup_delete_ne, lookup_insert_ne.
Qed.

(** The replacement of a snapshot is not atomic: a process that dies between
    the removal of the old file and the renaming of the new one leaves no snapshot, and the next
    process has only what the log says on its own. *)
Theorem unlink_window s e n old :
  consistent s -> data s <> ∅ -> snapshot_file s = Some old ->
  plan (store_os s) = [FOk; FOk; FOk; FCrash n] -> env_ok e ->
  exists s1 s2, ForceSnapshot s = (Crashed, s1) /\ restart s1 e = (Ret tt, s2) /\
    data s2 = replay (logged s) ∅.
Proof.
  intros Hc Hne Hold Hplan He. pose proof Hc as [[(rs & Hrs & Hw) Hdata Hread Henv] Hm].
  pose proof (traversed s Henv) as Hp. unfold ForceSnapshot, CreateSnapshot. rewrite bind_gets.
  unfold bind at 1. unfold walk at 1. set (es := order _ _ _) in *. set (s1 := set_env _ s).
  rewrite decide_False by (intros Hes; by apply (perm_nil_empty es _ Hp) in Hes).
  destruct (Create_killed_before_rename (data_dir_ s) es (store_os s) n old Hplan) as (o & Hcr & Hs & Hk);
    [pose proof (wr_fd _ _ _ _ Hw); lia|done|].
  rewrite bind_assoc, (bind_Crashed _ _ _ _ (Create_run _ _ s1 _ _ Hcr)).
  match goal with |- exists _ _, (_, ?x) = _ /\ _ => set (s2 := x) end.
  assert (files (store_os s2) !! GetSnapshotPath (data_dir_ s2) = None) as Hs2 by exact Hs.
  destruct (restart_ok s2 e) as (s3 & Hrun3 & Hd3 & _); [|done|].
  { unfold restartable, snapshot_readable. rewrite Hs2. by eexists _, _. }
  exists s2, s3. split; [done|]. split; [done|]. rewrite Hd3.
  unfold next_process_map, recovered, snapshot_map. rewrite Hs2. simpl. f_equal.
  unfold logged, wal_records.
  by rewrite <-(Hk (wal_path (data_dir_ s)) (wal_path_other _)).
Qed.

Lemma saved_store k v :
  fits16 k -> fits16 v ->
  exists s old, store_ok s /\ data s = {[ k := v ]} /\ snapshot_file s = Some old /\ logged s = [].
Proof.
  intros Hk Hv. destruct (set_store k v Hk Hv) as (s & [Hc Hf] & Hd & _ & _).
  destruct (CreateSnapshot_ok s Hc Hf) as (s1 & _ & Hc1 & Hf1 & Hd1 & Hdir1 & _ & _ & Hl1).
  { left. rewrite Hd. apply insert_non_empty. }
  assert (logged s1 = []) as Hl by (unfold logged; by rewrite Hdir1).
  destruct (snapshot_file s1) as [old|] eqn:Hsf; [exists s1, old; by rewrite Hd1, Hd|].
  destruct Hc1 as [[_ Hrec _ _] _]. exfalso.
  apply (insert_non_empty (M := gmap bytes) ∅ k v). change ({[k := v]} = (∅ : gmap bytes bytes)).
  rewrite <-Hd, <-Hd1, <-Hrec. unfold recovered, snapshot_map.
  unfold snapshot_file in Hsf. unfold logged in Hl. by rewrite Hsf, Hl.
Qed.

Lemma unlink_window_witness :
  exists s s1 s2, data s = {[ str "k" := str "v" ]} /\ ForceSnapshot s = (Crashed, s1) /\
    restart s1 plain_env = (Ret tt, s2) /\ data s2 = ∅.
Proof.
  destruct (saved_store (str "k") (str "v")) as (s & old & [Hc _] & Hd & Hsf & Hl); [reflexivity..|].
  destruct (unlink_window (with_plan [FOk; FOk; FOk; FCrash 0] s) plain_env 0 old)
    as (s1 & s2 & ? & ? & Hd2).
  - apply consistent_with_plan, Hc.
  - rewrite data_with_plan, Hd. apply insert_non_empty.
  - exact Hsf.
  - reflexivity.
  - apply plain_env_ok.
  - exists (with_plan [FOk; FOk; FOk; FCrash 0] s), s1, s2. rewrite data_with_plan in *.
    split_and!; try assumption. rewrite Hd2.
    change (logged (with_plan _ s)) with (logged s). rewrite Hl. reflexivity.
Defined.

(** A log with a torn tail is opened at its very end, behind the torn
    bytes: a set that is then carried out and acknowledged is gone in the next process. *)
Theorem write_after_torn_tail_lost :
  let torn := MkOs {[ wal_path (str "d") := [Byte.x00] ]} ∅ ∅ 3 0 [] in
  (let (r, s) := construct (str "d") (MkWalOs WAL_init torn) plain_env in
   let (r1, s1) := Set_ (str "k") (str "v") s in
   let (r2, s2) := restart s1 plain_env in
   (r, r1, data s1, r2, data s2))
  = (Ret tt, Ret tt, {[ str "k" := str "v" ]}, Ret tt, ∅).
Proof. apply (bool_decide_unpack _). vm_compute. exact I. Qed.
