(* ===== verification/ConcurrentStore.v ===== *)
(** * The persistent store under concurrent calls

    [PersistentKvStore] of [src/storage/persistent_kv_store.cpp] called by several
    threads. A call is cut at the points where it holds no lock: appending to the log
    (under the log's mutex), changing the map (under the store's [shared_mutex]), the
    atomic increment, the two uses of the burst window (under its mutex), and
    [CreateSnapshot] (under the first two locks). The system is the shared store with
    the program counter of every call; any interleaving of these sections is a run. *)

From S2P Require Import Prelude Posix FileIo Codec WalRecord Wal SnapshotEntry.
From S2P Require Import Snapshot KvStore SlidingWindow PersistentStore Durability.
From S2P Require Import Survival Crash StoreTheorems.

(** ** Calls and their sections *)

Inductive call :=
  | Write (o : kv_op)       (* [Set] or [Delete] *)
  | Force.                  (* [ForceSnapshot] *)

(** Where a call stands. [result] is the value a [Delete] is going to return. *)
Inductive pc :=
  | Called
  | Logged
  | Applied (result : option bool)
  | Counted (result : option bool)
  | Windowed (result : option bool)
  | Compared (result : option bool) (should_snapshot : bool)
  | Snapshotting (result : option bool)
  | Returned (result : option bool)
  | Threw (e : exn).

Definition entry (c : call) : pc :=
  match c with Write _ => Called | Force => Snapshotting None end.

Definition final (p : pc) : bool :=
  match p with Returned _ | Threw _ => true | _ => false end.

(** Step 2 of [Set] and of [Delete]. *)
Definition update_memory (o : kv_op) : M PersistentKvStore (option bool) :=
  match o with
  | OpSet k v => do! on_base (KvStore_Set k v) in ret None
  | OpDel k => let! b := on_base (KvStore_Delete k) in ret (Some b)
  end.

(** The next section of a call: what it does to the store, and where the call stands
    afterwards. *)
Definition section (c : call) (p : pc) : M PersistentKvStore pc :=
  match c, p with
  | Write o, Called => do! on_wos (Append (op_record o)) in ret Logged
  | Write o, Logged => let! r := update_memory o in ret (Applied r)
  | _, Applied r =>
      do! modify (fun s => set_op_count_ (u64 (op_count_ s + 1)) s) in ret (Counted r)
  | _, Counted r =>
      let! t := now in
      do! modify (fun s => set_burst_window_ (AddOp t (burst_window_ s)) s) in
      ret (Windowed r)
  | _, Windowed r =>
      let! count := gets op_count_ in
      ret (Compared r (bool_decide (kSnapshotInterval <= count)))
  | _, Compared r should_snapshot =>
      let! t := now in
      let! window := gets burst_window_ in
      ret (if should_snapshot || IsExceeded t window then Snapshotting r else Returned r)
  | _, Snapshotting r => do! CreateSnapshot in ret (Returned r)
  | _, p => ret p
  end.

(** The sections of one call with nothing in between. *)
Fixpoint alone (n : nat) (c : call) (p : pc) : M PersistentKvStore pc :=
  match n with
  | O => ret p
  | S n => if final p then ret p else let! p := section c p in alone n c p
  end.

(** ** Runs of the system *)

Record system := MkSystem {
  store : PersistentKvStore;
  calls : list (call * pc)
}.

Inductive event :=
  | Invoke (c : call)     (* a thread makes a call *)
  | Run (i : nat).        (* the [i]-th call executes its next section *)

Inductive step : event -> system -> system -> Prop :=
  | step_invoke c s cs :
      step (Invoke c) (MkSystem s cs) (MkSystem s (cs ++ [(c, entry c)]))
  | step_run i c p p' s s' cs :
      cs !! i = Some (c, p) -> final p = false -> section c p s = (Ret p', s') ->
      step (Run i) (MkSystem s cs) (MkSystem s' (<[i := (c, p')]> cs))
  | step_throw i c p e s s' cs :
      cs !! i = Some (c, p) -> final p = false -> section c p s = (Throw e, s') ->
      step (Run i) (MkSystem s cs) (MkSystem s' (<[i := (c, Threw e)]> cs)).

(** The same as a function. *)
Definition fire (e : event) (y : system) : option system :=
  match e with
  | Invoke c => Some (MkSystem (store y) (calls y ++ [(c, entry c)]))
  | Run i =>
      match calls y !! i with
      | Some (c, p) =>
          if final p then None else
          match section c p (store y) with
          | (Ret p', s') => Some (MkSystem s' (<[i := (c, p')]> (calls y)))
          | (Throw e, s') => Some (MkSystem s' (<[i := (c, Threw e)]> (calls y)))
          | _ => None
          end
      | None => None
      end
  end.

Fixpoint run_schedule (es : list event) (y : system) : option system :=
  match es with
  | [] => Some y
  | e :: es => match fire e y with Some y => run_schedule es y | None => None end
  end.

(** The operations between their entry in the log and their effect on the map. *)
Definition in_flight (cp : call * pc) : option kv_op :=
  match cp with
  | (Write o, Logged) => Some o
  | _ => None
  end.

Definition pending (cs : list (call * pc)) : list kv_op := omap in_flight cs.

Definition op_key (o : kv_op) : bytes := key (op_record o).

(** The steps of runs in which no two operations on the same key overlap between log
    and memory, and no snapshot is taken while an operation is between the two. The
    rest are the bounds of the formats. *)
Definition clean (y : system) (e : event) : Prop :=
  match e with
  | Invoke (Write o) => record_fits (op_record o)
  | Invoke Force => True
  | Run i =>
      match calls y !! i with
      | Some (Write o, Called) => op_key o ∉ map op_key (pending (calls y))
      | Some (Write o, Logged) => Z.of_nat (size (apply_op (data (store y)) o)) < 2 ^ 32
      | Some (_, Snapshotting _) =>
          pending (calls y) = [] /\ snapshot_current (data (store y)) (store y)
      | _ => True
      end
  end.

(** The operation that takes effect on the map in a step. *)
Definition takes_effect (y : system) (e : event) : list kv_op :=
  match e with
  | Invoke _ => []
  | Run i => match calls y !! i with
             | Some cp => option_list (in_flight cp)
             | None => []
             end
  end.

(** The systems reached by clean steps, with the operations in the order in which they
    changed the map. *)
Inductive reached (y0 : system) : list kv_op -> system -> Prop :=
  | reached_start : reached y0 [] y0
  | reached_step os y e y' :
      reached y0 os y -> clean y e -> step e y y' ->
      reached y0 (os ++ takes_effect y e) y'.

(** ** The system and its executable form *)

Lemma fire_step e y y' : fire e y = Some y' <-> step e y y'.
Proof.
  split.
  - destruct y as [s cs], e as [c|i]; simpl; [intros [= <-]; constructor|].
    destruct (cs !! i) as [[c p]|] eqn:Hi; [|done]. destruct (final p) eqn:Hp; [done|].
    destruct (section c p s) as [[p'|e| |] s'] eqn:Hs; [| |done..]; intros [= <-];
      by econstructor.
  - destruct 1 as [|? ? ? ? ? ? ? Hi Hp Hs|? ? ? ? ? ? ? Hi Hp Hs]; [done| |]; simpl;
      by rewrite Hi, Hp, Hs.
Qed.

#[export] Instance clean_decision y e : Decision (clean y e).
Proof.
  destruct e as [[o|]|i]; simpl; [unfold record_fits; apply _|apply _|].
  destruct (calls y !! i) as [[[o|] []]|]; unfold snapshot_current; try apply _.
Defined.

(** A schedule whose steps are all clean, checked by running it. *)
Fixpoint clean_schedule (es : list event) (os : list kv_op) (y : system)
  : option (list kv_op * system) :=
  match es with
  | [] => Some (os, y)
  | e :: es =>
      if decide (clean y e) then
        match fire e y with
        | Some y' => clean_schedule es (os ++ takes_effect y e) y'
        | None => None
        end
      else None
  end.

Lemma clean_schedule_reached y0 es : forall os y os' y',
  reached y0 os y -> clean_schedule es os y = Some (os', y') -> reached y0 os' y'.
Proof.
  induction es as [|e es IH]; simpl; intros os y os' y' Hy; [by intros [= <- <-]|].
  destruct (decide (clean y e)) as [Hc|]; [|done]. destruct (fire e y) as [y1|] eqn:Hf; [|done].
  apply IH. eapply reached_step; [done|done|by apply fire_step].
Qed.

(** ** Operations on different keys commute *)

Lemma apply_op_comm m a b :
  op_key a <> op_key b -> apply_op (apply_op m a) b = apply_op (apply_op m b) a.
Proof.
  destruct a as [k v|k], b as [k' v'|k']; unfold op_key; simpl; intros Hne.
  - by apply insert_insert_ne.
  - by rewrite delete_insert_ne.
  - by rewrite delete_insert_ne.
  - apply delete_delete.
Qed.

Lemma apply_ops_perm os os' : os ≡ₚ os' -> forall m,
  NoDup (map op_key os) -> foldl apply_op m os = foldl apply_op m os'.
Proof.
  induction 1 as [|o os os' _ IH|a b os|os1 os2 os3 H12 IH1 _ IH2]; intros m Hnd; simpl in *.
  - done.
  - apply NoDup_cons in Hnd as [_ Hnd]. by apply IH.
  - apply NoDup_cons in Hnd as [Hab _]. rewrite apply_op_comm; [done|]. set_solver.
  - rewrite IH1 by done. apply IH2. by rewrite <-H12.
Qed.

Lemma pending_insert cs i cp cp' :
  cs !! i = Some cp ->
  option_list (in_flight cp) ++ pending (<[i := cp']> cs)
    ≡ₚ option_list (in_flight cp') ++ pending cs.
Proof.
  intros Hi. pose proof (lookup_lt_Some _ _ _ Hi) as Hlt.
  rewrite <-(take_drop_middle cs i cp Hi) at 2. rewrite insert_take_drop by done.
  unfold pending. rewrite !omap_app. simpl.
  destruct (in_flight cp), (in_flight cp'); simpl; solve_Permutation.
Qed.

Lemma pending_app cs cs' : pending (cs ++ cs') = pending cs ++ pending cs'.
Proof. apply omap_app. Qed.

(** ** One section at a time *)

(** Sections that touch neither the map nor the files. *)
Definition untouched (s s' : PersistentKvStore) : Prop :=
  base_ s' = base_ s /\ wos s' = wos s /\ data_dir_ s' = data_dir_ s /\
  (env_ok (env s) -> env_ok (env s')).

Lemma holds_untouched m s s' : untouched s s' -> holds m s -> holds m s'.
Proof.
  intros (_ & Hw & Hd & He) [(rs & Hrs & Hr) Hm Hread Henv].
  split; unfold store_os, store_wal in *; rewrite ?Hw, ?Hd; auto. by exists rs.
Qed.

(** Where a call without effect on map and files can stand. *)
Definition counting (p : pc) : bool :=
  match p with Applied _ | Counted _ | Windowed _ | Compared _ _ => true | _ => false end.

Lemma counting_section c p s :
  counting p = true ->
  exists p' s', section c p s = (Ret p', s') /\ untouched s s' /\
    in_flight (c, p) = None /\ in_flight (c, p') = None.
Proof.
  intros Hp. destruct c as [o|], p; try done; cbn [section];
    unfold bind, modify, now, gets, ret; eexists _, _; (split; [reflexivity|]);
    (split; [by split_and!|]); (split; [done|]); try done; by destruct (_ || _).
Qed.

Lemma log_section m o s :
  holds m s -> fault_free (store_os s) -> record_fits (op_record o) ->
  exists w, section (Write o) Called s = (Ret Logged, with_wos w s) /\
    holds (apply_op m o) (with_wos w s) /\ fault_free (the_os w) /\
    (forall m', snapshot_current m' s -> snapshot_current m' (with_wos w s)).
Proof.
  intros Hh Hf Hr. destruct (Append_holds m _ s Hh Hf Hr) as (w & Hrun & Hh' & Hf' & Hsnap & _).
  exists w. cbn [section]. rewrite (bind_Ret _ _ _ _ _ Hrun). split; [done|].
  split; [by rewrite apply_op_record|]. split; [done|].
  intros m' Hcur. by eapply snapshot_current_ext.
Qed.

(** What step 2 returns: for a [Delete], whether the key was there. *)
Definition op_result (m : gmap bytes bytes) (o : kv_op) : option bool :=
  match o with
  | OpSet _ _ => None
  | OpDel k => Some (bool_decide (is_Some (m !! k)))
  end.

Lemma update_section o s :
  section (Write o) Logged s
    = (Ret (Applied (op_result (data s) o)), with_data (apply_op (data s) o) s).
Proof.
  destruct o as [k v|k]; [done|]. cbn [section update_memory]. unfold bind, on_base, zoom.
  unfold KvStore_Delete. rewrite erased_positive. done.
Qed.

Lemma holds_with_data m m' s : holds m s -> holds m (with_data m' s).
Proof. intros [? ? ? ?]. by split. Qed.

Lemma snapshot_section c r m s :
  holds m s -> map_fits (data s) -> fault_free (store_os s) -> snapshot_current (data s) s ->
  exists s', section c (Snapshotting r) s = (Ret (Returned r), s') /\
    holds (data s) s' /\ fault_free (store_os s') /\ data s' = data s /\
    data_dir_ s' = data_dir_ s /\ op_count_ s' = 0 /\
    burst_window_ s' = Window_Clear (burst_window_ s).
Proof.
  intros Hh Hm Hf Hcur.
  destruct (CreateSnapshot_holds m s Hh Hm Hf Hcur) as (s' & Hrun & [Hh' _] & Hf' & Hd & Hdir & Hn & Hb & _).
  exists s'. rewrite Hd in Hh'. split; [|by split_and!].
  destruct c; cbn [section]; by rewrite (bind_Ret _ _ _ _ _ Hrun).
Qed.

(** ** The invariant of clean runs *)

Definition call_fits (cp : call * pc) : Prop :=
  match cp.1 with Write o => record_fits (op_record o) | Force => True end.

(** The files hold the map in memory with the operations between log and memory
    applied to it. *)
Record inv (y : system) : Prop := {
  inv_files : holds (foldl apply_op (data (store y)) (pending (calls y))) (store y);
  inv_fits : map_fits (data (store y));
  inv_faults : fault_free (store_os (store y));
  inv_keys : NoDup (map op_key (pending (calls y)));
  inv_calls : Forall call_fits (calls y)
}.

(** A section that leaves the map alone, of a call that is not between log and memory. *)
Lemma inv_keep i c p p' s' y :
  inv y -> calls y !! i = Some (c, p) ->
  in_flight (c, p) = None -> in_flight (c, p') = None -> data s' = data (store y) ->
  holds (foldl apply_op (data s') (pending (calls y))) s' -> fault_free (store_os s') ->
  inv (MkSystem s' (<[i := (c, p')]> (calls y))).
Proof.
  intros [Hh Hm Hf Hnd Hcs] Hi H1 H2 Hd Hh' Hf'.
  pose proof (pending_insert _ i _ (c, p') Hi) as Hp. rewrite H1, H2 in Hp. simpl in Hp.
  split; simpl; [|by rewrite Hd|done|by rewrite Hp|].
  - by rewrite (apply_ops_perm _ _ Hp) by by rewrite Hp.
  - apply Forall_insert; [done|]. exact (Forall_lookup_1 _ _ _ _ Hcs Hi).
Qed.

Lemma inv_log i o y w :
  inv y -> calls y !! i = Some (Write o, Called) ->
  op_key o ∉ map op_key (pending (calls y)) ->
  holds (apply_op (foldl apply_op (data (store y)) (pending (calls y))) o) (with_wos w (store y)) ->
  fault_free (the_os w) ->
  inv (MkSystem (with_wos w (store y)) (<[i := (Write o, Logged)]> (calls y))).
Proof.
  intros [Hh Hm Hf Hnd Hcs] Hi Hnew Hh' Hf'.
  pose proof (pending_insert _ i _ (Write o, Logged) Hi) as Hp. simpl in Hp.
  assert (NoDup (map op_key (o :: pending (calls y)))) as Hnd' by by constructor.
  split; simpl; [|done|done|by rewrite Hp|].
  - rewrite (apply_ops_perm _ (pending (calls y) ++ [o])).
    + rewrite foldl_app. exact Hh'.
    + rewrite Hp. solve_Permutation.
    + by rewrite Hp.
  - apply Forall_insert; [done|]. exact (Forall_lookup_1 _ _ _ _ Hcs Hi).
Qed.

Lemma inv_update i o r y :
  inv y -> calls y !! i = Some (Write o, Logged) ->
  Z.of_nat (size (apply_op (data (store y)) o)) < 2 ^ 32 ->
  inv (MkSystem (with_data (apply_op (data (store y)) o) (store y))
         (<[i := (Write o, Applied r)]> (calls y))).
Proof.
  intros [Hh Hm Hf Hnd Hcs] Hi Hsize.
  pose proof (pending_insert _ i _ (Write o, Applied r) Hi) as Hp. simpl in Hp.
  pose proof (Forall_lookup_1 _ _ _ _ Hcs Hi) as Hc. cbn in Hc.
  split; simpl; [| |done| |].
  - apply holds_with_data. by rewrite (apply_ops_perm _ _ (symmetry Hp)) in Hh by done.
  - cbn. rewrite apply_op_record in *. by apply map_fits_replay.
  - rewrite <-Hp in Hnd. simpl in Hnd. by apply NoDup_cons in Hnd as [_ ?].
  - by apply Forall_insert.
Qed.

(** A clean section of a call returns normally, keeps the invariant, and changes the map
    by the operation that takes effect in it. *)
Lemma inv_run i c p y :
  inv y -> calls y !! i = Some (c, p) -> final p = false -> clean y (Run i) ->
  exists p' s', section c p (store y) = (Ret p', s') /\
    inv (MkSystem s' (<[i := (c, p')]> (calls y))) /\
    data s' = foldl apply_op (data (store y)) (takes_effect y (Run i)).
Proof.
  intros Hinv Hi Hp Hcl. pose proof Hinv as [Hh Hm Hf Hnd Hcs].
  cbn [clean takes_effect] in *. rewrite Hi in *.
  pose proof (Forall_lookup_1 _ _ _ _ Hcs Hi) as Hc.
  destruct (counting p) eqn:Hcount.
  { destruct (counting_section c p (store y) Hcount) as (p' & s' & Hrun & Hun & H1 & H2).
    exists p', s'. pose proof Hun as (Hb & Hw & _).
    assert (data s' = data (store y)) as Hd by (unfold data; by rewrite Hb).
    rewrite H1. split; [done|]. split; [|done]. eapply inv_keep; try done.
    - rewrite Hd. by eapply holds_untouched.
    - unfold store_os. by rewrite Hw. }
  destruct c as [o|], p as [| | | | | |r|r|e]; try done.
  - destruct (log_section _ o _ Hh Hf Hc) as (w & Hrun & Hh' & Hf' & _).
    eexists _, _. split; [exact Hrun|]. split; [by apply inv_log|done].
  - eexists _, _. split; [apply update_section|]. split; [by apply inv_update|done].
  - destruct Hcl as [Hnone Hcur]. 
    destruct (snapshot_section (Write o) r _ _ Hh Hm Hf Hcur) as (s' & Hrun & Hh' & Hf' & Hd & _).
    eexists _, _. split; [exact Hrun|]. split; [|done]. eapply inv_keep; try done.
    by rewrite Hnone, Hd.
  - eexists _, _. split; [reflexivity|]. split; [|done]. by eapply inv_keep.
  - eexists _, _. split; [reflexivity|]. split; [|done]. by eapply inv_keep.
  - destruct Hcl as [Hnone Hcur].
    destruct (snapshot_section Force r _ _ Hh Hm Hf Hcur) as (s' & Hrun & Hh' & Hf' & Hd & _).
    eexists _, _. split; [exact Hrun|]. split; [|done]. eapply inv_keep; try done.
    by rewrite Hnone, Hd.
Qed.

Lemma inv_start s : store_ok s -> inv (MkSystem s []).
Proof. intros [[Hh Hm] Hf]. split; [done..|apply NoDup_nil_2|constructor]. Qed.

Lemma inv_step e y y' :
  inv y -> clean y e -> step e y y' ->
  inv y' /\ data (store y') = foldl apply_op (data (store y)) (takes_effect y e).
Proof.
  intros Hinv Hcl Hstep. destruct Hstep as [c s cs|i c p p' s s' cs Hi Hp Hs|i c p e s s' cs Hi Hp Hs].
  - split; [|done]. destruct Hinv as [Hh Hm Hf Hnd Hcs].
    assert (pending (cs ++ [(c, entry c)]) = pending cs) as Hpe.
    { rewrite pending_app. destruct c; simpl; apply app_nil_r. }
    split; simpl in *; rewrite ?Hpe; try done. apply Forall_app. split; [done|].
    constructor; [by destruct c|done].
  - destruct (inv_run i c p _ Hinv Hi Hp Hcl) as (p1 & s1 & Hrun & Hinv' & Hd). simpl in *.
    rewrite Hs in Hrun. by injection Hrun as <- <-.
  - destruct (inv_run i c p _ Hinv Hi Hp Hcl) as (p1 & s1 & Hrun & _). simpl in *. congruence.
Qed.

Lemma reached_inv s os y :
  store_ok s -> reached (MkSystem s []) os y ->
  inv y /\ data (store y) = foldl apply_op (data s) os.
Proof.
  intros Hok. induction 1 as [|os y e y' _ [IH IHd] Hcl Hstep]; [by split; [apply inv_start|]|].
  destruct (inv_step e y y' IH Hcl Hstep) as [Hinv Hd]. split; [done|].
  by rewrite Hd, IHd, foldl_app.
Qed.

(** ** Killed inside a section *)

Lemma holds_with_plan m p s : holds m s -> holds m (with_plan p s).
Proof.
  intros [(rs & Hrs & Hw) Hdata Hread Henv]. split; try done.
  exists rs. split; [done|]. by apply wal_ready_plan.
Qed.

(** What a new process finds when the process died inside a section of a call: the map
    [m] of the files, or that map with the operation whose record was being written; or
    what the log alone says, if it died between removing the old snapshot and renaming
    the new one. *)
Definition found (m : gmap bytes bytes) (c : call) (p : pc) (s s1 : PersistentKvStore)
    (found : gmap bytes bytes) : Prop :=
  found = m \/
  (exists o, c = Write o /\ p = Called /\ found = apply_op m o) \/
  ((exists r, p = Snapshotting r) /\ snapshot_file s <> None /\ snapshot_file s1 = None /\
   found = replay (logged s) ∅).

Lemma section_crash y i c p plan s1 :
  inv y -> calls y !! i = Some (c, p) -> clean y (Run i) ->
  crash_only (store_os (with_plan plan (store y))) ->
  section c p (with_plan plan (store y)) = (Crashed, s1) ->
  restartable s1 /\
  found (foldl apply_op (data (store y)) (pending (calls y))) c p (store y) s1 (next_process_map s1).
Proof.
  intros [Hh Hm Hf Hnd Hcs] Hi Hcl Hplan Hs. set (m := foldl _ _ _) in *.
  pose proof (Forall_lookup_1 _ _ _ _ Hcs Hi) as Hc. cbn [clean] in Hcl. rewrite Hi in Hcl.
  destruct (counting p) eqn:Hcount.
  { destruct (counting_section c p (with_plan plan (store y)) Hcount) as (p' & s' & Hrun & _). congruence. }
  assert (forall r, p = Snapshotting r -> restartable s1 /\ found m c p (store y) s1 (next_process_map s1)) as Hsnap.
  { intros r ->. destruct c as [o|]; destruct Hcl as [Hnone Hcur];
      (assert (m = data (store y)) as Em by (unfold m; by rewrite Hnone));
      (assert (consistent (with_plan plan (store y))) as Hcons
        by (apply consistent_with_plan; split; [by rewrite <-Em|exact Hm]));
      destruct (CreateSnapshot_crash _ Hcons Hcur Hplan) as (r' & s' & Hrun & [(-> & _)|(-> & Hre & Hcase)]);
      cbn [section] in Hs.
    1, 3: rewrite (bind_Ret _ _ _ _ _ Hrun) in Hs; discriminate Hs.
    all: rewrite (bind_Crashed _ _ _ _ Hrun) in Hs; injection Hs as <-; split; [exact Hre|];
      rewrite Em; destruct Hcase as [Hmap|(H1 & H2 & H3)]; [by left|right; right]; split_and!; eauto. }
  destruct c as [o|], p; try done; try by eapply Hsnap.
  - cbn [section] in Hs.
    destruct (Append_any_plan m _ (with_plan plan (store y)) (holds_with_plan _ _ _ Hh) Hc)
      as (res & w & Hrun & Hsf & Hmap & _).
    destruct res as [[]| | |]; unfold bind in Hs; rewrite Hrun in Hs; try done. injection Hs as <-.
    split; [eapply snapshot_readable_ext; [exact Hsf|apply Hh]|].
    destruct Hmap as [Hmap|Hmap]; [by left|right; left]. exists o. split_and!; [done|done|].
    by rewrite Hmap, apply_op_record.
  - by rewrite update_section in Hs.
Qed.

(** ** What concurrent calls guarantee *)

(** C4: Threads that set and delete concurrently, in any interleaving of their locked
    sections that is clean: no two operations on one key overlap between log and memory, no
    snapshot is taken while an operation is between the two or of an empty map while an
    older snapshot has entries, keys and values are shorter than 64 KiB and the map has
    fewer than 2^32 entries. Then the map is that of the operations in the order of their
    effect; a process started on the files between two sections has that map with the
    operations still between log and memory applied to it, so exactly that map when there
    are none; every unfinished call can go on and does not throw; and if the process is
    killed inside a system call of that call's section, a new one finds the same map, or
    that map with the operation being logged, or (between removing the old snapshot and
    renaming the new one) what the log alone says. *)
Theorem concurrent_durable s os y e :
  store_ok s -> reached (MkSystem s []) os y -> env_ok e ->
  let m := foldl apply_op (data (store y)) (pending (calls y)) in
  data (store y) = foldl apply_op (data s) os /\
  (exists s', restart (store y) e = (Ret tt, s') /\ data s' = m) /\
  forall i c p, calls y !! i = Some (c, p) -> final p = false -> clean y (Run i) ->
    (exists p' s', fire (Run i) y = Some (MkSystem s' (<[i := (c, p')]> (calls y))) /\
       section c p (store y) = (Ret p', s')) /\
    (forall plan s1, crash_only (store_os (with_plan plan (store y))) ->
       section c p (with_plan plan (store y)) = (Crashed, s1) ->
       exists s', restart s1 e = (Ret tt, s') /\ found m c p (store y) s1 (data s')).
Proof.
  intros Hok Hr He m. destruct (reached_inv s os y Hok Hr) as [Hinv Hd].
  split; [done|]. split.
  - destruct (inv_files _ Hinv) as [_ Hrec Hread _].
    destruct (restart_ok (store y) e Hread He) as (s' & Hrun & Hds & _).
    exists s'. split; [done|]. rewrite Hds. exact Hrec.
  - intros i c p Hi Hp Hcl. split.
    + destruct (inv_run i c p y Hinv Hi Hp Hcl) as (p' & s' & Hrun & _).
      exists p', s'. split; [|done]. simpl. by rewrite Hi, Hp, Hrun.
    + intros plan s1 Hplan Hs. destruct (section_crash y i c p plan s1 Hinv Hi Hcl Hplan Hs) as [Hre Hf].
      destruct (restart_ok s1 e Hre He) as (s' & Hrun & Hds & _). exists s'. by rewrite Hds.
Qed.

(** Two writers on different keys, the second overtaking the first between log and
    memory, and then a snapshot. *)
Definition overtaking : list event :=
  [Invoke (Write (OpSet (str "a") (str "1"))); Invoke (Write (OpSet (str "b") (str "2")));
   Run 0; Run 1; Run 1; Run 1; Run 0; Invoke Force; Run 2; Run 0].

Lemma concurrent_durable_witness :
  let s := fresh_store (str "d") in
  exists y, reached (MkSystem s []) [OpSet (str "b") (str "2"); OpSet (str "a") (str "1")] y /\
  let m := foldl apply_op (data (store y)) (pending (calls y)) in
  data (store y) = foldl apply_op (data s) [OpSet (str "b") (str "2"); OpSet (str "a") (str "1")] /\
  (exists s', restart (store y) plain_env = (Ret tt, s') /\ data s' = m) /\
  forall i c p, calls y !! i = Some (c, p) -> final p = false -> clean y (Run i) ->
    (exists p' s', fire (Run i) y = Some (MkSystem s' (<[i := (c, p')]> (calls y))) /\
       section c p (store y) = (Ret p', s')) /\
    (forall plan s1, crash_only (store_os (with_plan plan (store y))) ->
       section c p (with_plan plan (store y)) = (Crashed, s1) ->
       exists s', restart s1 plain_env = (Ret tt, s') /\ found m c p (store y) s1 (data s')).
Proof.
  cbv zeta.
  destruct (clean_schedule overtaking [] (MkSystem (fresh_store (str "d")) [])) as [[os y]|] eqn:Hrun.
  - assert (os = [OpSet (str "b") (str "2"); OpSet (str "a") (str "1")]) as ->.
    { enough (fst <$> clean_schedule overtaking [] (MkSystem (fresh_store (str "d")) [])
              = Some [OpSet (str "b") (str "2"); OpSet (str "a") (str "1")]) as H
        by (rewrite Hrun in H; by injection H).
      vm_compute. reflexivity. }
    exists y. assert (reached (MkSystem (fresh_store (str "d")) [])
      [OpSet (str "b") (str "2"); OpSet (str "a") (str "1")] y) as Hr.
    { eapply clean_schedule_reached; [constructor|exact Hrun]. }
    split; [exact Hr|]. apply concurrent_durable; [apply fresh_store_ok|exact Hr|apply plain_env_ok].
  - exfalso. enough (is_Some (clean_schedule overtaking [] (MkSystem (fresh_store (str "d")) []))) as H
      by (rewrite Hrun in H; by destruct H).
    apply (bool_decide_unpack _). vm_compute. exact I.
Defined.

(** ** The sections of a call alone are the method *)

Lemma alone_S n c p s :
  final p = false -> alone (S n) c p s = (let! p := section c p in alone n c p) s.
Proof. intros Hp. cbn [alone]. by rewrite Hp. Qed.

Lemma alone_counting c r s n :
  alone (5 + n) c (Applied r) s = (do! count_and_check in ret (Returned r)) s.
Proof.
  unfold count_and_check, CheckSnapshotTrigger. cbn [alone final Nat.add].
  destruct c as [o|]; cbn [section]; unfold bind, modify, now, gets, ret; cbn -[CreateSnapshot];
    destruct (_ || _); cbn -[CreateSnapshot]; try (by destruct n);
    unfold bind, ret; destruct (CreateSnapshot _) as [[[]| | |] s']; try done; by destruct n.
Qed.

(** The sections of a call, run with nothing in between, are
    exactly the method: on any store, with any faults to come, [Set], [Delete] and
    [ForceSnapshot] have the same outcome and leave the same state. *)
Theorem sections_are_methods :
  (forall k v s, alone 7 (Write (OpSet k v)) Called s
     = (do! Set_ k v in ret (Returned None)) s) /\
  (forall k s, alone 7 (Write (OpDel k)) Called s
     = (let! b := Delete k in ret (Returned (Some b))) s) /\
  (forall s, alone 1 Force (entry Force) s = (do! ForceSnapshot in ret (Returned None)) s).
Proof.
  split; [|split]; intros.
  - rewrite alone_S by done. cbn [section]. unfold Set_, AppendSet. rewrite !bind_assoc.
    apply bind_ext. intros _ s1. rewrite bind_ret, alone_S by done.
    exact (alone_counting (Write (OpSet k v)) None _ 0).
  - rewrite alone_S by done. cbn [section]. unfold Delete, AppendDel. rewrite !bind_assoc.
    apply bind_ext. intros _ s1. rewrite bind_ret, alone_S by done. cbn [section update_memory].
    rewrite !bind_assoc. apply bind_ext. intros b s2. rewrite !bind_ret, bind_assoc.
    exact (alone_counting (Write (OpDel k)) (Some b) _ 0).
  - rewrite alone_S by done. cbn [section entry]. rewrite bind_assoc. by apply bind_ext.
Qed.

(** ** Interleavings that lose an acknowledged write *)

Lemma run_schedule_app es es' y y1 :
  run_schedule es y = Some y1 -> run_schedule (es ++ es') y = run_schedule es' y1.
Proof.
  revert y. induction es as [|e es IH]; intros y; simpl; [by intros [= ->]|].
  destruct (fire e y); [apply IH|done].
Qed.

Lemma run_schedule_run i c p p' s s' cs es :
  cs !! i = Some (c, p) -> final p = false -> section c p s = (Ret p', s') ->
  run_schedule (Run i :: es) (MkSystem s cs) = run_schedule es (MkSystem s' (<[i := (c, p')]> cs)).
Proof. intros Hi Hp Hs. cbn [run_schedule fire calls store]. by rewrite Hi, Hp, Hs. Qed.

(** Far from the thresholds a call ends without a snapshot. *)
Lemma quiet_finish i c r s cs :
  cs !! i = Some (c, Applied r) -> quiet s ->
  exists s', run_schedule (replicate 4 (Run i)) (MkSystem s cs)
      = Some (MkSystem s' (<[i := (c, Returned r)]> cs)) /\
    untouched s s' /\ op_count_ s' = op_count_ s + 1 /\
    zlen (timestamps_ (burst_window_ s')) = zlen (timestamps_ (burst_window_ s)) + 1 /\
    max_ops_ (burst_window_ s') = 100.
Proof.
  intros Hi (Hn & Ht & Hmax). pose proof (lookup_lt_Some _ _ _ Hi) as Hlt.
  assert (forall cp, <[i := cp]> cs !! i = Some cp) as Hins by by intros; apply list_lookup_insert_eq.
  cbn [replicate].
  rewrite (run_schedule_run i c (Applied r) _ s _ _ _ Hi eq_refl (ltac:(destruct c; reflexivity))).
  erewrite run_schedule_run; [|apply Hins|done|destruct c; reflexivity]. rewrite list_insert_insert_eq.
  erewrite run_schedule_run; [|apply Hins|done|destruct c; reflexivity]. rewrite list_insert_insert_eq.
  erewrite run_schedule_run; [|apply Hins|done|destruct c; reflexivity]. rewrite list_insert_insert_eq.
  assert (u64 (op_count_ s + 1) = op_count_ s + 1) as Hu by (apply Z.mod_small; lia).
  simpl. rewrite Hu. unfold kSnapshotInterval. rewrite bool_decide_false by lia.
  rewrite not_exceeded; [|simpl; unfold zlen in *; rewrite length_app; simpl; lia|done]. cbn [orb].
  eexists. split; [done|]. split; [by split_and!|]. split_and!; try done.
  unfold zlen. simpl. rewrite length_app. simpl. lia.
Qed.

Lemma run_schedule_invoke c s cs es :
  run_schedule (Invoke c :: es) (MkSystem s cs)
    = run_schedule es (MkSystem s (cs ++ [(c, entry c)])).
Proof. done. Qed.

(** A new process on files that hold the map [m]. *)
Lemma restart_holds m s e :
  holds m s -> env_ok e -> exists s', restart s e = (Ret tt, s') /\ data s' = m.
Proof.
  intros [_ Hrec Hread _] He. destruct (restart_ok s e Hread He) as (s' & Hrun & Hd & _).
  exists s'. split; [done|]. by rewrite Hd.
Qed.

(** Two threads set one key: both append, the second updates the map, then the first. *)
Definition crossing (k v1 v2 : bytes) : list event :=
  [Invoke (Write (OpSet k v1)); Invoke (Write (OpSet k v2)); Run 0; Run 1; Run 1; Run 0]
  ++ replicate 4 (Run 0) ++ replicate 4 (Run 1).

(** C33: Two threads that set the same key can append in one order and
    update the map in the other: both calls return, the map has the first value, and a
    restarted process has the second. *)
Theorem same_key_divergence k v1 v2 s e :
  store_ok s -> quiet s -> op_count_ s < 498 -> zlen (timestamps_ (burst_window_ s)) < 99 ->
  fits16 k -> fits16 v1 -> fits16 v2 -> env_ok e ->
  exists y s', run_schedule (crossing k v1 v2) (MkSystem s []) = Some y /\
    calls y = [(Write (OpSet k v1), Returned None); (Write (OpSet k v2), Returned None)] /\
    data (store y) !! k = Some v1 /\
    restart (store y) e = (Ret tt, s') /\ data s' !! k = Some v2.
Proof.
  intros [[Hh Hm] Hf] (Hn & Ht & Hmax) Hn' Ht' Hk Hv1 Hv2 He.
  destruct (log_section _ (OpSet k v1) s Hh Hf) as (w1 & Hrun1 & Hh1 & Hf1 & _); [done|].
  destruct (log_section _ (OpSet k v2) _ Hh1 Hf1) as (w2 & Hrun2 & Hh2 & Hf2 & _); [done|].
  set (c1 := Write (OpSet k v1)) in *. set (c2 := Write (OpSet k v2)) in *.
  set (s2 := with_wos w2 (with_wos w1 s)) in *.
  set (s3 := with_data (<[k := v1]> (<[k := v2]> (data s2))) s2).
  destruct (quiet_finish 0 c1 None s3 [(c1, Applied None); (c2, Applied None)])
    as (s4 & Hrun4 & Hun4 & Hn4 & Ht4 & Hmax4); [done|exact (conj Hn (conj Ht Hmax))|].
  destruct (quiet_finish 1 c2 None s4 [(c1, Returned None); (c2, Applied None)])
    as (s5 & Hrun5 & Hun5 & _); [done|repeat split; simpl in *; lia|].
  assert (holds (<[k := v2]> (<[k := v1]> (data s))) s5) as Hh5.
  { eapply holds_untouched; [exact Hun5|]. eapply holds_untouched; [exact Hun4|].
    by apply holds_with_data. }
  destruct (restart_holds _ s5 e Hh5 He) as (s' & Hre & Hd).
  exists (MkSystem s5 [(c1, Returned None); (c2, Returned None)]), s'.
  split; [|split; [done|split; [|split; [exact Hre|]]]].
  - unfold crossing. erewrite run_schedule_app; [erewrite run_schedule_app; [exact Hrun5|exact Hrun4]|].
    rewrite !run_schedule_invoke.
    erewrite run_schedule_run; [|reflexivity|done|exact Hrun1].
    erewrite run_schedule_run; [|reflexivity|done|exact Hrun2].
    erewrite run_schedule_run; [|reflexivity|done|apply update_section].
    erewrite run_schedule_run; [|reflexivity|done|apply update_section]. reflexivity.
  - destruct Hun4 as (Hb4 & _), Hun5 as (Hb5 & _). unfold data. cbn [store]. rewrite Hb5, Hb4.
    apply lookup_insert_eq.
  - rewrite Hd. apply lookup_insert_eq.
Qed.

Lemma same_key_divergence_witness :
  let s := fresh_store (str "d") in
  exists y s', run_schedule (crossing (str "k") (str "1") (str "2")) (MkSystem s []) = Some y /\
    calls y = [(Write (OpSet (str "k") (str "1")), Returned None);
               (Write (OpSet (str "k") (str "2")), Returned None)] /\
    data (store y) !! str "k" = Some (str "1") /\
    restart (store y) plain_env = (Ret tt, s') /\ data s' !! str "k" = Some (str "2").
Proof.
  destruct (fresh_store_ok (str "d")) as (Hok & _ & _ & Hn & Hb).
  apply same_key_divergence;
    [exact Hok|unfold quiet; by rewrite Hn, Hb|by rewrite Hn|by rewrite Hb|done..|apply plain_env_ok].
Defined.

(** A thread appends its record; another takes a snapshot; the first updates the map. *)
Definition snapshot_between (k v : bytes) : list event :=
  [Invoke (Write (OpSet k v)); Run 0; Invoke Force; Run 1; Run 0] ++ replicate 4 (Run 0).

(** A snapshot taken while a set is between log and memory
    removes its record from the log without having its value in the snapshot: the set
    returns, the map has the value, and a restarted process has the map from before
    the set. *)
Theorem snapshot_loses_in_flight k v s e :
  store_ok s -> snapshot_current (data s) s -> max_ops_ (burst_window_ s) = 100 ->
  fits16 k -> fits16 v -> env_ok e ->
  exists y s', run_schedule (snapshot_between k v) (MkSystem s []) = Some y /\
    calls y = [(Write (OpSet k v), Returned None); (Force, Returned None)] /\
    data (store y) = <[k := v]> (data s) /\
    restart (store y) e = (Ret tt, s') /\ data s' = data s.
Proof.
  intros [[Hh Hm] Hf] Hcur Hmax Hk Hv He.
  destruct (log_section _ (OpSet k v) s Hh Hf) as (w1 & Hrun1 & Hh1 & Hf1 & Hcur1); [done|].
  set (s1 := with_wos w1 s) in *. set (c := Write (OpSet k v)) in *.
  destruct (snapshot_section Force None _ s1 Hh1 Hm Hf1 (Hcur1 _ Hcur))
    as (s2 & Hrun2 & Hh2 & _ & Hd2 & _ & Hn2 & Hb2).
  destruct (quiet_finish 0 c None (with_data (<[k := v]> (data s2)) s2)
              [(c, Applied None); (Force, Returned None)])
    as (s3 & Hrun3 & Hun3 & _); [done|unfold quiet; simpl; by rewrite Hn2, Hb2|].
  assert (holds (data s) s3) as Hh3.
  { eapply holds_untouched; [exact Hun3|]. by apply holds_with_data. }
  destruct (restart_holds _ s3 e Hh3 He) as (s' & Hre & Hd).
  exists (MkSystem s3 [(c, Returned None); (Force, Returned None)]), s'.
  split; [|split; [done|split; [|by split]]].
  - unfold snapshot_between. erewrite run_schedule_app; [exact Hrun3|].
    rewrite run_schedule_invoke.
    erewrite run_schedule_run; [|reflexivity|done|exact Hrun1].
    rewrite run_schedule_invoke.
    erewrite run_schedule_run; [|reflexivity|done|exact Hrun2].
    erewrite run_schedule_run; [|reflexivity|done|apply update_section]. reflexivity.
  - destruct Hun3 as (Hb3 & _). unfold data at 1. cbn [store]. rewrite Hb3. simpl. by rewrite Hd2.
Qed.

Lemma snapshot_loses_in_flight_witness :
  let s := fresh_store (str "d") in
  exists y s', run_schedule (snapshot_between (str "k") (str "1")) (MkSystem s []) = Some y /\
    calls y = [(Write (OpSet (str "k") (str "1")), Returned None); (Force, Returned None)] /\
    data (store y) = <[str "k" := str "1"]> (data s) /\
    restart (store y) plain_env = (Ret tt, s') /\ data s' = data s.
Proof.
  destruct (fresh_store_ok (str "d")) as (Hok & _ & Hs & _ & Hb).
  apply snapshot_loses_in_flight; [exact Hok| |by rewrite Hb|done..|apply plain_env_ok].
  right. unfold snapshot_map. unfold snapshot_file in Hs. by rewrite Hs.
Defined.
