(* ===== verification/FormatTheorems.v ===== *)
(** * What the log and the snapshot files guarantee

    Theorems about [Wal], [Snapshot] and [SlidingWindow] on their own: what is written
    is read back, what any file can make the readers do, which faults leave what. *)

From stdpp Require Import sorting.
From S2P Require Import Prelude Posix FileIo Crc32 Codec WalRecord Wal SnapshotEntry.
From S2P Require Import Snapshot KvStore SlidingWindow PersistentStore Durability.

(** A caller that appends a list of records. *)
Fixpoint append_all (rs : list WALRecord) : M wal_os unit :=
  match rs with
  | [] => ret tt
  | r :: rs => do! Append r in append_all rs
  end.

(** A system with one file, and a log opened on it. *)
Definition one_file (path c : bytes) : os := MkOs {[ path := c ]} ∅ ∅ 3 0 [].
Definition open_log (path : bytes) (cfg : WALConfig) (o : os) : wal_os :=
  MkWalOs (opened_wal path cfg WAL_init o) (opened_os path o).

Lemma append_all_ok path rs : forall c w o,
  wal_ready path c w o -> fault_free o ->
  exists w' o', append_all rs (MkWalOs w o) = (Ret tt, MkWalOs w' o') /\
    wal_ready path (c ++ encode_all rs) w' o' /\ fault_free o'.
Proof.
  induction rs as [|r rs IH]; intros c w o Hw Hf.
  { exists w, o. change (encode_all []) with (@nil byte). by rewrite app_nil_r. }
  destruct (Append_ok path c r w o Hw Hf) as (w1 & o1 & Hrun & Hw1 & Hf1 & _).
  destruct (IH _ _ _ Hw1 Hf1) as (w2 & o2 & Hrun2 & Hw2 & Hf2).
  exists w2, o2. cbn [append_all]. rewrite (bind_Ret _ _ _ _ _ Hrun), Hrun2. split; [done|].
  rewrite encode_all_cons. change (encode r) with (WALRecord_Serialize r). by rewrite app_assoc.
Qed.

Lemma open_log_ready path c cfg :
  wal_ready path c (the_wal (open_log path cfg (one_file path c)))
    (the_os (open_log path cfg (one_file path c))).
Proof.
  pose proof (opened_ready path cfg WAL_init (one_file path c) ltac:(simpl; lia)) as H.
  assert (file_contents (one_file path c) path = c) as Hc
    by (unfold file_contents, one_file; simpl; by rewrite lookup_singleton_eq).
  by rewrite Hc in H.
Qed.

(** ** The log *)

(** C18: Records that fit the format, appended without faults to an open log, after whatever
    records it already holds, are read back in order, all of them and nothing else. *)
Theorem wal_append_read path rs0 rs w o :
  Forall record_fits rs0 -> Forall record_fits rs ->
  wal_ready path (encode_all rs0) w o -> fault_free o ->
  exists s, append_all rs (MkWalOs w o) = (Ret tt, s) /\ ReadAll s = (Ret (rs0 ++ rs), s).
Proof.
  intros H0 Hrs Hw Hf. destruct (append_all_ok path rs _ w o Hw Hf) as (w' & o' & Hrun & Hw' & Hf').
  exists (MkWalOs w' o'). split; [done|]. rewrite (ReadAll_ok _ _ _ _ Hw' Hf').
  rewrite <-encode_all_app, <-(app_nil_r (encode_all _)).
  rewrite log_records_encode_all; [done|by apply Forall_app_2|by left].
Qed.

Definition two_records : list WALRecord :=
  [MkRecord OP_SET (str "a") (str "1"); MkRecord OP_DEL (str "a") []].

Lemma wal_append_read_witness :
  let s0 := open_log (str "w") (MkConfig NO 1000) (one_file (str "w") (encode_all two_records)) in
  exists s, append_all two_records (MkWalOs (the_wal s0) (the_os s0)) = (Ret tt, s) /\
    ReadAll s = (Ret (two_records ++ two_records), s).
Proof.
  apply (wal_append_read (str "w")); [repeat constructor..|apply open_log_ready|reflexivity].
Defined.

(** C17: On any file contents whatever, if no system call fails, reading the log terminates within the
    buffer (no exception, no access out of bounds) and returns exactly the complete
    records the file starts with, each with lengths that fit the format; it stops at
    the end of the file or at the first position where no record is recognised. *)
Theorem wal_read_any_bytes path c w o :
  wal_ready path c w o -> fault_free o ->
  exists rs rest, ReadAll (MkWalOs w o) = (Ret rs, MkWalOs w o) /\
    c = encode_all rs ++ rest /\ Forall record_fits rs /\
    (rest = [] \/ exists r0, WALRecord_Deserialize c (zlen (encode_all rs))
                     (zlen c - zlen (encode_all rs)) = Ret (r0, 0)).
Proof.
  intros Hw Hf.
  destruct (parse_records_sound _ _ _ _ (Z.le_refl 0) (log_records_parse c)) as (Hfits & rest & Hc & Hend).
  exists (log_records c), rest. split; [by apply ReadAll_ok with path|]. done.
Qed.

Lemma wal_read_any_bytes_witness :
  let c := str "not a log" in
  let s0 := open_log (str "w") (MkConfig NO 1000) (one_file (str "w") c) in
  exists rs rest, ReadAll (MkWalOs (the_wal s0) (the_os s0)) = (Ret rs, MkWalOs (the_wal s0) (the_os s0)) /\
    c = encode_all rs ++ rest /\ Forall record_fits rs /\
    (rest = [] \/ exists r0, WALRecord_Deserialize c (zlen (encode_all rs))
                     (zlen c - zlen (encode_all rs)) = Ret (r0, 0)).
Proof. apply (wal_read_any_bytes (str "w")); [apply open_log_ready|reflexivity]. Defined.

Definition payload (r : WALRecord) : bytes :=
  record_payload (op r) (u16 (zlen (key r))) (key r) (u16 (zlen (value r))) (value r).

(** What the file has for the record [r] after one alteration: the checksum [c] before the
    data of [r']. Either the stored checksum was altered, in any way, or bytes of the
    operation, the key or the value inside one window of four; the lengths are kept. *)
Inductive altered (r : WALRecord) : Z -> WALRecord -> Prop :=
  | checksum_altered c :
      0 <= c < 2 ^ 32 -> c <> CRC32 (payload r) -> altered r c r
  | data_altered r' p w w' q :
      record_fits r' -> zlen (key r') = zlen (key r) -> zlen (value r') = zlen (value r) ->
      payload r = p ++ w ++ q -> payload r' = p ++ w' ++ q ->
      length w' = length w -> (length w <= 4)%nat -> w' <> w ->
      altered r (CRC32 (payload r)) r'.

Lemma payload_fits r :
  record_fits r -> payload r = record_payload (op r) (zlen (key r)) (key r) (zlen (value r)) (value r).
Proof.
  intros [Hk Hv]. unfold payload, u16. unfold fits16 in *.
  pose proof (zlen_nonneg (key r)). pose proof (zlen_nonneg (value r)). by rewrite !Z.mod_small by lia.
Qed.

(** The stored checksum is not that of the data, so the decoder rejects the record. *)
Lemma altered_dead r c r' :
  record_fits r -> altered r c r' ->
  forall pre post len, 9 + zlen (key r) + zlen (value r) <= len ->
  WALRecord_Deserialize (pre ++ (le32 c ++ payload r') ++ post) (zlen pre) len = Ret (empty_record, 0).
Proof.
  intros Hr Ha pre post len Hl.
  assert (record_fits r' /\ zlen (key r') = zlen (key r) /\ zlen (value r') = zlen (value r) /\
    0 <= c < 2 ^ 32 /\ c <> CRC32 (payload r')) as (Hr' & Hk & Hv & Hc & Hne).
  { destruct Ha as [c Hc Hne|r' p w w' q Hr' Hk Hv Hp Hp' Hlen H4 Hne]; [done|].
    split_and!; [done..|apply CRC32_range|apply CRC32_range|].
    rewrite Hp, Hp'. intros E. apply Hne. symmetry. by apply (CRC32_burst_inj p q). }
  destruct (Serialize_frame r' Hr') as (c' & k0 & k1 & v0 & v1 & _ & Hgk & Hgv & Ec' & Er').
  assert (payload r' = op r' :: k0 :: k1 :: key r' ++ v0 :: v1 :: value r') as Ep.
  { apply (app_inv_head (le32 c')). rewrite <-Er'. unfold WALRecord_Serialize.
    by rewrite Ec', <-payload_fits by done. }
  rewrite Ep, <-app_assoc. cbn [app]. rewrite <-app_assoc. cbn [app].
  rewrite Deserialize_frame by (done || lia). rewrite <-payload_fits by done.
  by destruct (Z.eqb_spec c (CRC32 (payload r'))).
Qed.

(** C19: A record one of whose parts was altered is never replayed: whether its stored
    checksum was altered in any way, or the bytes of its operation, key and value inside one
    window of four bytes, reading the log yields the records before it and stops there, also
    if intact records follow. The two length fields are taken to be intact. *)
Theorem altered_record_rejected path rs r c r' rest wal o :
  Forall record_fits rs -> record_fits r -> altered r c r' ->
  wal_ready path (encode_all rs ++ (le32 c ++ payload r') ++ rest) wal o -> fault_free o ->
  ReadAll (MkWalOs wal o) = (Ret rs, MkWalOs wal o).
Proof.
  intros Hrs Hr Ha Hw Hf.
  rewrite (ReadAll_ok _ _ _ _ Hw Hf), log_records_encode_all; [done|done|right].
  intros pre. exists empty_record. apply (altered_dead r c r'); [done|done|].
  assert (zlen (key r') = zlen (key r) /\ zlen (value r') = zlen (value r)) as [Hk Hv] by by destruct Ha.
  unfold payload, record_payload. pose proof (zlen_nonneg rest). zlen.
Qed.

(** A digit of a balance is altered; an intact record follows. *)
Lemma altered_record_rejected_witness :
  let r := MkRecord OP_SET (str "balance") (str "100") in
  let r' := MkRecord OP_SET (str "balance") (str "900") in
  let s := open_log (str "w") (MkConfig NO 1000)
             (one_file (str "w") (encode_all two_records ++ (le32 (CRC32 (payload r)) ++ payload r')
                                  ++ encode_all two_records)) in
  ReadAll (MkWalOs (the_wal s) (the_os s)) = (Ret two_records, MkWalOs (the_wal s) (the_os s)).
Proof.
  intros r r' s.
  apply (altered_record_rejected (str "w") two_records r (CRC32 (payload r)) r' (encode_all two_records)).
  - repeat constructor.
  - split; reflexivity.
  - apply (data_altered r r' ([OP_SET] ++ le16 7 ++ str "balance" ++ le16 3) (str "1") (str "9") (str "00"));
      first [reflexivity|split; reflexivity|discriminate|simpl; lia].
  - apply open_log_ready.
  - reflexivity.
Defined.

(** With the ALWAYS policy an append that returns has its record on the device:
    the synced contents of the log end with it. *)
Theorem always_policy_durable path c r w o :
  wal_ready path c w o -> fault_free o -> policy (config_ w) = ALWAYS ->
  exists s, Append r (MkWalOs w o) = (Ret tt, s) /\
    disk (the_os s) !! path = Some (c ++ WALRecord_Serialize r).
Proof.
  intros Hw Hf Hp. destruct (Append_ok path c r w o Hw Hf) as (w' & o' & Hrun & _ & _ & _ & _ & _ & Hd).
  exists (MkWalOs w' o'). split; [done|]. by apply Hd.
Qed.

Lemma always_policy_durable_witness :
  let s0 := open_log (str "w") (MkConfig ALWAYS 1000) (one_file (str "w") []) in
  let r := MkRecord OP_SET (str "a") (str "1") in
  exists s, Append r (MkWalOs (the_wal s0) (the_os s0)) = (Ret tt, s) /\
    disk (the_os s) !! str "w" = Some ([] ++ WALRecord_Serialize r).
Proof.
  apply always_policy_durable; [apply open_log_ready|reflexivity|reflexivity].
Defined.

(** C20: Whatever the system calls do, an append adds a prefix of its record to the file
    and touches no other file; it adds the whole record if it returns, and otherwise it
    has thrown or the process has died. *)
Theorem append_any_fault path c r w o :
  wal_ready path c w o ->
  exists res s k, Append r (MkWalOs w o) = (res, s) /\
    files (the_os s) = <[path := c ++ ztake k (WALRecord_Serialize r)]> (files o) /\
    (res = Ret tt /\ k = zlen (WALRecord_Serialize r) \/ res = Throw RuntimeError \/ res = Crashed).
Proof.
  intros Hw. destruct (Append_cases path c r w o Hw) as (res & w' & o' & k & Hrun & _ & Hf & Hcase).
  exists res, (MkWalOs w' o'), k. split; [done|]. split; [done|].
  destruct Hcase as [(? & ? & _)|?]; auto.
Qed.

Lemma append_any_fault_witness :
  let s0 := open_log (str "w") (MkConfig NO 1000) (one_file (str "w") []) in
  let o := set_plan [FShort 3] (the_os s0) in
  let r := MkRecord OP_SET (str "a") (str "1") in
  exists res s k, Append r (MkWalOs (the_wal s0) o) = (res, s) /\
    files (the_os s) = <[str "w" := [] ++ ztake k (WALRecord_Serialize r)]> (files o) /\
    (res = Ret tt /\ k = zlen (WALRecord_Serialize r) \/ res = Throw RuntimeError \/ res = Crashed).
Proof.
  apply append_any_fault. destruct (open_log_ready (str "w") [] (MkConfig NO 1000)). split; assumption.
Defined.

(** ** The snapshot *)

(** C21: A snapshot of entries that fit the format, written and read without faults, is read
    back entry for entry. *)
Theorem snapshot_roundtrip dir es o :
  snapshot_fits es -> fault_free o -> 0 <= next_fd o ->
  exists o', (do! Create dir es in Load dir []) o = (Ret (true, es), o').
Proof.
  intros Hes Hf Hn.
  destruct (WriteSnapshot_ok (GetSnapshotPath dir) es o Hf Hn) as (o1 & Hw & [_ Hcase] & Hf1).
  destruct Hcase as [(_ & Hnew & Hk & _)|[(? & _)|(? & _)]]; [|done..].
  destruct (ReadSnapshot_ok (GetSnapshotPath dir) [] o1 Hf1) as (o2 & Hr & _); [lia|].
  exists o2. rewrite (bind_Ret _ _ _ _ _ (Hw : Create dir es o = _)). unfold Load. rewrite Hr, Hnew.
  pose proof (snapshot_content_bounds es Hes). cbn [read_result]. rewrite decide_False by lia.
  f_equal. apply parse_snapshot_content; [done|lia].
Qed.

Lemma snapshot_roundtrip_witness :
  let es := [(str "a", str "1"); (str "b", [])] in
  exists o', (do! Create (str "d") es in Load (str "d") []) (one_file (str "x") []) = (Ret (true, es), o').
Proof.
  apply snapshot_roundtrip; [split; [repeat constructor|reflexivity]|reflexivity|simpl; lia].
Defined.

(** C22: Whatever the system calls do, writing a snapshot touches no file but
    the snapshot and its temporary file, reports success only when the new snapshot is in
    place, and otherwise leaves the old one or none: never a partial file. *)
Theorem snapshot_replace_any_fault dir es o :
  0 <= next_fd o ->
  exists r o', Create dir es o = (r, o') /\
    files_kept [GetSnapshotPath dir; GetSnapshotPath dir ++ str ".tmp"] o o' /\
    (r = Ret true /\ files o' !! GetSnapshotPath dir = Some (snapshot_content es)
     \/ (r = Ret false \/ r = Crashed) /\
        (files o' !! GetSnapshotPath dir = files o !! GetSnapshotPath dir \/
         files o' !! GetSnapshotPath dir = None)).
Proof.
  intros Hn. destruct (WriteSnapshot_cases (GetSnapshotPath dir) es o Hn) as (r & o' & Hw & Hk & Hcase).
  exists r, o'. split; [done|]. split; [done|].
  destruct Hcase as [(? & ? & _)|[(? & ? & _)|(? & ?)]]; auto.
Qed.

Lemma snapshot_replace_any_fault_witness :
  let o := set_plan [FOk; FShort 5; FErr 28] (one_file (str "x") []) in
  let es := [(str "a", str "1")] in
  exists r o', Create (str "d") es o = (r, o') /\
    files_kept [GetSnapshotPath (str "d"); GetSnapshotPath (str "d") ++ str ".tmp"] o o' /\
    (r = Ret true /\ files o' !! GetSnapshotPath (str "d") = Some (snapshot_content es)
     \/ (r = Ret false \/ r = Crashed) /\
        (files o' !! GetSnapshotPath (str "d") = files o !! GetSnapshotPath (str "d") \/
         files o' !! GetSnapshotPath (str "d") = None)).
Proof. apply snapshot_replace_any_fault. simpl. lia. Defined.

(** C25: Reading a snapshot file of at least 17 bytes, whatever they are, stays within the
    buffer, if the system calls succeed and there is memory for the number of entries the
    header claims; the entries it accepts have lengths that fit the format. *)
Theorem snapshot_read_safe dir c o :
  files o !! GetSnapshotPath dir = Some c -> 17 <= zlen c < 2 ^ 64 -> fault_free o -> 0 <= next_fd o ->
  exists b es o', Load dir [] o = (Ret (b, es), o') /\ files o' = files o /\
    (b = true -> Forall pair_fits es).
Proof.
  intros Hc Hlen Hf Hn. destruct (ReadSnapshot_ok (GetSnapshotPath dir) [] o Hf Hn) as (o' & Hr & Hfiles & _).
  destruct (parse_snapshot_safe c []) as (b & es & Hp); [lia..|].
  rewrite Hc in Hr. cbn [read_result] in Hr. rewrite decide_False, Hp in Hr by lia.
  exists b, es, o'. split; [done|]. split; [done|]. intros ->. by eapply parse_snapshot_fits.
Qed.

Lemma snapshot_read_safe_witness :
  let c := str "KVSNP but no snapshot" in
  let o := one_file (GetSnapshotPath (str "d")) c in
  exists b es o', Load (str "d") [] o = (Ret (b, es), o') /\ files o' = files o /\
    (b = true -> Forall pair_fits es).
Proof.
  apply (snapshot_read_safe _ (str "KVSNP but no snapshot"));
    [apply lookup_singleton_eq|vm_compute; split; [discriminate|reflexivity]|reflexivity|simpl; lia].
Defined.

(** A file of 16 bytes whose checksum, magic and version are right. *)
Definition short_snapshot : bytes :=
  let c := MAGIC ++ le32 VERSION ++ [Byte.x7e; Byte.x00; Byte.x00] in AppendChecksum c c.

(** The size guard lets files of 14 to 16 bytes through although the
    header and the checksum need 17: with such a file the length passed to the entry
    decoder wraps around and the reader leaves its buffer. *)
Theorem snapshot_short_file_undefined :
  (Load (str "d") [] (one_file (GetSnapshotPath (str "d")) short_snapshot)).1 = Undefined.
Proof. apply (bool_decide_unpack _). vm_compute. exact I. Qed.

(** A file that ends after a header with a right checksum, which claims 2^32 - 1 entries. *)
Definition huge_count_snapshot : bytes :=
  let c := MAGIC ++ le32 VERSION ++ le32 (2 ^ 32 - 1) in AppendChecksum c c.

(** The reader reserves memory for the entries the header claims before it reads one: when
    the system refuses it, [Load] does not return [false] but throws. *)
Theorem huge_count_throws :
  (Load (str "d") [] (set_plan [FOk; FOk; FErr 12]
     (one_file (GetSnapshotPath (str "d")) huge_count_snapshot))).1 = Throw BadAlloc.
Proof. vm_compute. reflexivity. Qed.

(** ** Keys the formats cannot hold *)

Lemma load_entries_fits es m k :
  Forall pair_fits es -> m !! k = None -> ~ fits16 k -> load_entries es m !! k = None.
Proof.
  intros Hes. revert m. induction Hes as [|e es [He _] _ IH]; intros m Hm Hk; [done|].
  simpl. apply IH; [|done]. rewrite lookup_insert_ne; [done|]. by intros <-.
Qed.

Lemma replay_fits rs m k :
  Forall record_fits rs -> m !! k = None -> ~ fits16 k -> replay rs m !! k = None.
Proof.
  intros Hrs. revert m. induction Hrs as [|r rs [Hr _] _ IH]; intros m Hm Hk; [done|].
  simpl. apply IH; [|done]. rewrite replay_record_lookup. unfold effect_on.
  rewrite decide_False; [done|]. by intros <-.
Qed.

(** C32: Whatever bytes the log has and whatever entries a snapshot that can be read, a
    process that starts on them without a fault has no key of 65536 bytes or more: the
    length fields hold 16 bits. [Set] accepts such a key and serves it from memory. *)
Theorem oversize_never_recovered dir o e k :
  ~ fits16 k -> snapshot_readable dir (files o) -> fault_free o -> 0 <= next_fd o ->
  exists s, construct dir (MkWalOs WAL_init o) e = (Ret tt, s) /\ data s !! k = None.
Proof.
  intros Hk Hread Hf Hn.
  destruct (construct_run dir (MkWalOs WAL_init o) e) as (s & Hrun & Hd & _); try done.
  { simpl. lia. }
  exists s. split; [done|]. rewrite Hd. cbn [the_os]. apply replay_fits; [| |done].
  - destruct (parse_records_sound _ _ _ _ (Z.le_refl 0)
      (log_records_parse (default [] (files o !! wal_path dir)))) as [? _]. done.
  - unfold snapshot_map. destruct Hread as (b & es & Hr). rewrite Hr. destruct b; [|done].
    apply load_entries_fits; [|done..]. unfold read_result in Hr.
    destruct (files o !! GetSnapshotPath dir); [|done].
    case_decide; [done|]. by eapply parse_snapshot_fits.
Qed.

Definition long_key : bytes := replicate (Z.to_nat 65536) Byte.x61.

Lemma oversize_never_recovered_witness :
  exists s, construct (str "d")
      (MkWalOs WAL_init (one_file (wal_path (str "d"))
        (WALRecord_Serialize (MkRecord OP_SET (long_key) (str "v"))))) plain_env = (Ret tt, s) /\
    data s !! long_key = None.
Proof.
  apply oversize_never_recovered.
  - unfold fits16, zlen, long_key. rewrite length_replicate. lia.
  - eexists _, _. simpl. rewrite lookup_singleton_ne; [reflexivity|]. apply snapshot_path_ne.
  - reflexivity.
  - simpl. lia.
Defined.

(** ** The burst window *)

(** On time stamps in order, as the steady clock gives them, the window is
    exceeded exactly when more than [max_ops_] operations are at most one window old:
    stopping at the first expired stamp loses none. *)
Theorem burst_window_counts now w :
  StronglySorted Z.le (timestamps_ w) -> zlen (timestamps_ w) < 2 ^ 31 ->
  IsExceeded now w = bool_decide
    (max_ops_ w < zlen (filter (fun t => now - window_size_ w * ms <= t) (timestamps_ w))).
Proof.
  intros Hs Hlen. unfold IsExceeded. set (c := now - _).
  pose proof (count_recent_bound c (rev (timestamps_ w))) as Hb.
  rewrite i32_small by (unfold zlen in *; rewrite length_rev in Hb; lia).
  rewrite count_recent_filter by by apply StronglySorted_rev.
  f_equal. apply bool_decide_ext. unfold zlen. by rewrite <-(Permutation_rev (timestamps_ w)).
Qed.

Lemma burst_window_counts_witness :
  let w := MkWindow 2 1000 [0; 500 * ms; 1200 * ms; 1300 * ms] in
  IsExceeded (1400 * ms) w = bool_decide
    (max_ops_ w < zlen (filter (fun t => 1400 * ms - window_size_ w * ms <= t) (timestamps_ w))).
Proof.
  apply burst_window_counts; [|reflexivity]. unfold ms. simpl.
  repeat constructor; lia.
Defined.
