(* ===== verification/CppString.v ===== *)
(** * The parts of the C++ library that the protocol code calls

    [std::string::find], [substr] and [erase], [std::to_string], [std::stoi] and the
    ASCII [ToUpper] of the source, on byte strings. Lengths and positions are [size_t]
    values; a string is shorter than 2^63 bytes ([std::string::max_size]). *)

From S2P Require Import Prelude.

Definition CR : byte := Byte.x0d.
Definition LF : byte := Byte.x0a.
Definition CRLF : bytes := [CR; LF].

(** [std::endl], as far as the text goes. *)
Definition endl : bytes := [LF].

(** ** Searching and slicing *)

(** The position of the first ["\r\n"] in [l], which starts at position [i]. *)
Fixpoint find_crlf_from (l : bytes) (i : Z) : option Z :=
  match l with
  | [] => None
  | c :: t =>
      match t with
      | d :: _ => if decide (c = CR /\ d = LF) then Some i else find_crlf_from t (i + 1)
      | [] => None
      end
  end.

(** [s.find("\r\n", pos)], [None] for [npos]. *)
Definition find_crlf (s : bytes) (pos : Z) : option Z :=
  if decide (zlen s < pos) then None else find_crlf_from (zdrop pos s) pos.

(** [s.substr(pos, n)] *)
Definition substr (s : bytes) (pos n : Z) : res bytes :=
  if decide (zlen s < pos) then Throw OutOfRange else Ret (ztake n (zdrop pos s)).

(** [s.substr(pos)] *)
Definition substr_from (s : bytes) (pos : Z) : res bytes :=
  if decide (zlen s < pos) then Throw OutOfRange else Ret (zdrop pos s).

(** ** Decimal numbers *)

Definition digit (n : Z) : byte := z2b (48 + n).
Definition digit_value (c : byte) : option Z :=
  if decide (48 <= b2z c < 58) then Some (b2z c - 48) else None.

(** [isspace] in the C locale. *)
Definition isspace (c : byte) : bool := bool_decide (b2z c = 32 \/ 9 <= b2z c < 14).

Fixpoint to_string_fuel (fuel : nat) (n : Z) : bytes :=
  match fuel with
  | O => []
  | S fuel => if decide (n < 10) then [digit n]
              else to_string_fuel fuel (n / 10) ++ [digit (n mod 10)]
  end.

(** [std::to_string] of a non-negative number; dividing by ten halves it at least. *)
Definition to_string (n : Z) : bytes := to_string_fuel (S (Z.to_nat (Z.log2 n))) n.

(** The digits [strtol] consumes: the value so far, and whether there were any. *)
Fixpoint read_digits (s : bytes) (acc : Z) (any : bool) : Z * bool :=
  match s with
  | [] => (acc, any)
  | c :: s =>
      match digit_value c with
      | Some d => read_digits s (10 * acc + d) true
      | None => (acc, any)
      end
  end.

Fixpoint skip_spaces (s : bytes) : bytes :=
  match s with
  | [] => []
  | c :: s' => if isspace c then skip_spaces s' else s
  end.

(** [std::stoi(s)]: blanks, a sign, digits; what follows is ignored. *)
Definition stoi (s : bytes) : res Z :=
  let s := skip_spaces s in
  let '(neg, s) :=
    match s with
    | c :: s' => if decide (c = Byte.x2d) then (true, s')
                 else if decide (c = Byte.x2b) then (false, s') else (false, s)
    | [] => (false, s)
    end in
  let (n, any) := read_digits s 0 false in
  if any then
    let v := if neg then - n else n in
    if decide (INT_MIN <= v <= INT_MAX) then Ret v else Throw OutOfRange
  else Throw InvalidArgument.

(** ** Case *)

(** [if (c >= 'a' && c <= 'z') c -= 32;] *)
Definition to_upper_char (c : byte) : byte :=
  if decide (97 <= b2z c <= 122) then z2b (b2z c - 32) else c.

Definition ToUpper (s : bytes) : bytes := map to_upper_char s.

(** ** Numbers read back *)

Lemma digit_value_digit n : 0 <= n < 10 -> digit_value (digit n) = Some n.
Proof.
  intros Hn. unfold digit_value, digit. rewrite b2z_z2b, Z.mod_small by lia.
  rewrite decide_True by lia. f_equal. lia.
Qed.

Lemma read_digits_snoc s : forall acc any n any' c d,
  Forall (fun c => is_Some (digit_value c)) s -> read_digits s acc any = (n, any') ->
  digit_value c = Some d -> forall t, read_digits (s ++ c :: t) acc any = read_digits t (10 * n + d) true.
Proof.
  induction s as [|x s IH]; intros acc any n any' c d Hs Hr Hd t; simpl in *.
  { injection Hr as <- <-. by rewrite Hd. }
  inversion Hs as [|?? [dx Hx] Hs']; subst. rewrite Hx in *. by eapply IH.
Qed.

(** The digits of [n], as [to_string] writes them. *)
Definition all_digits (s : bytes) : Prop := Forall (fun c => is_Some (digit_value c)) s.

Lemma to_string_fuel_digits fuel : forall n,
  0 <= n < 2 ^ Z.of_nat fuel -> all_digits (to_string_fuel fuel n).
Proof.
  induction fuel as [|fuel IH]; intros n Hn; simpl; [by constructor|].
  case_decide.
  - repeat constructor. rewrite digit_value_digit by lia. eauto.
  - apply Forall_app_2.
    + apply IH. rewrite Nat2Z.inj_succ, Z.pow_succ_r in Hn by lia.
      split; [apply Z.div_pos; lia|]. apply Z.div_lt_upper_bound; lia.
    + repeat constructor. rewrite digit_value_digit; [eauto|]. apply Z.mod_pos_bound. lia.
Qed.

Lemma read_digits_to_string fuel : forall n any t,
  (0 < fuel)%nat -> 0 <= n < 2 ^ Z.of_nat fuel ->
  read_digits (to_string_fuel fuel n ++ t) 0 any = read_digits t n true.
Proof.
  induction fuel as [|fuel IH]; intros n any t H0 Hn; [lia|]. simpl. case_decide.
  { simpl. by rewrite digit_value_digit by lia. }
  rewrite Nat2Z.inj_succ, Z.pow_succ_r in Hn by lia.
  assert (0 <= n / 10 < 2 ^ Z.of_nat fuel) as Hdiv.
  { split; [apply Z.div_pos; lia|]. apply Z.div_lt_upper_bound; lia. }
  assert (0 < fuel)%nat as Hf.
  { destruct fuel; [|lia]. simpl in Hdiv. assert (1 <= n / 10) by (apply Z.div_le_lower_bound; lia). lia. }
  rewrite <-app_assoc. cbn [app]. rewrite IH by done. simpl.
  rewrite digit_value_digit by (apply Z.mod_pos_bound; lia).
  f_equal. rewrite (Z.div_mod n 10) at 3 by lia. done.
Qed.

Lemma to_string_bound n : 0 <= n -> 0 <= n < 2 ^ Z.of_nat (S (Z.to_nat (Z.log2 n))).
Proof.
  intros Hn. split; [done|]. destruct (decide (n = 0)) as [->|]; [done|].
  pose proof (Z.log2_nonneg n). rewrite Nat2Z.inj_succ, Z2Nat.id by lia.
  apply Z.log2_spec. lia.
Qed.

Lemma to_string_digits n : 0 <= n -> all_digits (to_string n).
Proof. intros Hn. by apply to_string_fuel_digits, to_string_bound. Qed.

Lemma to_string_fuel_nonempty fuel n : (0 < fuel)%nat -> to_string_fuel fuel n <> [].
Proof. destruct fuel; [lia|]. intros _. simpl. case_decide; [done|]. by destruct (to_string_fuel _ _). Qed.

Lemma to_string_fuel_length fuel n : zlen (to_string_fuel fuel n) <= Z.of_nat fuel.
Proof.
  revert n. induction fuel as [|fuel IH]; intros n; simpl; [done|].
  case_decide; [unfold zlen; simpl; lia|]. specialize (IH (n / 10)). zlen.
Qed.

(** A number has no more digits than bits. *)
Lemma to_string_length n : 0 <= n -> zlen (to_string n) <= 1 + Z.log2 n.
Proof.
  intros Hn. unfold to_string. pose proof (to_string_fuel_length (S (Z.to_nat (Z.log2 n))) n).
  pose proof (Z.log2_nonneg n). lia.
Qed.

Lemma digit_not c d : digit_value c = Some d -> isspace c = false /\ c <> Byte.x2d /\ c <> Byte.x2b /\ c <> CR.
Proof.
  unfold digit_value, isspace. case_decide as H; [|done]. intros _.
  split; [apply bool_decide_false; lia|].
  split_and!; intros ->; unfold CR in *; vm_compute in H; destruct H as [H _]; by apply H.
Qed.

Lemma to_string_head n : 0 <= n -> exists c s d, to_string n = c :: s /\ digit_value c = Some d.
Proof.
  intros Hn. pose proof (to_string_digits n Hn) as Hdig.
  pose proof (to_string_fuel_nonempty (S (Z.to_nat (Z.log2 n))) n ltac:(lia)) as Hne.
  fold (to_string n) in Hne. destruct (to_string n) as [|c s]; [done|].
  inversion Hdig as [|?? [d Hd] _]. eauto.
Qed.

(** [std::stoi] reads back what [std::to_string] writes, whatever non-digit follows. *)
Lemma stoi_to_string n t :
  0 <= n <= INT_MAX -> (forall c t', t = c :: t' -> digit_value c = None) ->
  stoi (to_string n ++ t) = Ret n.
Proof.
  intros Hn Ht. unfold stoi.
  destruct (to_string_head n ltac:(lia)) as (c & s & d & Hs & Hd).
  destruct (digit_not c d Hd) as (Hsp & Hm & Hp & _).
  assert (skip_spaces (to_string n ++ t) = to_string n ++ t) as ->.
  { rewrite Hs. simpl. by rewrite Hsp. }
  assert (read_digits (to_string n ++ t) 0 false = (n, true)) as Hr.
  { unfold to_string. rewrite read_digits_to_string; [|lia|apply to_string_bound; lia].
    destruct t as [|x t]; [done|]. simpl. by rewrite (Ht x t eq_refl). }
  revert Hr. rewrite Hs. cbn [app]. rewrite !decide_False by done. intros ->.
  rewrite decide_True by (unfold INT_MIN; lia). done.
Qed.

Lemma stoi_to_string_exact n : 0 <= n <= INT_MAX -> stoi (to_string n) = Ret n.
Proof. intros Hn. rewrite <-(app_nil_r (to_string n)). by apply stoi_to_string. Qed.
