(* ===== verification/Protocol.v ===== *)
(** * The wire protocol: [src/common/protocol.cpp]

    Commands and responses, their serialisation, and the buffered reader
    [RespReader], whose state is its buffer. *)

From S2P Require Import Prelude CppString.

(** ** Data *)

(** [enum class CommandType : int], in the order of its values. *)
Inductive CommandType := SET | GET | DEL | EXISTS | KEYS | UNKNOWN.

Inductive ParseError :=
  | Error_NONE | Error_EMPTY | Error_UNKNOWN_COMMAND | Error_WRONG_ARG_COUNT
  | Error_PROTOCOL_ERROR.

#[export] Instance CommandType_eq_decision : EqDecision CommandType.
Proof. solve_decision. Defined.
#[export] Instance ParseError_eq_decision : EqDecision ParseError.
Proof. solve_decision. Defined.

Record Command := MkCommand {
  type : CommandType;
  args : list bytes;
  error : ParseError
}.

(** [Command cmd;], with the default member initialisers. *)
Definition Command_default : Command := MkCommand UNKNOWN [] Error_NONE.

(** [CommandType{}]: the enumerator whose value is 0. *)
Definition CommandType_zero : CommandType := SET.

Inductive Status := Status_OK | Status_VALUE | Status_NOT_FOUND | Status_ERR | Status_COUNT.

Record Response := MkResponse {
  status : Status;
  message : bytes
}.

Inductive Result := Result_OK | Result_PARTIAL | Result_PROTOCOL_ERROR.

#[export] Instance Command_eq_decision : EqDecision Command.
Proof. solve_decision. Defined.
#[export] Instance Result_eq_decision : EqDecision Result.
Proof. solve_decision. Defined.

(** ** Serialisation *)

Definition SerializeResponse (resp : Response) : bytes :=
  match status resp with
  | Status_OK => str "+OK" ++ CRLF
  | Status_VALUE => str "$" ++ to_string (zlen (message resp)) ++ CRLF ++ message resp ++ CRLF
  | Status_NOT_FOUND => str "$-1" ++ CRLF
  | Status_ERR => str "-ERR " ++ message resp ++ CRLF
  | Status_COUNT => str ":" ++ message resp ++ CRLF
  end.

(** [names[static_cast<int>(cmd.type)]] *)
Definition command_name (t : CommandType) : bytes :=
  match t with
  | SET => str "SET" | GET => str "GET" | DEL => str "DEL"
  | EXISTS => str "EXISTS" | KEYS => str "KEYS" | UNKNOWN => str "UNKNOWN"
  end.

(** One bulk string, [$<len>\r\n<data>\r\n]. *)
Definition bulk (s : bytes) : bytes := str "$" ++ to_string (zlen s) ++ CRLF ++ s ++ CRLF.

Definition SerializeCommand (cmd : Command) : bytes :=
  let cmd_name := command_name (type cmd) in
  let count := 1 + zlen (args cmd) in
  let resp := str "*" ++ to_string count ++ CRLF in
  let resp := resp ++ bulk cmd_name in
  foldl (fun resp arg => resp ++ bulk arg) resp (args cmd).

(** ** The reader *)

(** [ReadLine(buf, pos)]: the line and the new [pos]. *)
Definition ReadLine (buf : bytes) (pos : Z) : option (bytes * Z) :=
  match find_crlf buf pos with
  | None => None
  | Some crlf => Some (ztake (crlf - pos) (zdrop pos buf), crlf + 2)
  end.

(** [ReadBulkString(buf, pos)]: the string, if any, and the new [pos]. *)
Definition ReadBulkString (buf : bytes) (pos : Z) : res (option bytes * Z) :=
  if decide (zlen buf <= pos) then Ret (None, pos) else
  let? c := at_ buf pos in
  if decide (c <> Byte.x24) then Ret (None, pos) else
  let saved := pos in
  match ReadLine buf pos with
  | None => Ret (None, saved)
  | Some (line, pos) =>
      let? num := substr_from line 1 in
      let? len := stoi num in
      if decide (len = -1) then Ret (None, pos) else
      if decide (zlen buf < u64 (pos + u64 len + 2)) then Ret (None, saved) else
      let? result := substr buf pos (u64 len) in
      if decide (INT_MAX < len + 2) then Undefined
      else Ret (Some result, u64 (pos + u64 (len + 2)))
  end.

(** The loop [for (int i = 0; i < count; ++i)]: the tokens and the new [pos], or
    nothing when a bulk string is incomplete. *)
Fixpoint read_tokens (count : nat) (buf : bytes) (pos : Z) (tokens : list bytes)
    : res (option (list bytes * Z)) :=
  match count with
  | O => Ret (Some (tokens, pos))
  | S count =>
      let? (b, pos) := ReadBulkString buf pos in
      match b with
      | None => Ret None
      | Some s => read_tokens count buf pos (tokens ++ [s])
      end
  end.

(** The chain of comparisons with [cmd_upper]. *)
Definition command_type (cmd_upper : bytes) : option CommandType :=
  if decide (cmd_upper = str "SET") then Some SET
  else if decide (cmd_upper = str "GET") then Some GET
  else if decide (cmd_upper = str "DEL") then Some DEL
  else if decide (cmd_upper = str "EXISTS") then Some EXISTS
  else if decide (cmd_upper = str "KEYS") then Some KEYS
  else None.

Record RespReader := MkReader { buf_ : bytes }.

Definition RespReader_new : RespReader := MkReader [].

Definition Feed (data : bytes) : M RespReader unit :=
  modify (fun r => MkReader (buf_ r ++ data)).

(** [buf_.erase(0, pos)] *)
Definition erase (pos : Z) : M RespReader unit := modify (fun r => MkReader (zdrop pos (buf_ r))).

(** The [switch (type)] over the tokens. *)
Definition build_command (t : CommandType) (tokens : list bytes) : res Command :=
  match t with
  | SET =>
      if decide (zlen tokens < 3) then Ret (MkCommand CommandType_zero [] Error_WRONG_ARG_COUNT)
      else
        let? a1 := at_ tokens 1 in
        let? a2 := at_ tokens 2 in
        Ret (MkCommand t [a1; a2] Error_NONE)
  | GET | DEL | EXISTS =>
      let? a1 := at_ tokens 1 in
      Ret (MkCommand t [a1] Error_NONE)
  | KEYS => Ret (MkCommand t [] Error_NONE)
  | UNKNOWN => Ret (MkCommand CommandType_zero [] Error_UNKNOWN_COMMAND)
  end.

(** [TryParse(cmd)]: the result and the value [cmd] has afterwards. *)
Definition TryParse (cmd : Command) : M RespReader (Result * Command) :=
  let! buf := gets buf_ in
  match ReadLine buf 0 with
  | None => ret (Result_PARTIAL, cmd)
  | Some (line, pos) =>
      if decide (head line <> Some Byte.x2a) then
        do! erase pos in ret (Result_PROTOCOL_ERROR, cmd)
      else
      let! count := lift (let? num := substr_from line 1 in stoi num) in
      if decide (count <= 0) then
        do! erase pos in ret (Result_PROTOCOL_ERROR, cmd)
      else
      let! t := lift (read_tokens (Z.to_nat count) buf pos []) in
      match t with
      | None => ret (Result_PARTIAL, cmd)
      | Some (tokens, pos) =>
          let! name := lift (at_ tokens 0) in
          match command_type (ToUpper name) with
          | None =>
              do! erase pos in
              ret (Result_OK, MkCommand CommandType_zero [] Error_UNKNOWN_COMMAND)
          | Some ty =>
              let! cmd := lift (build_command ty tokens) in
              do! erase pos in
              ret (Result_OK, cmd)
          end
      end
  end.

(** ** Well-formed commands *)

Definition arg_fits (s : bytes) : Prop := zlen s <= INT_MAX - 2.

(** The commands a client builds. *)
Definition command_ok (c : Command) : Prop :=
  error c = Error_NONE /\ Forall arg_fits (args c) /\
  match type c with
  | SET => length (args c) = 2%nat
  | GET | DEL | EXISTS => length (args c) = 1%nat
  | KEYS => args c = []
  | UNKNOWN => False
  end.

(** ** Lines *)

Lemma find_crlf_from_app l t i :
  CR ∉ l -> find_crlf_from (l ++ CR :: LF :: t) i = Some (i + zlen l).
Proof.
  revert i. induction l as [|c l IH]; intros i Hl.
  { simpl. f_equal. unfold zlen. simpl. lia. }
  apply not_elem_of_cons in Hl as [Hc Hl].
  assert (find_crlf_from ((c :: l) ++ CR :: LF :: t) i
          = find_crlf_from (l ++ CR :: LF :: t) (i + 1)) as ->.
  { simpl. destruct (l ++ CR :: LF :: t) eqn:E; [by destruct l|].
    rewrite decide_False; [done|]. by intros [-> _]. }
  rewrite IH by done. f_equal. zlen.
Qed.

Lemma find_crlf_from_none l i : CR ∉ l -> find_crlf_from l i = None.
Proof.
  revert i. induction l as [|c l IH]; intros i Hl; [done|].
  apply not_elem_of_cons in Hl as [Hc Hl]. simpl. destruct l; [done|].
  rewrite decide_False; [by apply IH|]. by intros [-> _].
Qed.

Lemma find_crlf_from_torn l i : CR ∉ l -> find_crlf_from (l ++ [CR]) i = None.
Proof.
  revert i. induction l as [|c l IH]; intros i Hl; [done|].
  apply not_elem_of_cons in Hl as [Hc Hl]. simpl. destruct (l ++ [CR]) eqn:E; [done|].
  rewrite decide_False; [|by intros [-> _]]. by apply IH.
Qed.

Lemma ReadLine_ok p line rest :
  CR ∉ line -> ReadLine (p ++ line ++ CRLF ++ rest) (zlen p) = Some (line, zlen p + zlen line + 2).
Proof.
  intros Hl. unfold ReadLine, find_crlf. rewrite decide_False by zlen.
  rewrite zdrop_app_exact by done. change (line ++ CRLF ++ rest) with (line ++ CR :: LF :: rest).
  rewrite find_crlf_from_app by done. rewrite ztake_app_exact by lia. do 2 f_equal.
Qed.

Lemma ReadLine_torn p line n :
  CR ∉ line -> 0 <= n < zlen line + 2 -> ReadLine (p ++ ztake n (line ++ CRLF)) (zlen p) = None.
Proof.
  intros Hl Hn. unfold ReadLine, find_crlf. case_decide; [done|]. rewrite zdrop_app_exact by done.
  destruct (decide (n <= zlen line)).
  - rewrite find_crlf_from_none; [done|]. unfold ztake, zlen in *. rewrite take_app_le by lia.
    intros Hin. apply Hl. by eapply elem_of_submseteq, sublist_submseteq, sublist_take.
  - assert (ztake n (line ++ CRLF) = line ++ [CR]) as ->.
    { unfold ztake, zlen in *. rewrite take_app_ge by lia.
      by replace (Z.to_nat n - length line)%nat with 1%nat by lia. }
    by rewrite find_crlf_from_torn.
Qed.

Lemma all_digits_no_cr s : all_digits s -> CR ∉ s.
Proof.
  intros Hs Hin. unfold all_digits in Hs. rewrite Forall_forall in Hs.
  destruct (Hs _ Hin) as [d Hd]. by destruct (digit_not _ _ Hd) as (_ & _ & _ & ?).
Qed.

Lemma to_string_no_cr n : 0 <= n -> CR ∉ to_string n.
Proof. intros. by apply all_digits_no_cr, to_string_digits. Qed.

(** ** Bulk strings *)

Lemma bulk_length s : zlen (bulk s) = 5 + zlen (to_string (zlen s)) + zlen s.
Proof. unfold bulk. change (str "$") with [Byte.x24]. unfold CRLF. zlen. Qed.

Lemma bulk_header s : bulk s = Byte.x24 :: to_string (zlen s) ++ CRLF ++ s ++ CRLF.
Proof. done. Qed.

Lemma ReadBulkString_ok p s rest :
  arg_fits s -> zlen (p ++ bulk s ++ rest) < 2 ^ 63 ->
  ReadBulkString (p ++ bulk s ++ rest) (zlen p) = Ret (Some s, zlen p + zlen (bulk s)).
Proof.
  intros Hs Hlen. pose proof (bulk_length s) as Hb. unfold arg_fits in Hs.
  unfold INT_MAX in Hs. pose proof (zlen_nonneg s).
  unfold ReadBulkString. rewrite decide_False by zlen.
  set (n := to_string (zlen s)) in *.
  assert (p ++ bulk s ++ rest = p ++ (Byte.x24 :: n) ++ CRLF ++ s ++ CRLF ++ rest) as E.
  { rewrite bulk_header. cbn [app]. by rewrite <-!app_assoc. }
  rewrite E in *. rewrite (at_split _ p (n ++ CRLF ++ s ++ CRLF ++ rest) Byte.x24) by done.
  cbn [res_bind]. rewrite decide_False by (intros Hx; by apply Hx).
  rewrite ReadLine_ok.
  2: { apply not_elem_of_cons. split; [done|]. apply to_string_no_cr. lia. }
  unfold substr_from. rewrite decide_False by zlen. cbn [res_bind].
  change (zdrop 1 (Byte.x24 :: n)) with n.
  subst n. rewrite stoi_to_string_exact by (unfold INT_MAX; lia). cbn [res_bind].
  set (n := to_string (zlen s)) in *. rewrite decide_False by lia.
  assert (zlen p + zlen (Byte.x24 :: n) + 2 = zlen (p ++ (Byte.x24 :: n) ++ CRLF)) as Epos
    by (unfold CRLF; zlen).
  assert (zlen (p ++ (Byte.x24 :: n) ++ CRLF) + zlen s + 2 + zlen rest
          = zlen (p ++ (Byte.x24 :: n) ++ CRLF ++ s ++ CRLF ++ rest)) as Elen
    by (unfold CRLF; zlen).
  rewrite Epos. pose proof (zlen_nonneg rest).
  pose proof (zlen_nonneg (p ++ (Byte.x24 :: n) ++ CRLF)).
  unfold u64. rewrite (Z.mod_small (zlen s)), (Z.mod_small (zlen s + 2)) by lia.
  rewrite !Z.mod_small by lia. rewrite decide_False by lia.
  unfold substr. rewrite decide_False by lia. cbn [res_bind]. unfold INT_MAX.
  rewrite decide_False by lia. f_equal. apply pair_equal_spec. split; [f_equal|].
  - replace (p ++ (Byte.x24 :: n) ++ CRLF ++ s ++ CRLF ++ rest)
      with ((p ++ (Byte.x24 :: n) ++ CRLF) ++ s ++ CRLF ++ rest) by list_eq.
    rewrite zdrop_app_exact by done. by apply ztake_app_exact.
  - rewrite Hb. unfold CRLF. zlen.
Qed.

Lemma ReadBulkString_torn p s n :
  arg_fits s -> 0 <= n < zlen (bulk s) -> zlen (p ++ bulk s) < 2 ^ 63 ->
  exists pos, ReadBulkString (p ++ ztake n (bulk s)) (zlen p) = Ret (None, pos).
Proof.
  intros Hs Hn Hlen. pose proof (bulk_length s) as Hb. unfold arg_fits, INT_MAX in Hs.
  pose proof (zlen_nonneg s). set (num := to_string (zlen s)) in *.
  unfold ReadBulkString. case_decide as Hend; [eauto|].
  assert (0 < n) as Hpos by zlen.
  assert (ztake n (bulk s) = Byte.x24 :: ztake (n - 1) (num ++ CRLF ++ s ++ CRLF)) as E.
  { rewrite bulk_header. unfold ztake. by replace (Z.to_nat n) with (S (Z.to_nat (n - 1))) by lia. }
  rewrite (at_split _ p (ztake (n - 1) (num ++ CRLF ++ s ++ CRLF)) Byte.x24) by (done || by rewrite E).
  cbn [res_bind]. rewrite decide_False by (intros Hx; by apply Hx).
  assert (CR ∉ Byte.x24 :: num) as Hcr.
  { apply not_elem_of_cons. split; [done|]. apply to_string_no_cr. lia. }
  destruct (decide (n < zlen (Byte.x24 :: num) + 2)) as [Hshort|Hlong].
  { assert (ztake n (bulk s) = ztake n ((Byte.x24 :: num) ++ CRLF)) as ->.
    { change (bulk s) with ((Byte.x24 :: num) ++ CRLF ++ s ++ CRLF). rewrite app_assoc.
      unfold ztake, zlen, CRLF in *. rewrite take_app_le; [done|]. rewrite length_app. simpl in *. lia. }
    rewrite ReadLine_torn by (done || lia). eauto. }
  set (m := n - (zlen (Byte.x24 :: num) + 2)).
  assert (ztake n (bulk s) = (Byte.x24 :: num) ++ CRLF ++ ztake m (s ++ CRLF)) as E'.
  { change (bulk s) with ((Byte.x24 :: num) ++ CRLF ++ s ++ CRLF). rewrite !(app_assoc _ CRLF).
    unfold ztake, zlen, m, CRLF in *. rewrite take_app_ge by (rewrite length_app; simpl in *; lia).
    f_equal. f_equal. rewrite length_app. unfold zlen. simpl in *. lia. }
  rewrite E', ReadLine_ok by done.
  unfold substr_from. rewrite decide_False by zlen. cbn [res_bind].
  change (zdrop 1 (Byte.x24 :: num)) with num. unfold num at 1.
  rewrite stoi_to_string_exact by (unfold INT_MAX; lia). cbn [res_bind].
  rewrite decide_False by lia. rewrite decide_True; [eauto|].
  unfold m, u64, CRLF in *. rewrite (Z.mod_small (zlen s)) by lia. rewrite Z.mod_small by zlen. zlen.
Qed.

(** ** Token lists *)

Definition bulks (ss : list bytes) : bytes := ss ≫= bulk.

Lemma read_tokens_ok ss : forall p rest acc,
  Forall arg_fits ss -> zlen (p ++ bulks ss ++ rest) < 2 ^ 63 ->
  read_tokens (length ss) (p ++ bulks ss ++ rest) (zlen p) acc
    = Ret (Some (acc ++ ss, zlen p + zlen (bulks ss))).
Proof.
  induction ss as [|s ss IH]; intros p rest acc Hss Hlen; cbn [read_tokens length].
  { rewrite app_nil_r. change (zlen (bulks [])) with 0. by rewrite Z.add_0_r. }
  inversion Hss; subst. change (bulks (s :: ss)) with (bulk s ++ bulks ss) in *.
  rewrite <-app_assoc in *. rewrite ReadBulkString_ok by done. cbn [res_bind].
  rewrite <-zlen_app, app_assoc, IH; [|done|by rewrite <-app_assoc].
  rewrite <-app_assoc. do 3 f_equal. zlen.
Qed.

Lemma read_tokens_torn ss : forall p n acc,
  Forall arg_fits ss -> 0 <= n < zlen (bulks ss) -> zlen (p ++ bulks ss) < 2 ^ 63 ->
  read_tokens (length ss) (p ++ ztake n (bulks ss)) (zlen p) acc = Ret None.
Proof.
  induction ss as [|s ss IH]; intros p n acc Hss Hn Hlen.
  { change (zlen (bulks [])) with 0 in Hn. lia. }
  inversion Hss; subst. change (bulks (s :: ss)) with (bulk s ++ bulks ss) in *.
  cbn [read_tokens length]. destruct (decide (n < zlen (bulk s))) as [Hlt|Hge].
  - assert (ztake n (bulk s ++ bulks ss) = ztake n (bulk s)) as ->.
    { unfold ztake, zlen in *. rewrite take_app_le by lia. done. }
    destruct (ReadBulkString_torn p s n) as [pos ->]; [done|lia|zlen|]. done.
  - assert (ztake n (bulk s ++ bulks ss) = bulk s ++ ztake (n - zlen (bulk s)) (bulks ss)) as ->.
    { unfold ztake, zlen in *. rewrite take_app_ge by lia. do 2 f_equal. lia. }
    rewrite ReadBulkString_ok; [|done|zlen]. cbn [res_bind].
    rewrite <-zlen_app, app_assoc, IH; [done|done|zlen|zlen].
Qed.

(** ** Commands *)

Lemma SerializeCommand_bulks c :
  SerializeCommand c = (Byte.x2a :: to_string (1 + zlen (args c))) ++ CRLF
    ++ bulks (command_name (type c) :: args c).
Proof.
  unfold SerializeCommand.
  assert (forall l r, foldl (fun resp arg => resp ++ bulk arg) r l = r ++ bulks l) as Hfold.
  { induction l as [|a l IH]; intros r; simpl; [by rewrite app_nil_r|]. by rewrite IH, <-app_assoc. }
  rewrite Hfold. change (bulks (command_name (type c) :: args c))
    with (bulk (command_name (type c)) ++ bulks (args c)). list_eq.
Qed.

Lemma command_name_fits t : arg_fits (command_name t).
Proof. by destruct t. Qed.

Lemma command_type_name t : t <> UNKNOWN -> command_type (ToUpper (command_name t)) = Some t.
Proof. by destruct t. Qed.

Lemma command_count c : command_ok c -> 1 <= 1 + zlen (args c) <= 3.
Proof.
  intros (_ & _ & H). unfold zlen. destruct (type c); try (rewrite H; simpl; lia); done.
Qed.

Lemma build_command_ok c :
  command_ok c -> build_command (type c) (command_name (type c) :: args c) = Ret c.
Proof.
  destruct c as [t l e]. intros (He & _ & Hl). simpl in *. subst e. destruct t; simpl in *; try done.
  - destruct l as [|k [|v [|? ?]]]; done.
  - destruct l as [|k [|? ?]]; done.
  - destruct l as [|k [|? ?]]; done.
  - destruct l as [|k [|? ?]]; done.
  - by subst l.
Qed.

(** A serialised command is parsed back, and what follows it is left in the buffer. *)
Lemma TryParse_command c cmd rest :
  command_ok c -> zlen (SerializeCommand c ++ rest) < 2 ^ 63 ->
  TryParse cmd (MkReader (SerializeCommand c ++ rest)) = (Ret (Result_OK, c), MkReader rest).
Proof.
  intros Hc Hlen. pose proof (command_count c Hc) as Hn. set (n := 1 + zlen (args c)) in *.
  set (line := Byte.x2a :: to_string n). set (ts := command_name (type c) :: args c).
  assert (SerializeCommand c = line ++ CRLF ++ bulks ts) as Ec by apply SerializeCommand_bulks.
  assert (CR ∉ line) as Hcr.
  { apply not_elem_of_cons. split; [done|]. apply to_string_no_cr. lia. }
  unfold TryParse. rewrite bind_gets. cbn [buf_].
  assert (SerializeCommand c ++ rest = [] ++ line ++ CRLF ++ bulks ts ++ rest) as E.
  { rewrite Ec. list_eq. }
  pose proof (ReadLine_ok [] line (bulks ts ++ rest) Hcr) as Hline.
  rewrite <-E in Hline. change (zlen []) with 0 in Hline. rewrite Hline.
  rewrite decide_False by (intros Hx; by apply Hx).
  unfold substr_from. rewrite decide_False by (unfold line; zlen). cbn [res_bind].
  change (zdrop 1 line) with (to_string n). rewrite stoi_to_string_exact by (unfold INT_MAX; lia).
  rewrite bind_lift_Ret, decide_False by lia.
  assert (Z.to_nat n = length ts) as -> by (subst n ts; unfold zlen; simpl; lia).
  assert (Forall arg_fits ts) as Hts by (constructor; [apply command_name_fits|apply Hc]).
  assert (SerializeCommand c ++ rest = (line ++ CRLF) ++ bulks ts ++ rest) as E2 by (rewrite Ec; list_eq).
  pose proof (read_tokens_ok ts (line ++ CRLF) rest [] Hts) as Htok. rewrite <-E2 in Htok.
  replace (zlen (line ++ CRLF)) with (0 + zlen line + 2) in Htok by (unfold CRLF; zlen).
  rewrite Htok by done. rewrite bind_lift_Ret. cbn [app].
  change (at_ ts 0) with (Ret (command_name (type c))). rewrite bind_lift_Ret.
  assert (type c <> UNKNOWN) as Ht by (destruct Hc as (_ & _ & Hc); by intros E'; rewrite E' in Hc).
  rewrite command_type_name by done. subst ts. rewrite build_command_ok by done.
  rewrite bind_lift_Ret. set (ts := command_name (type c) :: args c) in *.
  unfold erase. rewrite bind_modify. unfold ret. cbn [buf_]. do 2 f_equal.
  rewrite E2, app_assoc. apply zdrop_app_exact. unfold CRLF. zlen.
Qed.

(** A proper prefix of a serialised command is left alone. *)
Lemma TryParse_torn c cmd n :
  command_ok c -> 0 <= n < zlen (SerializeCommand c) -> zlen (SerializeCommand c) < 2 ^ 63 ->
  TryParse cmd (MkReader (ztake n (SerializeCommand c))) =
    (Ret (Result_PARTIAL, cmd), MkReader (ztake n (SerializeCommand c))).
Proof.
  intros Hc Hn Hlen. pose proof (command_count c Hc) as Hcount. set (m := 1 + zlen (args c)) in *.
  set (line := Byte.x2a :: to_string m). set (ts := command_name (type c) :: args c).
  assert (SerializeCommand c = line ++ CRLF ++ bulks ts) as Ec by apply SerializeCommand_bulks.
  assert (CR ∉ line) as Hcr.
  { apply not_elem_of_cons. split; [done|]. apply to_string_no_cr. lia. }
  unfold TryParse. rewrite bind_gets. cbn [buf_]. rewrite Ec in *.
  destruct (decide (n < zlen line + 2)) as [Hshort|Hlong].
  - assert (ztake n (line ++ CRLF ++ bulks ts) = [] ++ ztake n (line ++ CRLF)) as E.
    { cbn [app]. rewrite app_assoc. unfold ztake, zlen, CRLF in *.
      rewrite take_app_le; [done|]. rewrite length_app. simpl in *. lia. }
    pose proof (ReadLine_torn [] line n Hcr ltac:(lia)) as Hline. rewrite <-E in Hline.
    change (zlen []) with 0 in Hline. by rewrite Hline.
  - set (k := n - zlen (line ++ CRLF)).
    assert (zlen (line ++ CRLF) = zlen line + 2) as Hl by (unfold CRLF; zlen).
    assert (ztake n (line ++ CRLF ++ bulks ts) = (line ++ CRLF) ++ ztake k (bulks ts)) as E.
    { rewrite app_assoc. subst k. unfold ztake, zlen in *. rewrite take_app_ge by lia. do 2 f_equal. lia. }
    pose proof (ReadLine_ok [] line (ztake k (bulks ts)) Hcr) as Hline.
    change (zlen []) with 0 in Hline.
    assert ([] ++ line ++ CRLF ++ ztake k (bulks ts) = ztake n (line ++ CRLF ++ bulks ts)) as E1
      by (rewrite E; list_eq).
    rewrite E1 in Hline. rewrite Hline.
    rewrite decide_False by (intros Hx; by apply Hx).
    unfold substr_from. rewrite decide_False by (unfold line; zlen). cbn [res_bind].
    change (zdrop 1 line) with (to_string m). rewrite stoi_to_string_exact by (unfold INT_MAX; lia).
    rewrite bind_lift_Ret, decide_False by lia.
    assert (Z.to_nat m = length ts) as -> by (subst m ts; unfold zlen; simpl; lia).
    assert (Forall arg_fits ts) as Hts by (constructor; [apply command_name_fits|apply Hc]).
    pose proof (read_tokens_torn ts (line ++ CRLF) k [] Hts) as Htok. rewrite <-E, Hl in Htok.
    replace (0 + zlen line + 2) with (zlen line + 2) by lia.
    rewrite Htok; [done| |].
    + subst k. unfold CRLF in *. zlen.
    + unfold CRLF in *. zlen.
Qed.

(** An empty buffer yields nothing. *)
Lemma TryParse_empty cmd : TryParse cmd (MkReader []) = (Ret (Result_PARTIAL, cmd), MkReader []).
Proof. done. Qed.
