(* ===== verification/KvServer.v ===== *)
(** * The server: class [KvServer] of [src/server/kv_server.cpp]

    The message handler registered with the TCP server, over any store that implements
    [KvBackend]. Its state is the table of readers, one per connection, in 16 shards,
    and the store. The handler holds its shard's lock from its first line to its last;
    here a call is run to completion. *)

From S2P Require Import Prelude CppString Protocol KvStore.

Section server.
Context {Store : Type} `{KvBackend Store}.

(** [std::hash<int>], which the library leaves to the implementation. *)
Context (hash : Z -> Z).

Record KvServer := MkServer {
  shards_ : list (gmap Z RespReader);
  store_ : Store
}.

Definition SHARD_COUNT : Z := 16.

Definition KvServer_new (store : Store) : KvServer :=
  MkServer (replicate (Z.to_nat SHARD_COUNT) ∅) store.

(** [std::hash<int>{}(fd) % SHARD_COUNT], the index [GetShard] takes. *)
Definition GetShard (fd : Z) : nat := Z.to_nat (u64 (hash fd) mod SHARD_COUNT).

(** [shard.readers[fd]], which creates the reader on first use. *)
Definition reader (fd : Z) (s : KvServer) : RespReader :=
  default RespReader_new (default ∅ (shards_ s !! GetShard fd) !! fd).

Definition set_reader (fd : Z) (r : RespReader) (s : KvServer) : KvServer :=
  MkServer (<[GetShard fd := <[fd := r]> (default ∅ (shards_ s !! GetShard fd))]> (shards_ s))
    (store_ s).

Definition on_reader {A} (fd : Z) (m : M RespReader A) : M KvServer A :=
  zoom (reader fd) (set_reader fd) m.
Definition on_store {A} (m : M Store A) : M KvServer A :=
  zoom store_ (fun st s => MkServer (shards_ s) st) m.

(** The [switch (cmd.type)]. *)
Definition respond (cmd : Command) : M KvServer Response :=
  match type cmd with
  | SET =>
      let! k := lift (at_ (args cmd) 0) in
      let! v := lift (at_ (args cmd) 1) in
      do! on_store (kv_set k v) in
      ret (MkResponse Status_OK [])
  | GET =>
      let! k := lift (at_ (args cmd) 0) in
      let! val := on_store (kv_get k) in
      ret (match val with
           | Some v => MkResponse Status_VALUE v
           | None => MkResponse Status_NOT_FOUND []
           end)
  | DEL =>
      let! k := lift (at_ (args cmd) 0) in
      let! deleted := on_store (kv_delete k) in
      ret (MkResponse Status_COUNT (if deleted then str "1" else str "0"))
  | EXISTS =>
      let! k := lift (at_ (args cmd) 0) in
      let! found := on_store (kv_exists k) in
      ret (if found then MkResponse Status_OK [] else MkResponse Status_NOT_FOUND [])
  | KEYS =>
      let! keys := on_store kv_all_keys in
      ret (MkResponse Status_COUNT (to_string (zlen keys)))
  | UNKNOWN => ret (MkResponse Status_ERR (str "unknown command"))
  end.

(** The body of the handler's loop: what it appends to [result], or [None] for [break]. *)
Definition handle_one (fd : Z) : M KvServer (option bytes) :=
  let! (res, cmd) := on_reader fd (TryParse Command_default) in
  match res with
  | Result_PARTIAL => ret None
  | Result_PROTOCOL_ERROR => ret (Some (str "-ERR protocol error" ++ CRLF))
  | Result_OK =>
      if decide (type cmd = UNKNOWN) then
        ret (Some (if decide (error cmd = Error_UNKNOWN_COMMAND)
                   then str "-ERR unknown command" ++ CRLF
                   else str "-ERR wrong number of arguments" ++ CRLF))
      else
        let! resp := respond cmd in
        ret (Some (SerializeResponse resp))
  end.

(** The loop [while (true)], for [fuel] iterations: [None] when it is still running. *)
Fixpoint handle_loop (fuel : nat) (fd : Z) (result : bytes) : M KvServer (option bytes) :=
  match fuel with
  | O => ret None
  | S fuel =>
      let! r := handle_one fd in
      match r with
      | None => ret (Some result)
      | Some t => handle_loop fuel fd (result ++ t)
      end
  end.

(** The callback: feed the reader, then parse and execute. *)
Definition on_message (fuel : nat) (fd : Z) (data : bytes) : M KvServer (option bytes) :=
  do! on_reader fd (Feed data) in
  handle_loop fuel fd [].

(** ** What a command means *)

Definition command_effect (m : gmap bytes bytes) (c : Command) : gmap bytes bytes :=
  match type c, args c with
  | SET, [k; v] => <[k := v]> m
  | DEL, [k] => delete k m
  | _, _ => m
  end.

Definition command_reply (m : gmap bytes bytes) (c : Command) : Response :=
  match type c, args c with
  | SET, _ => MkResponse Status_OK []
  | GET, [k] => match m !! k with
                | Some v => MkResponse Status_VALUE v
                | None => MkResponse Status_NOT_FOUND []
                end
  | DEL, [k] => MkResponse Status_COUNT (if decide (is_Some (m !! k)) then str "1" else str "0")
  | EXISTS, [k] => if decide (is_Some (m !! k)) then MkResponse Status_OK []
                   else MkResponse Status_NOT_FOUND []
  | KEYS, _ => MkResponse Status_COUNT (to_string (Z.of_nat (size m)))
  | _, _ => MkResponse Status_ERR (str "unknown command")
  end.

(** The replies to a list of commands, serialised. *)
Fixpoint replies (m : gmap bytes bytes) (cs : list Command) : bytes :=
  match cs with
  | [] => []
  | c :: cs => SerializeResponse (command_reply m c) ++ replies (command_effect m c) cs
  end.

Definition stream (cs : list Command) : bytes := cs ≫= SerializeCommand.

(** ** Readers of different connections *)

Definition well_formed (s : KvServer) : Prop := length (shards_ s) = 16%nat.

Lemma GetShard_bound fd : (GetShard fd < 16)%nat.
Proof.
  unfold GetShard, SHARD_COUNT. pose proof (Z.mod_pos_bound (u64 (hash fd)) 16 ltac:(lia)). lia.
Qed.

Lemma set_reader_well_formed fd r s : well_formed s -> well_formed (set_reader fd r s).
Proof. unfold well_formed. simpl. by rewrite length_insert. Qed.

Lemma reader_set_reader fd r s : well_formed s -> reader fd (set_reader fd r s) = r.
Proof.
  intros Hw. unfold reader, set_reader. simpl. pose proof (GetShard_bound fd).
  rewrite list_lookup_insert_eq by (unfold well_formed in Hw; lia). simpl.
  by rewrite lookup_insert_eq.
Qed.

Lemma reader_set_reader_ne fd fd' r s :
  well_formed s -> fd' <> fd -> reader fd' (set_reader fd r s) = reader fd' s.
Proof.
  intros Hw Hne. unfold reader, set_reader. simpl. pose proof (GetShard_bound fd).
  destruct (decide (GetShard fd' = GetShard fd)) as [E|E].
  - rewrite E, list_lookup_insert_eq by (unfold well_formed in Hw; lia). simpl.
    by rewrite lookup_insert_ne.
  - by rewrite list_lookup_insert_ne.
Qed.

Lemma reader_new fd st : reader fd (KvServer_new st) = RespReader_new.
Proof.
  unfold reader, KvServer_new. cbn [shards_]. rewrite lookup_replicate_2; [done|].
  apply GetShard_bound.
Qed.

Lemma set_reader_same fd s : well_formed s -> reader fd (set_reader fd (reader fd s) s) = reader fd s.
Proof. apply reader_set_reader. Qed.
End server.
