(* ===== verification/ServerTheorems.v ===== *)
(** * What the server guarantees

    Streaming: however a connection's bytes are cut into messages, its commands are
    executed in order against the store and answered in order. The lemmas are stated
    over any store that satisfies [KvLaws]; and what malformed input does. *)

From S2P Require Import Prelude Posix CppString Protocol WalRecord Wal KvStore.
From S2P Require Import SlidingWindow PersistentStore Durability StoreTheorems.
From S2P Require Import KvServer.

Section requests.
Context (admits : gmap bytes bytes -> bytes -> option bytes -> Prop).

Definition admitted (m : gmap bytes bytes) (c : Command) : Prop :=
  match type c, args c with
  | SET, [k; v] => admits m k (Some v)
  | DEL, [k] => admits m k None
  | _, _ => True
  end.

Fixpoint all_admitted (m : gmap bytes bytes) (cs : list Command) : Prop :=
  match cs with
  | [] => True
  | c :: cs => admitted m c /\ all_admitted (command_effect m c) cs
  end.

Lemma all_admitted_app m cs1 cs2 :
  all_admitted m (cs1 ++ cs2) -> all_admitted m cs1 /\ all_admitted (foldl command_effect m cs1) cs2.
Proof.
  revert m. induction cs1 as [|c cs1 IH]; intros m; simpl; [done|]. intros [Hc Hcs].
  destruct (IH _ Hcs). auto.
Qed.

End requests.

Section streaming.
Context {Store : Type} `{KvBackend Store}.
Context (ok : Store -> Prop) (admits : gmap bytes bytes -> bytes -> option bytes -> Prop).
Context (dead : Store -> bytes -> option bytes -> Store -> Prop).
Context {laws : KvMortalLaws Store ok admits dead}.
Context (hash : Z -> Z).

(** ** One command *)

(** What the command [c] leaves behind on the store [st] if the process dies in it. *)
Definition died (st : Store) (c : Command) (st' : Store) : Prop :=
  match type c, args c with
  | SET, [k; v] => dead st k (Some v) st'
  | DEL, [k] => dead st k None st'
  | _, _ => False
  end.

(** The process dies in one of the commands [cs], when those before it have had their
    effect on the contents [m]. *)
Definition died_in (m : gmap bytes bytes) (cs : list Command) (st' : Store) : Prop :=
  exists cs1 c cs2 st, cs = cs1 ++ c :: cs2 /\ ok st /\
    contents st = foldl command_effect m cs1 /\ died st c st'.

Lemma died_in_app m cs1 cs2 st' : died_in m cs1 st' -> died_in m (cs1 ++ cs2) st'.
Proof.
  intros (a & c & b & st & -> & Hd). exists a, c, (b ++ cs2), st. split; [by rewrite <-app_assoc|done].
Qed.

Lemma died_in_later m cs1 cs2 st' :
  died_in (foldl command_effect m cs1) cs2 st' -> died_in m (cs1 ++ cs2) st'.
Proof.
  intros (a & c & b & st & -> & Hok & Hc & Hd). exists (cs1 ++ a), c, b, st.
  rewrite foldl_app. by split; [rewrite <-app_assoc|].
Qed.

Lemma respond_any c s :
  command_ok c -> ok (store_ s) -> admitted admits (contents (store_ s)) c ->
  exists r st, respond c s = (r, MkServer (shards_ s) st) /\
    (r = Ret (command_reply (contents (store_ s)) c) /\
     ok st /\ contents st = command_effect (contents (store_ s)) c
     \/ r = Crashed /\ died (store_ s) c st).
Proof.
  intros (_ & _ & Hargs) Hok Hadm. destruct c as [t l e].
  unfold respond, command_reply, command_effect, admitted, died in *. simpl in *. destruct t; simpl in *; try done.
  - destruct l as [|k [|v [|? ?]]]; try done.
    change (at_ [k; v] 0) with (Ret k). change (at_ [k; v] 1) with (Ret v). rewrite !bind_lift_Ret.
    destruct (mortal_set_law _ k v Hok Hadm) as (r & st & Hrun & Hcase).
    unfold on_store, zoom, bind. rewrite Hrun.
    destruct Hcase as [(-> & ? & ?)|[-> ?]]; eexists _, st; (split; [reflexivity|]); [by left|by right].
  - destruct l as [|k [|? ?]]; try done. change (at_ [k] 0) with (Ret k). rewrite bind_lift_Ret.
    unfold on_store, zoom, bind. rewrite (mortal_get_law _ k Hok). eexists _, (store_ s).
    split; [reflexivity|]. left. by destruct (contents (store_ s) !! k).
  - destruct l as [|k [|? ?]]; try done. change (at_ [k] 0) with (Ret k). rewrite bind_lift_Ret.
    destruct (mortal_delete_law _ k Hok Hadm) as (r & st & Hrun & Hcase).
    unfold on_store, zoom, bind. rewrite Hrun.
    destruct Hcase as [(-> & ? & ?)|[-> ?]]; eexists _, st; (split; [reflexivity|]); [left|by right].
    split; [|done]. do 2 f_equal. case_bool_decide; by case_decide.
  - destruct l as [|k [|? ?]]; try done. change (at_ [k] 0) with (Ret k). rewrite bind_lift_Ret.
    unfold on_store, zoom, bind. rewrite (mortal_exists_law _ k Hok). eexists _, (store_ s).
    split; [reflexivity|]. left. split; [|done]. f_equal. case_bool_decide; by case_decide.
  - subst l. destruct (mortal_keys_law _ Hok) as (ks & st & Hrun & ? & ? & Hks).
    unfold on_store, zoom, bind. rewrite Hrun. eexists _, st. split; [reflexivity|]. left. split; [|done].
    do 3 f_equal. unfold zlen. rewrite Hks, length_fmap. by rewrite length_map_to_list.
Qed.

(** ** The loop *)

(** Bytes at which the parser waits for more. *)
Definition pending (p : bytes) : Prop :=
  forall cmd, TryParse cmd (MkReader p) = (Ret (Result_PARTIAL, cmd), MkReader p).

(** What one connection's activity leaves alone. *)
Definition others_kept (fd : Z) (s s' : KvServer (Store := Store)) : Prop :=
  forall fd', fd' <> fd -> reader hash fd' s' = reader hash fd' s.

#[export] Instance others_kept_preorder fd : PreOrder (others_kept fd).
Proof.
  split; [by intros s fd' _|]. intros s1 s2 s3 H1 H2 fd' Hne. by rewrite H2, H1.
Qed.

Lemma set_reader_others fd r s : well_formed s -> others_kept fd s (set_reader hash fd r s).
Proof. intros Hw fd' Hne. by apply reader_set_reader_ne. Qed.

Lemma handle_one_any c rest fd s :
  well_formed s -> command_ok c -> ok (store_ s) -> admitted admits (contents (store_ s)) c ->
  buf_ (reader hash fd s) = SerializeCommand c ++ rest -> zlen (SerializeCommand c ++ rest) < 2 ^ 63 ->
  exists r s', handle_one hash fd s = (r, s') /\
    (r = Ret (Some (SerializeResponse (command_reply (contents (store_ s)) c))) /\
     well_formed s' /\ ok (store_ s') /\ contents (store_ s') = command_effect (contents (store_ s)) c /\
     buf_ (reader hash fd s') = rest /\ others_kept fd s s'
     \/ r = Crashed /\ died (store_ s) c (store_ s')).
Proof.
  intros Hw Hc Hok Hadm Hbuf Hlen. unfold handle_one, on_reader, zoom. unfold bind at 1.
  destruct (reader hash fd s) as [b] eqn:Er. simpl in Hbuf. subst b.
  rewrite TryParse_command by done.
  assert (type c <> UNKNOWN) as Ht by (destruct Hc as (_ & _ & Hc); by intros E'; rewrite E' in Hc).
  rewrite decide_False by done.
  destruct (respond_any c (set_reader hash fd (MkReader rest) s) Hc Hok Hadm)
    as (r & st & Hrun & [(-> & Hok' & Hcont)|[-> Hd]]).
  - rewrite (bind_Ret _ _ _ _ _ Hrun). eexists _, _. split; [reflexivity|]. left. split; [done|].
    pose proof (set_reader_well_formed hash fd (MkReader rest) s Hw) as Hw'.
    split_and!; try done.
    + change (buf_ (reader hash fd (set_reader hash fd (MkReader rest) s)) = rest).
      by rewrite reader_set_reader.
    + intros fd' Hne. by rewrite <-(reader_set_reader_ne hash fd fd' (MkReader rest) s Hw Hne).
  - rewrite (bind_Crashed _ _ _ _ Hrun). eexists _, _. split; [reflexivity|]. by right.
Qed.

Lemma handle_one_pending p fd s :
  well_formed s -> pending p -> buf_ (reader hash fd s) = p ->
  exists s', handle_one hash fd s = (Ret None, s') /\ well_formed s' /\
    store_ s' = store_ s /\ buf_ (reader hash fd s') = p /\ others_kept fd s s'.
Proof.
  intros Hw Hp Hbuf. unfold handle_one, on_reader, zoom. unfold bind at 1.
  destruct (reader hash fd s) as [b] eqn:Er. simpl in Hbuf. subst b. rewrite Hp.
  eexists. split; [done|]. split; [by apply set_reader_well_formed|]. split; [done|].
  split; [by rewrite reader_set_reader|]. by apply set_reader_others.
Qed.

Lemma stream_cons c cs : stream (c :: cs) = SerializeCommand c ++ stream cs.
Proof. done. Qed.

Lemma handle_loop_any cs : forall p fd fuel result s,
  well_formed s -> Forall command_ok cs -> ok (store_ s) -> all_admitted admits (contents (store_ s)) cs ->
  pending p -> buf_ (reader hash fd s) = stream cs ++ p -> zlen (stream cs ++ p) < 2 ^ 63 ->
  (length cs < fuel)%nat ->
  exists r s', handle_loop hash fuel fd result s = (r, s') /\
    (r = Ret (Some (result ++ replies (contents (store_ s)) cs)) /\
     well_formed s' /\ ok (store_ s') /\
     contents (store_ s') = foldl command_effect (contents (store_ s)) cs /\
     buf_ (reader hash fd s') = p /\ others_kept fd s s'
     \/ r = Crashed /\ died_in (contents (store_ s)) cs (store_ s')).
Proof.
  induction cs as [|c cs IH]; intros p fd fuel result s Hw Hcs Hok Hadm Hp Hbuf Hlen Hfuel;
    (destruct fuel as [|fuel]; [simpl in *; lia|]); cbn [handle_loop].
  - destruct (handle_one_pending p fd s Hw Hp Hbuf) as (s' & Hrun & Hw' & Hst & Hb & Hk).
    rewrite (bind_Ret _ _ _ _ _ Hrun). eexists _, s'. split; [reflexivity|]. left. rewrite Hst.
    cbn [replies foldl]. by rewrite app_nil_r.
  - inversion Hcs; subst. destruct Hadm as [Hadm Hadms]. rewrite stream_cons, <-app_assoc in *.
    destruct (handle_one_any c (stream cs ++ p) fd s)
      as (r & s1 & Hrun & [(-> & Hw1 & Hok1 & Hc1 & Hb1 & Hk1)|[-> Hd]]); try done.
    2:{ rewrite (bind_Crashed _ _ _ _ Hrun). eexists _, s1. split; [reflexivity|]. right. split; [done|].
        by exists [], c, cs, (store_ s). }
    rewrite (bind_Ret _ _ _ _ _ Hrun). rewrite <-Hc1 in Hadms.
    destruct (IH p fd fuel (result ++ SerializeResponse (command_reply (contents (store_ s)) c)) s1)
      as (r & s2 & Hrun2 & Hcase); try done; [zlen|simpl in *; lia|].
    exists r, s2. split; [done|]. rewrite Hc1 in Hcase.
    destruct Hcase as [(-> & ? & ? & Hc2 & ? & Hk2)|[-> Hd]]; [left|right].
    + rewrite <-app_assoc. split; [done|]. split_and!; try done. by etrans.
    + split; [done|]. by apply (died_in_later _ [c]).
Qed.

(** ** Cutting the stream *)

Lemma pending_torn c n :
  command_ok c -> 0 <= n < zlen (SerializeCommand c) -> zlen (SerializeCommand c) < 2 ^ 63 ->
  pending (ztake n (SerializeCommand c)).
Proof. intros Hc Hn Hl cmd. by apply TryParse_torn. Qed.

(** Any beginning of a stream of commands is some of the commands and a beginning of
    the next one. *)
Lemma stream_cut cs : forall d rest,
  Forall command_ok cs -> zlen (stream cs) < 2 ^ 63 -> stream cs = d ++ rest ->
  exists cs1 cs2 p, cs = cs1 ++ cs2 /\ d = stream cs1 ++ p /\ pending p /\ stream cs2 = p ++ rest.
Proof.
  induction cs as [|c cs IH]; intros d rest Hcs Hlen Hd.
  { symmetry in Hd. apply app_eq_nil in Hd as [-> ->].
    exists [], [], []. split; [done|]. split; [done|]. split; [exact TryParse_empty|done]. }
  inversion Hcs; subst. rewrite stream_cons in *.
  destruct (decide (zlen d < zlen (SerializeCommand c))) as [Hlt|Hge].
  - exists [], (c :: cs), d. split; [done|]. split; [done|]. split; [|done].
    assert (d = ztake (zlen d) (SerializeCommand c)) as ->.
    { apply (f_equal (ztake (zlen d))) in Hd. rewrite (ztake_app_exact d) in Hd by done.
      rewrite <-Hd at 1. unfold ztake, zlen in *. by rewrite take_app_le by lia. }
    apply pending_torn; [done|zlen|zlen].
  - assert (exists d', d = SerializeCommand c ++ d') as [d' ->].
    { exists (zdrop (zlen (SerializeCommand c)) d).
      apply (f_equal (ztake (zlen (SerializeCommand c)))) in Hd as Ht.
      rewrite ztake_app_exact in Ht by done. rewrite Ht at 1.
      unfold ztake, zdrop, zlen in *. rewrite take_app_le by lia. by rewrite take_drop. }
    rewrite <-app_assoc in Hd. apply app_inv_head in Hd.
    destruct (IH d' rest) as (cs1 & cs2 & p & -> & -> & Hp & Hrest); [done|zlen|done|].
    exists (c :: cs1), cs2, p. split; [done|]. split; [|done]. rewrite stream_cons. by rewrite app_assoc.
Qed.

(** ** A connection *)

(** The messages one connection delivers, one handler call each, and all that is sent
    back. *)
Fixpoint deliver (fuel : nat) (fd : Z) (chunks : list bytes) : M KvServer (option bytes) :=
  match chunks with
  | [] => ret (Some [])
  | c :: chunks =>
      let! r := on_message hash fuel fd c in
      match r with
      | None => ret None
      | Some out =>
          let! rest := deliver fuel fd chunks in
          ret (option_map (app out) rest)
      end
  end.

Lemma replies_app m cs1 cs2 :
  replies m (cs1 ++ cs2) = replies m cs1 ++ replies (foldl command_effect m cs1) cs2.
Proof.
  revert m. induction cs1 as [|c cs1 IH]; intros m; simpl; [done|]. by rewrite IH, app_assoc.
Qed.

Lemma pending_stream cs : Forall command_ok cs -> zlen (stream cs) < 2 ^ 63 -> pending (stream cs) -> cs = [].
Proof.
  intros Hcs Hlen Hp. destruct cs as [|c cs]; [done|]. inversion Hcs; subst. specialize (Hp Command_default).
  rewrite stream_cons in *. rewrite TryParse_command in Hp by done. done.
Qed.

(** One message: the commands that its bytes complete are executed and answered. *)
Lemma on_message_any cs d rest fd fuel s :
  well_formed s -> Forall command_ok cs -> ok (store_ s) -> all_admitted admits (contents (store_ s)) cs ->
  stream cs = buf_ (reader hash fd s) ++ d ++ rest -> zlen (stream cs) < 2 ^ 63 ->
  (length cs < fuel)%nat ->
  exists cs1 cs2 r s', cs = cs1 ++ cs2 /\ on_message hash fuel fd d s = (r, s') /\
    (r = Ret (Some (replies (contents (store_ s)) cs1)) /\
     well_formed s' /\ ok (store_ s') /\
     contents (store_ s') = foldl command_effect (contents (store_ s)) cs1 /\
     buf_ (reader hash fd s) ++ d = stream cs1 ++ buf_ (reader hash fd s') /\
     pending (buf_ (reader hash fd s')) /\
     stream cs2 = buf_ (reader hash fd s') ++ rest /\ others_kept fd s s'
     \/ r = Crashed /\ died_in (contents (store_ s)) cs1 (store_ s')).
Proof.
  intros Hw Hcs Hok Hadm Hs Hlen Hfuel. rewrite app_assoc in Hs.
  destruct (stream_cut cs _ rest Hcs Hlen Hs) as (cs1 & cs2 & p & -> & Hd & Hp & Hrest).
  apply Forall_app in Hcs as [Hcs1 Hcs2]. apply all_admitted_app in Hadm as [Hadm1 Hadm2].
  assert (stream (cs1 ++ cs2) = stream cs1 ++ stream cs2) as Happ by apply bind_app.
  rewrite Happ in *. rewrite length_app in Hfuel.
  set (s0 := set_reader hash fd (MkReader (buf_ (reader hash fd s) ++ d)) s).
  assert (well_formed s0) as Hw0 by by apply set_reader_well_formed.
  assert (buf_ (reader hash fd s0) = stream cs1 ++ p) as Hbuf0.
  { unfold s0. rewrite reader_set_reader by done. cbn [buf_]. by rewrite <-Hd. }
  destruct (handle_loop_any cs1 p fd fuel [] s0) as (r & s1 & Hrun1 & Hcase);
    try done; [rewrite Hrest in Hlen; zlen|lia|].
  exists cs1, cs2, r, s1. split; [done|]. split.
  { unfold on_message, on_reader at 1, zoom, bind, Feed, modify. fold s0. by rewrite Hrun1. }
  destruct Hcase as [(-> & Hw1 & Hok1 & Hc1 & Hb1 & Hk1)|Hd1]; [left|by right]. rewrite Hb1.
  split_and!; try done.
  etrans; [by apply (set_reader_others fd (MkReader (buf_ (reader hash fd s) ++ d)))|done].
Qed.
End streaming.

Section immortal_store.
Context {Store : Type} `{KvBackend Store}.
Context (ok : Store -> Prop) (admits : gmap bytes bytes -> bytes -> option bytes -> Prop).
Context {laws : KvLaws Store ok admits}.
Context (hash : Z -> Z).

Lemma immortal_died_in m cs st : ~ died_in ok (fun _ _ _ _ => False) m cs st.
Proof.
  intros (cs1 & c & cs2 & st0 & _ & _ & _ & Hd). unfold died in Hd. by repeat case_match.
Qed.

Lemma on_message_ok cs d rest fd fuel s :
  well_formed s -> Forall command_ok cs -> ok (store_ s) -> all_admitted admits (contents (store_ s)) cs ->
  stream cs = buf_ (reader hash fd s) ++ d ++ rest -> zlen (stream cs) < 2 ^ 63 ->
  (length cs < fuel)%nat ->
  exists cs1 cs2 s', cs = cs1 ++ cs2 /\
    on_message hash fuel fd d s = (Ret (Some (replies (contents (store_ s)) cs1)), s') /\
    well_formed s' /\ ok (store_ s') /\
    contents (store_ s') = foldl command_effect (contents (store_ s)) cs1 /\
    buf_ (reader hash fd s) ++ d = stream cs1 ++ buf_ (reader hash fd s') /\
    pending (buf_ (reader hash fd s')) /\
    stream cs2 = buf_ (reader hash fd s') ++ rest /\ others_kept hash fd s s'.
Proof.
  intros Hw Hcs Hok Hadm Hs Hlen Hfuel. pose proof (immortal laws) as Hlaws.
  destruct (on_message_any ok admits _ hash cs d rest fd fuel s)
    as (cs1 & cs2 & r & s' & Hsplit & Hrun & [(-> & Hcase)|[_ Hd]]); try done.
  - exists cs1, cs2, s'. by split_and!; try apply Hcase.
  - by apply immortal_died_in in Hd.
Qed.

Lemma deliver_ok chunks : forall cs p fd fuel s,
  well_formed s -> Forall command_ok cs -> ok (store_ s) -> all_admitted admits (contents (store_ s)) cs ->
  pending p -> buf_ (reader hash fd s) = p -> stream cs = p ++ concat chunks ->
  zlen (stream cs) < 2 ^ 63 -> (length cs < fuel)%nat ->
  exists s', deliver hash fuel fd chunks s = (Ret (Some (replies (contents (store_ s)) cs)), s') /\
    well_formed s' /\ ok (store_ s') /\
    contents (store_ s') = foldl command_effect (contents (store_ s)) cs /\
    buf_ (reader hash fd s') = [] /\ others_kept hash fd s s'.
Proof.
  induction chunks as [|d chunks IH]; intros cs p fd fuel s Hw Hcs Hok Hadm Hp Hbuf Hs Hlen Hfuel.
  { simpl in Hs. rewrite app_nil_r in Hs. rewrite <-Hs in Hp.
    apply pending_stream in Hp as ->; [|done|done]. exists s. simpl in *. split_and!; try done. by subst p. }
  simpl in Hs. subst p.
  destruct (on_message_ok cs d (concat chunks) fd fuel s)
    as (cs1 & cs2 & s1 & -> & Hrun1 & Hw1 & Hok1 & Hc1 & _ & Hp1 & Hs1 & Hk1); try done.
  apply Forall_app in Hcs as [Hcs1 Hcs2]. apply all_admitted_app in Hadm as [Hadm1 Hadm2].
  assert (stream (cs1 ++ cs2) = stream cs1 ++ stream cs2) as Happ by apply bind_app.
  rewrite Happ in Hlen. rewrite length_app in Hfuel. rewrite <-Hc1 in Hadm2.
  destruct (IH cs2 (buf_ (reader hash fd s1)) fd fuel s1) as (s2 & Hrun2 & Hw2 & Hok2 & Hc2 & Hb2 & Hk2);
    try done; [zlen|lia|].
  exists s2. cbn [deliver]. unfold bind. rewrite Hrun1, Hrun2. unfold ret. cbn [option_map].
  rewrite replies_app, Hc2, Hc1, foldl_app. split; [done|]. split_and!; try done. by etrans.
Qed.
End immortal_store.

(** ** The parser *)

(** C23: A serialised command is parsed back exactly, leaving in the buffer exactly
    the bytes after it; any proper beginning of it makes the parser wait, with the
    buffer untouched. *)
Theorem command_roundtrip c cmd rest n :
  command_ok c -> zlen (SerializeCommand c ++ rest) < 2 ^ 63 -> 0 <= n < zlen (SerializeCommand c) ->
  TryParse cmd (MkReader (SerializeCommand c ++ rest)) = (Ret (Result_OK, c), MkReader rest) /\
  TryParse cmd (MkReader (ztake n (SerializeCommand c)))
    = (Ret (Result_PARTIAL, cmd), MkReader (ztake n (SerializeCommand c))).
Proof.
  intros Hc Hlen Hn. split; [by apply TryParse_command|]. apply TryParse_torn; [done|done|zlen].
Qed.

Definition set_example : Command := MkCommand SET [str "name"; str "alice"] Error_NONE.

Lemma command_roundtrip_witness :
  TryParse Command_default (MkReader (SerializeCommand set_example ++ str "*1"))
    = (Ret (Result_OK, set_example), MkReader (str "*1")) /\
  TryParse Command_default (MkReader (ztake 20 (SerializeCommand set_example)))
    = (Ret (Result_PARTIAL, Command_default), MkReader (ztake 20 (SerializeCommand set_example))).
Proof.
  apply command_roundtrip; [|reflexivity|split; [discriminate|reflexivity]].
  split; [reflexivity|]. split; [|reflexivity]. repeat constructor; discriminate.
Defined.

(** ** Serving *)

(** C5: However the bytes of a connection's commands, well formed and admitted by the store,
    are cut into messages, the handler
    executes the commands in order against the store and sends back exactly their
    replies in order; the connection's buffer ends empty and the other connections'
    readers are untouched. This holds over any store that satisfies the map interface. *)
Theorem server_streaming {Store} `{KvBackend Store} ok admits (laws : KvLaws Store ok admits)
    hash fd fuel cs chunks s :
  well_formed s -> ok (store_ s) -> buf_ (reader hash fd s) = [] ->
  Forall command_ok cs -> all_admitted admits (contents (store_ s)) cs ->
  concat chunks = stream cs -> zlen (stream cs) < 2 ^ 63 -> (length cs < fuel)%nat ->
  exists s', deliver hash fuel fd chunks s = (Ret (Some (replies (contents (store_ s)) cs)), s') /\
    ok (store_ s') /\ contents (store_ s') = foldl command_effect (contents (store_ s)) cs /\
    buf_ (reader hash fd s') = [] /\ others_kept hash fd s s'.
Proof.
  intros Hw Hok Hbuf Hcs Hadm Hchunks Hlen Hfuel.
  destruct (deliver_ok ok admits hash chunks cs [] fd fuel s) as (s' & Hrun & _ & ? & ? & ? & ?);
    try done.
  by exists s'.
Qed.

Definition commands_example : list Command :=
  [set_example; MkCommand GET [str "name"] Error_NONE; MkCommand KEYS [] Error_NONE].

Lemma commands_example_ok : Forall command_ok commands_example.
Proof. repeat constructor; discriminate. Qed.

Lemma concat_cut (l : bytes) n : concat [ztake n l; zdrop n l] = l.
Proof. simpl. by rewrite app_nil_r, ztake_zdrop. Qed.

Lemma server_streaming_witness :
  let s := KvServer_new (fresh_store (str "d")) in
  let bytes_ := stream commands_example in
  exists s', deliver id 4 7 [ztake 30 bytes_; zdrop 30 bytes_] s
      = (Ret (Some (replies (contents (store_ s)) commands_example)), s') /\
    store_ok (store_ s') /\
    contents (store_ s') = foldl command_effect (contents (store_ s)) commands_example /\
    buf_ (reader id 7 s') = [] /\ others_kept id 7 s s'.
Proof.
  destruct (fresh_store_ok (str "d")) as (Hok & Hd & _).
  apply (server_streaming store_ok store_admits PersistentKvStore_laws).
  - reflexivity.
  - exact Hok.
  - reflexivity.
  - exact commands_example_ok.
  - simpl. rewrite Hd. repeat split.
  - apply concat_cut.
  - reflexivity.
  - simpl. lia.
Defined.

(** The replies of the server are kept promises: after any stream of commands
    to a server on the persistent store, a process restarted on its files holds exactly
    the map those commands build. *)
Theorem acknowledged_survive hash fd fuel cs chunks s e :
  well_formed s -> store_ok (store_ s) -> buf_ (reader hash fd s) = [] ->
  Forall command_ok cs -> all_admitted store_admits (data (store_ s)) cs ->
  concat chunks = stream cs -> zlen (stream cs) < 2 ^ 63 -> (length cs < fuel)%nat -> env_ok e ->
  exists s' st, deliver hash fuel fd chunks s = (Ret (Some (replies (data (store_ s)) cs)), s') /\
    restart (store_ s') e = (Ret tt, st) /\ data st = foldl command_effect (data (store_ s)) cs.
Proof.
  intros Hw Hok Hbuf Hcs Hadm Hchunks Hlen Hfuel He.
  destruct (deliver_ok store_ok store_admits hash chunks cs [] fd fuel s)
    as (s' & Hrun & _ & [Hc _] & Hcont & _); try done.
  destruct (restart_consistent (store_ s') e Hc He) as (st & Hre & _ & Hd).
  exists s', st. split; [exact Hrun|]. split; [done|]. by rewrite Hd.
Qed.

Lemma acknowledged_survive_witness :
  let s := KvServer_new (fresh_store (str "d")) in
  exists s' st, deliver id 4 7 [stream commands_example] s
      = (Ret (Some (replies (data (store_ s)) commands_example)), s') /\
    restart (store_ s') plain_env = (Ret tt, st) /\
    data st = foldl command_effect (data (store_ s)) commands_example.
Proof.
  destruct (fresh_store_ok (str "d")) as (Hok & Hd & _).
  apply acknowledged_survive.
  - reflexivity.
  - exact Hok.
  - reflexivity.
  - exact commands_example_ok.
  - simpl. rewrite Hd. repeat split.
  - apply app_nil_r.
  - reflexivity.
  - simpl. lia.
  - apply plain_env_ok.
Defined.

(** ** Malformed input *)

Lemma on_message_throws {Store} `{KvBackend Store} hash fuel fd b e data (s : KvServer (Store := Store)) :
  well_formed s -> buf_ (reader hash fd s) = b ->
  (forall cmd, TryParse cmd (MkReader (b ++ data)) = (Throw e, MkReader (b ++ data))) ->
  exists s', on_message hash (S fuel) fd data s = (Throw e, s') /\ well_formed s' /\
    store_ s' = store_ s /\ buf_ (reader hash fd s') = b ++ data.
Proof.
  intros Hw Hb Htry. unfold on_message. unfold bind at 1. unfold on_reader at 1, zoom, Feed, modify.
  rewrite Hb. set (s0 := set_reader hash fd _ s).
  assert (well_formed s0) as Hw0 by by apply set_reader_well_formed.
  cbn [handle_loop]. unfold bind at 1, handle_one, on_reader, zoom. unfold bind at 1.
  assert (reader hash fd s0 = MkReader (b ++ data)) as -> by by apply reader_set_reader.
  rewrite Htry. eexists. split; [done|]. split; [by apply set_reader_well_formed|]. split; [done|].
  by rewrite reader_set_reader.
Qed.

(** A header line that is no number wedges its connection: the exception of
    [std::stoi] leaves the line in the buffer, so this message and every later message
    of the connection throws, whatever it contains, and nothing is answered. *)
Theorem bad_header_wedges {Store} `{KvBackend Store} hash fuel fd l e more data
    (s : KvServer (Store := Store)) :
  CR ∉ l -> stoi l = Throw e -> well_formed s ->
  buf_ (reader hash fd s) = str "*" ++ l ++ CRLF ++ more ->
  exists s', on_message hash (S fuel) fd data s = (Throw e, s') /\ well_formed s' /\
    store_ s' = store_ s /\ buf_ (reader hash fd s') = str "*" ++ l ++ CRLF ++ (more ++ data).
Proof.
  intros Hl Hstoi Hw Hb.
  destruct (on_message_throws hash fuel fd _ e data s Hw Hb) as (s' & Hrun & Hw' & Hst & Hb').
  - intros cmd. unfold TryParse. rewrite bind_gets. cbn [buf_].
    set (line := Byte.x2a :: l).
    assert ((str "*" ++ l ++ CRLF ++ more) ++ data = [] ++ line ++ CRLF ++ (more ++ data)) as E by list_eq.
    rewrite E. change 0 with (zlen (@nil byte)) at 1. rewrite ReadLine_ok.
    2: { by apply not_elem_of_cons. }
    rewrite decide_False by (intros Hx; by apply Hx).
    unfold substr_from. rewrite decide_False by (unfold line; zlen). cbn [res_bind].
    change (zdrop 1 line) with l. by rewrite Hstoi.
  - exists s'. split; [done|]. split; [done|]. split; [done|]. rewrite Hb'. list_eq.
Qed.

Definition wedged_server : KvServer :=
  set_reader id 7 (MkReader (str "*x" ++ CRLF)) (KvServer_new (fresh_store (str "d"))).

Lemma bad_header_wedges_witness :
  exists s', on_message id 5 7 (SerializeCommand set_example) wedged_server = (Throw InvalidArgument, s') /\
    well_formed s' /\ store_ s' = store_ wedged_server /\
    buf_ (reader id 7 s') = str "*" ++ str "x" ++ CRLF ++ ([] ++ SerializeCommand set_example).
Proof.
  apply bad_header_wedges.
  - apply (bool_decide_unpack _). reflexivity.
  - reflexivity.
  - reflexivity.
  - reflexivity.
Defined.

(** The message [*1\r\n$-12\r\nKEYS]. *)
Definition loop_message : bytes := str "*1" ++ CRLF ++ str "$-12" ++ CRLF ++ str "KEYS".

Lemma loop_message_parse cmd :
  TryParse cmd (MkReader loop_message) =
    (Ret (Result_OK, MkCommand KEYS [] Error_NONE), MkReader loop_message).
Proof. reflexivity. Qed.

(** C38: A negative bulk length can move the parser's position back to the start, so
    that nothing is erased: on this message the handler never returns, over any store. *)
Theorem negative_length_diverges {Store} `{KvBackend Store} ok admits (laws : KvLaws Store ok admits)
    hash fd fuel s :
  well_formed s -> ok (store_ s) -> buf_ (reader hash fd s) = [] ->
  exists s', on_message hash fuel fd loop_message s = (Ret None, s').
Proof.
  intros Hw Hok Hb. unfold on_message. unfold bind at 1. unfold on_reader at 1, zoom, Feed, modify.
  rewrite Hb. cbn [app]. set (s0 := set_reader hash fd _ s).
  assert (well_formed s0) as Hw0 by by apply set_reader_well_formed.
  assert (reader hash fd s0 = MkReader loop_message) as Hr by by apply reader_set_reader.
  assert (ok (store_ s0)) as Hok0 by done. clearbody s0. clear -Hw0 Hr Hok0 laws.
  generalize (@nil byte) as result. revert s0 Hw0 Hr Hok0.
  induction fuel as [|fuel IH]; intros s0 Hw0 Hr Hok0 result; cbn [handle_loop]; [by eexists|].
  unfold bind at 1, handle_one, on_reader, zoom. unfold bind at 1. rewrite Hr, loop_message_parse.
  rewrite decide_False by done. unfold respond, on_store, zoom, bind. cbn [type].
  set (s1 := set_reader hash fd _ s0).
  destruct (kv_keys_law (store_ s1) Hok0) as (ks & st & -> & Hst & _). cbn [ret].
  unfold ret. apply IH; [by apply (set_reader_well_formed hash fd (MkReader loop_message))| |done].
  by apply (reader_set_reader hash fd (MkReader loop_message)).
Qed.

Lemma negative_length_diverges_witness :
  exists s', on_message id 1000 7 loop_message (KvServer_new (fresh_store (str "d"))) = (Ret None, s').
Proof.
  apply (negative_length_diverges store_ok store_admits PersistentKvStore_laws);
    [reflexivity|apply fresh_store_ok|reflexivity].
Defined.

(** A GET without its key, and any unknown command, are undefined
    behaviour in the server: the parser reads past the tokens in the first case; in the
    second it reports the command as a SET without arguments ([CommandType] 0 is SET,
    not UNKNOWN), whose arguments the handler then reads. *)
Theorem short_commands_undefined {Store} `{KvBackend Store} hash fd fuel (s : KvServer (Store := Store)) :
  well_formed s -> buf_ (reader hash fd s) = [] ->
  (on_message hash (S fuel) fd (str "*1" ++ CRLF ++ bulk (str "GET")) s).1 = Undefined /\
  (on_message hash (S fuel) fd (str "*1" ++ CRLF ++ bulk (str "PING")) s).1 = Undefined.
Proof.
  intros Hw Hb. unfold on_message. unfold bind at 1 2. unfold on_reader at 1 2, zoom, Feed, modify.
  rewrite Hb. cbn [app handle_loop]. unfold bind, handle_one, on_reader, zoom, bind.
  by rewrite !reader_set_reader by done.
Qed.

Lemma short_commands_undefined_witness :
  let s := KvServer_new (fresh_store (str "d")) in
  (on_message id 5 7 (str "*1" ++ CRLF ++ bulk (str "GET")) s).1 = Undefined /\
  (on_message id 5 7 (str "*1" ++ CRLF ++ bulk (str "PING")) s).1 = Undefined.
Proof. apply short_commands_undefined; reflexivity. Defined.
