(* ===== verification/Client.v ===== *)
(** * The client: class [KvClient] of [src/client/client.cpp]

    Sending a command, collecting its reply from the socket, and the typed methods. The
    other end of the socket is a parameter: what a [send] makes arrive there, as a list
    of the byte strings that successive [recv] calls return. *)

From S2P Require Import Prelude CppString Protocol.

(** ** Framing a reply *)

(** The test at the head of [SendCommand]'s loop: is [buf] a complete reply? *)
Definition reply_complete (buf : bytes) : res bool :=
  match buf with
  | [] => Ret false
  | type :: _ =>
      let crlf := find_crlf buf 0 in
      match crlf with
      | None => Ret false
      | Some crlf =>
          if decide (type = Byte.x2b \/ type = Byte.x2d \/ type = Byte.x3a) then Ret true
          else if decide (type = Byte.x24) then
            let? num := substr buf 1 (crlf - 1) in
            let? len := stoi num in
            if decide (len = -1) then Ret true
            else
              let total := u64 (crlf + 2 + u64 len + 2) in
              Ret (bool_decide (total <= zlen buf))
          else Ret false
      end
  end.

(** The loop: [inbox] is what [recv] will return; an empty one is a closed connection. *)
Fixpoint recv_loop (inbox : list bytes) (buf : bytes) : res (bytes * list bytes) :=
  let? complete := reply_complete buf in
  if complete then Ret (buf, inbox) else
  match inbox with
  | [] => Ret ([], [])
  | chunk :: inbox => recv_loop inbox (buf ++ chunk)
  end.

(** [s[i]] of a [std::string], which ends with a null character. *)
Definition char_at (s : bytes) (i : Z) : res byte :=
  if decide (i = zlen s) then Ret Byte.x00 else at_ s i.

Section client.
Context {Peer : Type} (peer_send : bytes -> Peer -> list bytes * Peer).

Record KvClient := MkClient {
  sock_fd_ : Z;
  inbox : list bytes;
  peer : Peer
}.

(** [::send] *)
Definition send (cmd : bytes) : M KvClient unit := fun c =>
  let (arrived, p) := peer_send cmd (peer c) in
  (Ret tt, MkClient (sock_fd_ c) (inbox c ++ arrived) p).

Definition SendCommand (cmd : bytes) : M KvClient bytes :=
  let! fd := gets sock_fd_ in
  if decide (fd < 0) then ret [] else
  do! send cmd in
  fun c =>
    match recv_loop (inbox c) [] with
    | Ret (buf, rest) => (Ret buf, MkClient (sock_fd_ c) rest (peer c))
    | Throw e => (Throw e, c)
    | Undefined => (Undefined, c)
    | Crashed => (Crashed, c)
    end.

Definition Set_ (key value : bytes) : M KvClient bool :=
  let cmd := MkCommand SET [key; value] Error_NONE in
  let! resp := SendCommand (SerializeCommand cmd) in
  if decide (4 <= zlen resp) then
    let! c := lift (char_at resp 0) in ret (bool_decide (c = Byte.x2b))
  else ret false.

Definition Get (key : bytes) : M KvClient (option bytes) :=
  let cmd := MkCommand GET [key] Error_NONE in
  let! resp := SendCommand (SerializeCommand cmd) in
  if decide (head resp <> Some Byte.x24) then ret None else
  match find_crlf resp 0 with
  | None => ret None
  | Some crlf =>
      let! len := lift (let? num := substr resp 1 (crlf - 1) in stoi num) in
      if decide (len = -1) then ret None
      else
        let! v := lift (substr resp (crlf + 2) (u64 len)) in
        ret (Some v)
  end.

Definition Delete (key : bytes) : M KvClient bool :=
  let cmd := MkCommand DEL [key] Error_NONE in
  let! resp := SendCommand (SerializeCommand cmd) in
  if decide (head resp <> Some Byte.x3a) then ret false else
  let! c := lift (char_at resp 1) in
  ret (bool_decide (c <> Byte.x30)).

Definition Exists_ (key : bytes) : M KvClient bool :=
  let cmd := MkCommand EXISTS [key] Error_NONE in
  let! resp := SendCommand (SerializeCommand cmd) in
  if decide (4 <= zlen resp) then
    let! c := lift (char_at resp 0) in ret (bool_decide (c = Byte.x2b))
  else ret false.

Definition Keys : M KvClient Z :=
  let cmd := MkCommand KEYS [] Error_NONE in
  let! resp := SendCommand (SerializeCommand cmd) in
  if decide (head resp <> Some Byte.x3a) then ret 0 else
  let! n := lift (let? num := substr_from resp 1 in stoi num) in
  ret (u64 n).
End client.

(** ** Replies are framed correctly *)

(** Messages of the replies a server gives: a value of a length [std::stoi] can hold,
    or text on one line. *)
Definition reply_fits (r : Response) : Prop :=
  match status r with
  | Status_VALUE => arg_fits (message r)
  | Status_ERR | Status_COUNT => CR ∉ message r
  | _ => True
  end.

(** The first line of a reply. *)
Definition reply_line (r : Response) : bytes :=
  match status r with
  | Status_OK => str "+OK"
  | Status_VALUE => str "$" ++ to_string (zlen (message r))
  | Status_NOT_FOUND => str "$-1"
  | Status_ERR => str "-ERR " ++ message r
  | Status_COUNT => str ":" ++ message r
  end.

Definition reply_body (r : Response) : bytes :=
  match status r with Status_VALUE => message r ++ CRLF | _ => [] end.

Lemma SerializeResponse_split r : SerializeResponse r = reply_line r ++ CRLF ++ reply_body r.
Proof. unfold SerializeResponse, reply_line, reply_body. destruct (status r); list_eq. Qed.

Lemma not_cr_app (l k : bytes) : CR ∉ l -> CR ∉ k -> CR ∉ l ++ k.
Proof. intros Hl Hk H. by apply elem_of_app in H as [?|?]. Qed.

Lemma reply_line_no_cr r : reply_fits r -> CR ∉ reply_line r.
Proof.
  unfold reply_fits, reply_line. destruct (status r); intros Hr.
  - by apply (bool_decide_unpack _).
  - apply not_cr_app; [by apply (bool_decide_unpack _)|]. apply to_string_no_cr, zlen_nonneg.
  - by apply (bool_decide_unpack _).
  - apply not_cr_app; [by apply (bool_decide_unpack _)|done].
  - apply not_cr_app; [by apply (bool_decide_unpack _)|done].
Qed.

Lemma find_crlf_line line rest :
  CR ∉ line -> find_crlf (line ++ CRLF ++ rest) 0 = Some (zlen line).
Proof.
  intros Hl. unfold find_crlf. rewrite decide_False by zlen. rewrite zdrop_0.
  change (line ++ CRLF ++ rest) with (line ++ CR :: LF :: rest). by rewrite find_crlf_from_app.
Qed.

Lemma find_crlf_torn line n :
  CR ∉ line -> 0 <= n < zlen line + 2 -> find_crlf (ztake n (line ++ CRLF)) 0 = None.
Proof.
  intros Hl Hn. pose proof (ReadLine_torn [] line n Hl Hn) as H. unfold ReadLine in H.
  change (zlen []) with 0 in H. cbn [app] in H. by destruct (find_crlf _ 0).
Qed.

(** The test on a reply of which [n] body bytes have arrived. *)
Lemma reply_complete_body r n :
  reply_fits r -> 0 <= n <= zlen (reply_body r) -> zlen (message r) < 2 ^ 62 ->
  reply_complete (reply_line r ++ CRLF ++ ztake n (reply_body r))
    = Ret (bool_decide (n = zlen (reply_body r))).
Proof.
  intros Hr Hn Hm. pose proof (find_crlf_line (reply_line r) (ztake n (reply_body r)) (reply_line_no_cr r Hr)) as Hf.
  unfold reply_complete. unfold reply_line, reply_body, reply_fits in *. destruct r as [st m]. simpl in Hr, Hm.
  destruct st; cbn [status message] in *;
    try (assert (n = 0) as -> by (unfold zlen in *; simpl in *; lia)); [done| |done|..].
  - set (num := to_string (zlen m)) in *. pose proof (zlen_nonneg m). unfold arg_fits, INT_MAX in Hr.
    change (str "$") with [Byte.x24] in *. cbn [app] in *. rewrite Hf.
    rewrite decide_False by (by intros [?|[?|?]]). rewrite decide_True by done.
    unfold substr. rewrite decide_False by zlen. cbn [res_bind].
    replace (zlen (Byte.x24 :: num) - 1) with (zlen num) by zlen.
    change (zdrop 1 (Byte.x24 :: num ++ CRLF ++ ztake n (m ++ CRLF))) with (num ++ CRLF ++ ztake n (m ++ CRLF)).
    rewrite ztake_app_exact by done. unfold num at 1. rewrite stoi_to_string_exact by (unfold INT_MAX; lia).
    cbn [res_bind]. rewrite decide_False by lia. f_equal. apply bool_decide_ext.
    unfold u64. rewrite (Z.mod_small (zlen m)) by lia.
    assert (zlen num < 2 ^ 62) as Hnum.
    { pose proof (to_string_length (zlen m) ltac:(lia)). pose proof (Z.log2_le_lin (zlen m) ltac:(lia)). subst num. lia. }
    unfold CRLF in *. rewrite Z.mod_small by zlen. zlen.
  - change (str "-ERR ") with (Byte.x2d :: str "ERR ") in *. cbn [app] in *. by rewrite Hf.
  - change (str ":") with [Byte.x3a] in *. cbn [app] in *. by rewrite Hf.
Qed.

Lemma reply_complete_torn r n :
  reply_fits r -> 0 <= n < zlen (SerializeResponse r) -> zlen (message r) < 2 ^ 62 ->
  reply_complete (ztake n (SerializeResponse r)) = Ret false.
Proof.
  intros Hr Hn Hm. rewrite SerializeResponse_split in *. pose proof (reply_line_no_cr r Hr) as Hcr.
  destruct (decide (n < zlen (reply_line r) + 2)) as [Hlt|Hge].
  - assert (ztake n (reply_line r ++ CRLF ++ reply_body r) = ztake n (reply_line r ++ CRLF)) as ->.
    { rewrite app_assoc. unfold ztake, zlen, CRLF in *. rewrite take_app_le; [done|].
      rewrite length_app. simpl in *. lia. }
    pose proof (find_crlf_torn _ n Hcr ltac:(lia)) as Hf.
    unfold reply_complete. rewrite Hf. by destruct (ztake n _).
  - set (k := n - (zlen (reply_line r) + 2)).
    assert (ztake n (reply_line r ++ CRLF ++ reply_body r)
            = reply_line r ++ CRLF ++ ztake k (reply_body r)) as ->.
    { rewrite !app_assoc. subst k. unfold ztake, zlen, CRLF in *.
      rewrite take_app_ge by (rewrite length_app; simpl in *; lia). do 2 f_equal.
      rewrite length_app. simpl. lia. }
    assert (0 <= k < zlen (reply_body r)) as Hk by (subst k; unfold CRLF in *; zlen).
    rewrite reply_complete_body by (done || lia). by rewrite bool_decide_false by lia.
Qed.

Lemma reply_complete_full r :
  reply_fits r -> zlen (message r) < 2 ^ 62 -> reply_complete (SerializeResponse r) = Ret true.
Proof.
  intros Hr Hm. pose proof (zlen_nonneg (reply_body r)).
  pose proof (reply_complete_body r (zlen (reply_body r)) Hr ltac:(lia) Hm) as Hc.
  rewrite ztake_ge in Hc by lia. rewrite SerializeResponse_split, Hc. by rewrite bool_decide_true.
Qed.

(** However a reply is cut into [recv] results, the loop returns it and takes nothing of
    what follows. *)
Lemma recv_loop_ok r later : forall chunks buf,
  reply_fits r -> zlen (message r) < 2 ^ 62 -> Forall (fun c => c <> []) chunks ->
  SerializeResponse r = buf ++ concat chunks ->
  recv_loop (chunks ++ later) buf = Ret (SerializeResponse r, later).
Proof.
  induction chunks as [|c chunks IH]; intros buf Hr Hm Hne Hs.
  - simpl in Hs. rewrite app_nil_r in Hs. subst buf. cbn [app].
    destruct later; cbn [recv_loop]; by rewrite reply_complete_full.
  - inversion Hne; subst. cbn [app recv_loop]. simpl in Hs.
    assert (buf = ztake (zlen buf) (SerializeResponse r)) as Hb.
    { rewrite Hs. by rewrite ztake_app_exact. }
    assert (0 < zlen c) by (destruct c; [done|zlen]).
    rewrite Hb at 1. rewrite reply_complete_torn; [|done|rewrite Hs; zlen|done].
    cbn [res_bind]. apply IH; [done|done|done|]. by rewrite <-app_assoc.
Qed.

(** ** The typed methods *)

Section methods.
Context {Peer : Type} (peer_send : bytes -> Peer -> list bytes * Peer).

(** A connected client whose socket is drained, and a peer that answers [cmd] with [r]. *)
Definition answers (cmd : Command) (r : Response) (p p' : Peer) : Prop :=
  exists chunks, peer_send (SerializeCommand cmd) p = (chunks, p') /\
    Forall (fun c => c <> []) chunks /\ concat chunks = SerializeResponse r.

Lemma SendCommand_ok fd cmd r p p' :
  0 <= fd -> answers cmd r p p' -> reply_fits r -> zlen (message r) < 2 ^ 62 ->
  SendCommand peer_send (SerializeCommand cmd) (MkClient fd [] p)
    = (Ret (SerializeResponse r), MkClient fd [] p').
Proof.
  intros Hfd (chunks & Hsend & Hne & Hs) Hr Hm. unfold SendCommand. rewrite bind_gets. cbn [sock_fd_].
  rewrite decide_False by lia. unfold send at 1. unfold bind at 1. cbn [peer inbox app].
  rewrite Hsend. cbn [inbox]. rewrite <-(app_nil_r chunks).
  by rewrite (recv_loop_ok r [] chunks []).
Qed.

Lemma Set_reply fd k v p p' :
  0 <= fd -> answers (MkCommand SET [k; v] Error_NONE) (MkResponse Status_OK []) p p' ->
  Set_ peer_send k v (MkClient fd [] p) = (Ret true, MkClient fd [] p').
Proof.
  intros Hfd Ha. unfold Set_. by rewrite (bind_Ret _ _ _ _ _ (SendCommand_ok fd _ _ p p' Hfd Ha I eq_refl)).
Qed.

Lemma Exists_reply fd k (b : bool) p p' :
  0 <= fd ->
  answers (MkCommand EXISTS [k] Error_NONE)
    (if b then MkResponse Status_OK [] else MkResponse Status_NOT_FOUND []) p p' ->
  Exists_ peer_send k (MkClient fd [] p) = (Ret b, MkClient fd [] p').
Proof.
  intros Hfd Ha. unfold Exists_.
  destruct b; by rewrite (bind_Ret _ _ _ _ _ (SendCommand_ok fd _ _ p p' Hfd Ha I eq_refl)).
Qed.

Lemma Delete_reply fd k (b : bool) p p' :
  0 <= fd ->
  answers (MkCommand DEL [k] Error_NONE)
    (MkResponse Status_COUNT (if b then str "1" else str "0")) p p' ->
  Delete peer_send k (MkClient fd [] p) = (Ret b, MkClient fd [] p').
Proof.
  intros Hfd Ha. unfold Delete.
  rewrite (bind_Ret _ _ _ _ _ (SendCommand_ok fd _ _ p p' Hfd Ha
    ltac:(destruct b; by apply (bool_decide_unpack _)) ltac:(by destruct b))).
  by destruct b.
Qed.

Lemma Get_reply fd k (v : option bytes) p p' :
  0 <= fd -> (forall w, v = Some w -> arg_fits w) ->
  answers (MkCommand GET [k] Error_NONE)
    (match v with Some w => MkResponse Status_VALUE w | None => MkResponse Status_NOT_FOUND [] end) p p' ->
  Get peer_send k (MkClient fd [] p) = (Ret v, MkClient fd [] p').
Proof.
  intros Hfd Hv Ha. unfold Get. destruct v as [w|]; cycle 1.
  { by rewrite (bind_Ret _ _ _ _ _ (SendCommand_ok fd _ _ p p' Hfd Ha I eq_refl)). }
  specialize (Hv w eq_refl). pose proof Hv as Hw. unfold arg_fits, INT_MAX in Hw. pose proof (zlen_nonneg w).
  rewrite (bind_Ret _ _ _ _ _ (SendCommand_ok fd _ _ p p' Hfd Ha (Hv : reply_fits (MkResponse Status_VALUE w))
    ltac:(simpl; lia))).
  set (num := to_string (zlen w)).
  assert (SerializeResponse (MkResponse Status_VALUE w) = (Byte.x24 :: num) ++ CRLF ++ w ++ CRLF) as -> by done.
  rewrite decide_False by (intros Hx; by apply Hx).
  assert (CR ∉ Byte.x24 :: num) as Hcr.
  { apply not_elem_of_cons. split; [done|]. apply to_string_no_cr. lia. }
  rewrite find_crlf_line by done. unfold substr. rewrite decide_False by zlen. cbn [res_bind].
  replace (zlen (Byte.x24 :: num) - 1) with (zlen num) by zlen.
  change (zdrop 1 ((Byte.x24 :: num) ++ CRLF ++ w ++ CRLF)) with (num ++ CRLF ++ w ++ CRLF).
  rewrite ztake_app_exact by done. unfold num at 1. rewrite stoi_to_string_exact by (unfold INT_MAX; lia).
  rewrite bind_lift_Ret, decide_False by lia. unfold u64. rewrite Z.mod_small by lia.
  rewrite decide_False by (unfold CRLF; zlen).
  rewrite (app_assoc (Byte.x24 :: num)), zdrop_app_exact, ztake_app_exact; [done|done|].
  unfold CRLF. zlen.
Qed.

Lemma Keys_reply fd n p p' :
  0 <= fd -> 0 <= n <= INT_MAX ->
  answers (MkCommand KEYS [] Error_NONE) (MkResponse Status_COUNT (to_string n)) p p' ->
  Keys peer_send (MkClient fd [] p) = (Ret n, MkClient fd [] p').
Proof.
  intros Hfd Hn Ha. unfold Keys, INT_MAX in *.
  rewrite (bind_Ret _ _ _ _ _ (SendCommand_ok fd _ _ p p' Hfd Ha
    (to_string_no_cr n ltac:(lia) : reply_fits (MkResponse Status_COUNT (to_string n)))
    ltac:(pose proof (to_string_length n ltac:(lia)); pose proof (Z.log2_le_lin n ltac:(lia)); simpl; lia))).
  assert (SerializeResponse (MkResponse Status_COUNT (to_string n)) = Byte.x3a :: to_string n ++ CRLF) as -> by done.
  rewrite decide_False by (intros Hx; by apply Hx).
  unfold substr_from. rewrite decide_False by zlen. cbn [res_bind].
  change (zdrop 1 (Byte.x3a :: to_string n ++ CRLF)) with (to_string n ++ CRLF).
  rewrite stoi_to_string; [|unfold INT_MAX; lia|by intros c t [= <- _]].
  rewrite bind_lift_Ret. unfold u64. by rewrite Z.mod_small by lia.
Qed.
End methods.
