(* ===== verification/Robustness.v ===== *)
(** * Arbitrary input

    What the message handler guarantees for bytes that need not be commands, whatever
    the outcome of the call: the shape of its state, the other connections, what is left
    in the reader, and how the store can have changed. *)

From S2P Require Import Prelude Posix CppString Protocol WalRecord Wal KvStore.
From S2P Require Import SlidingWindow PersistentStore Durability StoreTheorems.
From S2P Require Import KvServer ServerTheorems.

(** ** Code that moves the state along a relation, whatever its outcome *)

Definition moves {S A} (R : S -> S -> Prop) (m : M S A) : Prop := forall s, R s (m s).2.

Section moves.
Context {S : Type} (R : S -> S -> Prop) {HR : PreOrder R}.

Lemma moves_same {A} (r : S -> res A) : moves R (fun s => (r s, s)).
Proof. intros s. simpl. reflexivity. Qed.

Lemma moves_ret {A} (a : A) : moves R (ret a).
Proof. apply moves_same. Qed.

Lemma moves_gets {A} (f : S -> A) : moves R (gets f).
Proof. apply (moves_same (fun s => Ret (f s))). Qed.

Lemma moves_lift {A} (r : res A) : moves R (lift r).
Proof. apply (moves_same (fun _ => r)). Qed.

Lemma moves_modify (f : S -> S) : (forall s, R s (f s)) -> moves R (modify f).
Proof. intros H s. apply H. Qed.

Lemma moves_bind {A B} (m : M S A) (f : A -> M S B) :
  moves R m -> (forall a, moves R (f a)) -> moves R (bind m f).
Proof.
  intros Hm Hf s. unfold bind. pose proof (Hm s) as H. destruct (m s) as [[a|e| |] s1]; simpl in *; try done.
  etrans; [exact H|apply Hf].
Qed.
End moves.

Create HintDb moves.

(** Follows the code. *)
Ltac moving :=
  repeat lazymatch goal with
  | |- moves _ (bind _ _) => first [apply moves_bind; [typeclasses eauto| |intros]|apply moves_bind; [|intros]]
  | |- moves _ (match ?x with _ => _ end) => destruct x
  | |- moves _ (ret _) => apply moves_ret; try typeclasses eauto
  | |- moves _ (gets _) => apply moves_gets; try typeclasses eauto
  | |- moves _ (lift _) => apply moves_lift; try typeclasses eauto
  end; eauto with moves.

(** ** The reader *)

(** What is left is the end of what there was. *)
Definition shrinks (r r' : RespReader) : Prop := buf_ r' `suffix_of` buf_ r.

#[export] Instance shrinks_preorder : PreOrder shrinks.
Proof. split; [intros r; unfold shrinks; reflexivity|]. intros r1 r2 r3 H1 H2. unfold shrinks in *. by etrans. Qed.

Lemma moves_erase pos : moves shrinks (erase pos).
Proof. apply moves_modify. intros r. exists (ztake pos (buf_ r)). simpl. by rewrite ztake_zdrop. Qed.

#[export] Hint Resolve moves_erase : moves.

Lemma moves_TryParse cmd : moves shrinks (TryParse cmd).
Proof. unfold TryParse. moving. Qed.

(** ** The handler *)

Section handler.
Context {Store : Type} `{KvBackend Store}.
Context (hash : Z -> Z) (fd : Z).

(** One call of an operation of the store. *)
Inductive kv_step (st : Store) : Store -> Prop :=
  | step_set k v : kv_step st (kv_set k v st).2
  | step_get k : kv_step st (kv_get k st).2
  | step_delete k : kv_step st (kv_delete k st).2
  | step_exists k : kv_step st (kv_exists k st).2
  | step_keys : kv_step st (kv_all_keys st).2.

(** What a message of the connection [fd] may do to the server. *)
Definition handled_by (s s' : KvServer (Store := Store)) : Prop :=
  well_formed s ->
  well_formed s' /\ others_kept hash fd s s' /\ rtc kv_step (store_ s) (store_ s') /\
  shrinks (reader hash fd s) (reader hash fd s').

#[export] Instance handled_by_preorder : PreOrder handled_by.
Proof.
  split; [intros s Hw; split_and!; done|].
  intros s1 s2 s3 H12 H23 Hw. destruct (H12 Hw) as (Hw2 & Ho2 & Hk2 & Hb2).
  destruct (H23 Hw2) as (Hw3 & Ho3 & Hk3 & Hb3). split_and!; [done|by etrans..].
Qed.

Lemma moves_on_reader {A} (m : M RespReader A) : moves shrinks m -> moves handled_by (on_reader hash fd m).
Proof.
  intros Hm s Hw. pose proof (Hm (reader hash fd s)) as Hr. unfold on_reader, zoom.
  destruct (m (reader hash fd s)) as [r b]. simpl in *. split_and!.
  - by apply set_reader_well_formed.
  - by apply set_reader_others.
  - reflexivity.
  - by rewrite reader_set_reader.
Qed.

Lemma moves_on_store {A} (m : M Store A) :
  (forall st, kv_step st (m st).2) -> moves handled_by (on_store m).
Proof.
  intros Hm s Hw. pose proof (Hm (store_ s)) as Hs. unfold on_store, zoom.
  destruct (m (store_ s)) as [r st]. simpl in *. split_and!; [done|done|by apply rtc_once|].
  change (shrinks (reader hash fd s) (reader hash fd s)). reflexivity.
Qed.

Lemma moves_respond cmd : moves handled_by (respond cmd).
Proof.
  unfold respond.
  moving; apply moves_on_store; intros; constructor.
Qed.

Lemma moves_handle_one : moves handled_by (handle_one hash fd).
Proof.
  unfold handle_one. moving; first [apply moves_on_reader, moves_TryParse|apply moves_respond].
Qed.

Lemma moves_handle_loop fuel : forall result, moves handled_by (handle_loop hash fuel fd result).
Proof.
  induction fuel as [|fuel IH]; intros result; cbn [handle_loop]; moving; apply moves_handle_one.
Qed.
End handler.

(** C6: The state of the message handler is well formed whatever arrives. For every byte
    string and every outcome of the call, also an exception, undefined behaviour or a loop
    that does not end: the sixteen shards are there, the readers of all other connections
    are as they were, the store has been changed by calls of its operations only, and the
    connection's reader holds an end of the bytes received but not yet consumed. *)
Theorem on_message_typed {Store} `{KvBackend Store} hash fuel fd data (s : KvServer (Store := Store)) :
  well_formed s ->
  let s' := (on_message hash fuel fd data s).2 in
  well_formed s' /\ others_kept hash fd s s' /\ rtc kv_step (store_ s) (store_ s') /\
  buf_ (reader hash fd s') `suffix_of` buf_ (reader hash fd s) ++ data.
Proof.
  intros Hw. unfold on_message, bind, on_reader, zoom, Feed, modify.
  set (s0 := set_reader hash fd _ s).
  assert (well_formed s0) as Hw0 by by apply set_reader_well_formed.
  destruct (moves_handle_loop hash fd fuel [] s0 Hw0) as (Hw' & Ho & Hk & Hb).
  split; [exact Hw'|]. split; [|split; [exact Hk|]].
  - etrans; [|exact Ho]. by apply set_reader_others.
  - unfold shrinks in Hb. unfold s0 in Hb at 2. by rewrite reader_set_reader in Hb.
Qed.

(** A request with a negative length, which the loop never consumes. *)
Lemma on_message_typed_witness :
  let s := KvServer_new (fresh_store (str "d")) in
  let s' := (on_message id 3 7 (str "*1" ++ CRLF ++ str "$-9" ++ CRLF) s).2 in
  well_formed s' /\ others_kept id 7 s s' /\ rtc kv_step (store_ s) (store_ s') /\
  buf_ (reader id 7 s') `suffix_of` buf_ (reader id 7 s) ++ (str "*1" ++ CRLF ++ str "$-9" ++ CRLF).
Proof. apply on_message_typed. reflexivity. Defined.
