(* ===== verification/EndToEnd.v ===== *)
(** * Client and server together

    A [KvClient] whose socket leads to a [KvServer], with arbitrary segmentation in both
    directions. *)

From S2P Require Import Prelude Posix CppString Protocol WalRecord Wal KvStore.
From S2P Require Import SlidingWindow PersistentStore Durability StoreTheorems.
From S2P Require Import KvServer ServerTheorems Client.

(** A network that may cut what is sent anywhere, into non-empty pieces. *)
Definition segmentation (cut : bytes -> list bytes) : Prop :=
  forall b, concat (cut b) = b /\ Forall (fun c => c <> []) (cut b).

Section end_to_end.
Context {Store : Type} `{KvBackend Store}.
Context (ok : Store -> Prop) (admits : gmap bytes bytes -> bytes -> option bytes -> Prop).
Context {laws : KvLaws Store ok admits}.
Context (hash : Z -> Z) (fd : Z) (request_cut reply_cut : bytes -> list bytes).
Context (Hrequest : segmentation request_cut) (Hreply : segmentation reply_cut).

(** The server as the client's peer: two iterations of the handler's loop serve one
    command. *)
Definition server_peer (request : bytes) (s : KvServer) : list bytes * KvServer (Store := Store) :=
  match deliver hash 2 fd (request_cut request) s with
  | (Ret (Some out), s') => (reply_cut out, s')
  | (_, s') => ([], s')
  end.

(** The server is ready for a command on the connection. *)
Definition connection_ok (s : KvServer (Store := Store)) : Prop :=
  well_formed s /\ ok (store_ s) /\ buf_ (reader hash fd s) = [].

Lemma bulk_small s : arg_fits s -> zlen (bulk s) < 2 ^ 33.
Proof.
  intros Hs. rewrite bulk_length. unfold arg_fits, INT_MAX in Hs. pose proof (zlen_nonneg s).
  pose proof (to_string_length (zlen s) ltac:(lia)). pose proof (Z.log2_le_lin (zlen s) ltac:(lia)). lia.
Qed.

Lemma bulks_small ss : Forall arg_fits ss -> zlen (bulks ss) <= 2 ^ 33 * zlen ss.
Proof.
  induction 1 as [|s ss Hs _ IH]; [done|]. change (bulks (s :: ss)) with (bulk s ++ bulks ss).
  pose proof (bulk_small s Hs). zlen.
Qed.

Lemma command_small c : command_ok c -> zlen (SerializeCommand c) < 2 ^ 63.
Proof.
  intros Hc. pose proof (command_count c Hc) as Hn. rewrite SerializeCommand_bulks.
  pose proof (bulks_small (command_name (type c) :: args c)
    ltac:(constructor; [apply command_name_fits|apply Hc])) as Hb.
  pose proof (to_string_length (1 + zlen (args c)) ltac:(lia)).
  pose proof (Z.log2_le_lin (1 + zlen (args c)) ltac:(lia)). unfold CRLF. zlen.
Qed.

Lemma server_answers c s :
  connection_ok s -> command_ok c -> admitted admits (contents (store_ s)) c ->
  exists s', answers server_peer c (command_reply (contents (store_ s)) c) s s' /\
    connection_ok s' /\ contents (store_ s') = command_effect (contents (store_ s)) c /\
    others_kept hash fd s s'.
Proof.
  intros (Hw & Hok & Hb) Hc Hadm.
  destruct (deliver_ok ok admits hash (request_cut (SerializeCommand c)) [c] [] fd 2 s)
    as (s' & Hrun & Hw' & Hok' & Hcont & Hb' & Hk'); try done.
  - by constructor.
  - rewrite stream_cons. change (stream []) with (@nil byte). rewrite app_nil_r. symmetry. apply Hrequest.
  - rewrite stream_cons. change (stream []) with (@nil byte). rewrite app_nil_r. by apply command_small.
  - simpl. lia.
  - exists s'. split; [|done]. exists (reply_cut (SerializeResponse (command_reply (contents (store_ s)) c))).
    split; [|split; apply Hreply]. unfold server_peer. rewrite Hrun. cbn [replies]. by rewrite app_nil_r.
Qed.

Lemma client_Set sfd k v s :
  0 <= sfd -> connection_ok s -> arg_fits k -> arg_fits v -> admits (contents (store_ s)) k (Some v) ->
  exists s', Set_ server_peer k v (MkClient sfd [] s) = (Ret true, MkClient sfd [] s') /\
    connection_ok s' /\ contents (store_ s') = <[k := v]> (contents (store_ s)) /\
    others_kept hash fd s s'.
Proof.
  intros Hfd Hs Hk Hv Hadm.
  destruct (server_answers (MkCommand SET [k; v] Error_NONE) s Hs) as (s' & Ha & Hs' & Hc & Hk'); [|done|].
  { split; [done|]. split; [|done]. by repeat constructor. }
  exists s'. split; [|done]. by apply Set_reply.
Qed.

Lemma client_Get sfd k s :
  0 <= sfd -> connection_ok s -> arg_fits k ->
  (forall v, contents (store_ s) !! k = Some v -> arg_fits v) ->
  exists s', Get server_peer k (MkClient sfd [] s)
      = (Ret (contents (store_ s) !! k), MkClient sfd [] s') /\
    connection_ok s' /\ contents (store_ s') = contents (store_ s) /\
    others_kept hash fd s s'.
Proof.
  intros Hfd Hs Hk Hv.
  destruct (server_answers (MkCommand GET [k] Error_NONE) s Hs) as (s' & Ha & Hs' & Hc & Hk'); [|done|].
  { split; [done|]. split; [|done]. by repeat constructor. }
  exists s'. split; [|done]. apply Get_reply; [done|done|]. exact Ha.
Qed.

Lemma client_Delete sfd k s :
  0 <= sfd -> connection_ok s -> arg_fits k -> admits (contents (store_ s)) k None ->
  exists s', Delete server_peer k (MkClient sfd [] s)
      = (Ret (bool_decide (is_Some (contents (store_ s) !! k))), MkClient sfd [] s') /\
    connection_ok s' /\ contents (store_ s') = delete k (contents (store_ s)) /\
    others_kept hash fd s s'.
Proof.
  intros Hfd Hs Hk Hadm.
  destruct (server_answers (MkCommand DEL [k] Error_NONE) s Hs) as (s' & Ha & Hs' & Hc & Hk'); [|done|].
  { split; [done|]. split; [|done]. by repeat constructor. }
  exists s'. split; [|done]. apply Delete_reply; [done|].
  unfold command_reply in Ha. cbn [type args] in Ha. case_bool_decide; by case_decide.
Qed.

Lemma client_Exists sfd k s :
  0 <= sfd -> connection_ok s -> arg_fits k ->
  exists s', Exists_ server_peer k (MkClient sfd [] s)
      = (Ret (bool_decide (is_Some (contents (store_ s) !! k))), MkClient sfd [] s') /\
    connection_ok s' /\ contents (store_ s') = contents (store_ s) /\
    others_kept hash fd s s'.
Proof.
  intros Hfd Hs Hk.
  destruct (server_answers (MkCommand EXISTS [k] Error_NONE) s Hs) as (s' & Ha & Hs' & Hc & Hk'); [|done|].
  { split; [done|]. split; [|done]. by repeat constructor. }
  exists s'. split; [|done]. apply Exists_reply; [done|].
  unfold command_reply in Ha. cbn [type args] in Ha. case_bool_decide; by case_decide.
Qed.

Lemma client_Keys sfd s :
  0 <= sfd -> connection_ok s -> Z.of_nat (size (contents (store_ s))) <= INT_MAX ->
  exists s', Keys server_peer (MkClient sfd [] s)
      = (Ret (Z.of_nat (size (contents (store_ s)))), MkClient sfd [] s') /\
    connection_ok s' /\ contents (store_ s') = contents (store_ s) /\
    others_kept hash fd s s'.
Proof.
  intros Hfd Hs Hn.
  destruct (server_answers (MkCommand KEYS [] Error_NONE) s Hs) as (s' & Ha & Hs' & Hc & Hk'); [done|done|].
  exists s'. split; [|done]. apply Keys_reply; [done|lia|]. exact Ha.
Qed.
End end_to_end.

(** Seen through a client, the server is its store: whatever the network does to the
    segmentation of requests and replies, set, get, delete, exists and keys return what
    the store's map says, change it as they should, and leave the connection ready for
    the next command. *)
Theorem client_end_to_end {Store} `{KvBackend Store} ok admits (laws : KvLaws Store ok admits)
    hash fd request_cut reply_cut sfd s :
  segmentation request_cut -> segmentation reply_cut -> 0 <= sfd -> connection_ok ok hash fd s ->
  let peer := server_peer hash fd request_cut reply_cut in
  let m := contents (store_ s) in
  let ready s' m' := connection_ok ok hash fd s' /\ contents (store_ s') = m' in
  (forall k v, arg_fits k -> arg_fits v -> admits m k (Some v) -> exists s',
     Set_ peer k v (MkClient sfd [] s) = (Ret true, MkClient sfd [] s') /\ ready s' (<[k := v]> m)) /\
  (forall k, arg_fits k -> (forall v, m !! k = Some v -> arg_fits v) -> exists s',
     Get peer k (MkClient sfd [] s) = (Ret (m !! k), MkClient sfd [] s') /\ ready s' m) /\
  (forall k, arg_fits k -> admits m k None -> exists s',
     Delete peer k (MkClient sfd [] s) = (Ret (bool_decide (is_Some (m !! k))), MkClient sfd [] s') /\
     ready s' (delete k m)) /\
  (forall k, arg_fits k -> exists s',
     Exists_ peer k (MkClient sfd [] s) = (Ret (bool_decide (is_Some (m !! k))), MkClient sfd [] s') /\
     ready s' m) /\
  (Z.of_nat (size m) <= INT_MAX -> exists s',
     Keys peer (MkClient sfd [] s) = (Ret (Z.of_nat (size m)), MkClient sfd [] s') /\ ready s' m).
Proof.
  intros Hreq Hrep Hfd Hs peer m ready. split_and!; intros.
  - destruct (client_Set ok admits hash fd request_cut reply_cut Hreq Hrep sfd k v s)
      as (s' & ? & ? & ? & _); try done. by exists s'.
  - destruct (client_Get ok admits hash fd request_cut reply_cut Hreq Hrep sfd k s)
      as (s' & ? & ? & ? & _); try done. by exists s'.
  - destruct (client_Delete ok admits hash fd request_cut reply_cut Hreq Hrep sfd k s)
      as (s' & ? & ? & ? & _); try done. by exists s'.
  - destruct (client_Exists ok admits hash fd request_cut reply_cut Hreq Hrep sfd k s)
      as (s' & ? & ? & ? & _); try done. by exists s'.
  - destruct (client_Keys ok admits hash fd request_cut reply_cut Hreq Hrep sfd s)
      as (s' & ? & ? & ? & _); try done. by exists s'.
Qed.

(** A network that delivers byte by byte. *)
Definition bytewise (b : bytes) : list bytes := map (fun c => [c]) b.

Lemma bytewise_segmentation : segmentation bytewise.
Proof.
  intros b. split.
  - induction b as [|c b IH]; [done|]. simpl. by rewrite IH.
  - induction b; by constructor.
Qed.

Lemma client_end_to_end_witness :
  exists s', Set_ (server_peer id 7 bytewise bytewise) (str "k") (str "v")
      (MkClient 5 [] (KvServer_new (fresh_store (str "d")))) = (Ret true, MkClient 5 [] s') /\
    connection_ok store_ok id 7 s' /\
    contents (store_ s') = <[str "k" := str "v"]> (contents (fresh_store (str "d"))).
Proof.
  destruct (fresh_store_ok (str "d")) as (Hok & Hd & _).
  destruct (client_end_to_end store_ok store_admits PersistentKvStore_laws id 7 bytewise bytewise 5
    (KvServer_new (fresh_store (str "d"))) bytewise_segmentation bytewise_segmentation) as (Hset & _).
  - lia.
  - split; [reflexivity|]. split; [exact Hok|reflexivity].
  - apply Hset; [discriminate|discriminate|]. simpl. rewrite Hd. split; [reflexivity|split; reflexivity].
Defined.
