(* ===== verification/ClientProgram.v ===== *)
(** * Programs over the client

    What a program does with a [KvClient] is a tree of calls and continuations, as the
    C++ [main] functions that use the class are: the next call depends on the answers so
    far. A program is run against a client ([run_client]), against a map ([run_map]), and,
    one call at a time, next to other programs. *)

From S2P Require Import Prelude Posix CppString Protocol WalRecord Wal KvStore.
From S2P Require Import SlidingWindow PersistentStore Durability StoreTheorems.
From S2P Require Import KvServer ServerTheorems Client EndToEnd.

(** ** Calls and programs *)

Inductive client_op :=
  | CSet (k v : bytes)
  | CGet (k : bytes)
  | CDelete (k : bytes)
  | CExists (k : bytes)
  | CKeys.

Definition answer (c : client_op) : Type :=
  match c with
  | CGet _ => option bytes
  | CKeys => Z
  | _ => bool
  end.

Inductive prog (A : Type) : Type :=
  | Done (a : A)
  | Call (c : client_op) (k : answer c -> prog A).
Arguments Done {A} a.
Arguments Call {A} c k.

Fixpoint prog_bind {A B} (p : prog A) (f : A -> prog B) : prog B :=
  match p with
  | Done a => f a
  | Call c k => Call c (fun r => prog_bind (k r) f)
  end.

Definition call (c : client_op) : prog (answer c) := Call c Done.

Notation "'let*' x ':=' p 'in' k" := (prog_bind p (fun x => k))
  (at level 10, x pattern, p at level 100, k at level 200) : kv_scope.

(** [for (int i = from; i < from + n; ++i)], with the variables the body assigns. *)
Fixpoint for_loop {A} (n : nat) (from : Z) (body : Z -> A -> prog A) (a : A) : prog A :=
  match n with
  | O => Done a
  | S n => let* a := body from a in for_loop n (from + 1) body a
  end.

(** ** Running a program *)

(** What a call answers, and does, on a map. *)
Definition map_answer (m : gmap bytes bytes) (c : client_op) : answer c :=
  match c with
  | CSet _ _ => true
  | CGet k => m !! k
  | CDelete k | CExists k => bool_decide (is_Some (m !! k))
  | CKeys => Z.of_nat (size m)
  end.

Definition map_effect (m : gmap bytes bytes) (c : client_op) : gmap bytes bytes :=
  match c with
  | CSet k v => <[k := v]> m
  | CDelete k => delete k m
  | _ => m
  end.

Fixpoint run_map {A} (p : prog A) (m : gmap bytes bytes) : A * gmap bytes bytes :=
  match p with
  | Done a => (a, m)
  | Call c k => run_map (k (map_answer m c)) (map_effect m c)
  end.

Lemma run_map_bind {A B} (p : prog A) (f : A -> prog B) : forall m,
  run_map (prog_bind p f) m = let (a, m') := run_map p m in run_map (f a) m'.
Proof. induction p as [a|c k IH]; intros m; simpl; [done|apply IH]. Qed.

Section client_run.
Context {Peer : Type} (peer_send : bytes -> Peer -> list bytes * Peer).

Definition client_call (c : client_op) : M (KvClient (Peer := Peer)) (answer c) :=
  match c with
  | CSet k v => Set_ peer_send k v
  | CGet k => Get peer_send k
  | CDelete k => Delete peer_send k
  | CExists k => Exists_ peer_send k
  | CKeys => Keys peer_send
  end.

Fixpoint run_client {A} (p : prog A) : M (KvClient (Peer := Peer)) A :=
  match p with
  | Done a => ret a
  | Call c k => let! r := client_call c in run_client (k r)
  end.
End client_run.

(** ** A program against the server is the program against the map *)

Section refinement.
Context {Store : Type} `{KvBackend Store}.
Context (ok : Store -> Prop) (admits : gmap bytes bytes -> bytes -> option bytes -> Prop).
Context {laws : KvLaws Store ok admits}.
Context (hash : Z -> Z) (request_cut reply_cut : bytes -> list bytes).
Context (Hrequest : segmentation request_cut) (Hreply : segmentation reply_cut).

(** The calls the protocol and the store carry out on the map [m]. *)
Definition call_admitted (m : gmap bytes bytes) (c : client_op) : Prop :=
  match c with
  | CSet k v => arg_fits k /\ arg_fits v /\ admits m k (Some v)
  | CGet k => arg_fits k /\ forall v, m !! k = Some v -> arg_fits v
  | CDelete k => arg_fits k /\ admits m k None
  | CExists k => arg_fits k
  | CKeys => Z.of_nat (size m) <= INT_MAX
  end.

(** Every call the program makes on the way is carried out. *)
Fixpoint admissible {A} (p : prog A) (m : gmap bytes bytes) : Prop :=
  match p with
  | Done _ => True
  | Call c k => call_admitted m c /\ admissible (k (map_answer m c)) (map_effect m c)
  end.

Lemma admissible_bind {A B} (p : prog A) (f : A -> prog B) : forall m,
  admissible p m -> admissible (f (run_map p m).1) (run_map p m).2 -> admissible (prog_bind p f) m.
Proof.
  induction p as [a|c k IH]; intros m Hp Hf; simpl in *; [done|].
  destruct Hp. split; [done|]. by apply IH.
Qed.

Lemma client_call_ok fd sfd c s :
  0 <= sfd -> connection_ok ok hash fd s -> call_admitted (contents (store_ s)) c ->
  exists s', client_call (server_peer hash fd request_cut reply_cut) c (MkClient sfd [] s)
      = (Ret (map_answer (contents (store_ s)) c), MkClient sfd [] s') /\
    connection_ok ok hash fd s' /\ contents (store_ s') = map_effect (contents (store_ s)) c /\
    others_kept hash fd s s'.
Proof.
  intros Hfd Hs Hadm. destruct c as [k v|k|k|k|]; simpl in *.
  - destruct Hadm as (? & ? & ?). by eapply client_Set.
  - destruct Hadm. by eapply client_Get.
  - destruct Hadm. by eapply client_Delete.
  - by eapply client_Exists.
  - by eapply client_Keys.
Qed.

Lemma run_client_ok {A} fd sfd (p : prog A) : forall s,
  0 <= sfd -> connection_ok ok hash fd s -> admissible p (contents (store_ s)) ->
  exists s', run_client (server_peer hash fd request_cut reply_cut) p (MkClient sfd [] s)
      = (Ret (run_map p (contents (store_ s))).1, MkClient sfd [] s') /\
    connection_ok ok hash fd s' /\ contents (store_ s') = (run_map p (contents (store_ s))).2 /\
    others_kept hash fd s s'.
Proof.
  induction p as [a|c k IH]; intros s Hfd Hs Hadm; simpl in *.
  - exists s. by split_and!.
  - destruct Hadm as [Hc Hk].
    destruct (client_call_ok fd sfd c s Hfd Hs Hc) as (s1 & Hrun & Hs1 & Hc1 & Hk1).
    rewrite (bind_Ret _ _ _ _ _ Hrun). rewrite <-Hc1 in *.
    destruct (IH _ s1 Hfd Hs1 Hk) as (s' & Hrun' & Hs' & Hc' & Hk').
    exists s'. split_and!; try done. by etrans.
Qed.
End refinement.

(** C3: A program that uses the client, with commands that the store admits, does against a
    server that handles its requests one at a time what it does against a map: for every segmentation of requests and replies, its result is that of the
    program on the store's map, the store's map changes as the program changes the map,
    no bytes are left on the connection, and the other connections are as they were. *)
Theorem program_refines {Store} `{KvBackend Store} ok admits (laws : KvLaws Store ok admits)
    {A : Type} hash fd sfd request_cut reply_cut (p : prog A) s :
  segmentation request_cut -> segmentation reply_cut -> 0 <= sfd -> connection_ok ok hash fd s ->
  admissible admits p (contents (store_ s)) ->
  let (a, m) := run_map p (contents (store_ s)) in
  exists s', run_client (server_peer hash fd request_cut reply_cut) p (MkClient sfd [] s)
      = (Ret a, MkClient sfd [] s') /\
    connection_ok ok hash fd s' /\ contents (store_ s') = m /\ others_kept hash fd s s'.
Proof.
  intros Hreq Hrep Hfd Hs Hadm.
  destruct (run_client_ok ok admits hash request_cut reply_cut Hreq Hrep fd sfd p s Hfd Hs Hadm)
    as (s' & Hrun & Hs' & Hc & Hk).
  destruct (run_map p (contents (store_ s))) as [a m]. by exists s'.
Qed.

(** Set a key, and say whether another exists. *)
Definition set_then_look : prog (bool * bool) :=
  let* r := call (CSet (str "k") (str "v")) in
  let* b := call (CExists (str "other")) in
  Done (r, b).

Lemma program_refines_witness :
  exists s', run_client (server_peer id 7 bytewise bytewise) set_then_look
      (MkClient 5 [] (KvServer_new (fresh_store (str "d")))) = (Ret (true, false), MkClient 5 [] s') /\
    connection_ok store_ok id 7 s' /\ contents (store_ s') = {[str "k" := str "v"]} /\
    others_kept id 7 (KvServer_new (fresh_store (str "d"))) s'.
Proof.
  destruct (fresh_store_ok (str "d")) as (Hok & Hd & _).
  assert (contents (store_ (KvServer_new (fresh_store (str "d")))) = ∅) as Hc by exact Hd.
  pose proof (program_refines store_ok store_admits PersistentKvStore_laws id 7 5 bytewise bytewise
    set_then_look (KvServer_new (fresh_store (str "d"))) bytewise_segmentation bytewise_segmentation) as H.
  rewrite Hc in H. apply H; clear H.
  - lia.
  - split; [reflexivity|]. split; [exact Hok|reflexivity].
  - split; [|split; [discriminate|exact I]]. split; [discriminate|]. split; [discriminate|].
    split; [reflexivity|split; reflexivity].
Defined.
