(* ===== verification/Interleaving.v ===== *)
(** * Several clients of one server

    Programs of [ClientProgram] that take turns: in a turn one client makes its next
    call and gets the answer. On maps, programs with disjoint keys do not notice each
    other; against the server, each with its own connection, they do what they do on
    maps. *)

From S2P Require Import Prelude Posix CppString Protocol WalRecord Wal KvStore.
From S2P Require Import SlidingWindow PersistentStore Durability StoreTheorems.
From S2P Require Import KvServer ServerTheorems Client EndToEnd ClientProgram.

(** ** Turns on a map *)

Definition turn {A : Type} (i : nat) (y : list (prog A) * gmap bytes bytes)
  : option (list (prog A) * gmap bytes bytes) :=
  match y.1 !! i with
  | Some (Call c k) => Some (<[i := k (map_answer y.2 c)]> y.1, map_effect y.2 c)
  | _ => None
  end.

Fixpoint turns {A : Type} (sched : list nat) (y : list (prog A) * gmap bytes bytes)
  : option (list (prog A) * gmap bytes bytes) :=
  match sched with
  | [] => Some y
  | i :: sched => match turn i y with Some y => turns sched y | None => None end
  end.

Definition is_done {A : Type} (p : prog A) : bool := match p with Done _ => true | _ => false end.

(** ** The keys of a program *)

Definition call_key (c : client_op) : option bytes :=
  match c with
  | CSet k _ | CGet k | CDelete k | CExists k => Some k
  | CKeys => None
  end.

(** All calls are about keys of [K], whatever the answers. *)
Inductive within (K : gset bytes) {A : Type} : prog A -> Prop :=
  | within_done a : within K (Done a)
  | within_call c k x :
      call_key c = Some x -> x ∈ K -> (forall r, within K (k r)) -> within K (Call c k).

Lemma within_call_inv K {A : Type} c (k : answer c -> prog A) :
  within K (Call c k) -> exists x, call_key c = Some x /\ x ∈ K /\ forall r, within K (k r).
Proof.
  refine (fun H => match H in within _ p
    return match p with
           | Call c k => exists x, call_key c = Some x /\ x ∈ K /\ forall r, within K (k r)
           | Done _ => True
           end with
    | within_done _ _ => I
    | within_call _ _ _ x Hc Hx Hk => ex_intro _ x (conj Hc (conj Hx Hk))
    end).
Qed.

(** Maps that are the same on [K]. *)
Definition agree (K : gset bytes) (m m' : gmap bytes bytes) : Prop :=
  forall x, x ∈ K -> m !! x = m' !! x.

#[export] Instance agree_equivalence K : Equivalence (agree K).
Proof.
  split; [by intros m x|intros m m' H x Hx; by rewrite H|].
  intros m1 m2 m3 H1 H2 x Hx. by rewrite H1, H2.
Qed.

Lemma map_answer_agree K c x m m' :
  call_key c = Some x -> x ∈ K -> agree K m m' -> map_answer m c = map_answer m' c.
Proof.
  intros Hc Hx Hm. pose proof (Hm x Hx) as E. destruct c; simpl in *; simplify_eq; by rewrite ?E.
Qed.

#[export] Instance map_effect_agree K c : Proper (agree K ==> agree K) (fun m => map_effect m c).
Proof.
  intros m m' Hm x Hx. destruct c as [k v|k|k|k|]; simpl; try by apply Hm.
  - destruct (decide (k = x)) as [->|]; [by rewrite !lookup_insert_eq|].
    rewrite !lookup_insert_ne by done. by apply Hm.
  - destruct (decide (k = x)) as [->|]; [by rewrite !lookup_delete_eq|].
    rewrite !lookup_delete_ne by done. by apply Hm.
Qed.

(** A call outside [K] leaves [K] alone. *)
Lemma map_effect_outside K c x m : call_key c = Some x -> x ∉ K -> agree K (map_effect m c) m.
Proof.
  intros Hc Hx y Hy. assert (x <> y) by set_solver.
  destruct c; simpl in *; simplify_eq; rewrite ?lookup_insert_ne, ?lookup_delete_ne; done.
Qed.

(** A program does on a map what it does on any other map with the same [K]. *)
Lemma run_map_local {A : Type} K (p : prog A) : within K p -> forall m m',
  agree K m m' ->
  (run_map p m).1 = (run_map p m').1 /\ agree K (run_map p m).2 (run_map p m').2.
Proof.
  induction 1 as [a|c k x Hc Hx _ IH]; intros m m' Hm; simpl; [done|].
  rewrite (map_answer_agree K c x m m') by done. apply IH. by apply map_effect_agree.
Qed.

(** ** Programs with disjoint keys *)

Definition disjoint_keys (Ks : list (gset bytes)) : Prop :=
  forall i j K K', i <> j -> Ks !! i = Some K -> Ks !! j = Some K' -> K ## K'.

(** Each program will end as it would have ended alone from [m]. *)
Definition as_alone {A : Type} (Ks : list (gset bytes)) (ps : list (prog A)) (m : gmap bytes bytes)
    (ps' : list (prog A)) (m' : gmap bytes bytes) : Prop :=
  forall i p K, ps !! i = Some p -> Ks !! i = Some K ->
    exists p', ps' !! i = Some p' /\ within K p' /\
      (run_map p' m').1 = (run_map p m).1 /\ agree K (run_map p' m').2 (run_map p m).2.

Lemma as_alone_turn {A : Type} Ks (ps : list (prog A)) m i ps1 m1 ps2 m2 :
  length Ks = length ps -> disjoint_keys Ks -> as_alone Ks ps m ps1 m1 ->
  length ps1 = length ps -> turn i (ps1, m1) = Some (ps2, m2) ->
  as_alone Ks ps m ps2 m2 /\ length ps2 = length ps /\
  (forall x, (forall K, K ∈ Ks -> x ∉ K) -> m2 !! x = m1 !! x).
Proof.
  intros HKs Hdis Hal Hlen. unfold turn. simpl. destruct (ps1 !! i) as [[|c k]|] eqn:Hi; try done.
  intros [= <- <-]. pose proof (lookup_lt_Some _ _ _ Hi) as Hlt.
  destruct (lookup_lt_is_Some_2 Ks i) as [K HK]; [lia|].
  destruct (lookup_lt_is_Some_2 ps i) as [p Hp]; [lia|].
  destruct (Hal i p K Hp HK) as (p' & Hp' & Hw & Hr & Ha). rewrite Hi in Hp'. injection Hp' as <-.
  destruct (within_call_inv _ _ _ Hw) as (x & Hc & Hx & Hk).
  split; [|split; [by rewrite length_insert|]].
  - intros j q L Hq HL. destruct (decide (i = j)) as [<-|Hne].
    + simplify_eq. eexists. split; [by apply list_lookup_insert_eq|]. by split_and!.
    + destruct (Hal j q L Hq HL) as (q' & Hq' & Hwq & Hrq & Haq).
      exists q'. rewrite list_lookup_insert_ne by done. split; [done|]. split; [done|].
      assert (x ∉ L) as HxL by (pose proof (Hdis i j K L Hne HK HL); set_solver).
      destruct (run_map_local L q' Hwq _ _ (map_effect_outside L c x m1 Hc HxL)) as [-> Hag].
      split; [done|]. by etrans.
  - intros y Hy. apply (map_effect_outside {[y]} c x m1 Hc); [|set_solver].
    intros <-%elem_of_singleton. apply (Hy K); [|done]. by eapply list_elem_of_lookup_2.
Qed.

Lemma as_alone_turns {A : Type} Ks (ps : list (prog A)) m sched : forall ps1 m1 ps2 m2,
  length Ks = length ps -> disjoint_keys Ks -> as_alone Ks ps m ps1 m1 ->
  length ps1 = length ps -> turns sched (ps1, m1) = Some (ps2, m2) ->
  as_alone Ks ps m ps2 m2 /\ length ps2 = length ps /\
  (forall x, (forall K, K ∈ Ks -> x ∉ K) -> m2 !! x = m1 !! x).
Proof.
  induction sched as [|i sched IH]; intros ps1 m1 ps2 m2 HKs Hdis Hal Hlen; simpl.
  { by intros [= <- <-]. }
  destruct (turn i (ps1, m1)) as [[ps3 m3]|] eqn:Ht; [|done]. intros Hrun.
  destruct (as_alone_turn _ _ _ _ _ _ _ _ HKs Hdis Hal Hlen Ht) as (Hal3 & Hlen3 & Hout3).
  destruct (IH ps3 m3 ps2 m2 HKs Hdis Hal3 Hlen3 Hrun) as (Hal2 & Hlen2 & Hout2).
  split; [done|]. split; [done|]. intros x Hx. by rewrite Hout2, Hout3.
Qed.

(** In every order of turns that lets all programs end, each ends with the result it
    would have had alone, and the map is on its keys what it would have made it. *)
Lemma disjoint_turns {A : Type} Ks (ps : list (prog A)) m sched ps' m' :
  Forall2 (fun K p => within K p) Ks ps -> disjoint_keys Ks ->
  turns sched (ps, m) = Some (ps', m') -> forallb is_done ps' = true ->
  ps' = map (fun p => Done (run_map p m).1) ps /\
  (forall i p K, ps !! i = Some p -> Ks !! i = Some K -> agree K m' (run_map p m).2) /\
  (forall x, (forall K, K ∈ Ks -> x ∉ K) -> m' !! x = m !! x).
Proof.
  intros Hw Hdis Hrun Hdone. pose proof (Forall2_length _ _ _ Hw) as HKs.
  assert (as_alone Ks ps m ps m) as Hal0.
  { intros i p K Hp HK. exists p. split; [done|]. split; [|done].
    destruct (Forall2_lookup_r _ _ _ _ _ Hw Hp) as (K' & HK' & ?). by simplify_eq. }
  destruct (as_alone_turns Ks ps m sched ps m ps' m' HKs Hdis Hal0 eq_refl Hrun) as (Hal & Hlen & Hout).
  assert (forall i p K, ps !! i = Some p -> Ks !! i = Some K ->
    ps' !! i = Some (Done (run_map p m).1) /\ agree K m' (run_map p m).2) as Hend.
  { intros i p K Hp HK. destruct (Hal i p K Hp HK) as (p' & Hp' & _ & Hr & Ha).
    apply Is_true_true, forallb_True in Hdone.
    pose proof (Forall_lookup_1 _ _ _ _ Hdone Hp') as Hd. destruct p' as [a|]; [|done].
    simpl in *. by subst a. }
  split; [|split; [|done]].
  - apply list_eq_same_length with (length ps); [by rewrite length_map|done|].
    intros i p' q Hi Hp' Hq. apply list_lookup_fmap_Some in Hq as (p & -> & Hp).
    destruct (lookup_lt_is_Some_2 Ks i) as [K HK]; [lia|]. destruct (Hend i p K Hp HK). congruence.
  - intros i p K Hp HK. by eapply Hend.
Qed.

(** ** Turns against the server *)

(** Calls that are carried out, and keep [I], on every map with [I]. *)
Inductive keeps (admits : gmap bytes bytes -> bytes -> option bytes -> Prop)
    (I : gmap bytes bytes -> Prop) {A : Type} : prog A -> Prop :=
  | keeps_done a : keeps admits I (Done a)
  | keeps_call c k :
      (forall m, I m -> call_admitted admits m c /\ I (map_effect m c)) ->
      (forall r, keeps admits I (k r)) -> keeps admits I (Call c k).

Lemma keeps_call_inv admits I {A : Type} c (k : answer c -> prog A) :
  keeps admits I (Call c k) ->
  (forall m, I m -> call_admitted admits m c /\ I (map_effect m c)) /\
  (forall r, keeps admits I (k r)).
Proof.
  refine (fun H => match H in keeps _ _ p
    return match p with
           | Call c k => (forall m, I m -> call_admitted admits m c /\ I (map_effect m c)) /\
                         (forall r, keeps admits I (k r))
           | Done _ => True
           end with
    | keeps_done _ _ _ => Logic.I
    | keeps_call _ _ _ _ Hc Hk => conj Hc Hk
    end).
Qed.

Lemma keeps_admissible admits I {A : Type} (p : prog A) :
  keeps admits I p -> forall m, I m -> admissible admits p m /\ I (run_map p m).2.
Proof.
  induction 1 as [a|c k Hc _ IH]; intros m Hm; simpl; [done|].
  destruct (Hc m Hm) as [Ha Hm']. destruct (IH (map_answer m c) _ Hm'). done.
Qed.

Lemma keeps_bind admits I {A B : Type} (p : prog A) (f : A -> prog B) :
  keeps admits I p -> (forall a, keeps admits I (f a)) -> keeps admits I (prog_bind p f).
Proof. induction 1; intros Hf; simpl; [apply Hf|]. constructor; auto. Qed.

Lemma within_bind K {A B : Type} (p : prog A) (f : A -> prog B) :
  within K p -> (forall a, within K (f a)) -> within K (prog_bind p f).
Proof. induction 1; intros Hf; simpl; [apply Hf|]. econstructor; eauto. Qed.

Section server_turns.
Context {Store : Type} `{KvBackend Store}.
Context (ok : Store -> Prop) (admits : gmap bytes bytes -> bytes -> option bytes -> Prop).
Context {laws : KvLaws Store ok admits}.
Context (hash : Z -> Z) (request_cut reply_cut : bytes -> list bytes).
Context (Hrequest : segmentation request_cut) (Hreply : segmentation reply_cut).

(** In a turn, the client on the connection [fd] sends a request, the server handles what
    arrives, and the client reads the reply. *)
Definition serve_turn {A : Type} (i : nat) (y : list (Z * prog A) * KvServer (Store := Store))
  : option (list (Z * prog A) * KvServer (Store := Store)) :=
  match y.1 !! i with
  | Some (fd, Call c k) =>
      match client_call (server_peer hash fd request_cut reply_cut) c (MkClient 3 [] y.2) with
      | (Ret r, cl) => Some (<[i := (fd, k r)]> y.1, peer cl)
      | _ => None
      end
  | _ => None
  end.

Fixpoint serve_turns {A : Type} (sched : list nat) (y : list (Z * prog A) * KvServer (Store := Store))
  : option (list (Z * prog A) * KvServer (Store := Store)) :=
  match sched with
  | [] => Some y
  | i :: sched => match serve_turn i y with Some y => serve_turns sched y | None => None end
  end.

Definition connections_ok (fds : list Z) (s : KvServer (Store := Store)) : Prop :=
  forall fd, fd ∈ fds -> connection_ok ok hash fd s.

(** A command on one connection leaves the others as they were. *)
Lemma connections_kept fds fd s s' :
  connections_ok fds s -> connection_ok ok hash fd s' -> others_kept hash fd s s' ->
  connections_ok fds s'.
Proof.
  intros Hs (Hw & Hok & Hb) Hk fd' Hin. split; [done|]. split; [done|].
  destruct (decide (fd' = fd)) as [->|Hne]; [done|]. rewrite (Hk fd' Hne). by apply Hs.
Qed.

Lemma serve_turn_ok {A : Type} I fds (ps : list (prog A)) i s ps' m' :
  length fds = length ps -> connections_ok fds s -> Forall (keeps admits I) ps ->
  I (contents (store_ s)) -> turn i (ps, contents (store_ s)) = Some (ps', m') ->
  exists s', serve_turn i (zip fds ps, s) = Some (zip fds ps', s') /\
    contents (store_ s') = m' /\ connections_ok fds s' /\ Forall (keeps admits I) ps' /\ I m' /\
    length fds = length ps'.
Proof.
  intros Hlen Hconn Hps HI. unfold turn, serve_turn. simpl.
  destruct (ps !! i) as [[|c k]|] eqn:Hi; try done. intros [= <- <-].
  pose proof (lookup_lt_Some _ _ _ Hi) as Hlt.
  destruct (lookup_lt_is_Some_2 fds i) as [fd Hfd]; [lia|].
  assert (zip fds ps !! i = Some (fd, Call c k)) as ->.
  { apply lookup_zip_with_Some. by exists fd, (Call c k). }
  destruct (keeps_call_inv _ _ _ _ (Forall_lookup_1 _ _ _ _ Hps Hi)) as [Hc Hk].
  destruct (Hc _ HI) as [Hadm HI'].
  assert (connection_ok ok hash fd s) as Hfd_ok by (apply Hconn; by eapply list_elem_of_lookup_2).
  destruct (client_call_ok ok admits hash request_cut reply_cut Hrequest Hreply fd 3 c s)
    as (s' & Hrun & Hs' & Hcont & Hothers); [done|done|done|].
  rewrite Hrun. exists s'. split_and!; try done.
  - cbn [peer]. f_equal. f_equal. rewrite <-(list_insert_id fds i fd) at 2 by done.
    apply (insert_zip_with pair).
  - by eapply connections_kept.
  - by apply Forall_insert.
  - by rewrite length_insert.
Qed.

(** Against the server, in every order of turns, the programs do what they do on maps. *)
Lemma serve_turns_ok {A : Type} I fds sched : forall (ps : list (prog A)) s ps' m',
  length fds = length ps -> connections_ok fds s -> Forall (keeps admits I) ps ->
  I (contents (store_ s)) -> turns sched (ps, contents (store_ s)) = Some (ps', m') ->
  exists s', serve_turns sched (zip fds ps, s) = Some (zip fds ps', s') /\
    contents (store_ s') = m' /\ connections_ok fds s' /\ I m'.
Proof.
  induction sched as [|i sched IH]; intros ps s ps' m' Hlen Hconn Hps HI; cbn [turns serve_turns].
  { intros [= <- <-]. by exists s. }
  destruct (turn i (ps, contents (store_ s))) as [[ps1 m1]|] eqn:Ht; [|done]. intros Hrun.
  destruct (serve_turn_ok I fds ps i s ps1 m1 Hlen Hconn Hps HI Ht)
    as (s1 & Hs1 & Hc1 & Hconn1 & Hps1 & HI1 & Hlen1).
  rewrite Hs1. rewrite <-Hc1 in *. by apply (IH ps1 s1).
Qed.
End server_turns.

(** C9: Clients with keys of their own do not notice each other. In every order of their
    turns, one whole request at a time, that lets them all finish, each ends with the result it has on a
    map alone, the store holds on its keys what it alone would have put there, and the
    keys of nobody are untouched. *)
Theorem clients_do_not_interfere {Store} `{KvBackend Store} ok admits (laws : KvLaws Store ok admits)
    {A : Type} hash request_cut reply_cut I fds Ks (ps : list (prog A)) s sched ps' m' :
  segmentation request_cut -> segmentation reply_cut ->
  length fds = length ps -> connections_ok ok hash fds s ->
  Forall (keeps admits I) ps -> I (contents (store_ s)) ->
  Forall2 (fun K p => within K p) Ks ps -> disjoint_keys Ks ->
  turns sched (ps, contents (store_ s)) = Some (ps', m') -> forallb is_done ps' = true ->
  exists s', serve_turns hash request_cut reply_cut sched (zip fds ps, s)
      = Some (zip fds (map (fun p => Done (run_map p (contents (store_ s))).1) ps), s') /\
    connections_ok ok hash fds s' /\
    (forall i p K, ps !! i = Some p -> Ks !! i = Some K ->
       agree K (contents (store_ s')) (run_map p (contents (store_ s))).2) /\
    (forall x, (forall K, K ∈ Ks -> x ∉ K) -> contents (store_ s') !! x = contents (store_ s) !! x).
Proof.
  intros Hreq Hrep Hlen Hconn Hkeep HI Hw Hdis Hrun Hdone.
  destruct (disjoint_turns Ks ps _ sched ps' m' Hw Hdis Hrun Hdone) as (Hps & Hin & Hout).
  destruct (serve_turns_ok ok admits hash request_cut reply_cut Hreq Hrep I fds sched ps s ps' m'
    Hlen Hconn Hkeep HI Hrun) as (s' & Hs & Hc & Hconn' & _).
  exists s'. rewrite Hc, <-Hps. by split_and!.
Qed.

(** A client that sets its key twice. *)
Definition set_twice (k : bytes) : prog bool :=
  let* a := call (CSet k (str "1")) in let* b := call (CSet k (str "2")) in Done (andb a b).

Lemma clients_do_not_interfere_witness :
  exists s', serve_turns id bytewise bytewise [0; 1; 1; 0]%nat
      (zip [5; 6] [set_twice (str "a"); set_twice (str "b")], KvServer_new (fresh_store (str "d")))
      = Some (zip [5; 6] [Done true; Done true], s').
Proof.
  destruct (fresh_store_ok (str "d")) as (Hok & Hd & _).
  assert (contents (store_ (KvServer_new (fresh_store (str "d")))) = ∅) as Hc by exact Hd.
  assert (match turns [0; 1; 1; 0]%nat ([set_twice (str "a"); set_twice (str "b")], ∅) with
          | Some (ps', _) => forallb is_done ps'
          | None => false
          end = true) as Hdone by (vm_compute; reflexivity).
  destruct (turns [0; 1; 1; 0]%nat ([set_twice (str "a"); set_twice (str "b")], ∅)) as [[ps' m']|] eqn:E;
    [|discriminate Hdone].
  destruct (clients_do_not_interfere store_ok store_admits PersistentKvStore_laws id bytewise bytewise
    (fun m => dom m ⊆ {[str "a"; str "b"]}) [5; 6] [{[str "a"]}; {[str "b"]}]
    [set_twice (str "a"); set_twice (str "b")] (KvServer_new (fresh_store (str "d")))
    [0; 1; 1; 0]%nat ps' m'
    bytewise_segmentation bytewise_segmentation) as (s' & Hrun & _).
  - reflexivity.
  - intros fd Hfd. split; [reflexivity|]. split; [exact Hok|].
    repeat (apply elem_of_cons in Hfd as [->|Hfd]; [reflexivity|]). by apply elem_of_nil in Hfd.
  - assert (forall k v m, k ∈ ({[str "a"; str "b"]} : gset bytes) -> zlen k = 1 -> zlen v = 1 ->
      dom m ⊆ {[str "a"; str "b"]} ->
      call_admitted store_admits m (CSet k v) /\ dom (map_effect m (CSet k v)) ⊆ {[str "a"; str "b"]}) as Hset.
    { intros k v m Hk Hlk Hlv Hm. assert (dom (<[k := v]> m) ⊆ {[str "a"; str "b"]}) as Hd' by set_solver.
      split; [|exact Hd']. pose proof (subseteq_size _ _ Hd') as Hs. rewrite size_dom in Hs.
      assert (size ({[str "a"; str "b"]} : gset bytes) = 2%nat) as H2 by (vm_compute; reflexivity).
      cbn [call_admitted]. unfold store_admits, arg_fits, fits16, INT_MAX. rewrite Hlk, Hlv.
      split_and!; lia. }
    assert (forall k, k ∈ ({[str "a"; str "b"]} : gset bytes) -> zlen k = 1 ->
      keeps store_admits (fun m => dom m ⊆ {[str "a"; str "b"]}) (set_twice k)) as Htwice.
    { intros k Hk Hl.
      apply keeps_call; [intros m Hm; by apply Hset|]. intros r.
      apply keeps_call; [intros m Hm; by apply Hset|]. intros r'. constructor. }
    apply Forall_cons; split; [apply Htwice; [set_solver|reflexivity]|].
    apply Forall_cons; split; [apply Htwice; [set_solver|reflexivity]|by apply Forall_nil].
  - rewrite Hc. set_solver.
  - repeat (apply Forall2_cons; split); [..|by apply Forall2_nil];
      (eapply within_call; [reflexivity|set_solver|intros r];
       eapply within_call; [reflexivity|set_solver|intros r']; constructor).
  - intros [|[|i]] [|[|j]] K K' Hij [= <-] [= <-]; try done; by apply disjoint_singleton_l, not_elem_of_singleton.
  - rewrite Hc. exact E.
  - exact Hdone.
  - exists s'. rewrite Hrun, Hc. reflexivity.
Defined.
