(* ===== verification/D2dTest.v ===== *)
(** * The integration test: the programs of [d2dtest/clients]

    The six client programs that [d2dtest/run_test.py] runs, and what the test expects of
    them: whatever the order in which the four clients take turns at a server that handles
    one request at a time, a server killed after them and started again holds it. *)

From S2P Require Import Prelude Posix CppString Protocol WalRecord Wal KvStore.
From S2P Require Import SlidingWindow PersistentStore Durability StoreTheorems.
From S2P Require Import KvServer ServerTheorems Client EndToEnd ClientProgram Interleaving.

(** ** What the programs share *)

(** What a program has printed, written and returned when it ends. *)
Record outcome := MkOutcome {
  stdout : bytes;
  stderr : bytes;
  file : option bytes;
  code : Z
}.

#[export] Instance outcome_eq_decision : EqDecision outcome.
Proof. solve_decision. Defined.

(** [std::setw(2) << std::setfill('0') << i] *)
Definition setw2 (i : Z) : bytes :=
  let s := to_string i in replicate (2 - length s) Byte.x30 ++ s.

(** [key_ss]. *)
Definition key_of (i : Z) : bytes := str "key_" ++ setw2 i.

(** The defaults and [argv[1]], [argv[2]]. *)
Definition endpoint (argv : list bytes) : res (bytes * Z) :=
  let host := default (str "127.0.0.1") (argv !! 1%nat) in
  let? port := match argv !! 2%nat with
               | Some p => let? n := stoi p in Ret (u16 n)
               | None => Ret 6379
               end in
  Ret (host, port).

(** [main] up to [Connect], whose result is a parameter. *)
Definition main_of (connects : bytes -> Z -> bool) (failed : bytes -> Z -> bytes)
    (body : prog outcome) (argv : list bytes) : res (prog outcome) :=
  let? (host, port) := endpoint argv in
  Ret (if connects host port then body else Done (MkOutcome [] (failed host port ++ endl) None 1)).

Definition connect_failed (host : bytes) (port : Z) : bytes := str "Failed to connect".
Definition connect_failed_to (host : bytes) (port : Z) : bytes :=
  str "Failed to connect to " ++ host ++ str ":" ++ to_string port.

(** [return fail > 0 ? 1 : 0] *)
Definition exit_code (failed : bool) : Z := if failed then 1 else 0.

(** ** The programs *)

(** The loop of [burst_client] and [steady_client]: set [n] keys from [from] on, and count. *)
Definition set_keys (prefix : bytes) (n : nat) (from : Z) : prog (Z * Z) :=
  for_loop n from (fun i '(ok, fail) =>
    let* r := call (CSet (key_of i) (prefix ++ to_string i)) in
    Done (if r : bool then (ok + 1, fail) else (ok, fail + 1))) (0, 0).

Definition counts (name : bytes) '((ok, fail) : Z * Z) : outcome :=
  MkOutcome (name ++ str " DONE: " ++ to_string ok ++ str " ok, " ++ to_string fail ++ str " fail" ++ endl)
    [] None (exit_code (bool_decide (0 < fail))).

Definition burst_client : prog outcome :=
  let* c := set_keys (str "burst_") 50 0 in Done (counts (str "BURST") c).

Definition steady_client : prog outcome :=
  let* c := set_keys (str "steady_") 30 50 in Done (counts (str "STEADY") c).

(** [std::cout << name << " DONE: " << what << " " << a << "/" << b << " SET " ...] *)
Definition two_counts (name what : bytes) '((a, b, c, d) : Z * Z * Z * Z) : outcome :=
  MkOutcome (name ++ str " DONE: " ++ what ++ str " " ++ to_string a ++ str "/" ++ to_string b
             ++ str " SET " ++ to_string c ++ str "/" ++ to_string d ++ endl)
    [] None (exit_code (bool_decide (0 < b) || bool_decide (0 < d))).

Definition delete_client : prog outcome :=
  let* c := for_loop 10 80 (fun i '(del_ok, del_fail, set_ok, set_fail) =>
    let* d := call (CDelete (key_of i)) in
    let '(del_ok, del_fail) := if d : bool then (del_ok + 1, del_fail) else (del_ok, del_fail + 1) in
    let* r := call (CSet (key_of i) (str "del_" ++ to_string i)) in
    Done (if r : bool then (del_ok, del_fail, set_ok + 1, set_fail)
          else (del_ok, del_fail, set_ok, set_fail + 1))) (0, 0, 0, 0) in
  Done (two_counts (str "DELETE") (str "DEL") c).

Definition modify_client : prog outcome :=
  let* c := for_loop 10 90 (fun i '(get_ok, get_fail, set_ok, set_fail) =>
    let* current := call (CGet (key_of i)) in
    let '(get_ok, get_fail) :=
      match current : option bytes with
      | Some _ => (get_ok + 1, get_fail)
      | None => (get_ok, get_fail + 1)
      end in
    let* r := call (CSet (key_of i) (str "modify_" ++ to_string i)) in
    Done (if r : bool then (get_ok, get_fail, set_ok + 1, set_fail)
          else (get_ok, get_fail, set_ok, set_fail + 1))) (0, 0, 0, 0) in
  Done (two_counts (str "MODIFY") (str "GET") c).

Definition writer_client : prog outcome :=
  let* c := for_loop 100 0 (fun i '(success, fail, err) =>
    let* r := call (CSet (key_of i) (str "value_" ++ setw2 i)) in
    Done (if r : bool then (success + 1, fail, err)
          else (success, fail + 1, err ++ str "FAIL SET " ++ key_of i ++ endl))) (0, 0, []) in
  let '(success, fail, err) := c in
  Done (MkOutcome (str "WRITER DONE: " ++ to_string success ++ str " ok, " ++ to_string fail
                   ++ str " fail" ++ endl) err None (exit_code (bool_decide (0 < fail)))).

(** The loop of [reader_client]; [timeout i] is the flag at the head of round [i]. *)
Fixpoint read_keys (timeout : Z -> bool) (n : nat) (i found missing : Z) (ofs : bytes)
  : prog (Z * Z * bytes * bytes) :=
  match n with
  | O => Done (found, missing, ofs, [])
  | S n =>
      if timeout i then
        Done (found, missing, ofs,
              str "TIMEOUT after reading " ++ to_string (found + missing) ++ str " keys" ++ endl)
      else
        let* value := call (CGet (key_of i)) in
        match value : option bytes with
        | Some v => read_keys timeout n (i + 1) (found + 1) missing
                      (ofs ++ key_of i ++ str "=" ++ v ++ endl)
        | None => read_keys timeout n (i + 1) found (missing + 1)
                      (ofs ++ key_of i ++ str "=MISSING" ++ endl)
        end
  end.

(** [opens]: the output file could be opened. *)
Definition reader_client (timeout : Z -> bool) (opens : bool) (output_file : bytes) : prog outcome :=
  if opens then
    let* r := read_keys timeout 100 0 0 0 [] in
    let '(found, missing, ofs, err) := r in
    Done (MkOutcome (str "READER DONE: " ++ to_string found ++ str " found, " ++ to_string missing
                     ++ str " missing" ++ endl) err (Some ofs) 0)
  else Done (MkOutcome [] (str "Failed to open " ++ output_file ++ endl) None 1).

(** [argv[3]] and [argv[4]] of [reader_client], read before it connects. *)
Definition reader_args (argv : list bytes) : res (bytes * Z) :=
  let? timeout_sec := match argv !! 4%nat with Some t => stoi t | None => Ret 10 end in
  Ret (default (str "result.txt") (argv !! 3%nat), timeout_sec).

(** The mains. [connects] says whether the connection to a host and port comes about,
    [opens] whether a file can be written. *)
Definition burst_main connects := main_of connects connect_failed burst_client.
Definition steady_main connects := main_of connects connect_failed steady_client.
Definition delete_main connects := main_of connects connect_failed delete_client.
Definition modify_main connects := main_of connects connect_failed modify_client.
Definition writer_main connects := main_of connects connect_failed_to writer_client.

Definition reader_main (connects : bytes -> Z -> bool) (opens : bytes -> bool) (timeout : Z -> bool)
    (argv : list bytes) : res (prog outcome) :=
  let? _ := endpoint argv in
  let? (output_file, timeout_sec) := reader_args argv in
  main_of connects connect_failed_to (reader_client timeout (opens output_file) output_file) argv.

(** ** What the test expects *)

(** [expected] of [verify_result], and the file that passes it. *)
Definition expected_value (i : Z) : bytes :=
  (if decide (i < 50) then str "burst_" else if decide (i < 80) then str "steady_"
   else if decide (i < 90) then str "del_" else str "modify_") ++ to_string i.

Definition indices : list Z := seqZ 0 100.

Definition expected_map : gmap bytes bytes :=
  list_to_map (map (fun i => (key_of i, expected_value i)) indices).

Definition expected_file : bytes :=
  concat (map (fun i => key_of i ++ str "=" ++ expected_value i ++ endl) indices).

Definition clients : list (prog outcome) :=
  [burst_client; steady_client; delete_client; modify_client].

(** With arguments that can be read, a connection and an output file, the mains run the
    bodies above. *)
Lemma mains_start argv host port out timeout_sec timeout :
  endpoint argv = Ret (host, port) -> reader_args argv = Ret (out, timeout_sec) ->
  map (fun main => main (fun _ _ => true) argv) [burst_main; steady_main; delete_main; modify_main]
    = map Ret clients /\
  writer_main (fun _ _ => true) argv = Ret writer_client /\
  reader_main (fun _ _ => true) (fun _ => true) timeout argv = Ret (reader_client timeout true out).
Proof.
  intros Ha Hr.
  unfold burst_main, steady_main, delete_main, modify_main, writer_main, reader_main, main_of.
  rewrite Ha, Hr. cbn [map res_bind]. by rewrite Ha.
Qed.

(** The keys each of them uses. *)
Definition keys_from (from : Z) (n : Z) : gset bytes := list_to_set (map key_of (seqZ from n)).

Definition client_keys : list (gset bytes) :=
  [keys_from 0 50; keys_from 50 30; keys_from 80 10; keys_from 90 10].

(** The map after the writer. *)
Definition written : gmap bytes bytes := (run_map writer_client ∅).2.


(** ** The calls of the programs are carried out *)

Definition all_keys : gset bytes := keys_from 0 100.

(** What the test's programs maintain: short values under the hundred keys; [b] says that
    the first key, which nobody deletes, is there. *)
Definition test_map (b : bool) (m : gmap bytes bytes) : Prop :=
  map_Forall (fun _ v => fits16 v) m /\ dom m ⊆ all_keys /\
  (b = true -> key_of 0 ∈ dom m).

Lemma all_keys_fit k : k ∈ all_keys -> fits16 k.
Proof.
  assert (set_Forall fits16 all_keys) as H by (apply (bool_decide_unpack _); vm_compute; exact I).
  apply H.
Qed.

Lemma fits16_arg s : fits16 s -> arg_fits s.
Proof. unfold fits16, arg_fits, INT_MAX. lia. Qed.

Lemma test_map_size b m : test_map b m -> Z.of_nat (size m) <= 100.
Proof.
  intros (_ & Hd & _). rewrite <-size_dom.
  assert (size all_keys = 100%nat) as H by (vm_compute; reflexivity).
  pose proof (subseteq_size _ _ Hd). lia.
Qed.

#[local] Opaque all_keys.

Lemma test_map_insert b k v m : test_map b m -> k ∈ all_keys -> fits16 v -> test_map b (<[k := v]> m).
Proof.
  intros (Hv & Hd & Hb) Hk Hfit. split; [by apply map_Forall_insert_2|].
  rewrite dom_insert. split; [by apply union_least; [apply singleton_subseteq_l|]|].
  intros E. apply elem_of_union_r. by apply Hb.
Qed.

Lemma test_map_delete k m :
  test_map true m -> k <> key_of 0 -> test_map true (delete k m) /\ delete k m <> ∅.
Proof.
  intros (Hv & Hd & Hb) Hne. specialize (Hb eq_refl). split; [split; [|split]|].
  - by apply map_Forall_delete.
  - rewrite dom_delete. intros x [Hx _]%elem_of_difference. exact (Hd x Hx).
  - intros _. apply elem_of_dom. rewrite lookup_delete_ne by done. by apply elem_of_dom.
  - intros E. apply elem_of_dom in Hb as [v Hlook].
    assert (delete k m !! key_of 0 = Some v) as Hlook' by by rewrite lookup_delete_ne.
    by rewrite E in Hlook'.
Qed.

#[local] Abbreviation keeps_test b := (keeps store_admits (test_map b)).

Lemma keeps_set b {A : Type} k v (f : bool -> prog A) :
  k ∈ all_keys -> fits16 v -> (forall r, keeps_test b (f r)) -> keeps_test b (Call (CSet k v) f).
Proof.
  intros Hk Hv Hf. constructor; [|done]. intros m Hm. simpl.
  pose proof (test_map_insert b k v m Hm Hk Hv) as Hm'. pose proof (test_map_size _ _ Hm').
  split_and!; auto using fits16_arg, all_keys_fit. unfold store_admits.
  split_and!; auto using all_keys_fit. lia.
Qed.

Lemma keeps_get b {A : Type} k (f : option bytes -> prog A) :
  k ∈ all_keys -> (forall r, keeps_test b (f r)) -> keeps_test b (Call (CGet k) f).
Proof.
  intros Hk Hf. constructor; [|done]. intros m Hm. simpl. pose proof Hm as (Hv & _).
  split; [|exact Hm]. split; [by apply fits16_arg, all_keys_fit|].
  intros v Hkv. apply fits16_arg. by apply (Hv k).
Qed.

Lemma keeps_delete {A : Type} k (f : bool -> prog A) :
  k ∈ all_keys -> k <> key_of 0 -> (forall r, keeps_test true (f r)) ->
  keeps_test true (Call (CDelete k) f).
Proof.
  intros Hk Hne Hf. constructor; [|done]. intros m Hm. simpl.
  destruct (test_map_delete k m Hm Hne).
  unfold store_admits. split_and!; auto using fits16_arg, all_keys_fit.
Qed.

(** A property of programs that holds of [Done] and of sequences holds of a loop when it
    holds of the rounds. *)
Lemma for_loop_ind {A : Type} (P : prog A -> Prop) (body : Z -> A -> prog A) n : forall from a,
  (forall a, P (Done a)) ->
  (forall p f, P p -> (forall a, P (f a)) -> P (prog_bind p f)) ->
  (forall i a, from <= i < from + Z.of_nat n -> P (body i a)) ->
  P (for_loop n from body a).
Proof.
  induction n as [|n IH]; intros from a Hd Hb Hi; simpl; [apply Hd|].
  apply Hb; [apply Hi; lia|]. intros a'. apply IH; [done|done|]. intros. apply Hi. lia.
Qed.

(** The keys and values of the test, checked one by one. *)
Lemma index_facts i :
  0 <= i < 100 ->
  key_of i ∈ all_keys /\ (80 <= i -> key_of i <> key_of 0) /\
  fits16 (str "burst_" ++ to_string i) /\ fits16 (str "steady_" ++ to_string i) /\
  fits16 (str "del_" ++ to_string i) /\ fits16 (str "modify_" ++ to_string i) /\
  fits16 (str "value_" ++ setw2 i).
Proof.
  intros Hi. assert (Forall (fun i =>
    key_of i ∈ all_keys /\ (i < 80 \/ key_of i <> key_of 0) /\
    fits16 (str "burst_" ++ to_string i) /\ fits16 (str "steady_" ++ to_string i) /\
    fits16 (str "del_" ++ to_string i) /\ fits16 (str "modify_" ++ to_string i) /\
    fits16 (str "value_" ++ setw2 i)) indices) as H.
  { apply (bool_decide_unpack _). vm_compute. exact I. }
  rewrite Forall_forall in H. destruct (H i) as (? & Hne & ?); [apply elem_of_seqZ; lia|].
  split; [done|]. split; [|done]. intros ?. by destruct Hne; [lia|].
Qed.

Lemma writer_keeps : keeps_test false writer_client.
Proof.
  apply keeps_bind; [|intros [[? ?] ?]; constructor].
  apply for_loop_ind; [constructor|by intros; apply keeps_bind|]. intros i [[ok fail] err] Hi.
  destruct (index_facts i) as (Hk & _ & _ & _ & _ & _ & Hv); [lia|].
  apply keeps_set; [done|done|]. intros []; constructor.
Qed.

Lemma set_keys_keeps prefix n from b :
  0 <= from -> from + Z.of_nat n <= 100 ->
  (forall i, 0 <= i < 100 -> fits16 (prefix ++ to_string i)) -> keeps_test b (set_keys prefix n from).
Proof.
  intros H0 Hn Hv. unfold set_keys. apply for_loop_ind; [constructor|by intros; apply keeps_bind|].
  intros i [ok fail] Hi. destruct (index_facts i) as [Hk _]; [lia|].
  apply keeps_set; [done|apply Hv; lia|]. intros []; constructor.
Qed.

Lemma delete_keeps : keeps_test true delete_client.
Proof.
  apply keeps_bind; [|constructor].
  apply for_loop_ind; [constructor|by intros; apply keeps_bind|]. intros i [[[d1 d2] s1] s2] Hi.
  destruct (index_facts i) as (Hk & Hne & _ & _ & Hv & _); [lia|].
  apply keeps_delete; [done|apply Hne; lia|]. intros []; simpl;
    (apply keeps_set; [done|done|intros []; constructor]).
Qed.

Lemma modify_keeps : keeps_test true modify_client.
Proof.
  apply keeps_bind; [|constructor].
  apply for_loop_ind; [constructor|by intros; apply keeps_bind|]. intros i [[[d1 d2] s1] s2] Hi.
  destruct (index_facts i) as (Hk & Hne & _ & _ & _ & Hv & _); [lia|].
  apply keeps_get; [done|]. intros []; simpl; (apply keeps_set; [done|done|intros []; constructor]).
Qed.

Lemma clients_keep : Forall (keeps_test true) clients.
Proof.
  repeat (apply Forall_cons; split); [| | | |by apply Forall_nil].
  - apply keeps_bind; [|constructor]. apply set_keys_keeps; [lia|lia|apply index_facts].
  - apply keeps_bind; [|constructor]. apply set_keys_keeps; [lia|lia|apply index_facts].
  - apply delete_keeps.
  - apply modify_keeps.
Qed.

Lemma read_keys_keeps timeout n : forall i found missing ofs,
  0 <= i -> i + Z.of_nat n <= 100 -> keeps_test true (read_keys timeout n i found missing ofs).
Proof.
  induction n as [|n IH]; intros i found missing ofs Hi Hn; cbn [read_keys]; [constructor|].
  destruct (timeout i); [constructor|]. destruct (index_facts i) as [Hk _]; [lia|].
  apply keeps_get; [done|]. intros []; apply IH; lia.
Qed.

Lemma reader_keeps timeout opens f : keeps_test true (reader_client timeout opens f).
Proof.
  unfold reader_client. destruct opens; [|constructor].
  apply keeps_bind; [by apply read_keys_keeps|]. intros [[[? ?] ?] ?]. constructor.
Qed.

#[local] Transparent all_keys.

(** ** Each client has its own keys *)

Lemma key_of_inj i j : 0 <= i < 100 -> 0 <= j < 100 -> key_of i = key_of j -> i = j.
Proof.
  assert (Forall (fun i => stoi (drop 4 (key_of i)) = Ret i) indices) as H.
  { apply (bool_decide_unpack _). vm_compute. exact I. }
  rewrite Forall_forall in H. intros Hi Hj E.
  pose proof (H i ltac:(apply elem_of_seqZ; lia)) as Ei.
  pose proof (H j ltac:(apply elem_of_seqZ; lia)) as Ej. congruence.
Qed.

Lemma elem_of_keys_from x from n :
  x ∈ keys_from from n <-> exists i, x = key_of i /\ from <= i < from + n.
Proof.
  unfold keys_from. rewrite elem_of_list_to_set, list_elem_of_fmap.
  by setoid_rewrite elem_of_seqZ.
Qed.

Lemma keys_from_disjoint a n b k :
  0 <= a -> a + n <= b -> b + k <= 100 -> keys_from a n ## keys_from b k.
Proof.
  intros Ha Hab Hb x (i & -> & Hi)%elem_of_keys_from (j & E & Hj)%elem_of_keys_from.
  apply key_of_inj in E; lia.
Qed.

Lemma client_keys_disjoint : disjoint_keys client_keys.
Proof.
  intros i j K K' Hij. unfold client_keys.
  destruct i as [|[|[|[|i]]]], j as [|[|[|[|j]]]]; try done; intros [= <-] [= <-];
    first [apply keys_from_disjoint; lia|symmetry; apply keys_from_disjoint; lia].
Qed.

Lemma client_keys_cover x : (forall K, K ∈ client_keys -> x ∉ K) -> x ∉ all_keys.
Proof.
  intros H (i & -> & Hi)%elem_of_keys_from.
  assert (forall from n, keys_from from n ∈ client_keys -> ~ from <= i < from + n) as Hout.
  { intros from n Hin Hr. apply (H _ Hin), elem_of_keys_from. by exists i. }
  assert (forall j, client_keys !! j <> None -> default ∅ (client_keys !! j) ∈ client_keys) as Hj.
  { intros j Hl. destruct (client_keys !! j) eqn:E; [|done]. by eapply list_elem_of_lookup_2. }
  pose proof (Hout 0 50 (Hj 0%nat ltac:(done))). pose proof (Hout 50 30 (Hj 1%nat ltac:(done))).
  pose proof (Hout 80 10 (Hj 2%nat ltac:(done))). pose proof (Hout 90 10 (Hj 3%nat ltac:(done))). lia.
Qed.

Lemma set_keys_within prefix n from k :
  k = Z.of_nat n -> within (keys_from from k) (set_keys prefix n from).
Proof.
  intros ->. unfold set_keys. apply for_loop_ind; [constructor|by intros; apply within_bind|].
  intros i [ok fail] Hi. apply within_call with (key_of i); [done| |intros []; constructor].
  apply elem_of_keys_from. by exists i.
Qed.

Lemma clients_within : Forall2 (fun K p => within K p) client_keys clients.
Proof.
  repeat (apply Forall2_cons; split); [| | | |by apply Forall2_nil].
  1, 2: by apply within_bind; [apply set_keys_within|constructor].
  all: apply within_bind; [|constructor];
    apply for_loop_ind; [constructor|by intros; apply within_bind|];
    intros i [[[a b] c] d] Hi;
    (eapply within_call; [done|apply elem_of_keys_from; by exists i|]); intros []; simpl;
    (eapply within_call; [done|apply elem_of_keys_from; by exists i|]); intros []; constructor.
Qed.

(** ** The map after the clients *)

Lemma written_ok : test_map true written.
Proof.
  destruct (keeps_admissible _ _ _ writer_keeps ∅) as [_ (Hv & Hd & _)].
  { split; [apply map_Forall_empty|]. split; [|done]. rewrite dom_empty. apply empty_subseteq. }
  split; [done|]. split; [done|]. intros _. apply (bool_decide_unpack _). vm_compute. exact I.
Qed.

(** Alone, each client turns what the writer left into what is expected on its keys. *)
Lemma clients_alone p K :
  (p, K) ∈ zip clients client_keys -> agree K (run_map p written).2 expected_map.
Proof.
  assert (Forall (fun '(p, K) => set_Forall (fun x => (run_map p written).2 !! x = expected_map !! x) K)
    (zip clients client_keys)) as H.
  { repeat (apply Forall_cons; split); [..|by apply Forall_nil];
      apply (bool_decide_unpack _); vm_compute; exact I. }
  rewrite Forall_forall in H. intros Hin x Hx. exact (H _ Hin x Hx).
Qed.

Lemma expected_dom : dom expected_map = all_keys.
Proof. apply (bool_decide_unpack _). vm_compute. exact I. Qed.

Lemma clients_end m' :
  (forall i p K, clients !! i = Some p -> client_keys !! i = Some K -> agree K m' (run_map p written).2) ->
  (forall x, (forall K, K ∈ client_keys -> x ∉ K) -> m' !! x = written !! x) ->
  m' = expected_map.
Proof.
  intros Hin Hout. apply map_eq. intros x.
  destruct (decide (Exists (fun K => x ∈ K) client_keys)) as [Hex|Hno].
  - apply Exists_exists in Hex as (K & [i HK]%list_elem_of_lookup_1 & Hx).
    destruct (lookup_lt_is_Some_2 clients i) as [p Hp].
    { apply lookup_lt_Some in HK. exact HK. }
    rewrite (Hin i p K Hp HK x Hx). apply (clients_alone p K); [|done].
    apply list_elem_of_lookup_2 with i. apply lookup_zip_with_Some. by exists p, K.
  - assert (forall K, K ∈ client_keys -> x ∉ K) as HK.
    { intros K HK Hx. apply Hno, Exists_exists. by exists K. }
    rewrite (Hout x HK). pose proof (client_keys_cover x HK) as Hx.
    assert (x ∉ dom expected_map) as He by by rewrite expected_dom.
    apply not_elem_of_dom in He. rewrite He. apply not_elem_of_dom.
    intros Hw. exact (Hx (proj1 (proj2 written_ok) x Hw)).
Qed.

(** ** The test passes *)

#[local] Opaque written expected_map writer_client clients.


Definition writer_outcome : outcome := MkOutcome (str "WRITER DONE: 100 ok, 0 fail" ++ endl) [] None 0.
Definition client_outcomes : list outcome :=
  [MkOutcome (str "BURST DONE: 50 ok, 0 fail" ++ endl) [] None 0;
   MkOutcome (str "STEADY DONE: 30 ok, 0 fail" ++ endl) [] None 0;
   MkOutcome (str "DELETE DONE: DEL 10/0 SET 10/0" ++ endl) [] None 0;
   MkOutcome (str "MODIFY DONE: GET 10/0 SET 10/0" ++ endl) [] None 0].
Definition reader_outcome : outcome :=
  MkOutcome (str "READER DONE: 100 found, 0 missing" ++ endl) [] (Some expected_file) 0.

Lemma writer_result : (run_map writer_client ∅).1 = writer_outcome.
Proof. vm_compute. reflexivity. Qed.

Lemma client_results : map (fun p => (run_map p written).1) clients = client_outcomes.
Proof. vm_compute. reflexivity. Qed.

Lemma reader_result f :
  run_map (reader_client (fun _ => false) true f) expected_map = (reader_outcome, expected_map).
Proof.
  assert (forall timeout n i found missing ofs m,
    (run_map (read_keys timeout n i found missing ofs) m).2 = m) as Hsame.
  { intros timeout n. induction n as [|n IH]; intros; simpl; [done|].
    destruct (timeout i); [done|]. simpl. destruct (m !! key_of i); apply IH. }
  apply injective_projections; [vm_compute; reflexivity|].
  unfold reader_client. rewrite run_map_bind. destruct (run_map (read_keys _ _ _ _ _ _) _) as [[[[? ?] ?] ?] m] eqn:E.
  simpl. by rewrite <-(Hsame (fun _ => false) 100%nat 0 0 0 [] expected_map), E.
Qed.

#[local] Opaque reader_client.

Section test.
Context (hash : Z -> Z) (request_cut reply_cut : bytes -> list bytes).
Context (Hrequest : segmentation request_cut) (Hreply : segmentation reply_cut).

(** A server that starts on a store accepts connections. *)
Lemma new_connection st fd : store_ok st -> connection_ok store_ok hash fd (KvServer_new st).
Proof.
  intros Hok. split; [reflexivity|]. split; [exact Hok|]. by rewrite reader_new.
Qed.

Lemma new_contents st : contents (store_ (KvServer_new st)) = data st.
Proof. reflexivity. Qed.

(** The writer, on a server with an empty data directory. *)
Lemma writer_runs dir e :
  env_ok e ->
  exists s, run_client (server_peer hash 4 request_cut reply_cut) writer_client
      (MkClient 3 [] (KvServer_new (started_store dir e))) = (Ret writer_outcome, MkClient 3 [] s) /\
    connections_ok store_ok hash [5; 6; 7; 8] s /\ contents (store_ s) = written.
Proof.
  intros He. destruct (started_store_ok dir e He) as (Hok & Hd & _).
  assert (admissible store_admits writer_client (contents (store_ (KvServer_new (started_store dir e))))) as Hadm.
  { rewrite new_contents, Hd. apply (keeps_admissible _ _ _ writer_keeps). split; [apply map_Forall_empty|].
    split; [|done]. rewrite dom_empty. apply empty_subseteq. }
  destruct (run_client_ok store_ok store_admits hash request_cut reply_cut Hrequest Hreply
    4 3 writer_client _ ltac:(lia) (new_connection _ 4 Hok) Hadm) as (s & Hrun & Hs & Hc & Hothers).
  rewrite new_contents, Hd in Hrun, Hc. rewrite writer_result in Hrun.
  exists s. split; [exact Hrun|]. split; [|exact Hc].
  apply (connections_kept store_ok hash [5; 6; 7; 8] 4 (KvServer_new (started_store dir e))); [|exact Hs|exact Hothers].
  intros fd _. by apply new_connection.
Qed.

(** The four clients, in any order of turns. *)
Lemma clients_run s sched ps' m' :
  connections_ok store_ok hash [5; 6; 7; 8] s -> contents (store_ s) = written ->
  turns sched (clients, written) = Some (ps', m') -> forallb is_done ps' = true ->
  exists s', serve_turns hash request_cut reply_cut sched (zip [5; 6; 7; 8] clients, s)
      = Some (zip [5; 6; 7; 8] (map Done client_outcomes), s') /\
    store_ok (store_ s') /\ contents (store_ s') = expected_map.
Proof.
  intros Hs Hc Hturns Hdone.
  destruct (disjoint_turns client_keys clients written sched ps' m' clients_within
    client_keys_disjoint Hturns Hdone) as (Hps & Hin & Hout).
  pose proof (clients_end m' Hin Hout) as Hm.
  destruct (serve_turns_ok store_ok store_admits hash request_cut reply_cut Hrequest Hreply
    (test_map true) [5; 6; 7; 8] sched clients s ps' m') as (s' & Hrun & Hc' & Hs' & _);
    [done|done|apply clients_keep|rewrite Hc; apply written_ok|by rewrite Hc|].
  exists s'. split; [|split; [|congruence]].
  - rewrite Hrun, Hps, <-client_results. by rewrite map_map.
  - apply (Hs' 5). by left.
Qed.

(** The reader, on a server that starts with what is expected. *)
Lemma reader_runs st f :
  store_ok st -> data st = expected_map ->
  exists s, run_client (server_peer hash 4 request_cut reply_cut) (reader_client (fun _ => false) true f)
      (MkClient 3 [] (KvServer_new st)) = (Ret reader_outcome, MkClient 3 [] s) /\
    contents (store_ s) = expected_map.
Proof.
  intros Hok Hd.
  assert (test_map true expected_map) as Ht.
  { apply (bool_decide_unpack _). vm_compute. exact I. }
  assert (admissible store_admits (reader_client (fun _ => false) true f)
    (contents (store_ (KvServer_new st)))) as Hadm.
  { rewrite new_contents, Hd. exact (proj1 (keeps_admissible _ _ _ (reader_keeps _ _ _) _ Ht)). }
  destruct (run_client_ok store_ok store_admits hash request_cut reply_cut Hrequest Hreply
    4 3 _ _ ltac:(lia) (new_connection _ 4 Hok) Hadm) as (s & Hrun & Hs & Hc & _).
  rewrite new_contents, Hd, (reader_result f) in Hrun, Hc. by exists s.
Qed.
End test.

(** C8: The programs of the integration test, served in turns: the server starts with an
    empty data directory and handles one whole request at a time, without faults. Then,
    whatever the order in which the four clients take turns, however the network cuts
    requests and replies, and whatever the clock and the traversal orders of the server,
    every program prints that nothing failed and returns 0, and after the server is killed
    between two requests and started again, without any shutdown, the reader's file has the
    hundred lines the test compares it with. The deployed server has four workers: a
    snapshot of one can then lose the write of another, see [snapshot_loses_in_flight]. *)
Theorem d2d_programs_in_turns hash request_cut reply_cut dir sched ps' m' e0 e f :
  segmentation request_cut -> segmentation reply_cut -> env_ok e0 -> env_ok e ->
  turns sched (clients, written) = Some (ps', m') -> forallb is_done ps' = true ->
  exists s1 s2 st s3,
    run_client (server_peer hash 4 request_cut reply_cut) writer_client
      (MkClient 3 [] (KvServer_new (started_store dir e0))) = (Ret writer_outcome, MkClient 3 [] s1) /\
    serve_turns hash request_cut reply_cut sched (zip [5; 6; 7; 8] clients, s1)
      = Some (zip [5; 6; 7; 8] (map Done client_outcomes), s2) /\
    restart (store_ s2) e = (Ret tt, st) /\
    run_client (server_peer hash 4 request_cut reply_cut) (reader_client (fun _ => false) true f)
      (MkClient 3 [] (KvServer_new st)) = (Ret reader_outcome, MkClient 3 [] s3).
Proof.
  intros Hreq Hrep He0 He Hturns Hdone.
  destruct (writer_runs hash request_cut reply_cut Hreq Hrep dir e0 He0) as (s1 & Hw & Hs1 & Hc1).
  destruct (clients_run hash request_cut reply_cut Hreq Hrep s1 sched ps' m' Hs1 Hc1 Hturns Hdone)
    as (s2 & Hrun & [Hc Hf] & Hc2).
  destruct (restart_consistent (store_ s2) e Hc He) as (st & Hre & Hok & Hd).
  destruct (reader_runs hash request_cut reply_cut Hreq Hrep st f Hok) as (s3 & Hr & _).
  { by rewrite Hd. }
  by exists s1, s2, st, s3.
Qed.

(** The clients served in turn, a round-robin while all of them have work left. *)
Definition round_robin : list nat :=
  concat (replicate 20 [0; 1; 2; 3]%nat) ++ concat (replicate 10 [1; 0]%nat) ++ replicate 20 0%nat.

Lemma d2d_programs_in_turns_witness :
  exists s1 s2 st s3,
    run_client (server_peer id 4 bytewise bytewise) writer_client
      (MkClient 3 [] (KvServer_new (fresh_store (str "d")))) = (Ret writer_outcome, MkClient 3 [] s1) /\
    serve_turns id bytewise bytewise round_robin (zip [5; 6; 7; 8] clients, s1)
      = Some (zip [5; 6; 7; 8] (map Done client_outcomes), s2) /\
    restart (store_ s2) plain_env = (Ret tt, st) /\
    run_client (server_peer id 4 bytewise bytewise) (reader_client (fun _ => false) true (str "r"))
      (MkClient 3 [] (KvServer_new st)) = (Ret reader_outcome, MkClient 3 [] s3).
Proof.
  assert (match turns round_robin (clients, written) with
          | Some (ps', _) => forallb is_done ps'
          | None => false
          end = true) as H by (vm_compute; reflexivity).
  destruct (turns round_robin (clients, written)) as [[ps' m']|] eqn:E; [|discriminate H].
  exact (d2d_programs_in_turns id bytewise bytewise (str "d") round_robin ps' m' plain_env plain_env (str "r")
    bytewise_segmentation bytewise_segmentation plain_env_ok plain_env_ok E H).
Defined.
