(* ===== verification/CliParser.v ===== *)
(** * The command line of the client: [src/client/cli_parser.cpp]

    [CliParser::Parse] reads one line with [std::istringstream]; the stream is the list
    of the characters not yet read. *)

From S2P Require Import Prelude CppString Protocol.

(** ** [std::istringstream] *)

(** The characters up to the first blank, and the rest. *)
Fixpoint read_word (s : bytes) : bytes * bytes :=
  match s with
  | [] => ([], [])
  | c :: s' => if isspace c then ([], s) else
      let (w, rest) := read_word s' in (c :: w, rest)
  end.

(** [iss >> token]: blanks are skipped, then a word is read. At the end of the stream
    the extraction fails and the string stays empty. *)
Definition extract (s : bytes) : bytes * bytes := read_word (skip_spaces s).

(** The characters up to the first newline. *)
Fixpoint read_line (s : bytes) : bytes :=
  match s with
  | [] => []
  | c :: s => if decide (c = LF) then [] else c :: read_line s
  end.

(** [std::getline(iss >> std::ws, value)] *)
Definition getline_ws (s : bytes) : bytes := read_line (skip_spaces s).

(** ** The parser *)

(** The branches of the commands with one argument. *)
Definition parse_key (t : CommandType) (iss : bytes) : Command :=
  let (key, _) := extract iss in
  if decide (key = []) then MkCommand UNKNOWN [] Error_WRONG_ARG_COUNT
  else MkCommand t [key] Error_NONE.

Definition Parse (line : bytes) : option Command :=
  let (token, iss) := extract line in
  if decide (token = []) then None else
  let upper := ToUpper token in
  if decide (upper = str "SET") then
    let (key, iss) := extract iss in
    if decide (key = []) then Some (MkCommand UNKNOWN [] Error_WRONG_ARG_COUNT)
    else Some (MkCommand SET [key; getline_ws iss] Error_NONE)
  else if decide (upper = str "GET") then Some (parse_key GET iss)
  else if decide (upper = str "DEL") then Some (parse_key DEL iss)
  else if decide (upper = str "EXISTS") then Some (parse_key EXISTS iss)
  else if decide (upper = str "KEYS") then Some (MkCommand KEYS [] Error_NONE)
  else Some (MkCommand UNKNOWN [] Error_UNKNOWN_COMMAND).

(** ** Lines a user types *)

(** A word: not empty, no blanks. *)
Definition word (s : bytes) : Prop := s <> [] /\ Forall (fun c => isspace c = false) s.

(** A value: not starting with a blank, on one line. *)
Definition one_line (s : bytes) : Prop :=
  (LF ∉ s) /\ match s with [] => True | c :: _ => isspace c = false end.

(** A command as a user types it, in any case, with any blanks between the parts. *)
Inductive types (spelled : CommandType -> bytes -> Prop) : Command -> bytes -> Prop :=
  | types_set name gap k gap' v :
      spelled SET name -> gap <> [] -> Forall isspace gap -> word k ->
      gap' <> [] -> Forall isspace gap' -> one_line v ->
      types spelled (MkCommand SET [k; v] Error_NONE) (name ++ gap ++ k ++ gap' ++ v)
  | types_key t name gap k rest :
      t = GET \/ t = DEL \/ t = EXISTS -> spelled t name -> gap <> [] -> Forall isspace gap ->
      word k -> match rest with [] => True | c :: _ => isspace c end ->
      types spelled (MkCommand t [k] Error_NONE) (name ++ gap ++ k ++ rest)
  | types_keys name rest :
      spelled KEYS name -> match rest with [] => True | c :: _ => isspace c end ->
      types spelled (MkCommand KEYS [] Error_NONE) (name ++ rest).

(** Any mixture of upper and lower case. *)
Definition spelled (t : CommandType) (name : bytes) : Prop := ToUpper name = command_name t.

Lemma read_word_word k rest :
  Forall (fun c => isspace c = false) k -> match rest with [] => True | c :: _ => isspace c end ->
  read_word (k ++ rest) = (k, rest).
Proof.
  intros Hk Hrest. induction Hk as [|c k Hc _ IH]; cbn [app read_word].
  - destruct rest as [|c rest]; [done|]. cbn [read_word]. by destruct (isspace c).
  - by rewrite Hc, IH.
Qed.

Lemma skip_spaces_app gap s :
  Forall isspace gap -> match s with [] => True | c :: _ => isspace c = false end ->
  skip_spaces (gap ++ s) = s.
Proof.
  intros Hgap Hs. induction Hgap as [|c gap Hc _ IH]; cbn [app skip_spaces].
  - destruct s as [|c s]; [done|]. cbn [skip_spaces]. by rewrite Hs.
  - by rewrite (Is_true_true_1 _ Hc).
Qed.

Lemma word_head k rest : word k -> match k ++ rest with [] => True | c :: _ => isspace c = false end.
Proof. intros [Hne Hk]. destruct k; [done|]. by inversion Hk. Qed.

Lemma extract_word gap k rest :
  Forall isspace gap -> word k -> match rest with [] => True | c :: _ => isspace c end ->
  extract (gap ++ k ++ rest) = (k, rest).
Proof.
  intros Hgap Hk Hrest. unfold extract. rewrite skip_spaces_app; [|done|by apply word_head].
  apply read_word_word; [apply Hk|done].
Qed.

Lemma gap_head gap s : gap <> [] -> Forall isspace gap ->
  match gap ++ s with [] => True | c :: _ => isspace c end.
Proof. intros Hne Hgap. destruct gap; [done|]. by inversion Hgap. Qed.

Lemma read_line_one v : LF ∉ v -> read_line v = v.
Proof.
  induction v as [|c v IH]; [done|]. intros Hv. apply not_elem_of_cons in Hv as [Hc Hv].
  simpl. rewrite decide_False by done. by rewrite IH.
Qed.

(** No blank becomes a letter in upper case. *)
Lemma to_upper_space c : isspace (to_upper_char c) = false -> isspace c = false.
Proof.
  unfold to_upper_char. case_decide as H; [|done]. intros _. apply bool_decide_false. lia.
Qed.

Lemma spelled_word t name : spelled t name -> word name.
Proof.
  unfold spelled. intros Hn. split.
  - intros ->. by destruct t.
  - assert (Forall (fun c => isspace c = false) (ToUpper name)) as Hup.
    { rewrite Hn. destruct t; repeat constructor. }
    unfold ToUpper in Hup. rewrite Forall_map in Hup. eapply Forall_impl; [exact Hup|].
    intros c. apply to_upper_space.
Qed.

Lemma extract_command t name rest :
  spelled t name -> match rest with [] => True | c :: _ => isspace c end ->
  extract (name ++ rest) = (name, rest).
Proof. intros Hn Hr. apply (extract_word []); [constructor|by eapply spelled_word|done]. Qed.

(** Every line a user can type for a command, in any mixture of cases and with any
    blanks, is parsed into that command. *)
Lemma parse_types c line : types spelled c line -> Parse line = Some c.
Proof.
  intros Ht. unfold Parse. destruct Ht as [name gap k gap' v Hn Hg0 Hg Hk Hg0' Hg' [Hlf Hv]
    |t name gap k rest Ht Hn Hg0 Hg Hk Hr|name rest Hn Hr].
  - rewrite (extract_command SET) by (try done; by apply gap_head).
    rewrite decide_False by (apply spelled_word in Hn as [? _]; done). rewrite Hn.
    rewrite decide_True by done. rewrite extract_word by (try done; by apply gap_head).
    rewrite decide_False by apply Hk. unfold getline_ws.
    rewrite skip_spaces_app by done. by rewrite read_line_one.
  - rewrite (extract_command t) by (try done; by apply gap_head).
    rewrite decide_False by (apply spelled_word in Hn as [? _]; done). rewrite Hn.
    assert (parse_key t (gap ++ k ++ rest) = MkCommand t [k] Error_NONE) as Hp.
    { unfold parse_key. rewrite extract_word by done. by rewrite decide_False by apply Hk. }
    destruct Ht as [->|[->| ->]]; cbn [command_name]; by rewrite Hp.
  - rewrite (extract_command KEYS) by done.
    rewrite decide_False by (apply spelled_word in Hn as [? _]; done). by rewrite Hn.
Qed.

Example parse_types_example :
  Parse (str "sEt" ++ str "  " ++ str "name" ++ str " " ++ str "alice in chains")
    = Some (MkCommand SET [str "name"; str "alice in chains"] Error_NONE).
Proof.
  apply parse_types.
  apply types_set;
    lazymatch goal with
    | |- spelled _ _ => reflexivity
    | |- _ <> _ => discriminate
    | |- word _ => split; [discriminate|repeat constructor]
    | |- one_line _ => split; [apply (bool_decide_unpack _); reflexivity|reflexivity]
    | |- _ => repeat constructor
    end.
Qed.

(** A SET without a value is not reported as a wrong number of arguments: it is parsed as
    a SET of the empty value. *)
Theorem set_without_value k :
  word k -> Parse (str "SET " ++ k) = Some (MkCommand SET [k; []] Error_NONE).
Proof.
  intros Hk. unfold Parse. change (str "SET " ++ k) with (str "SET" ++ str " " ++ k).
  rewrite (extract_command SET) by done. rewrite decide_False, decide_True by done.
  rewrite <-(app_nil_r k) at 1. rewrite extract_word by first [done | by repeat constructor].
  by rewrite decide_False by apply Hk.
Qed.

Lemma set_without_value_witness :
  Parse (str "SET " ++ str "name") = Some (MkCommand SET [str "name"; []] Error_NONE).
Proof. apply set_without_value. split; [discriminate|repeat constructor]. Defined.
