(* ===== verification/Config.v ===== *)
(** * The server's configuration: [ServerConfig] of [src/server/config.cpp]

    Reading and writing the configuration file, whose contents are a byte string here,
    and the command-line overrides. *)

From S2P Require Import Prelude CppString.

(** ** Helpers of the file *)

(** The characters of [" \t\r\n"]. *)
Definition is_blank (c : byte) : bool :=
  bool_decide (c = Byte.x20 \/ c = Byte.x09 \/ c = CR \/ c = LF).

Fixpoint find_first_not_of (s : bytes) (i : Z) : option Z :=
  match s with
  | [] => None
  | c :: s => if is_blank c then find_first_not_of s (i + 1) else Some i
  end.

(** The position of the last character of [s] that is not a blank. *)
Fixpoint find_last_not_of (s : bytes) (i : Z) (last : option Z) : option Z :=
  match s with
  | [] => last
  | c :: s => find_last_not_of s (i + 1) (if is_blank c then last else Some i)
  end.

Definition Trim (s : bytes) : res bytes :=
  match find_first_not_of s 0 with
  | None => Ret []
  | Some start =>
      match find_last_not_of s 0 None with
      | Some e => substr s start (e - start + 1)
      | None => substr s start (u64 (-1 - start + 1))
      end
  end.

Definition to_lower_char (c : byte) : byte :=
  if decide (65 <= b2z c <= 90) then z2b (b2z c + 32) else c.

Definition ToLower (s : bytes) : bytes := map to_lower_char s.

(** [std::stoul]: as [std::stoi], on 64 bits, a sign negating modulo 2^64. *)
Definition stoul (s : bytes) : res Z :=
  let s := skip_spaces s in
  let '(neg, s) :=
    match s with
    | c :: s' => if decide (c = Byte.x2d) then (true, s')
                 else if decide (c = Byte.x2b) then (false, s') else (false, s)
    | [] => (false, s)
    end in
  let (n, any) := read_digits s 0 false in
  if any then
    if decide (n < 2 ^ 64) then Ret (if neg then u64 (- n) else n) else Throw OutOfRange
  else Throw InvalidArgument.

(** [s.find('=')] *)
Fixpoint find_eq (s : bytes) (i : Z) : option Z :=
  match s with
  | [] => None
  | c :: s => if decide (c = Byte.x3d) then Some i else find_eq s (i + 1)
  end.

(** The lines [std::getline] yields one after the other; [cur] is the line being read. *)
Fixpoint split_lines (s : bytes) (cur : bytes) : list bytes :=
  match s with
  | [] => match cur with [] => [] | _ => [cur] end
  | c :: s => if decide (c = LF) then cur :: split_lines s [] else split_lines s (cur ++ [c])
  end.

(** ** The configuration *)

Record ServerConfig := MkServerConfig {
  port : Z;
  data_dir : bytes;
  log_level : bytes;
  log_dir : bytes;
  log_max_files : Z;
  log_max_size_mb : Z
}.

Definition default_config : ServerConfig :=
  MkServerConfig 6379 (str "./data") (str "info") (str "logs") 5 5.

(** One assignment [key=value]. *)
Definition set_field (key value : bytes) (c : ServerConfig) : res ServerConfig :=
  if decide (key = str "port") then
    let? n := stoi value in
    Ret (MkServerConfig (u16 n) (data_dir c) (log_level c) (log_dir c) (log_max_files c) (log_max_size_mb c))
  else if decide (key = str "data_dir") then
    Ret (MkServerConfig (port c) value (log_level c) (log_dir c) (log_max_files c) (log_max_size_mb c))
  else if decide (key = str "log_level") then
    Ret (MkServerConfig (port c) (data_dir c) (ToLower value) (log_dir c) (log_max_files c) (log_max_size_mb c))
  else if decide (key = str "log_dir") then
    Ret (MkServerConfig (port c) (data_dir c) (log_level c) value (log_max_files c) (log_max_size_mb c))
  else if decide (key = str "log_max_files") then
    let? n := stoul value in
    Ret (MkServerConfig (port c) (data_dir c) (log_level c) (log_dir c) n (log_max_size_mb c))
  else if decide (key = str "log_max_size_mb") then
    let? n := stoul value in
    Ret (MkServerConfig (port c) (data_dir c) (log_level c) (log_dir c) (log_max_files c) n)
  else Ret c.

(** The body of the loop over the lines. *)
Definition load_line (line : bytes) (c : ServerConfig) : res ServerConfig :=
  let? line := Trim line in
  match line with
  | [] => Ret c
  | x :: _ =>
      if decide (x = Byte.x23) then Ret c else
      match find_eq line 0 with
      | None => Ret c
      | Some eq =>
          let? k := substr line 0 eq in
          let? key := Trim k in
          let? v := substr_from line (eq + 1) in
          let? value := Trim v in
          set_field (ToLower key) value c
      end
  end.

Fixpoint load_lines (lines : list bytes) (c : ServerConfig) : res ServerConfig :=
  match lines with
  | [] => Ret c
  | line :: lines => let? c := load_line line c in load_lines lines c
  end.

(** [Load(path)], given the contents of the file if it can be opened. *)
Definition Load (content : option bytes) : res ServerConfig :=
  match content with
  | None => Ret default_config
  | Some content => load_lines (split_lines content []) default_config
  end.

(** The contents [Save] writes. *)
Definition Save (c : ServerConfig) : bytes :=
  str "# kv_cache server config" ++ [LF]
    ++ str "port=" ++ to_string (port c) ++ [LF]
    ++ str "data_dir=" ++ data_dir c ++ [LF]
    ++ str "log_level=" ++ log_level c ++ [LF]
    ++ str "log_dir=" ++ log_dir c ++ [LF]
    ++ str "log_max_files=" ++ to_string (log_max_files c) ++ [LF]
    ++ str "log_max_size_mb=" ++ to_string (log_max_size_mb c) ++ [LF].

(** [OverrideFromArgs], [argv] without the program name; [None] is [exit(0)]. *)
Fixpoint OverrideFromArgs (argv : list bytes) (c : ServerConfig) : res (option ServerConfig) :=
  match argv with
  | [] => Ret (Some c)
  | arg :: rest =>
      let help := if decide (arg = str "-h" \/ arg = str "--help") then Ret None
                  else OverrideFromArgs rest c in
      match rest with
      | [] => help
      | v :: rest' =>
          if decide (arg = str "-p" \/ arg = str "--port") then
            let? n := stoi v in
            OverrideFromArgs rest' (MkServerConfig (u16 n) (data_dir c) (log_level c) (log_dir c)
              (log_max_files c) (log_max_size_mb c))
          else if decide (arg = str "-d" \/ arg = str "--data-dir") then
            OverrideFromArgs rest' (MkServerConfig (port c) v (log_level c) (log_dir c)
              (log_max_files c) (log_max_size_mb c))
          else if decide (arg = str "-l" \/ arg = str "--log-level") then
            OverrideFromArgs rest' (MkServerConfig (port c) (data_dir c) (ToLower v) (log_dir c)
              (log_max_files c) (log_max_size_mb c))
          else help
      end
  end.

(** ** Configurations a file can hold *)

(** No blank at either end, and on one line. *)
Definition trimmed (s : bytes) : Prop :=
  match head s with Some c => is_blank c = false | None => True end /\
  match last s with Some c => is_blank c = false | None => True end /\ (LF ∉ s).

Definition config_ok (c : ServerConfig) : Prop :=
  0 <= port c < 65536 /\ trimmed (data_dir c) /\ trimmed (log_level c) /\
  ToLower (log_level c) = log_level c /\ trimmed (log_dir c) /\
  0 <= log_max_files c < 2 ^ 64 /\ 0 <= log_max_size_mb c < 2 ^ 64.

(** ** Lemmas *)

Lemma find_first_head c s i : is_blank c = false -> find_first_not_of (c :: s) i = Some i.
Proof. intros Hc. simpl. by rewrite Hc. Qed.

Lemma find_last_snoc s c : forall i last,
  is_blank c = false -> find_last_not_of (s ++ [c]) i last = Some (i + zlen s).
Proof.
  induction s as [|x s IH]; intros i last Hc; simpl.
  - rewrite Hc. f_equal. unfold zlen. simpl. lia.
  - rewrite IH by done. f_equal. zlen.
Qed.

Lemma Trim_trimmed s : trimmed s -> Trim s = Ret s.
Proof.
  intros (Hh & Hl & _). unfold Trim. destruct s as [|c s]; [done|]. simpl in Hh.
  rewrite find_first_head by done.
  destruct (exists_last (l := c :: s)) as (s' & x & E); [done|]. rewrite E in *.
  rewrite last_snoc in Hl. rewrite find_last_snoc by done.
  unfold substr. rewrite decide_False by zlen. f_equal. rewrite zdrop_0. apply ztake_ge. zlen.
Qed.

Lemma split_lines_app l s : LF ∉ l -> forall cur, split_lines (l ++ LF :: s) cur = (cur ++ l) :: split_lines s [].
Proof.
  induction l as [|c l IH]; intros Hl cur; cbn [app split_lines].
  - by rewrite decide_True, app_nil_r by done.
  - apply not_elem_of_cons in Hl as [Hc Hl]. rewrite decide_False, IH by done. by rewrite <-app_assoc.
Qed.

Lemma find_eq_app k v i : Byte.x3d ∉ k -> find_eq (k ++ Byte.x3d :: v) i = Some (i + zlen k).
Proof.
  revert i. induction k as [|c k IH]; intros i Hk; cbn [app find_eq].
  - rewrite decide_True by done. f_equal. unfold zlen. simpl. lia.
  - apply not_elem_of_cons in Hk as [Hc Hk]. rewrite decide_False, IH by done. f_equal. zlen.
Qed.

(** A line [key=value] assigns the field. *)
Lemma load_line_field k v c x k' :
  k = x :: k' -> x <> Byte.x23 -> trimmed k -> Byte.x3d ∉ k -> trimmed v -> ToLower k = k ->
  load_line (k ++ Byte.x3d :: v) c = set_field k v c.
Proof.
  intros Ek Hx Hk Heq Hv Hlow. unfold load_line.
  assert (trimmed (k ++ Byte.x3d :: v)) as Hline.
  { destruct Hk as (Hh & Hl & Hlf), Hv as (Hvh & Hvl & Hvlf). split; [|split].
    - by rewrite Ek in *.
    - rewrite last_app_cons. destruct v as [|y v]; [done|]. by rewrite last_cons_cons.
    - intros Hin. apply elem_of_app in Hin as [?|Hin]; [done|].
      by apply elem_of_cons in Hin as [?|?]. }
  rewrite Trim_trimmed by done. cbn [res_bind].
  rewrite Ek at 1. cbn [app]. rewrite decide_False by done.
  rewrite find_eq_app by done.
  unfold substr at 1. rewrite decide_False by zlen. cbn [res_bind].
  rewrite zdrop_0, ztake_app_exact by lia. rewrite Trim_trimmed by done. cbn [res_bind].
  unfold substr_from. rewrite decide_False by zlen. cbn [res_bind].
  assert (zdrop (0 + zlen k + 1) (k ++ Byte.x3d :: v) = v) as ->.
  { change (k ++ Byte.x3d :: v) with (k ++ [Byte.x3d] ++ v). rewrite app_assoc.
    apply zdrop_app_exact. zlen. }
  rewrite Trim_trimmed by done. cbn [res_bind]. by rewrite Hlow.
Qed.

Lemma digit_plain c d : digit_value c = Some d -> is_blank c = false /\ c <> LF.
Proof.
  unfold digit_value, is_blank. case_decide as H; [|done]. intros _. split.
  - apply bool_decide_false. intros [->|[->|[->| ->]]]; vm_compute in H; destruct H as [H _]; by apply H.
  - intros ->. vm_compute in H. destruct H as [H _]; by apply H.
Qed.

Lemma to_string_trimmed n : 0 <= n -> trimmed (to_string n).
Proof.
  intros Hn. pose proof (to_string_digits n Hn) as Hd. unfold all_digits in Hd.
  assert (forall c, c ∈ to_string n -> is_blank c = false /\ c <> LF) as Hc.
  { intros c Hc. rewrite Forall_forall in Hd. destruct (Hd c Hc) as [d E]. by eapply digit_plain. }
  split; [|split].
  - destruct (head (to_string n)) as [c|] eqn:E; [|done]. apply Hc. apply head_Some_elem_of in E. done.
  - destruct (last (to_string n)) as [c|] eqn:E; [|done]. apply Hc. by apply last_Some_elem_of.
  - intros Hin. by destruct (Hc _ Hin).
Qed.

Lemma stoul_to_string n : 0 <= n < 2 ^ 64 -> stoul (to_string n) = Ret n.
Proof.
  intros Hn. unfold stoul.
  destruct (to_string_head n ltac:(lia)) as (c & s & d & Hs & Hd).
  destruct (digit_not c d Hd) as (Hsp & Hm & Hp & _).
  assert (skip_spaces (to_string n) = to_string n) as -> by (rewrite Hs; simpl; by rewrite Hsp).
  assert (read_digits (to_string n) 0 false = (n, true)) as Hr.
  { rewrite <-(app_nil_r (to_string n)). unfold to_string.
    by rewrite read_digits_to_string by (lia || apply to_string_bound; lia). }
  revert Hr. rewrite Hs. rewrite !decide_False by done. intros ->. by rewrite decide_True by lia.
Qed.

(** The lines of a saved file. *)
Definition saved_lines (c : ServerConfig) : list bytes :=
  [str "# kv_cache server config";
   str "port" ++ Byte.x3d :: to_string (port c);
   str "data_dir" ++ Byte.x3d :: data_dir c;
   str "log_level" ++ Byte.x3d :: log_level c;
   str "log_dir" ++ Byte.x3d :: log_dir c;
   str "log_max_files" ++ Byte.x3d :: to_string (log_max_files c);
   str "log_max_size_mb" ++ Byte.x3d :: to_string (log_max_size_mb c)].

Lemma Save_lines c : Save c = saved_lines c ≫= (fun l => l ++ [LF]).
Proof. unfold Save, saved_lines. simpl. by rewrite <-!app_assoc. Qed.

Lemma split_saved ls : Forall (fun l => LF ∉ l) ls -> split_lines (ls ≫= (fun l => l ++ [LF])) [] = ls.
Proof.
  induction 1 as [|l ls Hl _ IH]; [done|].
  change ((l :: ls) ≫= (fun l => l ++ [LF])) with ((l ++ [LF]) ++ (ls ≫= (fun l => l ++ [LF]))).
  rewrite <-app_assoc. cbn [app]. rewrite split_lines_app by done. by rewrite IH.
Qed.

Lemma no_lf_field k v : LF ∉ k -> LF ∉ v -> LF ∉ k ++ Byte.x3d :: v.
Proof. intros Hk Hv Hin. apply elem_of_app in Hin as [?|Hin]; [done|]. by apply elem_of_cons in Hin as [?|?]. Qed.

(** The keys of the file. *)
Lemma key_plain k :
  k ∈ [str "port"; str "data_dir"; str "log_level"; str "log_dir"; str "log_max_files"; str "log_max_size_mb"] ->
  trimmed k /\ (Byte.x3d ∉ k) /\ ToLower k = k /\ exists x k', k = x :: k' /\ x <> Byte.x23.
Proof.
  intros Hk. repeat apply elem_of_cons in Hk as [->|Hk]; [..|by apply not_elem_of_nil in Hk];
    (split; [split; [done|split; [done|by apply (bool_decide_unpack _)]]|]);
    (split; [by apply (bool_decide_unpack _)|]); (split; [done|]); by eexists _, _.
Qed.

Lemma load_saved_field k v ls c c' :
  k ∈ [str "port"; str "data_dir"; str "log_level"; str "log_dir"; str "log_max_files"; str "log_max_size_mb"] ->
  trimmed v -> set_field k v c = Ret c' ->
  load_lines ((k ++ Byte.x3d :: v) :: ls) c = load_lines ls c'.
Proof.
  intros Hk Hv Hset. destruct (key_plain k Hk) as (Ht & Heq & Hlow & x & k' & E & Hx).
  cbn [load_lines]. by rewrite (load_line_field k v c x k'), Hset.
Qed.

(** C39: A configuration that is saved and loaded again is the same, field for field. *)
Theorem config_roundtrip c : config_ok c -> Load (Some (Save c)) = Ret c.
Proof.
  intros (Hport & Hdir & Hlev & Hlow & Hlog & Hfiles & Hsize).
  assert (forall n, 0 <= n -> trimmed (to_string n)) as Hts by exact to_string_trimmed.
  unfold Load. rewrite Save_lines, split_saved.
  - unfold saved_lines.
    change (load_lines (str "# kv_cache server config" :: ?ls) default_config)
      with (load_lines ls default_config).
    do 6 (erewrite load_saved_field; [|by apply (bool_decide_unpack _)|first [done|apply Hts; lia]|
      unfold set_field; repeat first [rewrite decide_False by done|rewrite decide_True by done];
      rewrite ?stoi_to_string_exact, ?stoul_to_string by (unfold INT_MAX; lia); reflexivity]).
    cbn. unfold u16. rewrite Z.mod_small, Hlow by lia. by destruct c.
  - unfold saved_lines. repeat constructor; try (apply no_lf_field; [by apply (bool_decide_unpack _)|]);
      first [by apply (bool_decide_unpack _)|apply Hts; lia|apply Hdir|apply Hlev|apply Hlog].
Qed.

Lemma config_roundtrip_witness :
  let c := MkServerConfig 7000 (str "/var/lib/kv") (str "warn") (str "logs") 3 64 in
  Load (Some (Save c)) = Ret c.
Proof.
  apply config_roundtrip. repeat split; try discriminate; try (apply (bool_decide_unpack _); exact I).
Defined.
