(* ===== verification/ClientMain.v ===== *)
(** * The command-line client: [src/client/client_main.cpp]

    The loop that reads commands from the terminal, as a program over the client, and
    opening and closing the socket ([KvClient::Connect], [Disconnect]). *)

From S2P Require Import Prelude Posix CppString Protocol WalRecord Wal KvStore.
From S2P Require Import SlidingWindow PersistentStore Durability StoreTheorems.
From S2P Require Import KvServer ServerTheorems Client EndToEnd ClientProgram CliParser Config.

(** ** Connecting *)

(** The field [sock_fd_] of a client and the descriptors the process has open. *)
Record Socket := MkSocket {
  sock_fd : Z;
  open_fds : gset Z
}.

(** [Connect], given what [::socket] and [::connect] return. *)
Definition Connect (socket : Z) (connected : bool) (c : Socket) : bool * Socket :=
  if decide (socket < 0) then (false, MkSocket socket (open_fds c))
  else
    let opened := {[socket]} ∪ open_fds c in
    if connected then (true, MkSocket socket opened)
    else (false, MkSocket (-1) (opened ∖ {[socket]})).

(** [Disconnect], which is also the destructor. *)
Definition Disconnect (c : Socket) : Socket :=
  if decide (0 <= sock_fd c) then MkSocket (-1) (open_fds c ∖ {[sock_fd c]}) else c.

(** ** The loop *)

(** A step of the program that can throw. *)
Definition try {A B : Type} (r : res A) (f : A -> prog (res B)) : prog (res B) :=
  match r with
  | Ret a => f a
  | Throw e => Done (Throw e)
  | Undefined => Done Undefined
  | Crashed => Done Crashed
  end.

(** What a parsed command prints, without the end of the line. *)
Definition execute (cmd : Command) : prog (res bytes) :=
  match type cmd with
  | UNKNOWN =>
      if decide (error cmd = Error_UNKNOWN_COMMAND) then Done (Ret (str "ERR unknown command"))
      else Done (Ret (str "ERR wrong number of arguments"))
  | SET =>
      try (at_ (args cmd) 0) (fun k => try (at_ (args cmd) 1) (fun v =>
        let* ok := call (CSet k v) in Done (Ret (str (if ok : bool then "OK" else "ERR")))))
  | GET =>
      try (at_ (args cmd) 0) (fun k =>
        let* val := call (CGet k) in
        Done (Ret (match val : option bytes with Some v => v | None => str "(nil)" end)))
  | DEL =>
      try (at_ (args cmd) 0) (fun k =>
        let* deleted := call (CDelete k) in Done (Ret (str (if deleted : bool then "1" else "0"))))
  | EXISTS =>
      try (at_ (args cmd) 0) (fun k =>
        let* found := call (CExists k) in
        Done (Ret (str (if found : bool then "exists" else "not found"))))
  | KEYS =>
      let* n := call CKeys in Done (Ret (str "total keys: " ++ to_string n))
  end.

(** The [while] over the lines of the standard input; [out] is the output so far. The
    prompt is printed before every attempt to read a line, the last one too. *)
Fixpoint repl (lines : list bytes) (out : bytes) : prog (res bytes) :=
  let out := out ++ str "> " in
  match lines with
  | [] => Done (Ret out)
  | line :: lines =>
      if decide (line = str "exit" \/ line = str "quit") then Done (Ret out) else
      match Parse line with
      | None => repl lines out
      | Some cmd => let* text := execute cmd in
                    try text (fun text => repl lines (out ++ text ++ endl))
      end
  end.

(** What the process leaves when it ends. *)
Record exit := MkExit {
  stdout : bytes;
  stderr : bytes;
  status : Z
}.

Definition greeting : bytes := str "Connected. Type 'exit' to quit." ++ endl.

(** [main], [argv] without the program name; [connects] says whether the connection to
    a host and port comes about. *)
Definition main (connects : bytes -> Z -> bool) (argv : list bytes) (stdin : bytes) : prog (res exit) :=
  match argv with
  | host :: port :: _ =>
      try (stoi port) (fun port =>
        if connects host (u16 port) then
          let* out := repl (split_lines stdin []) greeting in
          try out (fun out => Done (Ret (MkExit out [] 0)))
        else Done (Ret (MkExit [] (str "Failed to connect" ++ endl) 1)))
  | _ => Done (Ret (MkExit [] (str "Usage: kv_client <host> <port>" ++ endl) 1))
  end.

Example main_usage : main (fun _ _ => true) [str "localhost"] []
  = Done (Ret (MkExit [] (str "Usage: kv_client <host> <port>" ++ endl) 1)).
Proof. reflexivity. Qed.

Example main_session :
  (run_map (main (fun _ _ => true) [str "localhost"; str "6379"]
    (str "set a hello world" ++ endl ++ str "get a" ++ endl ++ endl ++ str "foo" ++ endl ++ str "quit" ++ endl)) ∅).1
  = Ret (MkExit (greeting ++ str "> OK" ++ endl ++ str "> hello world" ++ endl ++ str "> > ERR unknown command"
       ++ endl ++ str "> ") [] 0).
Proof. vm_compute. reflexivity. Qed.

(** ** A session *)

(** What a line of input is: a command, or one of the ways not to be one. *)
Inductive input :=
  | Typed (c : Command)
  | Blank
  | Misspelt
  | Short.

(** No command has this name. *)
Definition no_command (name : bytes) : Prop :=
  forall t, t <> UNKNOWN -> ToUpper name <> command_name t.

Inductive reads : input -> bytes -> Prop :=
  | reads_typed c line : types spelled c line -> reads (Typed c) line
  | reads_blank line : Forall isspace line -> reads Blank line
  | reads_misspelt gap name rest :
      Forall isspace gap -> word name -> no_command name ->
      match rest with [] => True | c :: _ => isspace c end ->
      gap ++ name ++ rest <> str "exit" -> gap ++ name ++ rest <> str "quit" ->
      reads Misspelt (gap ++ name ++ rest)
  | reads_short t name rest :
      t <> UNKNOWN -> t <> KEYS -> spelled t name -> Forall isspace rest -> reads Short (name ++ rest).

(** What a command shows on the map [m]. *)
Definition shown (m : gmap bytes bytes) (c : Command) : bytes :=
  match type c, args c with
  | SET, _ => str "OK"
  | GET, [k] => default (str "(nil)") (m !! k)
  | DEL, [k] => str (if decide (is_Some (m !! k)) then "1" else "0")
  | EXISTS, [k] => str (if decide (is_Some (m !! k)) then "exists" else "not found")
  | KEYS, _ => str "total keys: " ++ to_string (Z.of_nat (size m))
  | _, _ => []
  end.

(** What the terminal shows after the prompt, and the map, for each input. *)
Definition input_output (m : gmap bytes bytes) (i : input) : bytes :=
  match i with
  | Typed c => shown m c ++ endl
  | Blank => []
  | Misspelt => str "ERR unknown command" ++ endl
  | Short => str "ERR wrong number of arguments" ++ endl
  end.

Definition input_effect (m : gmap bytes bytes) (i : input) : gmap bytes bytes :=
  match i with Typed c => command_effect m c | _ => m end.

Fixpoint transcript (m : gmap bytes bytes) (ins : list input) : bytes :=
  match ins with
  | [] => str "> "
  | i :: ins => str "> " ++ input_output m i ++ transcript (input_effect m i) ins
  end.

(** The call of a command. *)
Definition op_of (c : Command) : option client_op :=
  match type c, args c with
  | SET, [k; v] => Some (CSet k v)
  | GET, [k] => Some (CGet k)
  | DEL, [k] => Some (CDelete k)
  | EXISTS, [k] => Some (CExists k)
  | KEYS, _ => Some CKeys
  | _, _ => None
  end.

(** The server carries out all commands of the session. *)
Fixpoint session_admitted (admits : gmap bytes bytes -> bytes -> option bytes -> Prop)
    (m : gmap bytes bytes) (ins : list input) : Prop :=
  match ins with
  | [] => True
  | i :: ins =>
      match i with
      | Typed c => match op_of c with Some o => call_admitted admits m o | None => False end
      | _ => True
      end /\ session_admitted admits (input_effect m i) ins
  end.

(** ** The loop shows the transcript *)

Lemma typed_op c line : types spelled c line -> exists o, op_of c = Some o.
Proof. intros [name gap k gap' v| t name gap k rest Ht|]; [..|by eexists]; [by eexists|].
  destruct Ht as [->|[->| ->]]; by eexists. Qed.

Lemma execute_op c o :
  op_of c = Some o ->
  exists f, execute c = Call o (fun r => Done (Ret (f r))) /\
    forall m, f (map_answer m o) = shown m c /\ map_effect m o = command_effect m c.
Proof.
  destruct c as [t l e]. unfold op_of, execute, shown, command_effect. cbn [type args].
  destruct t; try done.
  - destruct l as [|k [|v [|]]]; try done. intros [= <-]. eexists. split; [reflexivity|done].
  - destruct l as [|k [|]]; try done. intros [= <-]. eexists. split; [reflexivity|].
    intros m. cbn. by destruct (m !! k).
  - destruct l as [|k [|]]; try done. intros [= <-]. eexists. split; [reflexivity|].
    intros m. split; [|done]. simpl. case_bool_decide; by case_decide.
  - destruct l as [|k [|]]; try done. intros [= <-]. eexists. split; [reflexivity|].
    intros m. split; [|done]. simpl. case_bool_decide; by case_decide.
  - intros [= <-]. eexists. split; [reflexivity|done].
Qed.

(** Lines that end the loop are none of these. *)
Lemma spelled_not_exit t name rest w :
  t <> UNKNOWN -> w = str "exit" \/ w = str "quit" -> spelled t name ->
  match rest with [] => True | c :: _ => isspace c end -> name ++ rest <> w.
Proof.
  intros Ht Hw Hn Hr E.
  assert (extract (name ++ rest) = extract w) as He by by rewrite E.
  rewrite (extract_command t) in He by done. destruct Hw as [-> | ->]; injection He as -> _; by destruct t.
Qed.

Lemma blank_head s : Forall isspace s -> match s with [] => True | c :: _ => isspace c end.
Proof. intros [|c l Hc _]; [done|exact Hc]. Qed.

Lemma reads_not_exit i line :
  reads i line -> ~ (line = str "exit" \/ line = str "quit").
Proof.
  intros [c l Ht|l Hl|gap name rest _ _ _ _ He Hq|t name rest Hu _ Hn Hr] H.
  - destruct Ht as [name gap k gap' v Hn Hg0 Hg|t name gap k rest Ht Hn Hg0 Hg|name rest Hn Hr].
    + pose proof (gap_head gap (k ++ gap' ++ v) Hg0 Hg). by eapply (spelled_not_exit SET).
    + pose proof (gap_head gap (k ++ rest) Hg0 Hg).
      assert (t <> UNKNOWN) by by destruct Ht as [-> |[-> | ->]]. by eapply (spelled_not_exit t).
    + by eapply (spelled_not_exit KEYS).
  - destruct H as [-> | ->]; by inversion Hl.
  - destruct H; done.
  - pose proof (blank_head _ Hr) as Hb. by eapply spelled_not_exit.
Qed.

Lemma extract_blank s : Forall isspace s -> extract s = ([], []).
Proof.
  intros Hs. unfold extract. rewrite <-(app_nil_r s). rewrite skip_spaces_app by done. reflexivity.
Qed.

Lemma parse_key_blank t s :
  Forall isspace s -> parse_key t s = MkCommand UNKNOWN [] Error_WRONG_ARG_COUNT.
Proof. intros Hs. unfold parse_key. by rewrite extract_blank. Qed.

(** What the parser makes of the lines. *)
Definition parsed (i : input) : option Command :=
  match i with
  | Typed c => Some c
  | Blank => None
  | Misspelt => Some (MkCommand UNKNOWN [] Error_UNKNOWN_COMMAND)
  | Short => Some (MkCommand UNKNOWN [] Error_WRONG_ARG_COUNT)
  end.

Lemma reads_parsed i line : reads i line -> Parse line = parsed i.
Proof.
  intros [c l Ht|l Hl|gap name rest Hg Hw Hno Hr _ _|t name rest Hu Hk Hn Hr].
  - by apply parse_types.
  - unfold Parse. by rewrite extract_blank.
  - unfold Parse. rewrite extract_word by done. rewrite decide_False by apply Hw.
    by rewrite !decide_False by
      first [by apply (Hno SET)|by apply (Hno GET)|by apply (Hno DEL)|by apply (Hno EXISTS)|by apply (Hno KEYS)].
  - unfold Parse. rewrite (extract_command t) by (try done; by apply blank_head).
    rewrite decide_False by (apply spelled_word in Hn as [? _]; done). rewrite Hn.
    destruct t; try done; cbn [command_name]; rewrite ?parse_key_blank by done;
      rewrite ?extract_blank by done; reflexivity.
Qed.

(** How the input ends. *)
Inductive ends : list bytes -> Prop :=
  | ends_eof : ends []
  | ends_exit w rest : w = str "exit" \/ w = str "quit" -> ends (w :: rest).

Lemma repl_ends rest out : ends rest -> repl rest out = Done (Ret (out ++ str "> ")).
Proof. intros [|w rest' Hw]; [done|]. cbn [repl]. by rewrite decide_True. Qed.

Lemma repl_transcript admits ins lines rest :
  Forall2 reads ins lines -> ends rest -> forall m out,
  session_admitted admits m ins ->
  admissible admits (repl (lines ++ rest) out) m /\
  run_map (repl (lines ++ rest) out) m
    = (Ret (out ++ transcript m ins), foldl input_effect m ins).
Proof.
  intros Hr Hend. induction Hr as [|i line ins lines Hi _ IH]; intros m out Hadm.
  { cbn [app]. by rewrite repl_ends. }
  destruct Hadm as [Hadm Hrest]. cbn [app repl].
  rewrite decide_False by (by eapply reads_not_exit). rewrite (reads_parsed i line Hi).
  destruct i as [c| | |]; cbn [parsed transcript foldl input_effect input_output] in *.
  - destruct (op_of c) as [o|] eqn:Ho; [|done].
    destruct (execute_op c o Ho) as (f & -> & Hf). destruct (Hf m) as [Hshown Heff].
    cbn [prog_bind try admissible run_map]. rewrite Heff, Hshown.
    destruct (IH (command_effect m c) ((out ++ str "> ") ++ shown m c ++ endl) Hrest) as [Ha Hrun].
    split; [by split|]. rewrite Hrun. by rewrite <-!app_assoc.
  - destruct (IH m (out ++ str "> ") Hrest) as [Ha ->]. by rewrite <-!app_assoc.
  - change (execute (MkCommand UNKNOWN [] Error_UNKNOWN_COMMAND)) with (@Done (res bytes) (Ret (str "ERR unknown command"))).
    cbn [prog_bind try]. destruct (IH m ((out ++ str "> ") ++ str "ERR unknown command" ++ endl) Hrest) as [Ha Hrun].
    split; [exact Ha|]. rewrite Hrun. by rewrite <-!app_assoc.
  - change (execute (MkCommand UNKNOWN [] Error_WRONG_ARG_COUNT)) with (@Done (res bytes) (Ret (str "ERR wrong number of arguments"))).
    cbn [prog_bind try]. destruct (IH m ((out ++ str "> ") ++ str "ERR wrong number of arguments" ++ endl) Hrest) as [Ha Hrun].
    split; [exact Ha|]. rewrite Hrun. by rewrite <-!app_assoc.
Qed.

(** The standard input with these lines. *)
Definition typed_lines (lines : list bytes) : bytes := lines ≫= (fun l => l ++ [LF]).

(** C10: A session of the command-line client with the server: for every sequence of
    typed commands, blank lines, unknown names and commands without arguments, ended by
    the end of the input or by [exit] or [quit], the terminal shows, after each prompt,
    what the command yields on the map the commands before it have built; the server's
    store holds the map of the whole session, and the process returns 0. *)
Theorem session_transcript {Store} `{KvBackend Store} ok admits (laws : KvLaws Store ok admits)
    hash fd sfd request_cut reply_cut connects host port ins lines rest s :
  segmentation request_cut -> segmentation reply_cut -> 0 <= sfd -> connection_ok ok hash fd s ->
  connects host (u16 port) = true -> 0 <= port <= INT_MAX ->
  Forall2 reads ins lines -> ends rest -> Forall (fun l => LF ∉ l) (lines ++ rest) ->
  session_admitted admits (contents (store_ s)) ins ->
  exists s',
    run_client (server_peer hash fd request_cut reply_cut)
      (main connects [host; to_string port] (typed_lines (lines ++ rest))) (MkClient sfd [] s)
    = (Ret (Ret (MkExit (greeting ++ transcript (contents (store_ s)) ins) [] 0)), MkClient sfd [] s') /\
    connection_ok ok hash fd s' /\ contents (store_ s') = foldl input_effect (contents (store_ s)) ins.
Proof.
  intros Hreq Hrep Hfd Hs Hcon Hport Hins Hends Hlf Hadm.
  destruct (repl_transcript admits ins lines rest Hins Hends _ greeting Hadm) as [Ha Hrun].
  set (p := main connects [host; to_string port] (typed_lines (lines ++ rest))).
  assert (p = let* out := repl (lines ++ rest) greeting in
              try out (fun out => Done (Ret (MkExit out [] 0)))) as Hp.
  { unfold p, main, typed_lines. rewrite stoi_to_string_exact by done. cbn [try]. by rewrite Hcon, split_saved. }
  rewrite Hp in *. clear p Hp.
  assert (admissible admits (let* out := repl (lines ++ rest) greeting in
    try out (fun out => Done (Ret (MkExit out [] 0)))) (contents (store_ s))) as Hadm'.
  { apply admissible_bind; [done|]. by rewrite Hrun. }
  destruct (run_client_ok ok admits hash request_cut reply_cut Hreq Hrep fd sfd _ s Hfd Hs Hadm')
    as (s' & Hr & Hs' & Hc & _).
  rewrite run_map_bind, Hrun in Hr, Hc. by exists s'.
Qed.

Lemma session_transcript_witness :
  exists s',
    run_client (server_peer id 7 bytewise bytewise)
      (main (fun _ _ => true) [str "127.0.0.1"; to_string 6379]
        (typed_lines [str "set name alice in chains"; str " "; str "hello"; str "Get"; str "exit"]))
      (MkClient 5 [] (KvServer_new (fresh_store (str "d"))))
    = (Ret (Ret (MkExit (greeting ++ str "> OK" ++ endl ++ str "> > ERR unknown command" ++ endl
         ++ str "> ERR wrong number of arguments" ++ endl ++ str "> ") [] 0)), MkClient 5 [] s') /\
    connection_ok store_ok id 7 s' /\
    contents (store_ s') = {[str "name" := str "alice in chains"]}.
Proof.
  destruct (fresh_store_ok (str "d")) as (Hok & Hd & _).
  assert (contents (store_ (KvServer_new (fresh_store (str "d")))) = ∅) as Hc by exact Hd.
  destruct (session_transcript store_ok store_admits PersistentKvStore_laws id 7 5 bytewise bytewise
    (fun _ _ => true) (str "127.0.0.1") 6379
    [Typed (MkCommand SET [str "name"; str "alice in chains"] Error_NONE); Blank; Misspelt; Short]
    [str "set" ++ str " " ++ str "name" ++ str " " ++ str "alice in chains"; str " ";
     [] ++ str "hello" ++ []; str "Get" ++ []] [str "exit"]
    (KvServer_new (fresh_store (str "d"))) bytewise_segmentation bytewise_segmentation)
    as (s' & Hrun & Hs' & Hm).
  - lia.
  - split; [reflexivity|]. split; [exact Hok|reflexivity].
  - reflexivity.
  - unfold INT_MAX. lia.
  - repeat (apply Forall2_cons; split); [..|by apply Forall2_nil].
    + apply reads_typed, types_set;
        lazymatch goal with
        | |- spelled _ _ => reflexivity
        | |- _ <> _ => discriminate
        | |- word _ => split; [discriminate|repeat constructor]
        | |- one_line _ => split; [apply (bool_decide_unpack _); reflexivity|reflexivity]
        | |- _ => repeat constructor
        end.
    + repeat constructor.
    + apply reads_misspelt; [constructor|split; [discriminate|]| |exact I|discriminate..].
      { apply (bool_decide_unpack _). vm_compute. exact I. }
      intros []; [discriminate..|]. intros Hu. by destruct Hu.
    + apply (reads_short GET); [discriminate|discriminate|reflexivity|constructor].
  - constructor. by left.
  - apply (bool_decide_unpack _). vm_compute. exact I.
  - rewrite Hc. split; [|by split_and!]. split; [discriminate|]. split; [discriminate|].
    split; [reflexivity|split; reflexivity].
  - rewrite Hc in Hrun, Hm. exists s'. split; [exact Hrun|]. split; [exact Hs'|exact Hm].
Defined.

(** ** The socket *)

(** Whatever the system calls return, a client that was connected and disconnected (or
    destroyed) leaves open exactly what was open before. *)
Lemma connect_disconnect fd connected c :
  fd ∉ open_fds c ->
  let (b, c') := Connect fd connected c in
  open_fds (Disconnect c') = open_fds c /\ sock_fd (Disconnect c') < 0 /\
  (b = true <-> 0 <= sock_fd c').
Proof.
  intros Hfd. unfold Connect, Disconnect.
  destruct (decide (fd < 0)) as [Hneg|Hpos]; [|destruct connected]; cbn [sock_fd open_fds].
  - rewrite decide_False by lia. cbn. split; [done|]. split; [lia|]. split; [done|lia].
  - rewrite decide_True by lia. cbn. split; [set_solver|]. split; [lia|]. split; [lia|done].
  - rewrite decide_False by lia. cbn. split; [set_solver|]. split; [lia|]. split; [done|lia].
Qed.

(** Connecting again without disconnecting loses the first descriptor: it stays open for
    the life of the process. *)
Lemma reconnect_leaks fd fd' c :
  0 <= fd -> 0 <= fd' -> fd <> fd' ->
  fd ∈ open_fds (Disconnect (Connect fd' true (Connect fd true c).2).2).
Proof.
  intros H0 H0' Hne. unfold Connect, Disconnect. rewrite (decide_False (P := fd < 0)), (decide_False (P := fd' < 0)) by lia.
  cbn [fst snd sock_fd open_fds]. rewrite decide_True by lia. cbn. set_solver.
Qed.
