(* ===== verification/ThreadPool.v ===== *)
(** * The thread pool: class [ThreadPool] of [include/common/thread_pool.h]

    The workers, the callers of [Submit] and the destructor as one transition system.
    A worker's loop is cut at every access to shared state, because the destructor
    stores [running_] and notifies without holding the mutex. [cv_.wait(lock, pred)] is
    [while (!pred()) wait(lock)], as the C++ standard defines it: the last [wait]
    releases the mutex and blocks in one step. A task is a [std::packaged_task] call: it
    returns. *)

From S2P Require Import Prelude.

Section pool.
Context {Task : Type}.

(** Where a worker stands in its loop. *)
Inductive worker :=
  | Head               (* at [while (running_)] *)
  | Locking            (* at [std::unique_lock lock(mutex_)] *)
  | Testing            (* holds the mutex, at the predicate of [wait] *)
  | Blocking           (* holds the mutex, the predicate was false, at the inner [wait] *)
  | Blocked            (* waiting for a notification, without the mutex *)
  | Woken              (* notified, getting the mutex back *)
  | Taking             (* holds the mutex, [wait] has returned *)
  | Running (t : Task) (* at [task()] *)
  | Exited.

(** Where the destructor stands. *)
Inductive destructor := Alive | Stopped | Joining | Destroyed.

Record ThreadPool := MkPool {
  workers_ : list worker;
  tasks_ : list Task;
  mutex_ : option nat;           (* the worker that holds it *)
  running_ : bool;
  notifying : nat;               (* callers of [Submit] before their [notify_one] *)
  dtor : destructor;
  submitted : list Task;         (* history: accepted by [Submit] *)
  started : list (nat * Task)    (* history: taken, and by whom *)
}.

(** The constructor, [running_(true)] and the threads at the start of their loops. *)
Definition ThreadPool_new (thread_count : nat) : ThreadPool :=
  let thread_count := if decide (thread_count = 0%nat) then 4%nat else thread_count in
  MkPool (replicate thread_count Head) [] None true 0 Alive [] [].

Definition Size (p : ThreadPool) : nat := length (workers_ p).

Definition set_worker (i : nat) (w : worker) (p : ThreadPool) : ThreadPool :=
  MkPool (<[i := w]> (workers_ p)) (tasks_ p) (mutex_ p) (running_ p) (notifying p) (dtor p)
    (submitted p) (started p).
Definition set_mutex_ (h : option nat) (p : ThreadPool) : ThreadPool :=
  MkPool (workers_ p) (tasks_ p) h (running_ p) (notifying p) (dtor p) (submitted p) (started p).
Definition set_workers_ (ws : list worker) (p : ThreadPool) : ThreadPool :=
  MkPool ws (tasks_ p) (mutex_ p) (running_ p) (notifying p) (dtor p) (submitted p) (started p).
Definition set_dtor (d : destructor) (p : ThreadPool) : ThreadPool :=
  MkPool (workers_ p) (tasks_ p) (mutex_ p) (running_ p) (notifying p) d (submitted p) (started p).
Definition set_notifying (n : nat) (p : ThreadPool) : ThreadPool :=
  MkPool (workers_ p) (tasks_ p) (mutex_ p) (running_ p) n (dtor p) (submitted p) (started p).

Definition is_blocked (w : worker) : bool := match w with Blocked => true | _ => false end.
Definition is_exited (w : worker) : bool := match w with Exited => true | _ => false end.
Definition is_nil {A} (l : list A) : bool := match l with [] => true | _ => false end.

(** The next step of the loop of worker [i]; [None] when it has none. *)
Definition work (i : nat) (p : ThreadPool) : option ThreadPool :=
  match workers_ p !! i with
  | Some Head => Some (set_worker i (if running_ p then Locking else Exited) p)
  | Some Locking | Some Woken =>
      match mutex_ p with
      | None => Some (set_mutex_ (Some i) (set_worker i Testing p))
      | Some _ => None
      end
  | Some Testing =>
      Some (set_worker i (if negb (is_nil (tasks_ p)) || negb (running_ p)
                          then Taking else Blocking) p)
  | Some Blocking => Some (set_mutex_ None (set_worker i Blocked p))
  | Some Taking =>
      if negb (running_ p) && is_nil (tasks_ p)
      then Some (set_mutex_ None (set_worker i Exited p))
      else match tasks_ p with
           | [] => None      (* [front] of an empty queue, see [pool_fifo] *)
           | t :: rest =>
               Some (MkPool (<[i := Running t]> (workers_ p)) rest None (running_ p)
                       (notifying p) (dtor p) (submitted p) (started p ++ [(i, t)]))
           end
  | Some (Running _) => Some (set_worker i Head p)
  | _ => None
  end.

(** [Submit] up to the end of its block: it throws when the pool is stopped. *)
Definition Submit (t : Task) (p : ThreadPool) : res ThreadPool :=
  if running_ p then
    Ret (MkPool (workers_ p) (tasks_ p ++ [t]) (mutex_ p) (running_ p) (S (notifying p))
           (dtor p) (submitted p ++ [t]) (started p))
  else Throw RuntimeError.

Definition wake (w : worker) : worker := match w with Blocked => Woken | w => w end.

Inductive event :=
  | ESubmit (t : Task)            (* the block of [Submit] that holds the mutex *)
  | ENotifyOne (i : option nat)   (* its [notify_one], and whom it wakes *)
  | EWork (i : nat)
  | ESpurious (i : nat)           (* a [wait] that returns without a notification *)
  | EStop                         (* [running_ = false] *)
  | ENotifyAll
  | EJoin.                        (* the loop of [join] calls has ended *)

Definition fire (e : event) (p : ThreadPool) : option ThreadPool :=
  match e with
  | ESubmit t =>
      match mutex_ p, dtor p with
      | None, Destroyed => None
      | None, _ => match Submit t p with Ret p' => Some p' | _ => Some p end
      | Some _, _ => None
      end
  | ENotifyOne who =>
      match notifying p with
      | O => None
      | S n =>
          match who with
          | Some i => match workers_ p !! i with
                      | Some Blocked => Some (set_notifying n (set_worker i Woken p))
                      | _ => None
                      end
          | None => if existsb is_blocked (workers_ p) then None else Some (set_notifying n p)
          end
      end
  | EWork i => work i p
  | ESpurious i => match workers_ p !! i with
                   | Some Blocked => Some (set_worker i Woken p)
                   | _ => None
                   end
  | EStop =>
      match dtor p with
      | Alive => Some (MkPool (workers_ p) (tasks_ p) (mutex_ p) false (notifying p) Stopped
                         (submitted p) (started p))
      | _ => None
      end
  | ENotifyAll =>
      match dtor p with
      | Stopped => Some (set_dtor Joining (set_workers_ (map wake (workers_ p)) p))
      | _ => None
      end
  | EJoin =>
      match dtor p with
      | Joining => if forallb is_exited (workers_ p) then Some (set_dtor Destroyed p) else None
      | _ => None
      end
  end.

Fixpoint run (es : list event) (p : ThreadPool) : option ThreadPool :=
  match es with
  | [] => Some p
  | e :: es => match fire e p with Some p => run es p | None => None end
  end.

(** The states of a pool of [n] threads, whatever the scheduler and the callers do. *)
Inductive reachable (n : nat) : ThreadPool -> Prop :=
  | reachable_new : reachable n (ThreadPool_new n)
  | reachable_fire p e p' : reachable n p -> fire e p = Some p' -> reachable n p'.

(** ** The invariant *)

Definition in_section (w : worker) : bool :=
  match w with Testing | Blocking | Taking => true | _ => false end.

Record inv (p : ThreadPool) : Prop := {
  inv_fifo : submitted p = map snd (started p) ++ tasks_ p;
  (* the mutex is held by the one worker in its critical section *)
  inv_mutex : forall i w, workers_ p !! i = Some w ->
    in_section w = true <-> mutex_ p = Some i;
  inv_holder : forall i, mutex_ p = Some i -> is_Some (workers_ p !! i);
  inv_dtor : running_ p = true <-> dtor p = Alive;
  inv_exited : forall i, workers_ p !! i = Some Exited -> running_ p = false;
  inv_blocking : forall i, workers_ p !! i = Some Blocking -> tasks_ p = [];
  inv_taking : forall i, workers_ p !! i = Some Taking -> tasks_ p <> [] \/ running_ p = false;
  (* a task never waits with every worker asleep and nobody about to notify *)
  inv_awake : tasks_ p <> [] -> running_ p = true -> notifying p <> O \/
    exists i w, workers_ p !! i = Some w /\ w <> Blocked;
  inv_size : workers_ p <> []
}.

Lemma inv_new n : inv (ThreadPool_new n).
Proof.
  assert (exists k, ThreadPool_new n = MkPool (replicate (S k) Head) [] None true 0 Alive [] [])
    as [k ->].
  { unfold ThreadPool_new. case_decide; [by exists 3%nat|]. exists (pred n).
    replace (S (pred n)) with n by lia. done. }
  split; cbn -[replicate]; try done.
  - by intros i w [-> _]%lookup_replicate_1.
  - by intros i [? _]%lookup_replicate_1.
  - by intros i [? _]%lookup_replicate_1.
Qed.

(** How the mutex goes from [h] to [h'] when worker [i] goes from [w] to [w']. *)
Definition mutex_moves (i : nat) (w w' : worker) (h h' : option nat) : Prop :=
  h' = h /\ in_section w' = in_section w \/
  h = None /\ h' = Some i /\ in_section w' = true \/
  in_section w = true /\ h' = None /\ in_section w' = false.

Lemma insert_ne_nil {A} (l : list A) i x : l <> [] -> <[i := x]> l <> [].
Proof. by destruct l, i. Qed.

(** Mutual exclusion is kept. *)
Lemma mutex_insert i w w' h h' (ws : list worker) :
  (forall j x, ws !! j = Some x -> in_section x = true <-> h = Some j) ->
  (forall j, h = Some j -> is_Some (ws !! j)) ->
  ws !! i = Some w -> mutex_moves i w w' h h' ->
  (forall j x, <[i := w']> ws !! j = Some x -> in_section x = true <-> h' = Some j) /\
  (forall j, h' = Some j -> is_Some (<[i := w']> ws !! j)).
Proof.
  intros Hm Hh Hi Hmv. pose proof (Hm i w Hi) as Hmi. split.
  - intros j x [(-> & <- & _)|(Hne & Hj)]%list_lookup_insert_Some.
    + destruct Hmv as [[Eh Ew]|[(_ & Eh & Ew)|(_ & Eh & Ew)]]; by rewrite Eh, Ew.
    + rewrite (Hm j x Hj).
      destruct Hmv as [[Eh _]|[(E & Eh & _)|(Ew & Eh & _)]]; rewrite Eh; [done|rewrite E|].
      * split; congruence.
      * apply Hmi in Ew. rewrite Ew. split; congruence.
  - intros j Hj. apply lookup_lt_is_Some. rewrite length_insert. apply lookup_lt_is_Some.
    destruct Hmv as [[Eh _]|[(_ & Eh & _)|(_ & Eh & _)]]; rewrite Eh in Hj;
      [by apply Hh|injection Hj as <-; by exists w|done].
Qed.

(** A worker moves and the queue stays. *)
Lemma inv_move i w w' h p :
  inv p -> workers_ p !! i = Some w -> mutex_moves i w w' (mutex_ p) h ->
  (w' = Exited -> running_ p = false) -> (w' = Blocking -> tasks_ p = []) ->
  (w' = Taking -> tasks_ p <> [] \/ running_ p = false) -> (w' = Blocked -> tasks_ p = []) ->
  inv (set_mutex_ h (set_worker i w' p)).
Proof.
  intros [Hq Hm Hh Hd He Hb Ht Ha Hs] Hi Hmv H1 H2 H3 H4.
  destruct (mutex_insert i w w' _ h _ Hm Hh Hi Hmv) as [Hm' Hh'].
  split; cbn; try done.
  - intros j [(-> & -> & _)|(_ & Hj)]%list_lookup_insert_Some; eauto.
  - intros j [(-> & -> & _)|(_ & Hj)]%list_lookup_insert_Some; eauto.
  - intros j [(-> & -> & _)|(_ & Hj)]%list_lookup_insert_Some; eauto.
  - intros Hne Hr. right. exists i, w'. split; [|intros ->; by auto].
    apply list_lookup_insert_eq. by eapply lookup_lt_Some.
  - by apply insert_ne_nil.
Qed.

Lemma set_mutex_same p : set_mutex_ (mutex_ p) p = p.
Proof. by destruct p. Qed.

Lemma inv_take i t rest p :
  inv p -> workers_ p !! i = Some Taking -> tasks_ p = t :: rest ->
  inv (MkPool (<[i := Running t]> (workers_ p)) rest None (running_ p)
         (notifying p) (dtor p) (submitted p) (started p ++ [(i, t)])).
Proof.
  intros [Hq Hm Hh Hd He Hb Ht Ha Hs] Hi Htasks.
  assert (mutex_ p = Some i) as Hmi by by apply (Hm i _ Hi).
  destruct (mutex_insert i Taking (Running t) _ None _ Hm Hh Hi) as [Hm' Hh'].
  { right. by right. }
  split; cbn; try done.
  - by rewrite Hq, Htasks, map_app, <-app_assoc.
  - intros j [(-> & ? & _)|(_ & Hj)]%list_lookup_insert_Some; [done|eauto].
  - intros j [(-> & ? & _)|(Hne & Hj)]%list_lookup_insert_Some; [done|].
    pose proof (proj1 (Hm j _ Hj) eq_refl). congruence.
  - intros j [(-> & ? & _)|(Hne & Hj)]%list_lookup_insert_Some; [done|].
    pose proof (proj1 (Hm j _ Hj) eq_refl). congruence.
  - intros _ _. right. exists i, (Running t). split; [|done].
    apply list_lookup_insert_eq. by eapply lookup_lt_Some.
  - by apply insert_ne_nil.
Qed.

Lemma inv_work i p p' : inv p -> work i p = Some p' -> inv p'.
Proof.
  intros Hinv. unfold work. pose proof Hinv as [Hq Hm Hh Hd He Hb Ht Ha Hs].
  destruct (workers_ p !! i) as [w|] eqn:Hi; [|done].
  assert (forall w', in_section w' = in_section w -> mutex_moves i w w' (mutex_ p) (mutex_ p)) as Hsame
    by by left.
  destruct w; try done.
  - intros [= <-]. rewrite <-(set_mutex_same (set_worker _ _ _)).
    eapply inv_move; try done; cbn [mutex_ set_worker]; destruct (running_ p); try done;
      by apply Hsame.
  - destruct (mutex_ p) eqn:Hmu; [done|]. intros [= <-]. 
    eapply inv_move; try done. right. by left.
  - intros [= <-]. rewrite <-(set_mutex_same (set_worker _ _ _)). cbn [mutex_ set_worker].
    eapply inv_move; try done; destruct (tasks_ p), (running_ p); cbn;
      first [done|by apply Hsame|by left|by right|idtac].
  - intros [= <-]. eapply inv_move; try done; [right; by right|]. intros _. by eapply Hb.
  - destruct (mutex_ p) eqn:Hmu; [done|]. intros [= <-]. 
    eapply inv_move; try done. right. by left.
  - destruct (negb _ && _) eqn:Hex.
    + apply andb_true_iff in Hex as [Hr%negb_true_iff _].
      intros [= <-]. eapply inv_move; try done. right. by right.
    + destruct (tasks_ p) as [|t rest] eqn:Htasks; [done|]. intros [= <-]. by apply inv_take.
  - intros [= <-]. rewrite <-(set_mutex_same (set_worker _ _ _)).
    eapply inv_move; try done. by apply Hsame.
Qed.

Lemma no_section p i w : inv p -> mutex_ p = None -> workers_ p !! i = Some w -> in_section w = false.
Proof.
  intros Hinv Hn Hi. pose proof (inv_mutex _ Hinv i w Hi) as Hm. rewrite Hn in Hm.
  destruct (in_section w); [|done]. by pose proof (proj1 Hm eq_refl).
Qed.

Lemma inv_submit t p p' : inv p -> mutex_ p = None -> Submit t p = Ret p' -> inv p'.
Proof.
  intros Hinv Hn. unfold Submit. destruct (running_ p) eqn:Hr; [|done]. intros [= <-].
  pose proof Hinv as [Hq Hm Hh Hd He Hb Ht Ha Hs]. split; cbn; rewrite ?Hr in *; try done.
  - by rewrite Hq, app_assoc.
  - intros i Hi. by pose proof (no_section _ _ _ Hinv Hn Hi).
  - intros i Hi. by pose proof (no_section _ _ _ Hinv Hn Hi).
  - intros _ _. by left.
Qed.

Lemma inv_woken i p :
  inv p -> workers_ p !! i = Some Blocked -> inv (set_worker i Woken p).
Proof.
  intros Hinv Hi. rewrite <-(set_mutex_same (set_worker _ _ _)).
  eapply inv_move; try done. by left.
Qed.

(** Somebody is awake, so the number of callers about to notify does not matter. *)
Lemma inv_notifying n p i w :
  inv p -> workers_ p !! i = Some w -> w <> Blocked -> inv (set_notifying n p).
Proof.
  intros [Hq Hm Hh Hd He Hb Ht Ha Hs] Hi Hw. split; cbn; try done.
  intros _ _. right. by exists i, w.
Qed.

Lemma lookup_wake (ws : list worker) i w :
  map wake ws !! i = Some w -> exists w0, ws !! i = Some w0 /\ w = wake w0.
Proof. intros (w0 & ? & ?)%list_lookup_fmap_Some. by exists w0. Qed.

Lemma inv_wake_all p :
  inv p -> dtor p = Stopped -> inv (set_dtor Joining (set_workers_ (map wake (workers_ p)) p)).
Proof.
  intros [Hq Hm Hh Hd He Hb Ht Ha Hs] Hstop.
  assert (running_ p = false) as Hr.
  { destruct (running_ p); [|done]. pose proof (proj1 Hd eq_refl). congruence. }
  split; cbn; try done.
  - intros i w (w0 & Hi & ->)%lookup_wake. rewrite <-(Hm i w0 Hi). by destruct w0.
  - intros i Hi. destruct (Hh i Hi) as [w Hw]. exists (wake w).
    apply list_lookup_fmap_Some. by exists w.
  - by rewrite Hr.
  - intros i ([] & Hi & ?)%lookup_wake; try done. by eapply Hb.
  - intros i _. by right.
  - intros _ ?. congruence.
  - by destruct (workers_ p).
Qed.

Lemma inv_fire e p p' : inv p -> fire e p = Some p' -> inv p'.
Proof.
  intros Hinv. destruct e as [t|who|i|i| | |]; cbn [fire].
  - destruct (mutex_ p) eqn:Hn; [done|]. destruct (Submit t p) eqn:Hs; destruct (dtor p); try done;
      intros [= <-]; try done; by eapply inv_submit.
  - destruct (notifying p); [done|]. destruct who as [i|].
    + destruct (workers_ p !! i) as [[]|] eqn:Hi; try done. intros [= <-].
      eapply (inv_notifying _ _ i Woken); [by apply inv_woken| |done].
      apply list_lookup_insert_eq. by eapply lookup_lt_Some.
    + destruct (existsb is_blocked (workers_ p)) eqn:Hb; [done|]. intros [= <-].
      pose proof (inv_size _ Hinv) as Hs. destruct (workers_ p) as [|w ws] eqn:Hw; [done|].
      eapply (inv_notifying _ _ 0 w); [done|by rewrite Hw|]. by intros ->.
  - by apply inv_work.
  - destruct (workers_ p !! i) as [[]|] eqn:Hi; try done. intros [= <-]. by apply inv_woken.
  - destruct (dtor p) eqn:Hd; try done. intros [= <-].
    destruct Hinv. split; cbn; try done. intros. by right.
  - destruct (dtor p) eqn:Hd; try done. intros [= <-]. by apply inv_wake_all.
  - destruct (dtor p) eqn:Hd; try done. destruct (forallb _ _); [|done]. intros [= <-].
    destruct Hinv as [? ? ? Hr]. split; cbn; try done. rewrite Hr, Hd. done.
Qed.

Lemma reachable_inv n p : reachable n p -> inv p.
Proof. induction 1; [apply inv_new|by eapply inv_fire]. Qed.

Lemma run_reachable n es : forall p p', reachable n p -> run es p = Some p' -> reachable n p'.
Proof.
  induction es as [|e es IH]; intros p p' Hp; simpl; [by intros [= <-]|].
  destruct (fire e p) as [p1|] eqn:Hf; [|done]. apply IH. by eapply reachable_fire.
Qed.

(** ** What the pool guarantees *)

(** C14: Whatever the scheduler, the callers and the destructor do, the tasks a
    pool has accepted are those its workers have taken, in the order of their
    submission, followed by those still queued: no task is lost, taken twice or taken
    out of order. At most one worker is in its critical section, and none takes from
    an empty queue. *)
Theorem pool_fifo n p :
  reachable n p ->
  submitted p = map snd (started p) ++ tasks_ p /\
  (forall i j w w', workers_ p !! i = Some w -> workers_ p !! j = Some w' ->
     in_section w = true -> in_section w' = true -> i = j) /\
  (forall i, workers_ p !! i = Some Taking -> is_Some (work i p)).
Proof.
  intros Hr%reachable_inv. split; [apply Hr|]. split.
  - intros i j w w' Hi Hj H1%(inv_mutex _ Hr i w Hi) H2%(inv_mutex _ Hr j w' Hj). congruence.
  - intros i Hi. unfold work. rewrite Hi. pose proof (inv_taking _ Hr i Hi) as Ht.
    destruct (tasks_ p), (running_ p); cbn; try done. by destruct Ht.
Qed.

(** *** Progress *)

(** The steps of workers and of callers in the middle of [Submit]. *)
Definition internal (e : event) : bool :=
  match e with EWork _ | ENotifyOne _ => true | _ => false end.

(** Some internal steps make a worker take the task [t] next. *)
Definition taken_next (t : Task) (p : ThreadPool) : Prop :=
  exists es i p', Forall internal es /\ run es p = Some p' /\ started p' = started p ++ [(i, t)].

Lemma taken_next_step e p p' t :
  internal e -> fire e p = Some p' -> started p' = started p -> taken_next t p' -> taken_next t p.
Proof.
  intros He Hf Hs (es & i & p2 & Hes & Hrun & Hst). exists (e :: es), i, p2.
  split; [by constructor|]. cbn. by rewrite Hf, <-Hs.
Qed.

Lemma set_worker_lookup i w w' p :
  workers_ p !! i = Some w -> workers_ (set_worker i w' p) !! i = Some w'.
Proof. intros Hi. apply list_lookup_insert_eq. by eapply lookup_lt_Some. Qed.

Lemma next_taking i t rest p :
  workers_ p !! i = Some Taking -> tasks_ p = t :: rest -> taken_next t p.
Proof.
  intros Hi Ht. eexists [EWork i], i, _. split; [by repeat constructor|].
  split; [|shelve]. cbn. unfold work. rewrite Hi, Ht, andb_false_r. reflexivity.
  Unshelve. done.
Qed.

Lemma next_testing i t rest p :
  workers_ p !! i = Some Testing -> tasks_ p = t :: rest -> taken_next t p.
Proof.
  intros Hi Ht.
  eapply (taken_next_step (EWork i)); [done|cbn; unfold work; rewrite Hi, Ht; reflexivity|done|].
  eapply next_taking; [by eapply set_worker_lookup|done].
Qed.

Lemma next_locking i w t rest p :
  workers_ p !! i = Some w -> w = Locking \/ w = Woken -> mutex_ p = None ->
  tasks_ p = t :: rest -> taken_next t p.
Proof.
  intros Hi Hw Hm Ht. eapply (taken_next_step (EWork i));
    [done|cbn; unfold work; rewrite Hi, Hm; by destruct Hw as [->| ->]|done|].
  eapply next_testing; [by eapply set_worker_lookup|done].
Qed.

Lemma next_head i t rest p :
  workers_ p !! i = Some Head -> running_ p = true -> mutex_ p = None ->
  tasks_ p = t :: rest -> taken_next t p.
Proof.
  intros Hi Hr Hm Ht. eapply (taken_next_step (EWork i)); [done|cbn; unfold work; by rewrite Hi, Hr|done|].
  eapply next_locking; [by eapply set_worker_lookup|by left|done..].
Qed.

Lemma next_awake i w t rest p :
  inv p -> workers_ p !! i = Some w -> w <> Blocked -> running_ p = true -> mutex_ p = None ->
  tasks_ p = t :: rest -> taken_next t p.
Proof.
  intros Hinv Hi Hw Hr Hm Ht. pose proof (no_section p i w Hinv Hm Hi) as Hsec.
  destruct w; try done.
  - by eapply next_head.
  - eapply next_locking; eauto.
  - eapply next_locking; eauto.
  - eapply (taken_next_step (EWork i)); [done|cbn; unfold work; by rewrite Hi|done|].
    eapply next_head; [by eapply set_worker_lookup|done..].
  - pose proof (inv_exited _ Hinv i Hi). congruence.
Qed.

Lemma existsb_lookup (f : worker -> bool) ws :
  existsb f ws = true -> exists i w, ws !! i = Some w /\ f w = true.
Proof.
  intros (w & Hin & Hf)%existsb_exists.
  apply list_elem_of_In, list_elem_of_lookup_1 in Hin as [i Hi]. by exists i, w.
Qed.

(** C15: As long as the pool is not being destroyed, the oldest queued
    task can always be taken: in every state the workers (and callers about to
    notify) have a run in which a worker takes it next. No wake-up of [Submit] is lost. *)
Theorem accepted_task_taken n p t rest :
  reachable n p -> dtor p = Alive -> tasks_ p = t :: rest -> taken_next t p.
Proof.
  intros Hinv%reachable_inv Hd Ht. pose proof (proj2 (inv_dtor _ Hinv) Hd) as Hr.
  destruct (mutex_ p) as [i|] eqn:Hm.
  - destruct (inv_holder _ Hinv i Hm) as [w Hi]. pose proof (proj2 (inv_mutex _ Hinv i w Hi) Hm) as Hw.
    destruct w; try done; [by eapply next_testing| |by eapply next_taking].
    pose proof (inv_blocking _ Hinv i Hi). congruence.
  - destruct (inv_awake _ Hinv) as [Hn|(i & w & Hi & Hw)]; [congruence|done| |by eapply next_awake].
    destruct (existsb is_blocked (workers_ p)) eqn:Hb.
    + apply existsb_lookup in Hb as (i & [] & Hi & ?); try done.
      destruct (notifying p) as [|k] eqn:Hk; [done|].
      eapply (taken_next_step (ENotifyOne (Some i))); [done|cbn; rewrite Hk, Hi; reflexivity|done|].
      eapply (next_locking i); [by eapply set_worker_lookup|by right|done..].
    + pose proof (inv_size _ Hinv) as Hs. destruct (workers_ p) as [|w ws] eqn:Hw; [done|].
      eapply (next_awake 0 w); try done; [by rewrite Hw|]. by intros ->.
Qed.

(** *** The destructor *)

Definition asleep (w : worker) : bool :=
  match w with Blocking | Blocked => true | _ => false end.

(** How many steps a worker is from the end of its loop once [running_] is false. *)
Definition distance (w : worker) : nat :=
  match w with
  | Exited => 0 | Head => 1 | Running _ => 2 | Taking => 3 | Testing => 4
  | Locking | Woken => 5 | Blocking | Blocked => 0
  end.

Definition steps_left (p : ThreadPool) : nat := sum_list_with distance (workers_ p).

Lemma sum_insert ws i w w' :
  ws !! i = Some w ->
  (sum_list_with distance (<[i := w']> ws) + distance w
   = sum_list_with distance ws + distance w')%nat.
Proof.
  revert i. induction ws as [|x ws IH]; intros [|i]; simpl; [done|done|intros [= ->]; lia|].
  intros Hi. specialize (IH i Hi). lia.
Qed.

(** The pool is being joined and nobody can miss the notification any more. *)
Record draining (p : ThreadPool) : Prop := {
  dr_inv : inv p;
  dr_dtor : dtor p = Joining;
  dr_awake : forall i w, workers_ p !! i = Some w -> asleep w = false
}.

Lemma draining_work i w p :
  draining p -> workers_ p !! i = Some w -> w <> Exited ->
  mutex_ p = None \/ in_section w = true ->
  exists p', work i p = Some p' /\ draining p' /\ (steps_left p' < steps_left p)%nat.
Proof.
  intros [Hinv Hd Haw] Hi Hw Hm. pose proof (Haw i w Hi) as Hwi.
  assert (running_ p = false) as Hr.
  { destruct (running_ p) eqn:E; [|done]. pose proof (proj1 (inv_dtor _ Hinv) E). congruence. }
  assert (exists w' p', work i p = Some p' /\ workers_ p' = <[i := w']> (workers_ p) /\
    dtor p' = dtor p /\ asleep w' = false /\ (distance w' < distance w)%nat)
    as (w' & p' & Hwork & Hws & Hd' & Hw' & Hlt).
  { unfold work. rewrite Hi, Hr. destruct w; try done.
    all: try (destruct Hm as [Hm|Hm]; [rewrite Hm|done]).
    all: cbn; rewrite ?orb_true_r.
    all: try (eexists _, _; do 2 (split; [reflexivity|]); cbn; split_and!; (done || lia)).
    all: destruct (tasks_ p); cbn; eexists _, _; do 2 (split; [reflexivity|]); cbn;
      split_and!; (done || lia). }
  exists p'. split; [done|]. split; [split|].
  - by eapply inv_work.
  - by rewrite Hd'.
  - intros j x. rewrite Hws. intros [(-> & <- & _)|(_ & Hj)]%list_lookup_insert_Some; eauto.
  - unfold steps_left. rewrite Hws. pose proof (sum_insert _ i w w' Hi). lia.
Qed.

Lemma not_all_exited (ws : list worker) :
  forallb is_exited ws = false -> exists i w, ws !! i = Some w /\ w <> Exited.
Proof.
  induction ws as [|w ws IH]; [done|]. simpl. intros [Hw|Hw]%andb_false_iff.
  - exists 0%nat, w. split; [done|]. by intros ->.
  - destruct (IH Hw) as (i & w' & ? & ?). by exists (S i), w'.
Qed.

(** Somebody can move: the holder of the mutex, or anybody when it is free. *)
Lemma draining_step p :
  draining p -> forallb is_exited (workers_ p) = false ->
  exists i p', work i p = Some p' /\ draining p' /\ (steps_left p' < steps_left p)%nat.
Proof.
  intros Hdr Hex. destruct (mutex_ p) as [i|] eqn:Hm.
  - destruct (inv_holder _ (dr_inv _ Hdr) i Hm) as [w Hi].
    pose proof (proj2 (inv_mutex _ (dr_inv _ Hdr) i w Hi) Hm) as Hs.
    exists i. apply (draining_work i w); [done|done|by intros ->|by right].
  - destruct (not_all_exited _ Hex) as (i & w & Hi & Hw).
    exists i. apply (draining_work i w); [done|done|done|by left].
Qed.

Lemma draining_ends k : forall p,
  draining p -> (steps_left p <= k)%nat ->
  exists es p', Forall internal es /\ (length es <= k)%nat /\
    run (es ++ [EJoin]) p = Some p' /\ dtor p' = Destroyed.
Proof.
  induction k as [|k IH]; intros p Hdr Hk; destruct (forallb is_exited (workers_ p)) eqn:Hex.
  1,3: exists [], (set_dtor Destroyed p); cbn; rewrite (dr_dtor _ Hdr), Hex; split_and!; (done || lia).
  all: destruct (draining_step p Hdr Hex) as (i & p1 & Hwork & Hdr1 & Hlt).
  { lia. }
  destruct (IH p1 Hdr1) as (es & p' & Hes & Hlen & Hrun & Hd); [lia|].
  exists (EWork i :: es), p'. split_and!; [by constructor|simpl; lia| |done].
  cbn. by rewrite Hwork.
Qed.

Lemma steps_left_bound p : (steps_left p <= 5 * Size p)%nat.
Proof.
  unfold steps_left, Size. induction (workers_ p) as [|w ws IH]; simpl; [lia|].
  assert (distance w <= 5)%nat by (destruct w; simpl; lia). lia.
Qed.

(** C26: When the destructor has notified and no worker is between a false
    predicate and its [wait], joining returns: at most five steps of each worker lead
    to the end of the destructor, in every state. *)
Theorem join_returns n p :
  reachable n p -> dtor p = Joining ->
  (forall i w, workers_ p !! i = Some w -> asleep w = false) ->
  exists es p', Forall internal es /\ (length es <= 5 * Size p)%nat /\
    run (es ++ [EJoin]) p = Some p' /\ dtor p' = Destroyed.
Proof.
  intros Hinv%reachable_inv Hd Haw.
  apply draining_ends; [by split|apply steps_left_bound].
Qed.

(** From every state some schedule lets the destructor return. *)
Lemma stopped_ends p :
  inv p -> dtor p = Stopped -> (forall i, workers_ p !! i <> Some Blocking) ->
  exists es p', run (ENotifyAll :: es) p = Some p' /\ dtor p' = Destroyed.
Proof.
  intros Hinv Hd Hb. cbn [run fire]. rewrite Hd.
  set (p1 := set_dtor Joining (set_workers_ (map wake (workers_ p)) p)).
  assert (draining p1) as Hdr.
  { split; [by apply inv_wake_all|done|]. intros i w (w0 & Hi & ->)%lookup_wake.
    specialize (Hb i). by destruct w0. }
  destruct (draining_ends _ p1 Hdr (le_n _)) as (es & p' & _ & _ & Hrun & Hd').
  by exists (es ++ [EJoin]), p'.
Qed.

Lemma destroyable n p :
  reachable n p -> dtor p = Alive ->
  exists es p', run (EStop :: es) p = Some p' /\ dtor p' = Destroyed.
Proof.
  intros Hp Hd. cbn [run]. destruct (fire EStop p) as [p1|] eqn:Hf; [|cbn in Hf; by rewrite Hd in Hf].
  pose proof (reachable_inv _ _ (reachable_fire n _ _ _ Hp Hf)) as Hinv.
  assert (dtor p1 = Stopped) as Hd1 by (cbn in Hf; rewrite Hd in Hf; by injection Hf as <-).
  destruct (mutex_ p1) as [i|] eqn:Hm; cycle 1.
  { destruct (stopped_ends p1 Hinv Hd1) as (es & p' & ? & ?); [|by eexists _, p'].
    intros i Hi. by pose proof (no_section p1 i _ Hinv Hm Hi). }
  assert (workers_ p1 !! i = Some Blocking \/ workers_ p1 !! i <> Some Blocking) as [Hi|Hi];
    [destruct (workers_ p1 !! i) as [[]|]; by (left + right)| |].
  2: { destruct (stopped_ends p1 Hinv Hd1) as (es & p' & ? & ?); [|by eexists _, p'].
    intros j Hj. pose proof (proj1 (inv_mutex _ Hinv j _ Hj) eq_refl). congruence. }
  assert (work i p1 = Some (set_mutex_ None (set_worker i Blocked p1))) as Hw by (unfold work; by rewrite Hi).
  pose proof (inv_work _ _ _ Hinv Hw) as Hinv2.
  destruct (stopped_ends _ Hinv2 Hd1) as (es & p' & Hrun & Hd').
  { intros j Hj. by pose proof (no_section _ j _ Hinv2 eq_refl Hj). }
  exists (EWork i :: ENotifyAll :: es), p'. split; [|done]. cbn [run fire]. by rewrite Hw.
Qed.

(** Worker [i] sleeps, the destructor has notified, and nobody is about to notify again. *)
Definition forgotten (i : nat) (p : ThreadPool) : Prop :=
  workers_ p !! i = Some Blocked /\ dtor p = Joining /\ running_ p = false /\ notifying p = 0%nat.

Lemma forgotten_fire i e p p' :
  forgotten i p -> fire e p = Some p' -> e <> ESpurious i -> forgotten i p'.
Proof.
  intros (Hi & Hd & Hr & Hn) Hf He. unfold forgotten.
  assert (forall j w, j <> i -> <[j := w]> (workers_ p) !! i = Some Blocked) as Hother.
  { intros j w Hne. by rewrite list_lookup_insert_ne. }
  destruct e as [t|who|j|j| | |]; cbn [fire] in Hf; rewrite ?Hd, ?Hn in Hf; try done.
  - unfold Submit in Hf. rewrite Hr in Hf. destruct (mutex_ p); [done|]. by injection Hf as <-.
  - unfold work in Hf. destruct (decide (j = i)) as [->|Hne]; [by rewrite Hi in Hf|].
    destruct (workers_ p !! j) as [w|]; [|done].
    destruct w; repeat case_match; simplify_eq; cbn; split_and!; try done; by apply Hother.
  - destruct (workers_ p !! j) as [w|] eqn:Hj; [|done]. destruct w; try done. injection Hf as <-.
    cbn. split_and!; try done. apply Hother. congruence.
  - destruct (forallb is_exited (workers_ p)) eqn:Hall; [|done].
    rewrite forallb_forall in Hall. specialize (Hall Blocked).
    discriminate Hall. apply list_elem_of_In. by eapply list_elem_of_lookup_2.
Qed.

(** C37: The destructor stores [running_] and notifies without the mutex, so it can do both
    between a worker's test of the predicate and its [wait]. In every state of a pool of
    any size in which a worker is there and no caller of [Submit] is about to notify, this
    can happen next; whatever the workers, the callers and the destructor do then, as long
    as the worker's [wait] does not return by a spurious wake-up, the worker sleeps and
    the destructor joins. *)
Theorem join_can_hang p i :
  dtor p = Alive -> workers_ p !! i = Some Blocking -> notifying p = 0%nat ->
  exists p1, run [EStop; ENotifyAll; EWork i] p = Some p1 /\
    forall es p2, run es p1 = Some p2 -> ESpurious i ∉ es ->
      workers_ p2 !! i = Some Blocked /\ dtor p2 = Joining.
Proof.
  intros Hd Hi Hn. cbn [run fire]. rewrite Hd. cbn [run fire dtor]. unfold work, set_dtor, set_workers_.
  cbn [workers_]. rewrite list_lookup_fmap, Hi. cbn [fmap option_fmap option_map wake].
  eexists. split; [reflexivity|].
  match goal with |- context [run _ ?q = Some _] => set (p1 := q) end.
  assert (forgotten i p1) as Hp1.
  { split_and!; try done. apply list_lookup_insert_eq, lookup_lt_is_Some. cbn. rewrite list_lookup_fmap, Hi. by eexists. }
  clearbody p1. intros es. revert p1 Hp1. induction es as [|e es IH]; intros p1 Hp1 p2; cbn [run].
  - intros [= <-] _. by destruct Hp1 as (? & ? & _).
  - destruct (fire e p1) as [p3|] eqn:Hf; [|done]. intros Hrun [He Hes]%not_elem_of_cons.
    eapply IH; [|done|done]. eapply forgotten_fire; [exact Hp1|exact Hf|]. by intros ->.
Qed.

(** Every task is queued before a worker gets to run, then the pool is destroyed. *)
Definition submit_then_stop (n : nat) (ts : list Task) : list event :=
  concat (map (fun t => [ESubmit t; ENotifyOne None]) ts) ++ [EStop; ENotifyAll] ++
  map EWork (seq 0 n) ++ [EJoin].

Lemma run_app es es' p :
  run (es ++ es') p = match run es p with Some p' => run es' p' | None => None end.
Proof. revert p. induction es as [|e es IH]; intros p; simpl; [done|]. by destruct (fire e p). Qed.

Lemma run_submits n ts : forall q,
  run (concat (map (fun t => [ESubmit t; ENotifyOne None]) ts))
    (MkPool (replicate n Head) q None true 0 Alive q [])
  = Some (MkPool (replicate n Head) (q ++ ts) None true 0 Alive (q ++ ts) []).
Proof.
  induction ts as [|t ts IH]; intros q; [by rewrite app_nil_r|].
  assert (existsb is_blocked (replicate n Head) = false) as Hb by (clear; by induction n).
  cbn. rewrite Hb. unfold set_notifying. cbn. rewrite IH, <-app_assoc. done.
Qed.

Lemma run_exits n : forall k q h,
  run (map EWork (seq k n)) (MkPool (replicate k Exited ++ replicate n Head) q None false 0 Joining h [])
  = Some (MkPool (replicate (k + n) Exited) q None false 0 Joining h []).
Proof.
  induction n as [|n IH]; intros k q h; [by rewrite app_nil_r, Nat.add_0_r|].
  cbn [seq map run fire]. unfold work. cbn [workers_ running_].
  rewrite lookup_app_r, length_replicate, Nat.sub_diag by (rewrite length_replicate; done).
  cbn [replicate lookup list_lookup]. unfold set_worker.
  cbn [workers_ tasks_ mutex_ running_ notifying dtor submitted started].
  rewrite insert_app_r_alt, length_replicate, Nat.sub_diag by (rewrite length_replicate; done).
  cbn [insert list_insert].
  specialize (IH (S k) q h). rewrite Nat.add_succ_r, <-Nat.add_succ_l, <-IH.
  do 2 f_equal. rewrite replicate_S_end, <-app_assoc. done.
Qed.

(** The workers leave their loop as soon as [running_] is false,
    whatever is queued: for any number of threads and any tasks there is a run in which
    every task is accepted, the destructor returns, and none has been started. *)
Theorem destructor_drops_tasks n ts :
  (0 < n)%nat ->
  exists p, run (submit_then_stop n ts) (ThreadPool_new n) = Some p /\
    dtor p = Destroyed /\ submitted p = ts /\ started p = [] /\ tasks_ p = ts.
Proof.
  intros Hn. unfold submit_then_stop, ThreadPool_new. rewrite decide_False by lia.
  eexists. rewrite run_app, run_submits. cbn [app run fire dtor].
  unfold set_dtor, set_workers_. cbn [workers_ tasks_ mutex_ running_ notifying dtor submitted started].
  assert (map wake (replicate n Head) = replicate n Head) as -> by apply fmap_replicate.
  rewrite run_app, (run_exits n 0). cbn [run fire dtor workers_].
  assert (forallb is_exited (replicate (0 + n) Exited) = true) as ->.
  { clear. simpl. by induction n. }
  done.
Qed.
End pool.

(** ** Witnesses: a pool of two threads with numbered tasks *)

(** Two tasks are submitted, the first is taken while the other worker sleeps. *)
Definition busy_run : list (event (Task := nat)) :=
  [EWork 0; EWork 0; EWork 0; EWork 0; ESubmit 7%nat; ESubmit 8%nat; EWork 1; EWork 1; EWork 1; EWork 1].

Definition busy : ThreadPool (Task := nat) :=
  MkPool [Blocked; Running 7%nat] [8%nat] None true 2 Alive [7%nat; 8%nat] [(1%nat, 7%nat)].

Lemma busy_reachable : reachable 2 busy.
Proof. eapply (run_reachable 2 busy_run); [constructor|reflexivity]. Qed.

Lemma pool_fifo_witness :
  submitted busy = map snd (started busy) ++ tasks_ busy /\
  (forall i j w w', workers_ busy !! i = Some w -> workers_ busy !! j = Some w' ->
     in_section w = true -> in_section w' = true -> i = j) /\
  (forall i, workers_ busy !! i = Some Taking -> is_Some (work i busy)).
Proof. apply (pool_fifo 2). exact busy_reachable. Defined.

Lemma accepted_task_taken_witness : taken_next 8%nat busy.
Proof. apply (accepted_task_taken 2 busy 8%nat []); [exact busy_reachable|reflexivity..]. Defined.

(** The pool is destroyed while one worker sleeps and the other is busy. *)
Definition stopping : ThreadPool (Task := nat) :=
  MkPool [Woken; Running 7%nat] [8%nat] None false 2 Joining [7%nat; 8%nat] [(1%nat, 7%nat)].

Lemma join_returns_witness :
  exists es p', Forall internal es /\ (length es <= 5 * Size stopping)%nat /\
    run (es ++ [EJoin]) stopping = Some p' /\ dtor p' = Destroyed.
Proof.
  apply (join_returns 2); [|reflexivity|].
  - eapply (run_reachable 2 [EStop; ENotifyAll]); [exact busy_reachable|reflexivity].
  - intros [|[|i]] w; simpl; [intros [= <-]; reflexivity..|discriminate].
Defined.

(** One worker runs a task, the other has found the queue empty. *)
Definition testing_run : list (event (Task := nat)) :=
  [ESubmit 7%nat; ENotifyOne None; EWork 0; EWork 0; EWork 0; EWork 0; EWork 1; EWork 1; EWork 1].

Lemma join_can_hang_witness :
  exists p p1, run testing_run (ThreadPool_new 2) = Some p /\
    run [EStop; ENotifyAll; EWork 1] p = Some p1 /\
    forall es p2, run es p1 = Some p2 -> ESpurious 1 ∉ es ->
      workers_ p2 !! 1%nat = Some Blocked /\ dtor p2 = Joining.
Proof.
  destruct (run testing_run (ThreadPool_new 2)) as [p|] eqn:Hrun; [|vm_compute in Hrun; discriminate Hrun].
  assert (p = MkPool [Running 7%nat; Blocking] [] (Some 1%nat) true 0 Alive [7%nat] [(0%nat, 7%nat)]) as E
    by (vm_compute in Hrun; congruence).
  destruct (join_can_hang p 1) as (p1 & H1 & H2); [by rewrite E..|].
  exists p, p1. split; [reflexivity|]. split; [exact H1|exact H2].
Defined.

Lemma destructor_drops_tasks_witness :
  exists p, run (submit_then_stop 2 [7%nat; 8%nat]) (ThreadPool_new 2) = Some p /\
    dtor p = Destroyed /\ submitted p = [7%nat; 8%nat] /\ started p = [] /\ tasks_ p = [7%nat; 8%nat].
Proof. apply (destructor_drops_tasks 2). lia. Defined.
