(* ===== verification/TcpServer.v ===== *)
(** * From the socket to the handler: class [TcpServer] of [src/server/tcp_server.cpp]

    The Linux branch: what [HandleRead] does with the results of [recv], the write
    buffers, and the tasks it submits to the thread pool, each of which calls the message
    handler and sends its reply. The system at the end of the file runs the pool of
    [ThreadPool] and the handler of [KvServer] together. *)

From S2P Require Import Prelude CppString Protocol KvStore KvServer ThreadPool.
From S2P Require Import ServerTheorems.

(** The task [HandleRead] submits: the descriptor and the bytes it captures. *)
Abbreviation message := (Z * bytes)%type.

(** What a [recv] of at most 4096 bytes on a non-blocking socket returns. *)
Inductive recv_result :=
  | Received (chunk : bytes)
  | WouldBlock
  | PeerClosed
  | RecvError.

Record TcpServer := MkTcp {
  thread_pool_ : ThreadPool (Task := message);
  write_buffers_ : gmap Z bytes;
  connections : gset Z               (* open descriptors registered with epoll *)
}.

Definition TcpServer_new (thread_count : nat) : TcpServer :=
  MkTcp (ThreadPool_new thread_count) ∅ ∅.

Definition CloseConnection (client_fd : Z) (s : TcpServer) : TcpServer :=
  MkTcp (thread_pool_ s) (delete client_fd (write_buffers_ s)) (connections s ∖ {[client_fd]}).

(** The loop of [HandleRead]; the list ends when the socket has no more bytes. [Submit]
    throws out of the event loop. *)
Fixpoint HandleRead (client_fd : Z) (results : list recv_result) (s : TcpServer) : res TcpServer :=
  match results with
  | [] | WouldBlock :: _ => Ret s
  | PeerClosed :: _ | RecvError :: _ => Ret (CloseConnection client_fd s)
  | Received chunk :: results =>
      let? p := Submit (client_fd, chunk) (thread_pool_ s) in
      HandleRead client_fd results (MkTcp p (write_buffers_ s) (connections s))
  end.

(** [HandleWrite]: [sends] are the results of successive [send] calls, [None] for [EAGAIN]
    and negative for another error. On an error the code calls [CloseConnection] while it
    holds [write_mutex_], which that method locks again: undefined behaviour. *)
Fixpoint write_out (client_fd : Z) (sends : list (option Z)) (buf : bytes) (s : TcpServer)
  : res TcpServer :=
  match buf, sends with
  | [], _ => Ret (MkTcp (thread_pool_ s) (delete client_fd (write_buffers_ s)) (connections s))
  | _, [] | _, None :: _ =>
      Ret (MkTcp (thread_pool_ s) (<[client_fd := buf]> (write_buffers_ s)) (connections s))
  | _, Some n :: sends =>
      if decide (n < 0) then Undefined else write_out client_fd sends (zdrop n buf) s
  end.

Definition HandleWrite (client_fd : Z) (sends : list (option Z)) (s : TcpServer) : res TcpServer :=
  match write_buffers_ s !! client_fd with
  | None => Ret s
  | Some buf => write_out client_fd sends buf s
  end.

(** [accept] returned a descriptor. *)
Definition HandleAccept (client_fd : Z) (s : TcpServer) : TcpServer :=
  MkTcp (thread_pool_ s) (write_buffers_ s) ({[client_fd]} ∪ connections s).

(** What [epoll_wait] reports, with what the calls it leads to will return. *)
Inductive ready :=
  | Acceptable (client_fds : list Z)
  | Readable (client_fd : Z) (results : list recv_result)
  | Writable (client_fd : Z) (sends : list (option Z)).

(** [EventLoop], for the events of as many [epoll_wait] calls as are given. *)
Fixpoint EventLoop (events : list ready) (s : TcpServer) : res TcpServer :=
  match events with
  | [] => Ret s
  | e :: events =>
      let? s := match e with
                | Acceptable fds => Ret (foldl (fun s fd => HandleAccept fd s) s fds)
                | Readable fd results => HandleRead fd results s
                | Writable fd sends => HandleWrite fd sends s
                end in
      EventLoop events s
  end.

(** The bytes a sequence of [recv] results carries before the loop ends, in chunks. *)
Fixpoint chunks (results : list recv_result) : list bytes :=
  match results with
  | Received c :: results => c :: chunks results
  | _ => []
  end.

Lemma HandleRead_ok fd results : forall s,
  running_ (thread_pool_ s) = true ->
  exists s', HandleRead fd results s = Ret s' /\
    submitted (thread_pool_ s') = submitted (thread_pool_ s) ++ map (pair fd) (chunks results) /\
    tasks_ (thread_pool_ s') = tasks_ (thread_pool_ s) ++ map (pair fd) (chunks results) /\
    running_ (thread_pool_ s') = true /\
    (write_buffers_ s = ∅ -> write_buffers_ s' = ∅).
Proof.
  induction results as [|[c| | |] results IH]; intros s Hr; cbn [HandleRead chunks map].
  - exists s. by rewrite !app_nil_r.
  - unfold Submit. rewrite Hr. cbn [res_bind].
    destruct (IH (MkTcp (MkPool (workers_ (thread_pool_ s)) (tasks_ (thread_pool_ s) ++ [(fd, c)])
      (mutex_ (thread_pool_ s)) true (S (notifying (thread_pool_ s))) (dtor (thread_pool_ s))
      (submitted (thread_pool_ s) ++ [(fd, c)]) (started (thread_pool_ s)))
      (write_buffers_ s) (connections s))) as (s' & Hrun & Hs & Ht & Hr' & Hb); [done|].
    exists s'. simpl in *. rewrite Hs, Ht, <-!app_assoc. done.
  - exists s. by rewrite !app_nil_r.
  - eexists. split; [reflexivity|]. simpl. rewrite !app_nil_r. split_and!; try done.
    intros ->. by rewrite delete_empty.
  - eexists. split; [reflexivity|]. simpl. rewrite !app_nil_r. split_and!; try done.
    intros ->. by rewrite delete_empty.
Qed.

(** The messages of an event, in order. *)
Definition messages (e : ready) : list message :=
  match e with Readable fd results => map (pair fd) (chunks results) | _ => [] end.

Lemma HandleAccept_frame fds s :
  thread_pool_ (foldl (fun s fd => HandleAccept fd s) s fds) = thread_pool_ s /\
  write_buffers_ (foldl (fun s fd => HandleAccept fd s) s fds) = write_buffers_ s.
Proof. revert s. induction fds as [|fd fds IH]; intros s; simpl; [done|]. apply (IH (HandleAccept fd s)). Qed.

(** C28: Whatever [epoll_wait] reports and [recv] returns, the event loop
    of a running server submits every received chunk as a task, in the order of arrival
    and nothing else; the write buffers stay empty, so that [HandleWrite] never writes. *)
Theorem event_loop_in_order events : forall s,
  running_ (thread_pool_ s) = true -> write_buffers_ s = ∅ ->
  exists s', EventLoop events s = Ret s' /\
    submitted (thread_pool_ s') = submitted (thread_pool_ s) ++ concat (map messages events) /\
    tasks_ (thread_pool_ s') = tasks_ (thread_pool_ s) ++ concat (map messages events) /\
    write_buffers_ s' = ∅.
Proof.
  induction events as [|e events IH]; intros s Hr Hb; cbn [EventLoop concat map].
  { exists s. by rewrite !app_nil_r. }
  assert (exists s1, match e with
                | Acceptable fds => Ret (foldl (fun s fd => HandleAccept fd s) s fds)
                | Readable fd results => HandleRead fd results s
                | Writable fd sends => HandleWrite fd sends s
                end = Ret s1 /\ running_ (thread_pool_ s1) = true /\ write_buffers_ s1 = ∅ /\
      submitted (thread_pool_ s1) = submitted (thread_pool_ s) ++ messages e /\
      tasks_ (thread_pool_ s1) = tasks_ (thread_pool_ s) ++ messages e)
    as (s1 & Hs1 & Hr1 & Hb1 & Hsub & Htasks).
  { destruct e as [fds|fd results|fd sends]; simpl.
    - destruct (HandleAccept_frame fds s) as [E1 E2]. eexists. split; [reflexivity|].
      rewrite E1, E2, !app_nil_r. done.
    - destruct (HandleRead_ok fd results s Hr) as (s1 & ? & ? & ? & ? & ?). exists s1. auto.
    - unfold HandleWrite. rewrite Hb, lookup_empty. exists s. by rewrite !app_nil_r. }
  rewrite Hs1. cbn [res_bind]. destruct (IH s1 Hr1 Hb1) as (s' & Hrun & H1 & H2 & H3).
  exists s'. rewrite H1, H2, Hsub, Htasks, <-!app_assoc. done.
Qed.

Lemma event_loop_in_order_witness :
  let events := [Acceptable [7]; Readable 7 [Received (str "*1"); WouldBlock]; Writable 7 [];
                 Readable 7 [Received (str "x"); PeerClosed]] in
  exists s', EventLoop events (TcpServer_new 2) = Ret s' /\
    submitted (thread_pool_ s') = [] ++ concat (map messages events) /\
    tasks_ (thread_pool_ s') = [] ++ concat (map messages events) /\
    write_buffers_ s' = ∅.
Proof. apply (event_loop_in_order _ (TcpServer_new 2)); reflexivity. Defined.

(** ** The pool and the handler together *)

Section world.
Context {Store : Type} `{KvBackend Store}.
Context (hash : Z -> Z).

(** What a [send] on a connection returns (the number of bytes taken, or a negative one),
    given all that was sent there before and what is to be sent: the sockets do not block.
    [None] is SIGPIPE, which a [send] without [MSG_NOSIGNAL] raises when the client has gone
    and which nobody ignores: the process dies. *)
Context (room : Z -> bytes -> bytes -> option Z).

Record world := MkWorld {
  pool : ThreadPool (Task := message);
  kv : KvServer (Store := Store);
  out : gmap Z bytes;              (* all that was sent on each connection *)
  handled : list message           (* history: tasks whose body has run, in that order *)
}.

(** [::send], whose result the code does not look at. *)
Definition send (fd : Z) (resp : bytes) : M (gmap Z bytes) unit := fun o =>
  let sent := default [] (o !! fd) in
  match room fd sent resp with
  | Some n => (Ret tt, <[fd := sent ++ ztake n resp]> o)
  | None => (Crashed, o)
  end.

(** The lambda of [HandleRead]: [None] when the handler is still running after [fuel]
    rounds. An exception of the handler ends in the task's future. *)
Definition task_body (fuel : nat) (t : message)
  : M (KvServer (Store := Store) * gmap Z bytes) (option unit) := fun y =>
  match on_message hash fuel t.1 t.2 y.1 with
  | (Ret (Some resp), kv) =>
      if decide (resp = []) then (Ret (Some tt), (kv, y.2)) else
      match send t.1 resp y.2 with
      | (Ret _, o) => (Ret (Some tt), (kv, o))
      | (Throw e, o) => (Throw e, (kv, o))
      | (Undefined, o) => (Undefined, (kv, o))
      | (Crashed, o) => (Crashed, (kv, o))
      end
  | (Ret None, kv) => (Ret None, (kv, y.2))
  | (Throw _, kv) => (Ret (Some tt), (kv, y.2))
  | (Undefined, kv) => (Undefined, (kv, y.2))
  | (Crashed, kv) => (Crashed, (kv, y.2))
  end.

(** The state after a task that has returned. *)
Definition returned {S : Type} (x : res (option unit) * S) : option S :=
  match x with (Ret (Some _), y) => Some y | _ => None end.

(** The task a step of the pool finishes: its body has then run, under the lock of its
    connection's shard. *)
Definition finishes (e : event (Task := message)) (p : ThreadPool (Task := message)) : option message :=
  match e with
  | EWork i => match workers_ p !! i with Some (Running t) => Some t | _ => None end
  | _ => None
  end.

Definition world_fire (fuel : nat) (e : event) (y : world) : option world :=
  match fire e (pool y) with
  | None => None
  | Some p =>
      match finishes e (pool y) with
      | None => Some (MkWorld p (kv y) (out y) (handled y))
      | Some t =>
          match returned (task_body fuel t (kv y, out y)) with
          | Some (k, o) => Some (MkWorld p k o (handled y ++ [t]))
          | None => None
          end
      end
  end.

Fixpoint world_run (fuel : nat) (es : list event) (y : world) : option world :=
  match es with
  | [] => Some y
  | e :: es => match world_fire fuel e y with Some y => world_run fuel es y | None => None end
  end.

Lemma world_fire_quiet fuel e p p' k o h :
  fire e p = Some p' -> finishes e p = None ->
  world_fire fuel e (MkWorld p k o h) = Some (MkWorld p' k o h).
Proof. intros Hf Ht. unfold world_fire. cbn [pool]. by rewrite Hf, Ht. Qed.

Lemma world_fire_task fuel e p p' t k o h k' o' :
  fire e p = Some p' -> finishes e p = Some t ->
  returned (task_body fuel t (k, o)) = Some (k', o') ->
  world_fire fuel e (MkWorld p k o h) = Some (MkWorld p' k' o' (h ++ [t])).
Proof. intros Hf Ht Hr. unfold world_fire. cbn [pool kv out handled]. by rewrite Hf, Ht, Hr. Qed.

Definition world_new (n : nat) (k : KvServer) : world := MkWorld (ThreadPool_new n) k ∅ [].

(** The tasks' bodies one after the other. *)
Fixpoint bodies (fuel : nat) (ts : list message) (y : KvServer (Store := Store) * gmap Z bytes)
  : option (KvServer (Store := Store) * gmap Z bytes) :=
  match ts with
  | [] => Some y
  | t :: ts => match returned (task_body fuel t y) with Some y => bodies fuel ts y | None => None end
  end.

(** ** One worker *)

Definition in_hand (w : worker (Task := message)) : list message :=
  match w with Running t => [t] | _ => [] end.

(** What a step does to the only worker of a pool. *)
Lemma fire_one e (p p' : ThreadPool (Task := message)) w :
  workers_ p = [w] -> fire e p = Some p' ->
  exists w', workers_ p' = [w'] /\
    match finishes e p with
    | Some t => in_hand w = [t] /\ in_hand w' = [] /\ started p' = started p
    | None => exists l, map snd (started p') = map snd (started p) ++ l /\
                in_hand w' = in_hand w ++ l
    end.
Proof.
  intros Hw. destruct e as [t|[i|]|i|i| | |]; cbn [fire finishes]; unfold work, Submit; rewrite ?Hw.
  - destruct (mutex_ p), (dtor p), (running_ p); try done; intros [= <-]; exists w;
      (split; [done|]); exists []; by rewrite !app_nil_r.
  - destruct (notifying p); [done|]. destruct i as [|i]; [|done]. simpl. destruct w; try done.
    intros [= <-]. exists Woken. simpl. rewrite Hw. split; [done|]. exists []. by rewrite !app_nil_r.
  - destruct (notifying p); [done|]. destruct (existsb _ _); [done|]. intros [= <-]. exists w.
    split; [done|]. exists []. by rewrite !app_nil_r.
  - destruct i as [|i]; [|done]. simpl. destruct w; try done.
    all: try (destruct (mutex_ p); [done|]).
    all: try (intros [= <-]; simpl; rewrite Hw; simpl; eexists; split; [reflexivity|]; try done;
              exists []; rewrite !app_nil_r; by repeat case_match).
    destruct (negb _ && _); [|destruct (tasks_ p) as [|t rest]; [done|]];
      intros [= <-]; simpl; rewrite ?Hw; simpl; eexists; (split; [reflexivity|]).
    + exists []. by rewrite !app_nil_r.
    + exists [t]. by rewrite map_app.
  - destruct i as [|i]; [|done]. simpl. destruct w; try done.
    intros [= <-]. exists Woken. simpl. rewrite Hw. split; [done|]. exists []. by rewrite !app_nil_r.
  - destruct (dtor p); try done. intros [= <-]. exists w. split; [done|]. exists []. by rewrite !app_nil_r.
  - destruct (dtor p); try done. intros [= <-]. exists (wake w). split; [done|].
    exists []. rewrite !app_nil_r. by destruct w.
  - destruct (dtor p); try done. destruct (forallb _ _); [|done]. intros [= <-]. exists w.
    split; [done|]. exists []. by rewrite !app_nil_r.
Qed.

Lemma bodies_app fuel ts ts' y :
  bodies fuel (ts ++ ts') y
  = match bodies fuel ts y with Some y' => bodies fuel ts' y' | None => None end.
Proof.
  revert y. induction ts as [|t ts IH]; intros y; simpl; [done|]. by destruct (returned _).
Qed.

Record one_worker (fuel : nat) (k : KvServer (Store := Store)) (y : world) : Prop := {
  ow_reach : reachable 1 (pool y);
  ow_worker : exists w, workers_ (pool y) = [w] /\
    map snd (started (pool y)) = handled y ++ in_hand w;
  ow_bodies : bodies fuel (handled y) (k, ∅) = Some (kv y, out y)
}.

Lemma one_worker_run fuel k es : forall y y',
  one_worker fuel k y -> world_run fuel es y = Some y' -> one_worker fuel k y'.
Proof.
  induction es as [|e es IH]; intros y y' Hy; simpl; [by intros [= <-]|].
  destruct (world_fire fuel e y) as [y1|] eqn:Hf; [|done]. apply IH. clear IH y' es.
  destruct Hy as [Hreach (w & Hw & Hst) Hb]. unfold world_fire in Hf.
  destruct (fire e (pool y)) as [p|] eqn:Hp; [|done].
  destruct (fire_one e _ _ w Hw Hp) as (w' & Hw' & Hcase).
  assert (reachable 1 p) as Hreach' by by eapply reachable_fire.
  destruct (finishes e (pool y)) as [t|].
  - destruct Hcase as (Hin & Hin' & Hs).
    destruct (returned (task_body fuel t (kv y, out y))) as [[k' o']|] eqn:Ht; [|done].
    injection Hf as <-. split; [done| |].
    + exists w'. split; [done|]. simpl. by rewrite Hs, Hst, Hin, Hin', app_nil_r.
    + simpl. rewrite bodies_app, Hb. simpl. by rewrite Ht.
  - destruct Hcase as (l & Hs & Hin). injection Hf as <-. split; [done| |done].
    exists w'. split; [done|]. simpl. by rewrite Hs, Hst, Hin, app_assoc.
Qed.

Lemma one_worker_new fuel k : one_worker fuel k (world_new 1 k).
Proof. split; [constructor|by exists Head|done]. Qed.

(** Every socket takes whole replies. *)
Definition ample : Prop := forall (fd : Z) (sent resp : bytes),
  exists n, room fd sent resp = Some n /\ zlen resp <= n.

(** The client of [fd] has gone, after what [o] says was sent to it. *)
Definition hung_up (fd : Z) (o : gmap Z bytes) : Prop :=
  exists resp, room fd (default [] (o !! fd)) resp = None.

(** A [send] that takes less than the reply drops the rest: it is in no buffer, and what
    the connection gets next comes right after the part that was sent. *)
Lemma partial_send_drops fuel t k o resp k' n :
  on_message hash fuel t.1 t.2 k = (Ret (Some resp), k') ->
  let sent := default [] (o !! t.1) in
  resp <> [] -> room t.1 sent resp = Some n -> n < zlen resp ->
  exists o', task_body fuel t (k, o) = (Ret (Some tt), (k', o')) /\
    default [] (o' !! t.1) = sent ++ ztake n resp /\
    zlen (default [] (o' !! t.1)) < zlen (sent ++ resp).
Proof.
  intros Hon sent Hne Hroom Hn. unfold task_body, send. cbn [fst snd]. fold sent.
  rewrite Hon, decide_False, Hroom by done.
  eexists. split; [reflexivity|]. rewrite lookup_insert_eq. cbn [default id].
  split; [done|]. rewrite !zlen_app. apply Z.add_lt_mono_l. unfold zlen in *.
  destruct resp as [|b resp]; [done|]. unfold ztake. rewrite length_take. simpl length in *. lia.
Qed.

(** A reply to a client that has gone is the end of the process. *)
Lemma gone_client_kills fuel t k o resp k' :
  on_message hash fuel t.1 t.2 k = (Ret (Some resp), k') -> resp <> [] ->
  room t.1 (default [] (o !! t.1)) resp = None -> task_body fuel t (k, o) = (Crashed, (k', o)).
Proof.
  intros Hon Hne Hroom. unfold task_body, send. cbn [fst snd]. by rewrite Hon, decide_False, Hroom.
Qed.

(** ** What the server guarantees on one worker thread *)

(** The bytes of one connection in a list of tasks. *)
Definition chunks_of (fd : Z) (ts : list message) : list bytes :=
  map snd (filter (fun t : message => t.1 = fd) ts).

(** The commands of one connection among those executed, and the replies to them: each
    is answered from the map at its turn. *)
Definition commands_of (fd : Z) (order : list (Z * Command)) : list Command :=
  map snd (filter (fun x : Z * Command => x.1 = fd) order).

Fixpoint replies_to (fd : Z) (m : gmap bytes bytes) (order : list (Z * Command)) : bytes :=
  match order with
  | [] => []
  | (fd', c) :: order =>
      (if decide (fd' = fd) then SerializeResponse (command_reply m c) else [])
      ++ replies_to fd (command_effect m c) order
  end.

Lemma chunks_of_app fd ts ts' : chunks_of fd (ts ++ ts') = chunks_of fd ts ++ chunks_of fd ts'.
Proof. unfold chunks_of. by rewrite filter_app, map_app. Qed.

Lemma chunks_of_cons fd t ts :
  chunks_of fd (t :: ts) = (if decide (t.1 = fd) then [t.2] else []) ++ chunks_of fd ts.
Proof. unfold chunks_of. rewrite filter_cons. by case_decide. Qed.

Lemma commands_of_app fd o o' : commands_of fd (o ++ o') = commands_of fd o ++ commands_of fd o'.
Proof. unfold commands_of. by rewrite filter_app, map_app. Qed.

Lemma commands_of_one fd fd' cs :
  commands_of fd (map (pair fd') cs) = if decide (fd' = fd) then cs else [].
Proof.
  unfold commands_of. induction cs as [|c cs IH]; [by case_decide|].
  simpl map. rewrite filter_cons. simpl. case_decide; simpl; by rewrite IH.
Qed.

Lemma replies_to_app fd m o o' :
  replies_to fd m (o ++ o')
  = replies_to fd m o ++ replies_to fd (foldl command_effect m (map snd o)) o'.
Proof.
  revert m. induction o as [|[fd' c] o IH]; intros m; simpl; [done|]. by rewrite IH, app_assoc.
Qed.

Lemma replies_to_one fd fd' m cs :
  replies_to fd m (map (pair fd') cs) = if decide (fd' = fd) then replies m cs else [].
Proof.
  revert m. induction cs as [|c cs IH]; intros m; simpl; [by case_decide|].
  rewrite IH. by case_decide.
Qed.

Lemma map_snd_pair (fd : Z) (cs : list Command) : map snd (map (pair fd) cs) = cs.
Proof. rewrite map_map. apply map_id. Qed.

Context (ok : Store -> Prop) (admits : gmap bytes bytes -> bytes -> option bytes -> Prop).

(** Connections that send these commands, none of which takes the store out of [I]. *)
Record serves (fuel : nat) (I : gmap bytes bytes -> Prop) (cs : Z -> list Command) : Prop := {
  serves_ok fd : Forall command_ok (cs fd);
  serves_admitted fd : Forall (fun c => forall m, I m -> admitted admits m c /\ I (command_effect m c)) (cs fd);
  serves_length fd : zlen (stream (cs fd)) < 2 ^ 63;
  serves_fuel fd : (length (cs fd) < fuel)%nat
}.

Lemma admitted_all (I : gmap bytes bytes -> Prop) cs m :
  Forall (fun c => forall m, I m -> admitted admits m c /\ I (command_effect m c)) cs -> I m ->
  all_admitted admits m cs /\ I (foldl command_effect m cs).
Proof.
  intros Hcs. revert m. induction Hcs as [|c cs Hc _ IH]; intros m HI; simpl; [done|].
  destruct (Hc m HI) as [Hadm HI']. destruct (IH _ HI'). done.
Qed.

(** The connections' commands after [fd] has had some of its own. *)
Lemma serves_rest fuel I cs fd cs1 cs2 :
  serves fuel I cs -> cs fd = cs1 ++ cs2 ->
  serves fuel I (fun fd' => if decide (fd' = fd) then cs2 else cs fd').
Proof.
  intros [Hcs Hadm Hlen Hfuel] Hsplit.
  pose proof (Hcs fd) as H1. pose proof (Hadm fd) as H2. pose proof (Hlen fd) as H3. pose proof (Hfuel fd) as H4.
  rewrite Hsplit in H1, H2, H3, H4. apply Forall_app in H1 as [_ H1]. apply Forall_app in H2 as [_ H2].
  rewrite length_app in H4. unfold stream in H3. rewrite bind_app in H3.
  split; intros fd'; case_decide; try done; [unfold stream; zlen|lia].
Qed.

(** When all of a connection's bytes have been handled, so have all of its commands. *)
Lemma all_commands fuel I cs fd :
  serves fuel I cs -> pending (stream (cs fd)) -> cs fd = [].
Proof. intros [Hcs _ Hlen _] Hp. by apply pending_stream. Qed.

(** The end of a task: the process is killed in its [send], or lives and goes on. *)
Lemma send_reply fuel fd d resp k k' o :
  on_message hash fuel fd d k = (Ret (Some resp), k') ->
  exists r o', task_body fuel (fd, d) (k, o) = (r, (k', o')) /\
    (r = Ret (Some tt) \/ r = Crashed /\ hung_up fd o) /\
    (forall fd', fd' <> fd -> o' !! fd' = o !! fd') /\
    (ample -> default [] (o' !! fd) = default [] (o !! fd) ++ resp).
Proof.
  intros Hon. unfold task_body, send. cbn [fst snd]. rewrite Hon. case_decide as Hr.
  { eexists _, _. split; [reflexivity|]. split; [by left|]. split; [done|]. by rewrite Hr, app_nil_r. }
  destruct (room fd (default [] (o !! fd)) resp) as [n|] eqn:Hn;
    (eexists _, _; split; [reflexivity|]); (split; [|split]).
  - by left.
  - intros fd' Hne. by rewrite lookup_insert_ne.
  - intros Hroom. destruct (Hroom fd (default [] (o !! fd)) resp) as (n' & Hn' & Hle).
    rewrite Hn in Hn'. injection Hn' as <-. rewrite lookup_insert_eq. simpl. by rewrite ztake_ge.
  - right. split; [done|]. by exists resp.
  - done.
  - intros Hroom. destruct (Hroom fd (default [] (o !! fd)) resp) as (n' & Hn' & _). congruence.
Qed.

Section tasks.
Context (dead : Store -> bytes -> option bytes -> Store -> Prop).
Context {laws : KvMortalLaws Store ok admits dead}.
Context (fuel : nat) (I : gmap bytes bytes -> Prop).

(** One task: the commands that its bytes complete. *)
Lemma task_body_any cs fd d rest k o :
  serves fuel I cs -> well_formed k -> ok (store_ k) -> I (contents (store_ k)) ->
  stream (cs fd) = buf_ (reader hash fd k) ++ d ++ rest ->
  exists cs1 cs2 r k' o', cs fd = cs1 ++ cs2 /\ task_body fuel (fd, d) (k, o) = (r, (k', o')) /\
    ((r = Ret (Some tt) \/ r = Crashed /\ hung_up fd o) /\
      well_formed k' /\ ok (store_ k') /\ I (contents (store_ k')) /\
      contents (store_ k') = foldl command_effect (contents (store_ k)) cs1 /\
      buf_ (reader hash fd k) ++ d = stream cs1 ++ buf_ (reader hash fd k') /\
      pending (buf_ (reader hash fd k')) /\
      stream cs2 = buf_ (reader hash fd k') ++ rest /\ others_kept hash fd k k' /\
      (forall fd', fd' <> fd -> o' !! fd' = o !! fd') /\
      (ample -> default [] (o' !! fd) = default [] (o !! fd) ++ replies (contents (store_ k)) cs1)
     \/ r = Crashed /\ died_in ok dead (contents (store_ k)) cs1 (store_ k')).
Proof.
  intros [Hcs Hadm Hlen Hfuel] Hw Hok HI Hs.
  destruct (admitted_all I (cs fd) _ (Hadm fd) HI) as [Had _].
  destruct (on_message_any ok admits dead hash (cs fd) d rest fd fuel k)
    as (cs1 & cs2 & r & k' & Hsplit & Hrun & Hcase); try done.
  exists cs1, cs2.
  destruct Hcase as [(-> & Hw' & Hok' & Hc & Hd & Hp & Hs2 & Hk)|[-> Hdead]].
  2:{ eexists _, k', o. split; [done|]. split; [unfold task_body; cbn [fst snd]; by rewrite Hrun|].
      by right. }
  destruct (send_reply fuel fd d _ k k' o Hrun) as (r & o' & Ht & Hr & Ho & Hout).
  exists r, k', o'. split; [done|]. split; [done|]. left. split; [done|]. split_and!; try done.
  specialize (Hadm fd). rewrite Hsplit in Hadm. apply Forall_app in Hadm as [Hadm _].
  rewrite Hc. by apply (admitted_all I cs1).
Qed.

(** What connection [fd] gets for the tasks [ts]: the commands that its bytes complete,
    as they stand in the common order, and the replies to them; [cs'] is what remains. *)
Definition served (cs cs' : Z -> list Command) (ts : list message) (order : list (Z * Command))
    (k k' : KvServer (Store := Store)) (o o' : gmap Z bytes) (rest : Z -> bytes) (fd : Z) : Prop :=
  cs fd = commands_of fd order ++ cs' fd /\
  buf_ (reader hash fd k) ++ concat (chunks_of fd ts)
    = stream (commands_of fd order) ++ buf_ (reader hash fd k') /\
  pending (buf_ (reader hash fd k')) /\ stream (cs' fd) = buf_ (reader hash fd k') ++ rest fd /\
  (ample -> default [] (o' !! fd) = default [] (o !! fd) ++ replies_to fd (contents (store_ k)) order).

Lemma served_step cs1 cs2 cs cs' d ts order k k1 k' o o1 o' rest fd fd' :
  cs fd = cs1 ++ cs2 -> contents (store_ k1) = foldl command_effect (contents (store_ k)) cs1 ->
  buf_ (reader hash fd k) ++ d = stream cs1 ++ buf_ (reader hash fd k1) ->
  others_kept hash fd k k1 -> (forall fd', fd' <> fd -> o1 !! fd' = o !! fd') ->
  (ample -> default [] (o1 !! fd) = default [] (o !! fd) ++ replies (contents (store_ k)) cs1) ->
  served (fun fd' => if decide (fd' = fd) then cs2 else cs fd') cs' ts order k1 k' o1 o' rest fd' ->
  served cs cs' ((fd, d) :: ts) (map (pair fd) cs1 ++ order) k k' o o' rest fd'.
Proof.
  intros Hsplit Hc Hd Hk Ho Hout (Hpre & Hb & Hp & Hs & Hr). unfold served.
  rewrite chunks_of_cons, commands_of_app, replies_to_app, commands_of_one, replies_to_one,
    map_snd_pair, <-Hc.
  simpl. destruct (decide (fd = fd')) as [<-|Hne].
  - rewrite decide_True in Hpre by done. simpl. split_and!; [|unfold stream|done|done|].
    + by rewrite Hsplit, Hpre, app_assoc.
    + rewrite bind_app, app_assoc, Hd, <-app_assoc, Hb. by rewrite app_assoc.
    + intros Hroom. by rewrite (Hr Hroom), (Hout Hroom), app_assoc.
  - rewrite decide_False in Hpre by done. simpl. rewrite (Hk fd') in Hb by done.
    split_and!; try done. intros Hroom. by rewrite (Hr Hroom), (Ho fd') by done.
Qed.

(** All goes well up to the state [(k', o')] after the tasks [ts]. *)
Definition going_well (cs : Z -> list Command) (ts : list message) (rest : Z -> bytes)
    (order : list (Z * Command)) (cs' : Z -> list Command)
    (k k' : KvServer (Store := Store)) (o o' : gmap Z bytes) : Prop :=
  well_formed k' /\ ok (store_ k') /\ I (contents (store_ k')) /\ serves fuel I cs' /\
  contents (store_ k') = foldl command_effect (contents (store_ k)) (map snd order) /\
  forall fd, served cs cs' ts order k k' o o' rest fd.

Lemma bodies_any ts rest : forall cs k o k' o',
  serves fuel I cs -> well_formed k -> ok (store_ k) -> I (contents (store_ k)) ->
  (forall fd, pending (buf_ (reader hash fd k))) ->
  (forall fd, stream (cs fd) = buf_ (reader hash fd k) ++ concat (chunks_of fd ts) ++ rest fd) ->
  bodies fuel ts (k, o) = Some (k', o') ->
  exists order cs', going_well cs ts rest order cs' k k' o o'.
Proof.
  induction ts as [|[fd d] ts IH]; intros cs k o k' o' Hs Hw Hok HI Hpend Hst.
  { intros [= <- <-]. exists [], cs. unfold going_well, served. split_and!; try done. intros fd. simpl.
    rewrite !app_nil_r. by split_and!. }
  pose proof (Hst fd) as Hfd. rewrite chunks_of_cons, decide_True in Hfd by done. simpl in Hfd.
  rewrite <-app_assoc in Hfd.
  destruct (task_body_any cs fd d (concat (chunks_of fd ts) ++ rest fd) k o)
    as (cs1 & cs2 & r & k1 & o1 & Hsplit & Hrun &
        [([->|[-> _]] & Hw1 & Hok1 & HI1 & Hc1 & Hd & Hp1 & Hs2 & Hk1 & Ho1 & Hout)|[-> _]]);
    try done; cbn [bodies]; rewrite Hrun; cbn [returned]; try done; intros Hb.
  destruct (IH (fun fd' => if decide (fd' = fd) then cs2 else cs fd') k1 o1 k' o')
    as (order & cs' & Hw' & Hok' & HI' & Hs' & Hc' & Hserved); try done.
  - by eapply serves_rest.
  - intros fd'. destruct (decide (fd' = fd)) as [->|Hne]; [done|]. by rewrite Hk1.
  - intros fd'. destruct (decide (fd' = fd)) as [->|Hne]; [done|].
    rewrite Hk1 by done. specialize (Hst fd'). by rewrite chunks_of_cons, decide_False in Hst by done.
  - exists (map (pair fd) cs1 ++ order), cs'. split_and!; try done.
    + rewrite Hc', Hc1, map_app, foldl_app. by rewrite map_snd_pair.
    + intros fd'. by eapply served_step.
Qed.

(** How the next task [t] ends, when all has gone well so far: it returns, or the process
    dies, in the [send] of its reply or in one of its commands. *)
Definition ends_well (cs : Z -> list Command) (order : list (Z * Command))
    (t : message) (k : KvServer (Store := Store)) (o : gmap Z bytes) : Prop :=
  exists r k' o' cs1, task_body fuel t (k, o) = (r, (k', o')) /\
    commands_of t.1 order ++ cs1 `prefix_of` cs t.1 /\
    ((r = Ret (Some tt) \/ r = Crashed /\ hung_up t.1 o) /\ ok (store_ k') /\
       contents (store_ k') = foldl command_effect (contents (store_ k)) cs1
     \/ r = Crashed /\ died_in ok dead (contents (store_ k)) cs1 (store_ k')).

Lemma next_task cs ts rest order cs' k k' o o' t u :
  going_well cs ts rest order cs' k k' o o' -> rest t.1 = t.2 ++ u -> ends_well cs order t k' o'.
Proof.
  intros (Hw & Hok & HI & Hs & _ & Hserved) Ht.
  destruct (Hserved t.1) as (Hcs & _ & _ & Hrest & _). rewrite Ht in Hrest. destruct t as [fd d].
  destruct (task_body_any cs' fd d u k' o') as (cs1 & cs2 & r & k2 & o2 & Hsplit & Hrun & Hcase); try done.
  exists r, k2, o2, cs1. split; [done|]. split.
  { simpl in *. rewrite Hcs, Hsplit, app_assoc. by apply prefix_app_r. }
  destruct Hcase as [(Hr & _ & ? & _ & ? & _)|?]; [by left|by right].
Qed.
End tasks.

Lemma chunks_prefix fd ts ts' l :
  ts `prefix_of` ts' -> concat (chunks_of fd ts') `prefix_of` l -> concat (chunks_of fd ts) `prefix_of` l.
Proof. intros [u ->]. rewrite chunks_of_app, concat_app. apply prefix_app_l. Qed.

Lemma prefix_drop {A} (l l' : list A) : l `prefix_of` l' -> l' = l ++ drop (length l) l'.
Proof. intros [u ->]. by rewrite drop_app_length. Qed.

(** One worker at any moment: what has been handled has gone well, and so will the task
    in hand, if the process does not die in it. *)
Lemma one_thread_any dead (laws : KvMortalLaws Store ok admits dead) fuel I es k y cs :
  world_run fuel es (world_new 1 k) = Some y ->
  well_formed k -> ok (store_ k) -> I (contents (store_ k)) ->
  (forall fd, buf_ (reader hash fd k) = []) -> serves fuel I cs ->
  (forall fd, concat (chunks_of fd (submitted (pool y))) `prefix_of` stream (cs fd)) ->
  handled y `prefix_of` submitted (pool y) /\
  bodies fuel (handled y) (k, ∅) = Some (kv y, out y) /\
  exists rest order cs', going_well fuel I cs (handled y) rest order cs' k (kv y) ∅ (out y) /\
    forall e p t, fire e (pool y) = Some p -> finishes e (pool y) = Some t ->
      ends_well dead fuel cs order t (kv y) (out y).
Proof.
  intros Hrun Hw Hok HI Hbuf Hs Hsub.
  destruct (one_worker_run fuel k es _ _ (one_worker_new fuel k) Hrun) as [Hreach (w & Hwk & Hst) Hb].
  pose proof (inv_fifo _ (reachable_inv _ _ Hreach)) as Hfifo. rewrite Hst, <-app_assoc in Hfifo.
  assert (handled y `prefix_of` submitted (pool y)) as Hpre by (rewrite Hfifo; by apply prefix_app_r).
  split; [done|]. split; [done|].
  set (rest fd := drop (length (concat (chunks_of fd (handled y)))) (stream (cs fd))).
  assert (forall fd, stream (cs fd) = concat (chunks_of fd (handled y)) ++ rest fd) as Hrest.
  { intros fd. by eapply prefix_drop, chunks_prefix. }
  destruct (bodies_any dead fuel I (handled y) rest cs k ∅ (kv y) (out y)) as (order & cs' & Hgw); try done.
  { intros fd. rewrite Hbuf. exact TryParse_empty. }
  { intros fd. by rewrite Hbuf, Hrest at 1. }
  exists rest, order, cs'. split; [done|]. intros e p t Hf Ht.
  destruct (fire_one e _ _ w Hwk Hf) as (w' & _ & Hcase). rewrite Ht in Hcase. destruct Hcase as (Hin & _).
  assert (handled y ++ [t] `prefix_of` submitted (pool y)) as Hnext.
  { rewrite Hfifo, Hin. exists (tasks_ (pool y)). by rewrite <-app_assoc. }
  pose proof (chunks_prefix t.1 _ _ _ Hnext (Hsub t.1)) as [u Hu].
  rewrite chunks_of_app, concat_app, (Hrest t.1), <-app_assoc in Hu. apply app_inv_head in Hu.
  rewrite chunks_of_cons, decide_True in Hu by done. simpl in Hu. rewrite app_nil_r in Hu.
  by eapply next_task.
Qed.

(** C12: A server with one worker thread, whose clients send well-formed commands that the
    store admits, serves any number of connections in a single order, whatever the
    scheduler and the event loop do and however [recv] has cut the streams. The bodies of
    the submitted tasks run one after the other in the order of submission; each of them
    returns, unless the client of its connection has gone and SIGPIPE kills the process in
    the [send] of the reply. At any moment there is an order of the commands whose bytes
    have been handled, which has each connection's commands in the order it sent them, in
    which the store has their effects and, if the sockets take whole replies, each
    connection has exactly the replies to its own. *)
Theorem one_thread_in_order (laws : KvLaws Store ok admits) fuel I es k y cs :
  world_run fuel es (world_new 1 k) = Some y ->
  well_formed k -> ok (store_ k) -> I (contents (store_ k)) ->
  (forall fd, buf_ (reader hash fd k) = []) -> serves fuel I cs ->
  (forall fd, concat (chunks_of fd (submitted (pool y))) `prefix_of` stream (cs fd)) ->
  (handled y `prefix_of` submitted (pool y) /\
   bodies fuel (handled y) (k, ∅) = Some (kv y, out y)) /\
  (forall e p, fire e (pool y) = Some p ->
     is_Some (world_fire fuel e y) \/
     exists t, finishes e (pool y) = Some t /\ hung_up t.1 (out y) /\
       (task_body fuel t (kv y, out y)).1 = Crashed) /\
  exists order, ok (store_ (kv y)) /\
    contents (store_ (kv y)) = foldl command_effect (contents (store_ k)) (map snd order) /\
    forall fd,
      commands_of fd order `prefix_of` cs fd /\
      concat (chunks_of fd (handled y)) = stream (commands_of fd order) ++ buf_ (reader hash fd (kv y)) /\
      (concat (chunks_of fd (handled y)) = stream (cs fd) -> commands_of fd order = cs fd) /\
      (ample -> default [] (out y !! fd) = replies_to fd (contents (store_ k)) order).
Proof.
  intros Hrun Hw Hok HI Hbuf Hs Hsub.
  destruct (one_thread_any _ (immortal laws) fuel I es k y cs)
    as (Hpre & Hb & rest & order & cs' & (_ & Hok' & _ & Hs' & Hc & Hserved) & Hnext); try done.
  split; [done|]. split.
  - intros e p Hf. unfold world_fire. rewrite Hf. destruct (finishes e (pool y)) as [t|] eqn:Ht; [|by left].
    destruct (Hnext e p t Hf Ht) as (r & k' & o' & cs1 & Hbody & _ & Hcase). rewrite Hbody.
    destruct Hcase as [([->|[-> Hgone]] & _)|[_ Hd]]; [by left| |by apply immortal_died_in in Hd].
    right. exists t. by rewrite Hbody.
  - exists order. split_and!; try done. intros fd.
    destruct (Hserved fd) as (Hcmds & Hbytes & Hp & Hrest & Hout). rewrite Hbuf in Hbytes. simpl in Hbytes.
    split_and!; try done; [rewrite Hcmds; by apply prefix_app_r|]. intros Hfull.
    rewrite Hbytes, Hcmds in Hfull. unfold stream in Hfull. rewrite bind_app in Hfull.
    apply app_inv_head in Hfull. rewrite Hfull in Hp.
    by rewrite Hcmds, (all_commands fuel I cs' fd Hs' Hp), app_nil_r.
Qed.
End world.

(** ** A command in two chunks, and another connection *)

(** Sockets with room for any reply. *)
Definition unlimited (fd : Z) (sent resp : bytes) : option Z := Some (zlen resp).

Lemma unlimited_ample : ample unlimited.
Proof. intros fd sent resp. exists (zlen resp). split; [reflexivity|apply Z.le_refl]. Qed.

(** The in-memory store behind the handler. *)
#[local] Instance plain_backend : KvBackend KvStore := KvStore_backend map_to_list.
#[local] Instance plain_laws : KvLaws KvStore (fun _ => True) (fun _ _ _ => True) :=
  KvStore_laws map_to_list (fun m => reflexivity (map_to_list m)).

Definition first_half : message := (7, ztake 20 (SerializeCommand set_example)).
Definition second_half : message := (7, zdrop 20 (SerializeCommand set_example)).

(** Another connection asks for the key between the two halves. *)
Definition get_example : Command := MkCommand GET [str "name"] Error_NONE.
Definition asking : message := (8, SerializeCommand get_example).

Definition example_commands (fd : Z) : list Command :=
  if decide (fd = 7) then [set_example] else if decide (fd = 8) then [get_example] else [].

(** The worker takes and handles the three tasks in turn. *)
Definition one_thread_run : list (event (Task := message)) :=
  [ESubmit first_half; ESubmit asking; ESubmit second_half] ++ replicate 15 (EWork 0).

Lemma example_served : serves (fun _ _ _ => True) 3 (fun _ => True) example_commands.
Proof.
  split; intros fd; unfold example_commands; (case_decide; [|case_decide]); simpl; try done;
    try (repeat constructor; discriminate); try lia.
  all: repeat constructor; simpl; by repeat case_match.
Qed.

Lemma example_bytes fd :
  concat (chunks_of fd [first_half; asking; second_half]) = stream (example_commands fd).
Proof.
  unfold example_commands. rewrite !chunks_of_cons. change first_half.1 with 7.
  change asking.1 with 8. change second_half.1 with 7.
  destruct (decide (fd = 7)) as [->|]; [vm_compute; reflexivity|].
  destruct (decide (fd = 8)) as [->|]; [vm_compute; reflexivity|].
  by rewrite !decide_False by congruence.
Qed.

Lemma one_thread_in_order_witness :
  let k := KvServer_new KvStore_new in
  exists y, world_run id unlimited 3 one_thread_run (world_new 1 k) = Some y /\
    exists order, contents (store_ (kv y)) = foldl command_effect ∅ (map snd order) /\
      forall fd, commands_of fd order = example_commands fd /\
        default [] (out y !! fd) = replies_to fd ∅ order.
Proof.
  intros k. destruct (world_run id unlimited 3 one_thread_run (world_new 1 k)) as [y|] eqn:Hrun.
  - exists y. split; [reflexivity|].
    set (ts := [first_half; asking; second_half]).
    assert (Some (submitted (pool y), handled y) = Some (ts, ts)) as Hts.
    { change ((fun y => (submitted (pool y), handled y)) <$> Some y = Some (ts, ts)).
      rewrite <-Hrun. vm_compute. reflexivity. }
    injection Hts as Hsub Hall.
    destruct (one_thread_in_order id unlimited (fun _ => True) (fun _ _ _ => True) plain_laws 3
                (fun _ => True) one_thread_run k y example_commands) as (_ & _ & order & _ & Hc & Hfd);
      [exact Hrun|reflexivity|exact I|exact I|intros fd; unfold k; by rewrite reader_new|exact example_served| |].
    + intros fd. rewrite Hsub, example_bytes. exists []. by rewrite app_nil_r.
    + exists order. split; [exact Hc|]. intros fd. destruct (Hfd fd) as (_ & _ & Hcs & Hout).
      split; [apply Hcs; rewrite Hall; apply example_bytes|]. apply Hout. exact unlimited_ample.
  - exfalso. enough (match world_run id unlimited 3 one_thread_run (world_new 1 k) with
                     | Some _ => true | None => false end = true) as H by by rewrite Hrun in H.
    vm_compute. reflexivity.
Defined.

(** ** Two workers *)

(** The second worker takes the second task and runs it before the first has run. *)
Definition two_thread_run (a b : message) : list (event (Task := message)) :=
  [ESubmit a; ESubmit b] ++ replicate 4 (EWork 0) ++ replicate 5 (EWork 1) ++ [EWork 0].

(** C34: With two or more worker threads no order of the chunks is kept. Whatever the
    handler, the store and the state they are in: any two chunks that are received one
    after the other, also of one connection, can be handled in the opposite order, if
    their tasks return in that order; all that is said of them is then as if they had been
    received so. *)
Theorem two_threads_reorder {Store} `{KvBackend Store} hash room fuel threads a b
    (k : KvServer (Store := Store)) y1 y2 :
  (2 <= threads)%nat ->
  returned (task_body hash room fuel b (k, ∅)) = Some y1 ->
  returned (task_body hash room fuel a y1) = Some y2 ->
  exists y, world_run hash room fuel (two_thread_run a b) (world_new threads k) = Some y /\
    submitted (pool y) = [a; b] /\ handled y = [b; a] /\ (kv y, out y) = y2.
Proof.
  intros Hn Hb Ha. destruct threads as [|[|n]]; [lia|lia|]. destruct y1 as [k1 o1], y2 as [k2 o2].
  eexists. split; [|split; [|split]].
  - assert (world_new (S (S n)) k
      = MkWorld (MkPool (Head :: Head :: replicate n Head) [] None true 0 Alive [] []) k ∅ []) as ->
      by (unfold world_new, ThreadPool_new; by rewrite decide_False).
    unfold two_thread_run. cbn [app replicate world_run].
    do 10 (erewrite world_fire_quiet; [|cbn; reflexivity|reflexivity]; cbn [world_run]).
    erewrite world_fire_task; [|cbn; reflexivity|reflexivity|exact Hb]. cbn [world_run].
    erewrite world_fire_task; [|cbn; reflexivity|reflexivity|exact Ha]. reflexivity.
  - reflexivity.
  - reflexivity.
  - reflexivity.
Qed.

(** A well-formed SET that [recv] returned in two chunks is answered with protocol errors,
    its first half stays behind in the reader, and the store is unchanged. *)
Lemma two_threads_reorder_witness :
  let k := KvServer_new KvStore_new in
  exists y, world_run id unlimited 20 (two_thread_run first_half second_half) (world_new 4 k) = Some y /\
    submitted (pool y) = [first_half; second_half] /\ handled y = [second_half; first_half] /\
    default [] (out y !! 7) = concat (replicate 3 (str "-ERR protocol error" ++ CRLF)) /\
    contents (store_ (kv y)) = ∅ /\ buf_ (reader id 7 (kv y)) = first_half.2.
Proof.
  intros k.
  assert (match returned (task_body id unlimited 20 second_half (k, ∅)) with
    | Some y1 => match returned (task_body id unlimited 20 first_half y1) with
                 | Some y2 => bool_decide
                     ((default [] (y2.2 !! 7), contents (store_ y2.1), buf_ (reader id 7 y2.1))
                      = (concat (replicate 3 (str "-ERR protocol error" ++ CRLF)), ∅, first_half.2))
                 | None => false
                 end
    | None => false end = true) as Hend by (vm_compute; reflexivity).
  destruct (returned (task_body id unlimited 20 second_half (k, ∅))) as [y1|] eqn:H1; [|discriminate Hend].
  destruct (returned (task_body id unlimited 20 first_half y1)) as [y2|] eqn:H2; [|discriminate Hend].
  destruct (two_threads_reorder id unlimited 20 4 first_half second_half k y1 y2) as (y & Hrun & Hs & Hh & Hy);
    [lia|exact H1|exact H2|].
  exists y. split; [exact Hrun|]. split; [exact Hs|]. split; [exact Hh|].
  apply bool_decide_eq_true_1 in Hend. rewrite <-Hy in Hend. cbn [fst snd] in Hend. injection Hend as Ho Hc Hb.
  split; [exact Ho|]. split; [exact Hc|exact Hb].
Defined.
