(* ===== verification/ServerCrash.v ===== *)
(** * A server that may be killed

    The message handler on the persistent store, behind one worker thread, in a process
    that may die inside any system call of any command: what a new process finds. *)

From S2P Require Import Prelude Posix CppString Protocol WalRecord Wal KvStore.
From S2P Require Import SlidingWindow PersistentStore Durability Survival Crash StoreTheorems.
From S2P Require Import KvServer ServerTheorems ThreadPool TcpServer.

(** ** The persistent store in a mortal process *)

Definition mortal_ok (s : PersistentKvStore) : Prop := consistent s /\ crash_only (store_os s).

Definition write_of (k : bytes) (v : option bytes) : kv_op :=
  match v with Some v => OpSet k v | None => OpDel k end.

(** What a new process finds when the operation [o] on [s] was not survived, and left the
    store [s'] behind. *)
Definition found_after (s : PersistentKvStore) (o : kv_op) (s' : PersistentKvStore)
    (m : gmap bytes bytes) : Prop :=
  m = data s \/ m = apply_op (data s) o \/
  snapshot_file s <> None /\ snapshot_file s' = None /\ m = replay (logged s ++ [op_record o]) ∅.

Definition store_dead (s : PersistentKvStore) (k : bytes) (v : option bytes) (s' : PersistentKvStore) : Prop :=
  restartable s' /\ found_after s (write_of k v) s' (next_process_map s').

Lemma crash_cases s o s' :
  restartable s' /\ next_process_map s' = data s
  \/ left_behind (apply_op (data s) o) (logged s ++ [op_record o]) (snapshot_file s) s' ->
  restartable s' /\ found_after s o s' (next_process_map s').
Proof. unfold found_after, left_behind. intros [[? ?]|[? [?|?]]]; auto. Qed.

Lemma survives_Set_ k v : survives (Set_ k v).
Proof. unfold Set_, AppendSet. survive. Qed.

Lemma survives_Delete k : survives (Delete k).
Proof. unfold Delete, AppendDel. survive. Qed.

Lemma survivor {A} (m : M PersistentKvStore A) s a s' :
  survives m -> crash_only (store_os s) -> m s = (Ret a, s') -> crash_only (store_os s').
Proof.
  intros Hm Hp Hrun. destruct (Hm _ _ (twin_of_twin s Hp)) as [Hc|[_ Ht]]; rewrite Hrun in *; [done|].
  simpl in Ht. by destruct Ht as (_ & _ & (_ & ? & _) & _).
Qed.

Lemma op_fits_admits m k v :
  map_fits m -> store_admits m k v -> op_fits m (write_of k v).
Proof.
  intros Hm [Hk Hv]. destruct v as [v|]; simpl.
  - destruct Hv. split; [done|]. split; [apply insert_non_empty|done].
  - split; [split; [done|by vm_compute]|]. split; [done|]. simpl.
    destruct Hm as [_ Hm]. eapply Z.le_lt_trans; [|exact Hm].
    apply inj_le. apply map_subseteq_size, delete_subseteq.
Qed.

#[export] Instance mortal_laws : KvMortalLaws PersistentKvStore mortal_ok store_admits store_dead.
Proof.
  split; simpl.
  - intros s k v [Hc Hp] Hadm. apply op_fits_admits in Hadm; [|apply Hc].
    destruct (run_op_crash (OpSet k v) s Hc Hp Hadm) as (r & s' & Hrun & [(-> & ? & ?)|[-> Hd]]).
    + eexists _, s'. split; [exact Hrun|]. left. split; [done|]. split; [|done].
      split; [done|]. eapply survivor; [apply (survives_Set_ k v)|done|exact Hrun].
    + eexists _, s'. split; [exact Hrun|]. right. split; [done|]. by apply crash_cases.
  - intros s k [Hc Hp] Hadm. apply op_fits_admits in Hadm; [|apply Hc].
    destruct (Delete_crash k s Hc Hp Hadm) as (r & s' & Hrun & [(-> & ? & ?)|[-> Hd]]).
    + eexists _, s'. split; [exact Hrun|]. left. split; [done|]. split; [|done].
      split; [done|]. eapply survivor; [apply (survives_Delete k)|done|exact Hrun].
    + eexists _, s'. split; [exact Hrun|]. right. split; [done|]. by apply (crash_cases s (OpDel k)).
  - intros s k _. apply Get_run.
  - intros s k _. apply Exists_run.
  - intros s [Hc Hp]. destruct (AllKeys_run s Hc) as (ks & s' & ? & ? & ? & Hw & ?). exists ks, s'.
    split_and!; try done. split; [done|]. unfold store_os. by rewrite Hw.
Qed.

(** The write of a command, as the store sees it. *)
Definition writes (c : Command) (o : kv_op) : Prop :=
  match type c, args c with
  | SET, [k; v] => o = OpSet k v
  | DEL, [k] => o = OpDel k
  | _, _ => False
  end.

Lemma died_writes s c s' :
  died store_dead s c s' ->
  exists o, writes c o /\ restartable s' /\ found_after s o s' (next_process_map s').
Proof.
  unfold died, writes, store_dead. destruct (type c), (args c) as [|k [|v [|? ?]]]; try done; intros Hd;
    eexists; split; try reflexivity; exact Hd.
Qed.

(** ** What the server guarantees *)

(** How the process and the task in hand end, on files that had the map [m] before: the
    task returns, or SIGPIPE kills the process in the [send] of its reply, and a new process
    has the map after the commands [cs1] of the task; or the process dies inside a system
    call of one of them, and a new process has the map from before or after that command,
    or (if it died between removing the old snapshot and renaming the new one) what the log
    alone says. *)
Definition task_outcome (e : Env) (m : gmap bytes bytes) (cs1 : list Command) (gone : Prop)
    (r : res (option unit)) (s' : PersistentKvStore) : Prop :=
  exists st, restart s' e = (Ret tt, st) /\
    ((r = Ret (Some tt) \/ r = Crashed /\ gone) /\ data st = foldl command_effect m cs1
     \/ r = Crashed /\ exists earlier c later o before,
        cs1 = earlier ++ c :: later /\ writes c o /\
        consistent before /\ data before = foldl command_effect m earlier /\
        found_after before o s' (data st)).

(** C7: With one worker thread and clients that send well-formed commands that the store
    admits, the replies of the server are kept promises, for any number of connections
    however their streams are cut, and whatever the scheduler does. At any moment there is
    an order of the commands handled so far, each connection's own in the order it sent
    them and, if the sockets take whole replies, answered in that order; and a process
    started on the files at that moment has exactly the map they build. The task in hand
    goes on with the next commands of its connection, and ends as [task_outcome] says,
    also when the process is killed, by SIGPIPE or inside a system call of the store. *)
Theorem kept_promises hash room fuel I es k y cs e :
  world_run hash room fuel es (world_new 1 k) = Some y ->
  well_formed k -> consistent (store_ k) -> crash_only (store_os (store_ k)) -> I (data (store_ k)) ->
  (forall fd, buf_ (reader hash fd k) = []) -> serves store_admits fuel I cs ->
  (forall fd, concat (chunks_of fd (submitted (pool y))) `prefix_of` stream (cs fd)) -> env_ok e ->
  exists order, let m := foldl command_effect (data (store_ k)) (map snd order) in
    (forall fd, commands_of fd order `prefix_of` cs fd /\
       (ample room -> default [] (out y !! fd) = replies_to fd (data (store_ k)) order)) /\
    (exists st, restart (store_ (kv y)) e = (Ret tt, st) /\ data st = m) /\
    forall ev p t, fire ev (pool y) = Some p -> finishes ev (pool y) = Some t ->
      exists r k' o' cs1, task_body hash room fuel t (kv y, out y) = (r, (k', o')) /\
        commands_of t.1 order ++ cs1 `prefix_of` cs t.1 /\
        task_outcome e m cs1 (hung_up room t.1 (out y)) r (store_ k').
Proof.
  intros Hrun Hw Hc Hp HI Hbuf Hs Hsub He.
  destruct (one_thread_any hash room mortal_ok store_admits store_dead mortal_laws fuel I es k y cs)
    as (_ & _ & rest & order & cs' & (_ & [Hc' _] & _ & _ & Hcont & Hserved) & Hnext); try done.
  change (@contents _ _) with data in *. exists order. split; [|split].
  - intros fd. destruct (Hserved fd) as (-> & _ & _ & _ & Hout). split; [by apply prefix_app_r|exact Hout].
  - destruct (restart_consistent (store_ (kv y)) e Hc' He) as (st & Hre & _ & Hd).
    exists st. split; [done|]. by rewrite Hd.
  - intros ev p t Hf Ht. destruct (Hnext ev p t Hf Ht) as (r & k' & o' & cs1 & Hbody & Hpre & Hcase).
    exists r, k', o', cs1. split; [done|]. split; [done|]. rewrite <-Hcont.
    destruct Hcase as [(Hr & [Hck _] & Hck')|[-> Hdied]].
    + destruct (restart_consistent (store_ k') e Hck He) as (st & Hre & _ & Hd).
      exists st. split; [done|]. left. split; [done|]. rewrite Hd. exact Hck'.
    + destruct Hdied as (earlier & c & later & before & -> & [Hcb _] & Hdb & Hd).
      destruct (died_writes _ _ _ Hd) as (o & Ho & Hre & Hfound).
      destruct (restart_ok _ e Hre He) as (st & Hrun2 & Hds & _).
      exists st. split; [done|]. right. split; [done|]. exists earlier, c, later, o, before.
      by rewrite Hds.
Qed.

(** The process dies while the log record of a SET is written, in the second task of the
    connection, after another connection has been answered. *)
Definition mortal_server : KvServer (Store := PersistentKvStore) :=
  KvServer_new (with_plan [FCrash 7] (fresh_store (str "d"))).

Definition mortal_run : list (event (Task := message)) :=
  [ESubmit first_half; ESubmit asking; ESubmit second_half] ++ replicate 14 (EWork 0).

Example dies_in_set :
  (fun y => (handled y, finishes (EWork 0) (pool y),
             (on_message id 3 second_half.1 second_half.2 (kv y)).1))
    <$> world_run id unlimited 3 mortal_run (world_new 1 mortal_server)
  = Some ([first_half; asking], Some second_half, Crashed).
Proof. vm_compute. reflexivity. Qed.

Lemma mortal_empty : data (store_ mortal_server) = ∅.
Proof.
  destruct (fresh_store_ok (str "d")) as (_ & Hd & _). unfold mortal_server, KvServer_new. cbn [store_].
  by rewrite data_with_plan.
Qed.

(** The only key the two connections touch. *)
Definition only_name (m : gmap bytes bytes) : Prop := dom m ⊆ {[str "name"]}.

Lemma mortal_served : serves store_admits 3 only_name example_commands.
Proof.
  pose proof example_served as [Hcs _ Hlen Hfuel]. split; [exact Hcs| |exact Hlen|exact Hfuel].
  intros fd. unfold example_commands. case_decide; [|case_decide; [|constructor]];
    (apply List.Forall_cons; [|constructor]); intros m Hm; [|by split].
  simpl. unfold only_name in *. assert (dom (<[str "name" := str "alice"]> m) ⊆ {[str "name"]}) as Hd
    by (rewrite dom_insert_L; set_solver).
  split; [|exact Hd]. split; [done|]. split; [done|]. apply subseteq_size in Hd.
  rewrite size_dom, size_singleton in Hd. lia.
Qed.

Lemma kept_promises_witness :
  exists y, world_run id unlimited 3 mortal_run (world_new 1 mortal_server) = Some y /\
  exists order, let m := foldl command_effect ∅ (map snd order) in
    (forall fd, commands_of fd order `prefix_of` example_commands fd /\
       default [] (out y !! fd) = replies_to fd ∅ order) /\
    (exists st, restart (store_ (kv y)) plain_env = (Ret tt, st) /\ data st = m) /\
    forall ev p t, fire ev (pool y) = Some p -> finishes ev (pool y) = Some t ->
      exists r k' o' cs1, task_body id unlimited 3 t (kv y, out y) = (r, (k', o')) /\
        commands_of t.1 order ++ cs1 `prefix_of` example_commands t.1 /\
        task_outcome plain_env m cs1 (hung_up unlimited t.1 (out y)) r (store_ k').
Proof.
  destruct (fresh_store_ok (str "d")) as ([Hc _] & _).
  destruct (world_run id unlimited 3 mortal_run (world_new 1 mortal_server)) as [y|] eqn:Hrun.
  - exists y. split; [reflexivity|].
    set (ts := [first_half; asking; second_half]).
    assert (Some (submitted (pool y)) = Some ts) as Hts.
    { change ((fun y => submitted (pool y)) <$> Some y = Some ts).
      rewrite <-Hrun. vm_compute. reflexivity. }
    injection Hts as Hsub.
    destruct (kept_promises id unlimited 3 only_name mortal_run mortal_server y example_commands plain_env) as (order & Hfd & Hre & Hkill).
    + exact Hrun.
    + reflexivity.
    + by apply consistent_with_plan.
    + constructor; [right; exists 7; reflexivity|constructor].
    + rewrite mortal_empty. unfold only_name. rewrite dom_empty_L. apply empty_subseteq.
    + intros fd. unfold mortal_server. by rewrite reader_new.
    + exact mortal_served.
    + intros fd. rewrite Hsub, example_bytes. exists []. by rewrite app_nil_r.
    + apply plain_env_ok.
    + rewrite mortal_empty in Hfd, Hre, Hkill.
      exists order. split; [|split; [exact Hre|exact Hkill]]. intros fd. destruct (Hfd fd) as [Hcs Hout].
      split; [exact Hcs|]. apply Hout. exact unlimited_ample.
  - exfalso. enough (match world_run id unlimited 3 mortal_run (world_new 1 mortal_server) with
                     | Some _ => true | None => false end = true) as H by by rewrite Hrun in H.
    vm_compute. reflexivity.
Defined.
