(* ===== verification/Iocp.v ===== *)
(** * The server on Windows: the completion-port branch of [src/server/tcp_server.cpp]

    [AcceptLoop], the threads of [WorkerThread] and the kernel as one transition system.
    A worker is cut where it blocks: at the completion port, at [contexts_mutex_], and
    between the read it posts again and the task it submits, both under that mutex. Then
    [Stop], and what the completions it causes can do to the connections. *)

From S2P Require Import Prelude Posix TcpServer.

(** ** Steps *)

(** Where a [WorkerThread] stands. *)
Inductive iocp_worker :=
  | Dequeuing                          (* in [GetQueuedCompletionStatus] *)
  | Locking (fd : Z) (n : nat)         (* a read of [n > 0] bytes, before [lock_guard] *)
  | Closing (fd : Z)                   (* [bytes == 0] or an error, at [CloseConnection] *)
  | Submitting (fd : Z) (data : bytes) (* holds the mutex, the next read is posted *).

Record Iocp := MkIocp {
  contexts_ : gmap Z bytes;            (* [ConnectionContext::buffer] *)
  reading : gset Z;                    (* connections with a posted [WSARecv] *)
  completions : list (Z * nat);        (* the queue of the port: key and bytes *)
  workers_ : list iocp_worker;
  contexts_mutex_ : option nat;        (* the worker that holds it *)
  arrived : list message;              (* history: what the kernel received *)
  submitted : list message             (* history: the tasks submitted *)
}.

Definition Iocp_new (threads : nat) : Iocp :=
  MkIocp ∅ ∅ [] (replicate (if decide (threads = 0%nat) then 4%nat else threads) Dequeuing) None [] [].

Inductive iocp_event :=
  | Accepted (fd : Z) (garbage : bytes)   (* a new connection, with an uninitialised buffer *)
  | Arrives (fd : Z) (chunk : bytes)      (* the kernel completes a posted read *)
  | PeerCloses (fd : Z)                   (* it completes with no bytes *)
  | Fails (fd : Z) (n : nat)              (* worker [n] gets a failed completion *)
  | Dequeues (i j : nat)                  (* worker [i] gets the [j]th completion *)
  | Works (i : nat)                       (* worker [i] goes on *)
  | Stray (key : Z) (i : nat).            (* worker [i] gets what belongs to no connection *)

(** What the kernel leaves in a buffer. *)
Definition overwrite (chunk buf : bytes) : bytes := chunk ++ drop (length chunk) buf.

Definition set_worker (i : nat) (w : iocp_worker) (s : Iocp) : Iocp :=
  MkIocp (contexts_ s) (reading s) (completions s) (<[i := w]> (workers_ s)) (contexts_mutex_ s)
    (arrived s) (submitted s).

(** The body of [WorkerThread] after the completion. *)
Definition iocp_work (i : nat) (w : iocp_worker) (s : Iocp) : option Iocp :=
  match w with
  | Dequeuing => None
  | Closing fd =>
      match contexts_mutex_ s with
      | Some _ => None
      | None => Some (MkIocp (delete fd (contexts_ s)) (reading s) (completions s)
                        (<[i := Dequeuing]> (workers_ s)) None (arrived s) (submitted s))
      end
  | Locking fd n =>
      match contexts_mutex_ s with
      | Some _ => None
      | None =>
          match contexts_ s !! fd with
          | None => Some (set_worker i Dequeuing s)
          | Some buffer =>
              Some (MkIocp (contexts_ s) ({[fd]} ∪ reading s) (completions s)
                      (<[i := Submitting fd (take n buffer)]> (workers_ s)) (Some i)
                      (arrived s) (submitted s))
          end
      end
  | Submitting fd data =>
      if decide (contexts_mutex_ s = Some i) then
        Some (MkIocp (contexts_ s) (reading s) (completions s) (<[i := Dequeuing]> (workers_ s)) None
                (arrived s) (submitted s ++ [(fd, data)]))
      else None
  end.

(** [Stray]: a packet [Stop] has posted has no bytes and the key 0; when the call fails
    without a packet, because [Stop] has closed the port, [key] has no value that can be
    relied on. In both cases the worker goes on to [CloseConnection(key)]. *)
Definition iocp_fire (e : iocp_event) (s : Iocp) : option Iocp :=
  match e with
  | Accepted fd garbage =>
      match contexts_mutex_ s, contexts_ s !! fd with
      | None, None => Some (MkIocp (<[fd := garbage]> (contexts_ s)) ({[fd]} ∪ reading s) (completions s)
                              (workers_ s) None (arrived s) (submitted s))
      | _, _ => None
      end
  | Arrives fd chunk =>
      if decide (fd ∈ reading s /\ chunk <> [] /\ (length chunk <= 4096)%nat) then
        Some (MkIocp (<[fd := overwrite chunk (default [] (contexts_ s !! fd))]> (contexts_ s))
                (reading s ∖ {[fd]}) (completions s ++ [(fd, length chunk)]) (workers_ s)
                (contexts_mutex_ s) (arrived s ++ [(fd, chunk)]) (submitted s))
      else None
  | PeerCloses fd =>
      if decide (fd ∈ reading s) then
        Some (MkIocp (contexts_ s) (reading s ∖ {[fd]}) (completions s ++ [(fd, 0%nat)]) (workers_ s)
                (contexts_mutex_ s) (arrived s) (submitted s))
      else None
  | Fails fd i =>
      match workers_ s !! i with
      | Some Dequeuing =>
          if decide (fd ∈ reading s) then
            Some (MkIocp (contexts_ s) (reading s ∖ {[fd]}) (completions s)
                    (<[i := Closing fd]> (workers_ s)) (contexts_mutex_ s) (arrived s) (submitted s))
          else None
      | _ => None
      end
  | Dequeues i j =>
      match workers_ s !! i, completions s !! j with
      | Some Dequeuing, Some (fd, n) =>
          Some (MkIocp (contexts_ s) (reading s) (delete j (completions s))
                  (<[i := if decide (n = 0%nat) then Closing fd else Locking fd n]> (workers_ s))
                  (contexts_mutex_ s) (arrived s) (submitted s))
      | _, _ => None
      end
  | Works i =>
      match workers_ s !! i with Some w => iocp_work i w s | None => None end
  | Stray key i =>
      match workers_ s !! i with
      | Some Dequeuing => Some (set_worker i (Closing key) s)
      | _ => None
      end
  end.

(** Only [Stop] is the cause of such completions: the workers wait without a time limit. *)
Definition before_stop (e : iocp_event) : bool := match e with Stray _ _ => false | _ => true end.

(** The states of a server until [Stop] is called. *)
Inductive iocp_reachable (threads : nat) : Iocp -> Prop :=
  | iocp_start : iocp_reachable threads (Iocp_new threads)
  | iocp_next s e s' :
      iocp_reachable threads s -> before_stop e = true -> iocp_fire e s = Some s' ->
      iocp_reachable threads s'.

(** ** What is between the kernel and the pool *)

Definition held (w : iocp_worker) : list (Z * nat) :=
  match w with Locking fd n => [(fd, n)] | Closing fd => [(fd, 0%nat)] | _ => [] end.

Definition held_data (w : iocp_worker) : list message :=
  match w with Submitting fd data => [(fd, data)] | _ => [] end.

(** Completed reads nobody has looked into yet. *)
Definition items (s : Iocp) : list (Z * nat) := completions s ++ (workers_ s ≫= held).

Definition holding (s : Iocp) : list message := workers_ s ≫= held_data.

(** The bytes of a completed read. *)
Definition read_data (ctx : gmap Z bytes) (it : Z * nat) : list message :=
  if decide (it.2 = 0%nat) then [] else [(it.1, take it.2 (default [] (ctx !! it.1)))].

Definition waiting (s : Iocp) : list message := items s ≫= read_data (contexts_ s).

Record iocp_inv (s : Iocp) : Prop := {
  ii_once : NoDup (map fst (items s));
  ii_items : forall fd, fd ∈ map fst (items s) -> fd ∈ dom (contexts_ s) /\ fd ∉ reading s;
  ii_reading : reading s ⊆ dom (contexts_ s);
  ii_mutex : match contexts_mutex_ s with
             | None => holding s = []
             | Some i => exists m, holding s = [m] /\
                           workers_ s !! i = Some (Submitting m.1 m.2)
             end;
  ii_bytes : forall i fd n, workers_ s !! i = Some (Locking fd n) -> n <> 0%nat;
  ii_order : forall fd, chunks_of fd (arrived s)
               = chunks_of fd (submitted s) ++ chunks_of fd (holding s) ++ chunks_of fd (waiting s)
}.

(** ** Lemmas on the parts *)

Lemma bind_insert {A} (f : iocp_worker -> list A) ws i w :
  ws !! i = Some w ->
  exists R, ws ≫= f ≡ₚ f w ++ R /\ forall w', <[i := w']> ws ≫= f ≡ₚ f w' ++ R.
Proof.
  intros Hi. exists ((take i ws ++ drop (S i) ws) ≫= f). split.
  - rewrite <-(take_drop_middle ws i w Hi) at 1. rewrite !bind_app, bind_cons. apply Permutation_app_swap_app.
  - intros w'. rewrite insert_take_drop by (by eapply lookup_lt_Some).
    rewrite !bind_app, bind_cons. apply Permutation_app_swap_app.
Qed.

Lemma chunks_of_one fd m : chunks_of fd [m] = if decide (m.1 = fd) then [m.2] else [].
Proof. unfold chunks_of. rewrite filter_cons, filter_nil. by case_decide. Qed.

#[local] Instance chunks_of_perm fd : Proper ((≡ₚ) ==> (≡ₚ)) (chunks_of fd).
Proof. intros l l' H. unfold chunks_of. apply Permutation_map. by rewrite H. Qed.

(** The data of completed reads, per connection. *)
Definition data_of (ctx : gmap Z bytes) (its : list (Z * nat)) : list message := its ≫= read_data ctx.

Lemma data_of_absent ctx fd its : fd ∉ map fst its -> chunks_of fd (data_of ctx its) = [].
Proof.
  induction its as [|[fd' n] its IH]; [done|]. cbn [map fst]. rewrite not_elem_of_cons. intros [Hne Hin].
  unfold data_of. rewrite bind_cons, chunks_of_app. fold (data_of ctx its). rewrite IH by done.
  unfold read_data. cbn [fst snd]. case_decide; [done|]. rewrite chunks_of_one. by rewrite decide_False.
Qed.

Lemma data_of_short ctx fd its : NoDup (map fst its) -> (length (chunks_of fd (data_of ctx its)) <= 1)%nat.
Proof.
  induction its as [|[fd' n] its IH]; [simpl; lia|]. cbn [map fst]. rewrite NoDup_cons. intros [Hin Hnd].
  unfold data_of. rewrite bind_cons, chunks_of_app. fold (data_of ctx its).
  unfold read_data. cbn [fst snd]. case_decide; [by apply IH|]. rewrite chunks_of_one. cbn [fst snd]. case_decide.
  - subst. by rewrite data_of_absent.
  - by apply IH.
Qed.

Lemma short_perm {A} (l l' : list A) : l ≡ₚ l' -> (length l <= 1)%nat -> l = l'.
Proof.
  intros Hp Hl. destruct l as [|x [|]]; simpl in Hl; [| |lia].
  - by apply Permutation_nil_l in Hp.
  - by apply Permutation_singleton_l in Hp.
Qed.

(** The order of reads of different connections does not matter. *)
Lemma data_of_perm ctx fd its its' :
  its ≡ₚ its' -> NoDup (map fst its) -> chunks_of fd (data_of ctx its) = chunks_of fd (data_of ctx its').
Proof.
  intros Hp Hnd. apply short_perm; [|by apply data_of_short].
  apply chunks_of_perm. unfold data_of. by rewrite Hp.
Qed.

(** Buffers of connections without a completed read do not matter. *)
Lemma data_of_ctx ctx ctx' its :
  (forall fd, fd ∈ map fst its -> ctx' !! fd = ctx !! fd) -> data_of ctx' its = data_of ctx its.
Proof.
  induction its as [|[fd n] its IH]; [done|]. cbn [map fst]. intros H. unfold data_of. rewrite !bind_cons.
  f_equal; [|apply IH; intros; apply H; by right].
  unfold read_data. cbn [fst snd]. case_decide; [done|]. rewrite H; [done|by left].
Qed.

Lemma nodup_perm (its its' : list (Z * nat)) : its ≡ₚ its' -> NoDup (map fst its) -> NoDup (map fst its').
Proof. intros Hp. by rewrite Hp. Qed.

Lemma mem_perm (its its' : list (Z * nat)) fd : its ≡ₚ its' -> fd ∈ map fst its' -> fd ∈ map fst its.
Proof. intros Hp. by rewrite Hp. Qed.

(** What a step of a worker does to the two lists. *)
Lemma items_insert s i w :
  workers_ s !! i = Some w ->
  exists R, items s ≡ₚ held w ++ R /\ forall w', completions s ++ (<[i := w']> (workers_ s) ≫= held) ≡ₚ held w' ++ R.
Proof.
  intros Hi. destruct (bind_insert held _ _ _ Hi) as (R & H1 & H2).
  exists (completions s ++ R). split; [unfold items; rewrite H1|intros w'; rewrite H2];
    by rewrite Permutation_app_swap_app.
Qed.

Lemma holding_insert s i w :
  workers_ s !! i = Some w -> held_data w = [] ->
  (holding s = [] -> forall w', <[i := w']> (workers_ s) ≫= held_data = held_data w') /\
  (forall m, holding s = [m] -> forall w', held_data w' = [] -> <[i := w']> (workers_ s) ≫= held_data = [m]).
Proof.
  intros Hi Hw. destruct (bind_insert held_data _ _ _ Hi) as (R & H1 & H2). rewrite Hw in H1. simpl in H1.
  fold (holding s) in H1. split.
  - intros E w'. rewrite E in H1. apply Permutation_nil_l in H1. subst R. specialize (H2 w').
    rewrite app_nil_r in H2. apply short_perm; [done|]. rewrite H2. destruct w'; simpl; lia.
  - intros m E w' Hw'. rewrite E in H1. apply Permutation_singleton_l in H1. subst R.
    specialize (H2 w'). rewrite Hw' in H2. simpl in H2. symmetry. by apply Permutation_singleton_l.
Qed.

(** ** The invariant holds *)

Lemma inv_accepted s fd garbage :
  iocp_inv s -> contexts_mutex_ s = None -> contexts_ s !! fd = None ->
  iocp_inv (MkIocp (<[fd := garbage]> (contexts_ s)) ({[fd]} ∪ reading s) (completions s)
    (workers_ s) None (arrived s) (submitted s)).
Proof.
  intros [Hnd Hit Hrd Hmu Hby Hor] Hm Hc. rewrite Hm in Hmu.
  assert (forall fd', fd' ∈ map fst (items s) -> fd' <> fd) as Hne.
  { intros fd' Hin ->. destruct (Hit fd Hin) as [Hd _]. by apply elem_of_dom in Hd as [? ?]; simplify_eq. }
  split; cbn [contexts_ reading contexts_mutex_ arrived submitted].
  - exact Hnd.
  - intros fd' Hin. specialize (Hne fd' Hin). destruct (Hit fd' Hin). set_solver.
  - set_solver.
  - exact Hmu.
  - exact Hby.
  - intros fd'. rewrite (Hor fd'). do 2 f_equal. symmetry. f_equal. apply data_of_ctx.
    intros fd2 Hin. apply lookup_insert_ne. by apply not_eq_sym, Hne.
Qed.

Lemma read_data_overwrite ctx fd chunk buf :
  chunk <> [] -> read_data (<[fd := overwrite chunk buf]> ctx) (fd, length chunk) = [(fd, chunk)].
Proof.
  intros Hc. unfold read_data. cbn [fst snd]. rewrite decide_False by by destruct chunk.
  rewrite lookup_insert_eq. simpl. unfold overwrite. by rewrite take_app_length.
Qed.

Lemma inv_arrives s fd chunk :
  iocp_inv s -> fd ∈ reading s -> chunk <> [] ->
  iocp_inv (MkIocp (<[fd := overwrite chunk (default [] (contexts_ s !! fd))]> (contexts_ s))
    (reading s ∖ {[fd]}) (completions s ++ [(fd, length chunk)]) (workers_ s)
    (contexts_mutex_ s) (arrived s ++ [(fd, chunk)]) (submitted s)).
Proof.
  intros [Hnd Hit Hrd Hmu Hby Hor] Hr Hc.
  assert (fd ∉ map fst (items s)) as Hout by (intros Hin; by destruct (Hit fd Hin)).
  set (s' := MkIocp _ _ _ _ _ _ _).
  assert (items s' ≡ₚ (fd, length chunk) :: items s) as Hp.
  { unfold items, s'. cbn [completions workers_]. rewrite <-app_assoc. by rewrite Permutation_middle. }
  assert (NoDup (map fst ((fd, length chunk) :: items s))) as Hnd' by by apply NoDup_cons.
  split; cbn [contexts_ reading contexts_mutex_ arrived submitted s'].
  - apply (nodup_perm ((fd, length chunk) :: items s)); [by symmetry|done].
  - intros fd' Hin. apply (mem_perm _ _ _ (symmetry Hp)) in Hin.
    apply elem_of_cons in Hin as [->|Hin].
    + cbn [fst]. split; [|set_solver]. rewrite dom_insert. set_solver.
    + destruct (Hit fd' Hin). rewrite dom_insert. set_solver.
  - rewrite dom_insert. set_solver.
  - exact Hmu.
  - exact Hby.
  - intros fd'. change (waiting s') with (data_of (contexts_ s') (items s')).
    rewrite (data_of_perm _ fd' _ _ Hp) by (by apply (nodup_perm _ _ (symmetry Hp))).
    unfold data_of. rewrite bind_cons. fold (data_of (contexts_ s') (items s)).
    rewrite (data_of_ctx (contexts_ s)); [|intros fd2 Hin; apply lookup_insert_ne; by intros ->].
    cbn [contexts_ s']. rewrite read_data_overwrite by done.
    rewrite !chunks_of_app, (Hor fd'). change (holding s') with (holding s). rewrite <-!app_assoc. do 2 f_equal.
    rewrite chunks_of_one. cbn [fst snd]. change (waiting s) with (data_of (contexts_ s) (items s)).
    case_decide as E; [|by rewrite app_nil_r]. subst fd'. by rewrite data_of_absent.
Qed.

(** A completion without data, queued or with a worker. *)
Lemma inv_closed s s' fd :
  iocp_inv s -> fd ∈ reading s ->
  contexts_ s' = contexts_ s -> reading s' = reading s ∖ {[fd]} -> contexts_mutex_ s' = contexts_mutex_ s ->
  arrived s' = arrived s -> submitted s' = submitted s ->
  items s' ≡ₚ (fd, 0%nat) :: items s -> holding s' = holding s ->
  (forall i m, workers_ s !! i = Some (Submitting m.1 m.2) -> workers_ s' !! i = workers_ s !! i) ->
  (forall i fd n, workers_ s' !! i = Some (Locking fd n) -> n <> 0%nat) ->
  iocp_inv s'.
Proof.
  intros [Hnd Hit Hrd Hmu Hby Hor] Hr E1 E2 E3 E4 E5 Hp E6 Hw Hby'.
  assert (fd ∉ map fst (items s)) as Hout by (intros Hin; by destruct (Hit fd Hin)).
  assert (NoDup (map fst ((fd, 0%nat) :: items s))) as Hnd' by by apply NoDup_cons.
  split; rewrite ?E1, ?E2, ?E3, ?E4, ?E5, ?E6.
  - apply (nodup_perm ((fd, 0%nat) :: items s)); [by symmetry|done].
  - intros fd' Hin. apply (mem_perm _ _ _ (symmetry Hp)) in Hin. apply elem_of_cons in Hin as [->|Hin].
    + cbn [fst]. set_solver.
    + destruct (Hit fd' Hin). set_solver.
  - set_solver.
  - destruct (contexts_mutex_ s) as [i|]; [|done]. destruct Hmu as (m & Hm & Hi).
    exists m. split; [done|]. by rewrite (Hw i m Hi).
  - exact Hby'.
  - intros fd'. rewrite (Hor fd'). do 2 f_equal.
    change (waiting s') with (data_of (contexts_ s') (items s')).
    change (waiting s) with (data_of (contexts_ s) (items s)). rewrite E1.
    by rewrite (data_of_perm _ fd' _ _ Hp) by (by apply (nodup_perm _ _ (symmetry Hp))).
Qed.

(** A completion goes to a worker, or a worker drops a connection. *)
Lemma inv_same s s' :
  iocp_inv s ->
  contexts_ s' = contexts_ s -> reading s' = reading s -> contexts_mutex_ s' = contexts_mutex_ s ->
  arrived s' = arrived s -> submitted s' = submitted s ->
  items s' ≡ₚ items s -> holding s' = holding s ->
  (forall i m, workers_ s !! i = Some (Submitting m.1 m.2) -> workers_ s' !! i = workers_ s !! i) ->
  (forall i fd n, workers_ s' !! i = Some (Locking fd n) -> n <> 0%nat) ->
  iocp_inv s'.
Proof.
  intros [Hnd Hit Hrd Hmu Hby Hor] E1 E2 E3 E4 E5 Hp E6 Hw Hby'.
  split; rewrite ?E1, ?E2, ?E3, ?E4, ?E5, ?E6.
  - apply (nodup_perm (items s)); [by symmetry|done].
  - intros fd' Hin. apply Hit. by apply (mem_perm _ _ _ (symmetry Hp)) in Hin.
  - done.
  - destruct (contexts_mutex_ s) as [i|]; [|done]. destruct Hmu as (m & Hm & Hi).
    exists m. split; [done|]. by rewrite (Hw i m Hi).
  - exact Hby'.
  - intros fd'. rewrite (Hor fd'). do 2 f_equal.
    change (waiting s') with (data_of (contexts_ s') (items s')).
    change (waiting s) with (data_of (contexts_ s) (items s)). rewrite E1.
    by apply data_of_perm.
Qed.

(** A worker that holds no data before and after changes nothing in what is held. *)
Lemma holding_idle s i w w' :
  workers_ s !! i = Some w -> held_data w = [] -> held_data w' = [] ->
  <[i := w']> (workers_ s) ≫= held_data = workers_ s ≫= held_data.
Proof.
  intros Hi Hw Hw'. rewrite <-(take_drop_middle (workers_ s) i w Hi) at 2.
  rewrite insert_take_drop by (by eapply lookup_lt_Some).
  rewrite !bind_app, !bind_cons. by rewrite Hw, Hw'.
Qed.

Lemma locking_kept s i w :
  (forall i fd n, workers_ s !! i = Some (Locking fd n) -> n <> 0%nat) ->
  (forall fd n, w = Locking fd n -> n <> 0%nat) ->
  forall j fd n, <[i := w]> (workers_ s) !! j = Some (Locking fd n) -> n <> 0%nat.
Proof.
  intros Hs Hw j fd n. destruct (decide (i = j)) as [<-|Hne].
  - intros Hj. assert (i < length (workers_ s))%nat as Hlt.
    { apply lookup_lt_Some in Hj. by rewrite length_insert in Hj. }
    rewrite list_lookup_insert_eq in Hj by done. injection Hj as ->. by eapply Hw.
  - rewrite list_lookup_insert_ne by done. apply Hs.
Qed.

(** A worker takes the mutex, copies the data and posts the next read. *)
Lemma inv_locked s i fd n buffer :
  iocp_inv s -> workers_ s !! i = Some (Locking fd n) -> contexts_mutex_ s = None ->
  contexts_ s !! fd = Some buffer ->
  iocp_inv (MkIocp (contexts_ s) ({[fd]} ∪ reading s) (completions s)
    (<[i := Submitting fd (take n buffer)]> (workers_ s)) (Some i) (arrived s) (submitted s)).
Proof.
  intros [Hnd Hit Hrd Hmu Hby Hor] Hi Hm Hc. rewrite Hm in Hmu.
  destruct (items_insert s i _ Hi) as (R & Hp & Hp'). specialize (Hp' (Submitting fd (take n buffer))).
  cbn [held app] in Hp, Hp'.
  destruct (holding_insert s i _ Hi eq_refl) as [Hh _]. specialize (Hh Hmu (Submitting fd (take n buffer))).
  assert (NoDup (map fst ((fd, n) :: R))) as HndR by by apply (nodup_perm (items s)).
  apply NoDup_cons in HndR as [HfdR HndR]. cbn [fst] in HfdR.
  set (s' := MkIocp _ _ _ _ _ _ _). change (items s' ≡ₚ R) in Hp'.
  split; cbn [contexts_ reading contexts_mutex_ arrived submitted workers_ s'].
  - apply (nodup_perm R); [by symmetry|done].
  - intros fd' Hin. apply (mem_perm _ _ _ (symmetry Hp')) in Hin.
    assert (fd' <> fd) as Hne by (by intros ->).
    destruct (Hit fd') as [? ?]; [|set_solver]. apply (mem_perm _ _ _ Hp). by right.
  - pose proof (elem_of_dom_2 _ _ _ Hc). set_solver.
  - exists (fd, take n buffer). split; [exact Hh|]. apply list_lookup_insert_eq. by eapply lookup_lt_Some.
  - apply (locking_kept s i _ Hby). done.
  - intros fd'. rewrite (Hor fd'), Hmu. change (holding s') with (<[i := Submitting fd (take n buffer)]> (workers_ s) ≫= held_data).
    rewrite Hh. cbn [held_data].
    change (waiting s) with (data_of (contexts_ s) (items s)).
    change (waiting s') with (data_of (contexts_ s) (items s')).
    rewrite (data_of_perm _ fd' _ _ Hp) by done.
    rewrite (data_of_perm _ fd' _ _ Hp') by (apply (nodup_perm R); [by symmetry|done]).
    unfold data_of at 1. rewrite bind_cons. unfold read_data at 1. cbn [fst snd].
    rewrite decide_False by (by eapply Hby). rewrite Hc. change (default [] (Some buffer)) with buffer. rewrite chunks_of_app. reflexivity.
Qed.

Lemma inv_submitted s i fd data :
  iocp_inv s -> workers_ s !! i = Some (Submitting fd data) -> contexts_mutex_ s = Some i ->
  iocp_inv (MkIocp (contexts_ s) (reading s) (completions s) (<[i := Dequeuing]> (workers_ s)) None
    (arrived s) (submitted s ++ [(fd, data)])).
Proof.
  intros [Hnd Hit Hrd Hmu Hby Hor] Hi Hm. rewrite Hm in Hmu. destruct Hmu as ([fd2 d2] & Hh & Hi2).
  rewrite Hi in Hi2. cbn [fst snd] in Hi2. injection Hi2 as <- <-.
  destruct (items_insert s i _ Hi) as (R & Hp & Hp'). specialize (Hp' Dequeuing). cbn [held app] in Hp, Hp'.
  destruct (bind_insert held_data _ _ _ Hi) as (Q & Hq & Hq'). specialize (Hq' Dequeuing).
  fold (holding s) in Hq. rewrite Hh in Hq. cbn [held_data app] in Hq, Hq'.
  apply Permutation_cons_inv, Permutation_nil_l in Hq. subst Q. apply Permutation_nil_r in Hq'.
  set (s' := MkIocp _ _ _ _ _ _ _). change (items s' ≡ₚ R) in Hp'. change (holding s' = []) in Hq'.
  assert (items s' ≡ₚ items s) as Hps by by rewrite Hp, Hp'.
  split; cbn [contexts_ reading contexts_mutex_ arrived submitted workers_ s'].
  - apply (nodup_perm (items s)); [by symmetry|done].
  - intros fd' Hin. apply Hit. by apply (mem_perm _ _ _ (symmetry Hps)) in Hin.
  - done.
  - done.
  - by apply (locking_kept s i _ Hby).
  - intros fd'. rewrite (Hor fd'), Hh, Hq', chunks_of_app, <-app_assoc. do 2 f_equal.
    change (waiting s) with (data_of (contexts_ s) (items s)).
    change (waiting s') with (data_of (contexts_ s) (items s')). by rewrite (data_of_perm _ fd' _ _ (symmetry Hps)).
Qed.

(** [CloseConnection]. *)
Lemma inv_erased s i fd :
  iocp_inv s -> workers_ s !! i = Some (Closing fd) -> contexts_mutex_ s = None ->
  iocp_inv (MkIocp (delete fd (contexts_ s)) (reading s) (completions s) (<[i := Dequeuing]> (workers_ s)) None
    (arrived s) (submitted s)).
Proof.
  intros [Hnd Hit Hrd Hmu Hby Hor] Hi Hm. rewrite Hm in Hmu.
  destruct (items_insert s i _ Hi) as (R & Hp & Hp'). specialize (Hp' Dequeuing). cbn [held app] in Hp, Hp'.
  destruct (holding_insert s i _ Hi eq_refl) as [Hh _]. specialize (Hh Hmu Dequeuing). cbn [held_data] in Hh.
  assert (NoDup (map fst ((fd, 0%nat) :: R))) as HndR by by apply (nodup_perm (items s)).
  pose proof HndR as HndR'. apply NoDup_cons in HndR' as [HfdR HndR']. cbn [fst] in HfdR.
  assert (fd ∉ reading s) as Hfd.
  { apply Hit. apply (mem_perm _ _ _ Hp). by left. }
  set (s' := MkIocp _ _ _ _ _ _ _). change (items s' ≡ₚ R) in Hp'.
  split; cbn [contexts_ reading contexts_mutex_ arrived submitted workers_ s'].
  - apply (nodup_perm R); [by symmetry|done].
  - intros fd' Hin. apply (mem_perm _ _ _ (symmetry Hp')) in Hin.
    assert (fd' <> fd) as Hne by (by intros ->).
    destruct (Hit fd') as [? ?]; [apply (mem_perm _ _ _ Hp); by right|]. rewrite dom_delete. set_solver.
  - rewrite dom_delete. set_solver.
  - done.
  - by apply (locking_kept s i _ Hby).
  - intros fd'. rewrite (Hor fd'), Hmu. change (holding s') with (<[i := Dequeuing]> (workers_ s) ≫= held_data).
    rewrite Hh. do 2 f_equal.
    change (waiting s) with (data_of (contexts_ s) (items s)).
    change (waiting s') with (data_of (delete fd (contexts_ s)) (items s')).
    rewrite (data_of_perm _ fd' _ _ Hp) by done.
    rewrite (data_of_perm _ fd' _ _ Hp') by (apply (nodup_perm R); [by symmetry|done]).
    rewrite (data_of_ctx (contexts_ s) (delete fd (contexts_ s)) R); [done|].
    intros fd2 Hin. apply lookup_delete_ne. by intros ->.
Qed.

Lemma iocp_inv_fire s e s' :
  iocp_inv s -> before_stop e = true -> iocp_fire e s = Some s' -> iocp_inv s'.
Proof.
  intros Hs He. pose proof Hs as [_ Hit _ _ Hby _].
  destruct e as [fd g|fd chunk|fd|fd i|i j|i|key i]; cbn [iocp_fire]; [..|discriminate He].
  - destruct (contexts_mutex_ s) eqn:Hm; [done|]. destruct (contexts_ s !! fd) eqn:Hc; [done|].
    intros [= <-]. by apply inv_accepted.
  - case_decide as H; [|done]. destruct H as (Hr & Hc & _). intros [= <-]. by apply inv_arrives.
  - case_decide as Hr; [|done]. intros [= <-]. apply (inv_closed s _ fd); try done.
    unfold items. cbn [completions workers_]. rewrite <-app_assoc. by rewrite Permutation_middle.
  - destruct (workers_ s !! i) as [[]|] eqn:Hi; try done. case_decide as Hr; [|done]. intros [= <-].
    destruct (items_insert s i _ Hi) as (R & Hp & Hp').
    apply (inv_closed s _ fd); try done.
    + unfold items at 1. cbn [completions workers_]. rewrite Hp', Hp. done.
    + by apply (holding_idle _ i Dequeuing).
    + intros i' m Hi'. cbn [workers_]. apply list_lookup_insert_ne. intros ->. congruence.
    + by apply (locking_kept s i _ Hby).
  - destruct (workers_ s !! i) as [[]|] eqn:Hi; try done. destruct (completions s !! j) as [[fd n]|] eqn:Hj; [|done].
    intros [= <-]. destruct (items_insert s i _ Hi) as (R & Hp & Hp').
    set (w' := if decide (n = 0%nat) then Closing fd else Locking fd n).
    assert (held w' = [(fd, n)]) as Hw' by (unfold w'; case_decide; by subst).
    apply (inv_same s); try done.
    + unfold items. cbn [completions workers_].
      destruct (bind_insert held _ _ _ Hi) as (Q & Hq & Hq'). rewrite Hq', Hq, Hw'. cbn [held app].
      rewrite (delete_Permutation (completions s) j (fd, n) Hj) at 2.
      by rewrite <-Permutation_middle.
    + apply (holding_idle _ i Dequeuing); [done|done|]. unfold w'. by case_decide.
    + intros i' m Hi'. cbn [workers_]. apply list_lookup_insert_ne. intros ->. congruence.
    + apply (locking_kept s i _ Hby). unfold w'. intros fd' n'. case_decide; [done|]. by intros [= <- <-].
  - destruct (workers_ s !! i) as [w|] eqn:Hi; [|done]. destruct w as [|fd n|fd|fd data]; cbn [iocp_work]; [done|..].
    + destruct (contexts_mutex_ s) eqn:Hm; [done|]. destruct (contexts_ s !! fd) as [buffer|] eqn:Hc.
      * intros [= <-]. by apply inv_locked.
      * destruct (Hit fd) as [Hd _]; [|by apply elem_of_dom in Hd as [? ?]; simplify_eq].
        destruct (items_insert s i _ Hi) as (R & Hp & _). apply (mem_perm _ _ _ Hp). by left.
    + destruct (contexts_mutex_ s) eqn:Hm; [done|]. intros [= <-]. by apply inv_erased.
    + case_decide as Hm; [|done]. intros [= <-]. by apply inv_submitted.
Qed.

Lemma bind_idle {A} (f : iocp_worker -> list A) ws :
  Forall (fun w => w = Dequeuing) ws -> f Dequeuing = [] -> ws ≫= f = [].
Proof. induction 1 as [|w ws -> _ IH]; intros Hf; [done|]. by rewrite bind_cons, Hf, IH. Qed.

Lemma iocp_reachable_inv threads s : iocp_reachable threads s -> iocp_inv s.
Proof.
  induction 1 as [|s e s' _ IH He Hf]; [|by eapply iocp_inv_fire].
  assert (items (Iocp_new threads) = []) as Ei by (unfold items, Iocp_new; cbn [completions workers_]; by rewrite bind_idle by (done || by apply Forall_replicate)).
  assert (holding (Iocp_new threads) = []) as Eh by (unfold holding, Iocp_new; cbn [workers_]; by rewrite bind_idle by (done || by apply Forall_replicate)).
  split; rewrite ?Ei; cbn [contexts_ reading contexts_mutex_ arrived submitted Iocp_new].
  - constructor.
  - intros fd Hin. by apply elem_of_nil in Hin.
  - set_solver.
  - done.
  - intros i fd n Hi. cbn [workers_] in Hi. apply lookup_replicate in Hi as [? _]. done.
  - intros fd. rewrite Eh. unfold waiting. by rewrite Ei.
Qed.

(** Nothing is between the kernel and the pool. *)
Definition drained (s : Iocp) : Prop := completions s = [] /\ Forall (fun w => w = Dequeuing) (workers_ s).

(** C29: On Windows, until [Stop] is called, with any number of worker threads and in every
    interleaving of connections, reads, closes and workers: the chunks of each connection are submitted
    to the pool in the order the kernel received them, at most two being on the way, and
    all of them once nothing is; and a worker reads a buffer only while the connection
    has it and no read into it is posted. *)
Theorem iocp_in_order threads s fd :
  iocp_reachable threads s ->
  (exists rest, chunks_of fd (arrived s) = chunks_of fd (submitted s) ++ rest /\ (length rest <= 2)%nat) /\
  (drained s -> chunks_of fd (submitted s) = chunks_of fd (arrived s)) /\
  (forall i n, workers_ s !! i = Some (Locking fd n) -> fd ∈ dom (contexts_ s) /\ fd ∉ reading s).
Proof.
  intros Hs. destruct (iocp_reachable_inv threads s Hs) as [Hnd Hit _ Hmu _ Hor]. split; [|split].
  - eexists. split; [apply Hor|]. rewrite length_app.
    pose proof (data_of_short (contexts_ s) fd (items s) Hnd) as Hw.
    assert (length (chunks_of fd (holding s)) <= 1)%nat; [|unfold waiting, data_of in *; lia].
    destruct (contexts_mutex_ s); [destruct Hmu as (m & -> & _)|rewrite Hmu; apply Nat.le_0_l].
    rewrite chunks_of_one. case_decide; simpl; lia.
  - intros [Hc Hw]. rewrite (Hor fd).
    unfold waiting, items, holding. rewrite Hc, !bind_idle by done. simpl. by rewrite app_nil_r.
  - intros i n Hi. apply Hit. destruct (items_insert s i _ Hi) as (R & Hp & _).
    apply (mem_perm _ _ _ Hp). by left.
Qed.

Fixpoint iocp_run (es : list iocp_event) (s : Iocp) : option Iocp :=
  match es with
  | [] => Some s
  | e :: es => match iocp_fire e s with Some s => iocp_run es s | None => None end
  end.

Lemma iocp_run_reachable threads es : forall s s',
  iocp_reachable threads s -> forallb before_stop es = true -> iocp_run es s = Some s' ->
  iocp_reachable threads s'.
Proof.
  induction es as [|e es IH]; intros s s' Hs; cbn [iocp_run forallb]; [by intros _ [= <-]|].
  intros [He Hes]%andb_true_iff. destruct (iocp_fire e s) as [s1|] eqn:Hf; [|done].
  apply IH; [by eapply iocp_next|done].
Qed.

(** What a stray completion does: the connection that happens to have its key is dropped,
    and a chunk it has received but nobody has looked into is never submitted. *)
Lemma stray_drops_chunk s i j key n :
  workers_ s !! i = Some Dequeuing -> contexts_mutex_ s = None ->
  completions s !! j = Some (key, n) -> n <> 0%nat ->
  exists s', iocp_run [Stray key i; Works i; Dequeues i j; Works i] s = Some s' /\
    key ∉ dom (contexts_ s') /\ completions s' = delete j (completions s) /\
    submitted s' = submitted s.
Proof.
  intros Hi Hm Hj Hn. assert (i < length (workers_ s))%nat as Hlt by by eapply lookup_lt_Some.
  cbn [iocp_run iocp_fire]. rewrite Hi. unfold set_worker. cbn [workers_].
  rewrite list_lookup_insert_eq by done. cbn [iocp_work contexts_mutex_]. rewrite Hm.
  cbn [workers_ completions]. rewrite list_lookup_insert_eq by (by rewrite length_insert).
  rewrite Hj, decide_False by done. cbn [workers_].
  rewrite list_lookup_insert_eq by (by rewrite !length_insert). cbn [iocp_work contexts_mutex_ contexts_].
  rewrite lookup_delete_eq. eexists. split; [reflexivity|]. cbn. split; [|done].
  rewrite dom_delete. set_solver.
Qed.

(** Two workers and two connections; worker 1 has the second chunk of connection 7 while
    worker 0 is about to submit the first. *)
Definition two_workers : list iocp_event :=
  [Accepted 7 []; Accepted 8 []; Arrives 7 (str "a"); Dequeues 0 0; Works 0; Arrives 7 (str "b");
   Arrives 8 (str "x"); Dequeues 1 0].

Lemma iocp_in_order_witness :
  exists s, iocp_run two_workers (Iocp_new 2) = Some s /\
    exists rest, chunks_of 7 (arrived s) = chunks_of 7 (submitted s) ++ rest /\ (length rest <= 2)%nat.
Proof.
  destruct (iocp_run two_workers (Iocp_new 2)) as [s|] eqn:E; [|vm_compute in E; discriminate E].
  exists s. split; [reflexivity|].
  refine (proj1 (iocp_in_order 2 s 7 _)). exact (iocp_run_reachable 2 two_workers _ _ (iocp_start 2) eq_refl E).
Defined.

(** ** [Stop] on Windows *)

(** Where [Stop] stands: before it, joining the workers, joining the accept thread, at
    [closesocket(server_fd_)], and done. *)
Inductive stop_pc := BeforeStop | JoinWorkers | JoinAccept | CloseSocket | StopDone.

(** Where [AcceptLoop] stands: at [while (running_)], in [accept], out of the loop. *)
Inductive accept_pc := AcceptHead | InAccept | AcceptDone.

Record Stopping := MkStopping {
  running_ : bool;
  stop : stop_pc;
  acceptor : accept_pc;
  listening : bool
}.

Inductive stop_event :=
  | Connects       (* a client connects: [accept] returns *)
  | AcceptLoops    (* the accept thread goes on by itself *)
  | StopGoes.      (* [Stop] goes on; the workers have been woken and end *)

Definition stop_fire (e : stop_event) (y : Stopping) : option Stopping :=
  match e with
  | Connects =>
      match acceptor y with
      | InAccept => if listening y then Some (MkStopping (running_ y) (stop y) AcceptHead (listening y)) else None
      | _ => None
      end
  | AcceptLoops =>
      match acceptor y with
      | AcceptHead => Some (MkStopping (running_ y) (stop y) (if running_ y then InAccept else AcceptDone) (listening y))
      | InAccept =>    (* on a closed socket [accept] fails *)
          if listening y then None
          else Some (MkStopping (running_ y) (stop y) (if running_ y then AcceptHead else AcceptDone) (listening y))
      | AcceptDone => None
      end
  | StopGoes =>
      match stop y with
      | BeforeStop => Some (MkStopping false JoinWorkers (acceptor y) (listening y))
      | JoinWorkers => Some (MkStopping (running_ y) JoinAccept (acceptor y) (listening y))
      | JoinAccept => match acceptor y with
                      | AcceptDone => Some (MkStopping (running_ y) CloseSocket (acceptor y) (listening y))
                      | _ => None
                      end
      | CloseSocket => Some (MkStopping (running_ y) StopDone (acceptor y) false)
      | StopDone => None
      end
  end.

Fixpoint stop_run (es : list stop_event) (y : Stopping) : option Stopping :=
  match es with
  | [] => Some y
  | e :: es => match stop_fire e y with Some y => stop_run es y | None => None end
  end.

(** A server in [accept], as it is between connections. *)
Definition idle : Stopping := MkStopping true BeforeStop InAccept true.

(** [Stop] joins the accept thread before it closes the socket that thread waits on:
    without a new connection it never gets further; with one it does. *)
Theorem windows_stop_waits es y :
  stop_run es idle = Some y -> Connects ∉ es -> stop y <> CloseSocket /\ stop y <> StopDone.
Proof.
  assert (forall es y y', listening y = true -> acceptor y = InAccept ->
    stop y = BeforeStop \/ stop y = JoinWorkers \/ stop y = JoinAccept ->
    stop_run es y = Some y' -> Connects ∉ es -> stop y' <> CloseSocket /\ stop y' <> StopDone) as H.
  { clear. induction es as [|e es IH]; intros y y' Hl Ha Hp; cbn [stop_run].
    - intros [= <-] _. destruct Hp as [->|[->| ->]]; done.
    - destruct (stop_fire e y) as [y1|] eqn:Hf; [|done]. intros Hrun Hes.
      apply not_elem_of_cons in Hes as [He Hes]. apply (IH y1); try done; clear IH Hrun.
      all: destruct e; [done|by unfold stop_fire in Hf; rewrite Ha, Hl in Hf|].
      all: cbn [stop_fire] in Hf; destruct Hp as [E|[E|E]]; rewrite E, ?Ha in Hf; simplify_eq; cbn; auto. }
  apply H; [done..|by left].
Qed.

Example windows_stop_with_connection :
  stop_run [StopGoes; StopGoes; Connects; AcceptLoops; StopGoes; StopGoes] idle
  = Some (MkStopping false StopDone AcceptDone false).
Proof. reflexivity. Qed.
