(* ===== verification/Logger.v ===== *)
(** * Logging: class [Logger] and the macros of [include/common/logger.h]

    The logger is shared with the registry of spdlog, whose default logger the macros
    use: [SetLevel] acts on what they print, and after [Shutdown] there is no default
    logger any more. What is written is the list of lines. *)

From S2P Require Import Prelude CppString.

Inductive LogLevel := DEBUG | INFO | WARN | ERR.

#[export] Instance LogLevel_eq_decision : EqDecision LogLevel.
Proof. solve_decision. Defined.

(** The order of [spdlog::level]. *)
Definition severity (l : LogLevel) : Z :=
  match l with DEBUG => 1 | INFO => 2 | WARN => 3 | ERR => 4 end.

(** The [spdlog::async_logger] that [Init] creates. *)
Record spdlog_logger := MkSpdlog {
  log_path : bytes;
  max_size : Z;
  max_files : Z;
  level : LogLevel;
  flush_level : LogLevel     (* [flush_on] *)
}.

(** What [spdlog::default_logger()] is: the one a program starts with (on the console),
    the one of [Init], or none. *)
Inductive default_logger := Builtin | Own | Null.

Record Logger := MkLogger {
  spd_logger_ : option spdlog_logger;
  registry : default_logger;
  thread_pool : bool;                   (* the background thread is running *)
  lines : list (LogLevel * bytes);      (* what passed the filters, oldest first *)
  flushed : nat                         (* how many of them have been flushed *)
}.

Definition Logger_new : Logger := MkLogger None Builtin false [] 0.

(** [rotating_file_sink] throws for these, and when the file cannot be opened. *)
Definition MaxFiles : Z := 200000.

Definition Init (opens : bytes -> bool) (log_dir : bytes) (max_files max_size : Z) : M Logger unit :=
  do! modify (fun g => MkLogger (spd_logger_ g) (registry g) true (lines g) (flushed g)) in
  let log_path := log_dir ++ str "/kv_cache.log" in
  if decide (max_size = 0 \/ MaxFiles < max_files) then throw LogError
  else if negb (opens log_path) then throw LogError
  else modify (fun g => MkLogger (Some (MkSpdlog log_path max_size max_files INFO INFO)) Own
                          (thread_pool g) (lines g) (flushed g)).

(** The background thread writes and flushes all that is queued. *)
Definition flush (g : Logger) : Logger :=
  MkLogger (spd_logger_ g) (registry g) (thread_pool g) (lines g) (length (lines g)).

(** A flush without the background thread throws inside spdlog, which reports it on
    the standard error stream. *)
Definition Flush : M Logger unit := modify (fun g =>
  match spd_logger_ g with
  | Some _ => if thread_pool g then flush g else g
  | None => g
  end).

(** [spdlog::shutdown] drops the default logger and joins the background thread, which
    first writes all that was queued. *)
Definition Shutdown : M Logger unit :=
  do! Flush in
  modify (fun g => MkLogger (spd_logger_ g) Null false (lines g) (flushed g)).

Definition SetLevel (l : LogLevel) : M Logger unit := modify (fun g =>
  match spd_logger_ g with
  | None => g
  | Some s => MkLogger (Some (MkSpdlog (log_path s) (max_size s) (max_files s) l (flush_level s)))
                (registry g) (thread_pool g) (lines g) (flushed g)
  end).

(** [SPDLOG_ACTIVE_LEVEL] is not defined by the build: its default removes the macro of
    the debug level from the program. *)
Definition compiled_in (l : LogLevel) : bool := bool_decide (severity INFO <= severity l).

Definition add_line (l : LogLevel) (msg : bytes) (g : Logger) : Logger :=
  MkLogger (spd_logger_ g) (registry g) (thread_pool g) (lines g ++ [(l, msg)]) (flushed g).

(** [LOG_DEBUG], [LOG_INFO], [LOG_WARN] and [LOG_ERROR]. *)
Definition LOG (l : LogLevel) (msg : bytes) : M Logger unit := fun g =>
  if negb (compiled_in l) then (Ret tt, g) else
  match registry g, spd_logger_ g with
  | Null, _ => (Undefined, g)
  | Own, Some s =>
      (Ret tt, if decide (severity (level s) <= severity l) then
                 let g := add_line l msg g in
                 if decide (severity (flush_level s) <= severity l) then flush g else g
               else g)
  | Own, None => (Undefined, g)
  | Builtin, _ => (Ret tt, if decide (severity INFO <= severity l) then add_line l msg g else g)
  end.

(** ** Lemmas *)

(** What a macro of the level [m] prints when the level of the logger is [l]. *)
Definition passes (l m : LogLevel) : bool :=
  bool_decide (severity INFO <= severity m) && bool_decide (severity l <= severity m).

Definition kept (l : LogLevel) (ls : list (LogLevel * bytes)) : list (LogLevel * bytes) :=
  filter (fun line => passes l line.1) ls.

Lemma kept_app l ls ls' : kept l (ls ++ ls') = kept l ls ++ kept l ls'.
Proof. apply filter_app. Qed.

(** A logger that is set up, with everything flushed. *)
Definition own (s : spdlog_logger) (ls : list (LogLevel * bytes)) : Logger :=
  MkLogger (Some (MkSpdlog (log_path s) (max_size s) (max_files s) (level s) INFO)) Own true ls (length ls).

Lemma LOG_own s ls m msg : LOG m msg (own s ls) = (Ret tt, own s (ls ++ kept (level s) [(m, msg)])).
Proof.
  unfold LOG, compiled_in, own, kept, add_line, flush. rewrite filter_cons, filter_nil. unfold passes.
  destruct s as [? ? ? l ?]. cbn. by destruct m, l; rewrite ?app_nil_r.
Qed.

Lemma Init_own opens dir mf ms g :
  ms <> 0 -> mf <= MaxFiles -> opens (dir ++ str "/kv_cache.log") = true -> lines g = [] -> flushed g = 0%nat ->
  Init opens dir mf ms g = (Ret tt, own (MkSpdlog (dir ++ str "/kv_cache.log") ms mf INFO INFO) []).
Proof.
  intros Hms Hmf Ho Hl Hf. unfold Init, bind, modify. rewrite decide_False by lia. rewrite Ho. cbn.
  by rewrite Hl, Hf.
Qed.

(** What the level of the configuration does. Once the logger is set up, setting a
    level and logging prints the message exactly when its severity is at least that
    level and at least that of INFO: the level [debug] prints what [info] prints. *)
Theorem level_filters s ls l m msg :
  (do! SetLevel l in LOG m msg) (own s ls)
  = (Ret tt, own (MkSpdlog (log_path s) (max_size s) (max_files s) l INFO)
       (if decide (severity INFO <= severity m /\ severity l <= severity m) then ls ++ [(m, msg)] else ls)).
Proof.
  change ((do! SetLevel l in LOG m msg) (own s ls))
    with (LOG m msg (own (MkSpdlog (log_path s) (max_size s) (max_files s) l INFO) ls)).
  rewrite LOG_own. cbn [level]. unfold kept. rewrite filter_cons, filter_nil. unfold passes. f_equal. f_equal.
  by destruct m, l; cbn; rewrite ?app_nil_r.
Qed.
