(* ===== verification/ServerMain.v ===== *)
(** * The server process: start and stop

    [TcpServer::Start] and [Stop], the constructor, [Start], [Stop] and the destructor of
    [KvServer], the signal handler and [main] of [src/server/server_main.cpp], with the
    descriptors, the connections, the pool and the log of the process. Between the start and
    the signal the event loop handles any events and the workers make any steps; while the
    pool is destroyed its threads make any steps, and [Stop] comes back only if they end. *)

From S2P Require Import Prelude Posix CppString WalRecord Wal KvStore SlidingWindow.
From S2P Require Import PersistentStore StoreTheorems Config ThreadPool TcpServer Logger.

(** ** The TCP server's life: [src/server/tcp_server.cpp] *)

(** What the system calls of [Start] return. *)
Record Net := MkNet {
  socket_result : Z;
  bind_ok : bool;
  listen_ok : bool;
  epoll_result : Z
}.

Record Reactor := MkReactor {
  port_ : Z;
  thread_count_ : nat;
  server_fd_ : Z;
  epoll_fd_ : Z;
  running : bool;
  pool_alive : bool;          (* [thread_pool_] is not null *)
  tcp : TcpServer;            (* the pool, the write buffers, the connections *)
  event_loops : nat;          (* detached threads that have been started *)
  open_fds : gset Z;          (* the descriptors of the process, but for [connections] *)
  logger : Logger
}.

(** [TcpServer(port, thread_count)] in a process. *)
Definition Reactor_new (port : Z) (thread_count : nat) (fds : gset Z) (g : Logger) : Reactor :=
  MkReactor port thread_count (-1) (-1) false false (TcpServer_new thread_count) 0 fds g.

Definition set_server_fd (fd : Z) (r : Reactor) : Reactor :=
  MkReactor (port_ r) (thread_count_ r) fd (epoll_fd_ r) (running r) (pool_alive r) (tcp r)
    (event_loops r) (open_fds r) (logger r).
Definition set_epoll_fd (fd : Z) (r : Reactor) : Reactor :=
  MkReactor (port_ r) (thread_count_ r) (server_fd_ r) fd (running r) (pool_alive r) (tcp r)
    (event_loops r) (open_fds r) (logger r).
Definition set_running (b : bool) (r : Reactor) : Reactor :=
  MkReactor (port_ r) (thread_count_ r) (server_fd_ r) (epoll_fd_ r) b (pool_alive r) (tcp r)
    (event_loops r) (open_fds r) (logger r).
Definition set_pool (b : bool) (t : TcpServer) (r : Reactor) : Reactor :=
  MkReactor (port_ r) (thread_count_ r) (server_fd_ r) (epoll_fd_ r) (running r) b t
    (event_loops r) (open_fds r) (logger r).
Definition start_event_loop (r : Reactor) : Reactor :=
  MkReactor (port_ r) (thread_count_ r) (server_fd_ r) (epoll_fd_ r) (running r) (pool_alive r) (tcp r)
    (S (event_loops r)) (open_fds r) (logger r).
Definition set_open_fds (fds : gset Z) (r : Reactor) : Reactor :=
  MkReactor (port_ r) (thread_count_ r) (server_fd_ r) (epoll_fd_ r) (running r) (pool_alive r) (tcp r)
    (event_loops r) fds (logger r).
Definition set_logger (g : Logger) (r : Reactor) : Reactor :=
  MkReactor (port_ r) (thread_count_ r) (server_fd_ r) (epoll_fd_ r) (running r) (pool_alive r) (tcp r)
    (event_loops r) (open_fds r) g.

Definition on_log {A} (m : M Logger A) : M Reactor A := zoom logger set_logger m.

(** The system calls that open and close a descriptor. *)
Definition opened (fd : Z) : M Reactor unit :=
  modify (fun r => set_open_fds ({[fd]} ∪ open_fds r) r).
Definition close (fd : Z) : M Reactor unit :=
  modify (fun r => set_open_fds (open_fds r ∖ {[fd]}) r).

(** [TcpServer::Start]. [setsockopt], [fcntl] and [epoll_ctl] are called without a test of
    their results. *)
Definition Tcp_Start (net : Net) : M Reactor bool :=
  do! modify (set_server_fd (socket_result net)) in
  if decide (socket_result net < 0) then ret false else
  do! opened (socket_result net) in
  if negb (bind_ok net) then ret false else
  if negb (listen_ok net) then ret false else
  do! modify (set_running true) in
  do! modify (fun r => set_pool true (TcpServer_new (thread_count_ r)) r) in
  let! n := gets (fun r => Size (thread_pool_ (tcp r))) in
  do! on_log (LOG INFO (str "Thread pool started with " ++ to_string (Z.of_nat n) ++ str " threads")) in
  do! modify (set_epoll_fd (epoll_result net)) in
  if decide (epoll_result net < 0) then ret false else
  do! opened (epoll_result net) in
  do! modify start_event_loop in
  let! port := gets port_ in
  do! on_log (LOG INFO (str "Reactor (epoll) started on port " ++ to_string port)) in
  ret true.

(** Steps of the pool, in the order of a scheduler; one that is not possible is no step. *)
Definition scheduled (es : list (event (Task := message))) (p : ThreadPool (Task := message))
  : ThreadPool (Task := message) :=
  foldl (fun p e => default p (fire e p)) p es.

Definition is_destroyed (p : ThreadPool (Task := message)) : bool :=
  match dtor p with Destroyed => true | _ => false end.

(** [thread_pool_.reset()], the destructor of the pool: [None] when it still joins after the
    steps [joining] of its workers and itself. *)
Definition reset (joining : list event) (p : ThreadPool (Task := message))
  : option (ThreadPool (Task := message)) :=
  let p := scheduled (EStop :: joining) p in
  if is_destroyed p then Some p else None.

(** [TcpServer::Stop], which is also the destructor; [false] when it has not come back from
    joining the threads of the pool. The pointer is null before they are joined. The
    connections are not closed, the event loop is not woken. *)
Definition Tcp_Stop (joining : list event) : M Reactor bool :=
  do! modify (set_running false) in
  let! alive := gets pool_alive in
  let! t := gets tcp in
  do! modify (set_pool false t) in
  match (if alive : bool then reset joining (thread_pool_ t) else Some (thread_pool_ t)) with
  | None => ret false
  | Some p =>
      do! modify (set_pool false (MkTcp p (write_buffers_ t) (connections t))) in
      let! efd := gets epoll_fd_ in
      do! (if decide (0 <= efd) then do! close efd in modify (set_epoll_fd (-1)) else ret tt) in
      let! sfd := gets server_fd_ in
      do! (if decide (0 <= sfd) then do! close sfd in modify (set_server_fd (-1)) else ret tt) in
      ret true
  end.

(** ** The event loop in the process *)

(** [HandleAccept] with its log line; [address] is the peer's address as text. *)
Fixpoint accept_all (address : Z -> bytes) (client_fds : list Z) : M Reactor unit :=
  match client_fds with
  | [] => ret tt
  | fd :: client_fds =>
      do! on_log (LOG INFO (str "New connection from " ++ address fd ++ str " (fd=" ++ to_string fd ++ str ")")) in
      do! modify (fun r => set_pool (pool_alive r) (HandleAccept fd (tcp r)) r) in
      accept_all address client_fds
  end.

(** [HandleRead] has called [CloseConnection]. *)
Fixpoint closes (results : list recv_result) : bool :=
  match results with
  | Received _ :: results => closes results
  | PeerClosed :: _ | RecvError :: _ => true
  | [] | WouldBlock :: _ => false
  end.

(** [HandleRead] calls [Submit]. *)
Definition submits (e : ready) : bool :=
  match e with Readable _ (Received _ :: _) => true | _ => false end.

(** One of the events [epoll_wait] returned. [thread_pool_->Submit] on a null pointer is
    undefined behaviour. *)
Definition handle_event (address : Z -> bytes) (e : ready) : M Reactor unit :=
  let! alive := gets pool_alive in
  match e with
  | Acceptable client_fds => accept_all address client_fds
  | Readable fd results =>
      if negb alive && submits e then lift Undefined else
      let! t := gets tcp in
      let! t := lift (HandleRead fd results t) in
      do! modify (set_pool alive t) in
      if closes results
      then on_log (LOG DEBUG (str "Client disconnected (fd=" ++ to_string fd ++ str ")"))
      else ret tt
  | Writable fd sends =>
      let! t := gets tcp in
      let! t := lift (HandleWrite fd sends t) in
      modify (set_pool alive t)
  end.

(** What happens in a process that runs: the event loop handles an event, a worker of the
    pool makes a step, a [Submit] notifies, or a worker wakes up without a notification.
    [running_] is tested by the loop only after all the events of a call of
    [epoll_wait]. *)
Inductive activity :=
  | Looped (e : ready)
  | Worked (i : nat)
  | Notified (who : option nat)
  | Woke (i : nat).

Definition pool_step (a : activity) : option (event (Task := message)) :=
  match a with
  | Looped _ => None
  | Worked i => Some (EWork i)
  | Notified who => Some (ENotifyOne who)
  | Woke i => Some (ESpurious i)
  end.

(** One activity; the loop cannot go on to [Submit] while a worker holds the mutex, and a
    step of a worker that is not possible is no step. *)
Definition act (address : Z -> bytes) (a : activity) : M Reactor unit :=
  let! alive := gets pool_alive in
  let! t := gets tcp in
  match a, pool_step a with
  | Looped e, _ =>
      if alive && submits e && bool_decide (is_Some (mutex_ (thread_pool_ t))) then ret tt
      else handle_event address e
  | _, Some e =>
      if alive : bool
      then modify (set_pool true (MkTcp (scheduled [e] (thread_pool_ t)) (write_buffers_ t) (connections t)))
      else ret tt
  | _, None => ret tt
  end.

Fixpoint acts (address : Z -> bytes) (live : list activity) : M Reactor unit :=
  match live with
  | [] => ret tt
  | a :: live => do! act address a in acts address live
  end.

(** ** [KvServer]: [src/server/kv_server.cpp] *)

Definition ParseLogLevel (level : bytes) : LogLevel :=
  let lower := ToLower level in
  if decide (lower = str "debug") then DEBUG
  else if decide (lower = str "info") then INFO
  else if decide (lower = str "warn") then WARN
  else if decide (lower = str "error") then ERR
  else INFO.

Record Process := MkProcess {
  config_ : ServerConfig;
  store : option PersistentKvStore;
  reactor : Reactor;
  kv_running : bool
}.

Definition set_config (c : ServerConfig) (p : Process) : Process :=
  MkProcess c (store p) (reactor p) (kv_running p).
Definition set_store (s : option PersistentKvStore) (p : Process) : Process :=
  MkProcess (config_ p) s (reactor p) (kv_running p).
Definition set_reactor (r : Reactor) (p : Process) : Process :=
  MkProcess (config_ p) (store p) r (kv_running p).
Definition set_kv_running (b : bool) (p : Process) : Process :=
  MkProcess (config_ p) (store p) (reactor p) b.

Definition on_reactor {A} (m : M Reactor A) : M Process A := zoom reactor set_reactor m.
Definition info (msg : bytes) : M Process unit := on_reactor (on_log (LOG INFO msg)).






Definition SetLogLevel (lvl : bytes) : M Process unit :=
  do! modify (fun p => set_config (MkServerConfig (port (config_ p)) (data_dir (config_ p)) lvl
        (log_dir (config_ p)) (log_max_files (config_ p)) (log_max_size_mb (config_ p))) p) in
  do! on_reactor (on_log (SetLevel (ParseLogLevel lvl))) in
  info (str "Log level changed to: " ++ lvl).


(** ** [main]: [src/server/server_main.cpp] *)

(** The first scan of the arguments, for the path of the configuration file. *)
Fixpoint config_path (argv : list bytes) (path : bytes) : bytes :=
  match argv with
  | arg :: (v :: rest') as rest =>
      if decide (arg = str "-c" \/ arg = str "--config") then config_path rest' v
      else config_path rest path
  | _ => path
  end.

(** The configuration; [None] when the help was asked for. *)
Definition server_config (contents : bytes -> option bytes) (argv : list bytes)
  : res (option ServerConfig) :=
  let? c := Load (contents (config_path argv (str "config.txt"))) in
  OverrideFromArgs argv c.






(** ** Starting and stopping *)

Definition starts (net : Net) : bool :=
  bool_decide (0 <= socket_result net) && bind_ok net && listen_ok net
    && bool_decide (0 <= epoll_result net).

(** New descriptors are not among the open ones. *)
Definition fresh (net : Net) (fds : gset Z) : Prop :=
  socket_result net ∉ fds /\ epoll_result net ∉ fds /\ socket_result net <> epoll_result net.

(** What [Start] logs. *)
Definition start_lines (net : Net) (port : Z) (n : nat) : list (LogLevel * bytes) :=
  if bool_decide (0 <= socket_result net) && bind_ok net && listen_ok net then
    (INFO, str "Thread pool started with " ++ to_string (Z.of_nat (Size (ThreadPool_new (Task := message) n)))
           ++ str " threads")
    :: (if bool_decide (0 <= epoll_result net)
        then [(INFO, str "Reactor (epoll) started on port " ++ to_string port)] else [])
  else [].

(** Beyond [fds] exactly the descriptors of the two fields are open. *)
Definition fd_set (fd : Z) : gset Z := if decide (0 <= fd) then {[fd]} else ∅.

Definition owns (fds : gset Z) (r : Reactor) : Prop :=
  open_fds r = fds ∪ fd_set (server_fd_ r) ∪ fd_set (epoll_fd_ r) /\
  fds ## fd_set (server_fd_ r) /\ fds ## fd_set (epoll_fd_ r) /\
  fd_set (server_fd_ r) ## fd_set (epoll_fd_ r).

(** The server runs: there is a pool, and the log works. *)
Definition serving (r : Reactor) : Prop :=
  pool_alive r = true /\ running_ (thread_pool_ (tcp r)) = true /\ write_buffers_ (tcp r) = ∅ /\
  (exists n, reachable n (thread_pool_ (tcp r))) /\ exists s ls, logger r = own s ls.

Lemma fd_set_pos fd : 0 <= fd -> fd_set fd = {[fd]}.
Proof. intros H. unfold fd_set. by rewrite decide_True. Qed.

Lemma fd_set_neg fd : fd < 0 -> fd_set fd = ∅.
Proof. intros H. unfold fd_set. rewrite decide_False by lia. done. Qed.

(** Running the definitions of this file on a state whose logger is set up. *)
Ltac exec :=
  repeat first
    [ progress unfold bind, ret, modify, gets, lift, on_log, on_reactor, info, zoom, opened, close,
        set_server_fd, set_epoll_fd, set_running, set_pool, start_event_loop, set_open_fds, set_logger,
        Reactor_new, set_config, set_store, set_reactor, set_kv_running
    | progress cbn [port_ thread_count_ server_fd_ epoll_fd_ running pool_alive tcp event_loops open_fds
        logger config_ store reactor kv_running negb andb]
    | rewrite LOG_own ].

Ltac owned :=
  unfold owns; cbn [open_fds server_fd_ epoll_fd_];
  rewrite ?fd_set_pos, ?fd_set_neg by lia; split_and!; set_solver.

(** *** Joining the pool *)

(** The call of [Stop] comes back from the pool's destructor. *)
Definition comes_back (joining : list event) (r : Reactor) : bool :=
  negb (pool_alive r) || is_destroyed (scheduled (EStop :: joining) (thread_pool_ (tcp r))).

(** The pool, if there is one, is one that its callers and its scheduler can have led to. *)
Definition sound_pool (r : Reactor) : Prop :=
  pool_alive r = true ->
  exists n, reachable n (thread_pool_ (tcp r)) /\ dtor (thread_pool_ (tcp r)) = Alive.

Lemma run_scheduled es : forall p p', run es p = Some p' -> scheduled es p = p'.
Proof.
  induction es as [|e es IH]; intros p p'; cbn [run]; [by intros [= <-]|].
  destruct (fire e p) as [p1|] eqn:Hf; [|done]. intros Hrun. unfold scheduled. cbn [foldl]. rewrite Hf.
  by apply IH.
Qed.

Lemma scheduled_reachable n es : forall p, reachable n p -> reachable n (scheduled es p).
Proof.
  induction es as [|e es IH]; intros p Hp; [done|]. unfold scheduled. cbn [foldl]. apply IH.
  destruct (fire e p) as [p1|] eqn:Hf; [|done]. by eapply reachable_fire.
Qed.

(** Some schedule lets [Stop] come back. *)
Lemma can_come_back r : sound_pool r -> exists joining, comes_back joining r = true.
Proof.
  intros Hs. unfold comes_back, sound_pool in *. destruct (pool_alive r); [|by exists []].
  destruct Hs as (n & Hn & Hd); [done|]. destruct (destroyable n _ Hn Hd) as (es & p' & Hrun & Hd').
  exists es. rewrite (run_scheduled _ _ _ Hrun). unfold is_destroyed. by rewrite Hd'.
Qed.


Lemma serving_sound r : serving r -> sound_pool r.
Proof.
  intros (_ & Hr & _ & (n & Hn) & _) _. exists n. split; [done|].
  by apply (inv_dtor _ (reachable_inv _ _ Hn)).
Qed.

(** *** [Start] *)

(** [Start] has got as far as creating the pool. *)
Definition pool_made (net : Net) : bool :=
  bool_decide (0 <= socket_result net) && bind_ok net && listen_ok net.

Lemma Tcp_Start_run net port n fds s ls :
  fresh net fds ->
  exists r, Tcp_Start net (Reactor_new port n fds (own s ls)) = (Ret (starts net), r) /\
    owns fds r /\ logger r = own s (ls ++ kept (level s) (start_lines net port n)) /\
    event_loops r = (if starts net then 1%nat else 0%nat) /\
    tcp r = TcpServer_new n /\ pool_alive r = pool_made net /\
    (starts net = true -> serving r).
Proof.
  destruct net as [sfd b l efd]. intros (Hs & He & Hne). unfold Tcp_Start, starts, start_lines, pool_made.
  cbn [socket_result bind_ok listen_ok epoll_result] in *.
  destruct (decide (sfd < 0)) as [H|H].
  { rewrite (bool_decide_eq_false_2 (0 <= sfd)) by lia. exec. eexists. split; [reflexivity|].
    rewrite app_nil_r. split; [owned|done]. }
  rewrite (bool_decide_eq_true_2 (0 <= sfd)) by lia.
  destruct b; [|exec; eexists; split; [reflexivity|]; rewrite app_nil_r; split; [owned|done]].
  destruct l; [|exec; eexists; split; [reflexivity|]; rewrite app_nil_r; split; [owned|done]].
  destruct (decide (efd < 0)) as [H'|H'].
  { rewrite (bool_decide_eq_false_2 (0 <= efd)) by lia. exec. eexists. split; [reflexivity|].
    split; [owned|done]. }
  rewrite (bool_decide_eq_true_2 (0 <= efd)) by lia. exec. eexists. split; [reflexivity|].
  split; [owned|]. cbn [logger event_loops]. rewrite <-app_assoc, <-kept_app.
  split_and!; [done..|]. intros _. split_and!; [done..| |by eexists _, _]. exists n. constructor.
Qed.

Lemma new_pool_alive n : dtor (ThreadPool_new (Task := message) n) = Alive.
Proof. reflexivity. Qed.

Lemma new_sound r n : tcp r = TcpServer_new n -> sound_pool r.
Proof. intros E _. rewrite E. exists n. split; [constructor|apply new_pool_alive]. Qed.

(** *** [Stop] *)

Lemma close_all_run fds r :
  owns fds r ->
  exists r',
    (let! efd := gets epoll_fd_ in
     do! (if decide (0 <= efd) then do! close efd in modify (set_epoll_fd (-1)) else ret tt) in
     let! sfd := gets server_fd_ in
     do! (if decide (0 <= sfd) then do! close sfd in modify (set_server_fd (-1)) else ret tt) in
     ret true) r = (Ret true, r') /\ owns fds r' /\ open_fds r' = fds /\ logger r' = logger r /\
    running r' = running r /\ pool_alive r' = pool_alive r /\
    event_loops r' = event_loops r /\ tcp r' = tcp r.
Proof.
  destruct r as [p n sfd efd run alive t loops fs g]. unfold owns.
  cbn [open_fds server_fd_ epoll_fd_]. intros (-> & Hs & He & Hne).
  assert (fd_set (-1) = ∅) as E1 by reflexivity.
  destruct (decide (0 <= efd)) as [H|H];
    [pose proof (fd_set_pos efd H) as E|pose proof (fd_set_neg efd ltac:(lia)) as E];
    (destruct (decide (0 <= sfd)) as [H'|H'];
      [pose proof (fd_set_pos sfd H') as E'|pose proof (fd_set_neg sfd ltac:(lia)) as E']); exec;
    repeat (case_decide; [|lia] || (case_decide; [lia|]); exec);
    (eexists; split; [reflexivity|]); cbn; unfold owns; cbn [open_fds server_fd_ epoll_fd_];
    rewrite ?E1, ?E, ?E' in *; split_and!; try done; try lia; set_solver.
Qed.

(** Whatever state the server is in, [Stop] marks it as stopped and drops the pool; once it
    comes back, the descriptors it has opened are closed. *)
Lemma Tcp_Stop_run fds joining r :
  owns fds r ->
  exists r', Tcp_Stop joining r = (Ret (comes_back joining r), r') /\ logger r' = logger r /\
    running r' = false /\ pool_alive r' = false /\ event_loops r' = event_loops r /\
    connections (tcp r') = connections (tcp r) /\
    (comes_back joining r = true -> owns fds r' /\ open_fds r' = fds).
Proof.
  destruct r as [p n sfd efd run alive t loops fs g]. intros Ho.
  unfold Tcp_Stop, comes_back, reset. unfold modify at 1. unfold bind at 1. rewrite !bind_gets.
  unfold bind at 1, modify at 1. cbn [pool_alive tcp set_pool set_running].
  assert (forall q, exists r',
    (do! modify (set_pool false (MkTcp q (write_buffers_ t) (connections t))) in
     let! efd := gets epoll_fd_ in
     do! (if decide (0 <= efd) then do! close efd in modify (set_epoll_fd (-1)) else ret tt) in
     let! sfd := gets server_fd_ in
     do! (if decide (0 <= sfd) then do! close sfd in modify (set_server_fd (-1)) else ret tt) in
     ret true) (MkReactor p n sfd efd false false t loops fs g) = (Ret true, r') /\ logger r' = g /\
    running r' = false /\ pool_alive r' = false /\ event_loops r' = loops /\
    connections (tcp r') = connections t /\ (true = true -> owns fds r' /\ open_fds r' = fds)) as Hrest.
  { intros q. unfold bind at 1, modify at 1.
    match goal with |- context [set_pool ?b ?x ?r] => set (r1 := set_pool b x r) end.
    destruct (close_all_run fds r1 Ho) as (r' & Hr' & Ho' & Hf & Hl & Hrun & Ha & Hev & Ht).
    exists r'. rewrite Hr', Hl, Hrun, Ha, Hev, Ht. by split_and!. }
  destruct alive; cbn [negb orb]; [|apply Hrest].
  destruct (is_destroyed _); [apply Hrest|]. by eexists.
Qed.

(** For all results of the system calls, starting the TCP server succeeds exactly
    when all of them do and logs what it has done. [Stop] then comes back for some schedule
    of the pool's threads, and whenever it does, it leaves no descriptor to the process that
    it had not open before, whether [Start] succeeded or failed half way; one event-loop
    thread is left running for each success. *)
Theorem start_stop_closes net port n fds s ls :
  fresh net fds ->
  exists r, Tcp_Start net (Reactor_new port n fds (own s ls)) = (Ret (starts net), r) /\
    (exists joining, (Tcp_Stop joining r).1 = Ret true) /\
    forall joining r', Tcp_Stop joining r = (Ret true, r') ->
      open_fds r' = fds /\ running r' = false /\ pool_alive r' = false /\
      logger r' = own s (ls ++ kept (level s) (start_lines net port n)) /\
      event_loops r' = (if starts net then 1%nat else 0%nat).
Proof.
  intros Hf. destruct (Tcp_Start_run net port n fds s ls Hf) as (r & Hr & Ho & Hl & Hev & Ht & _).
  exists r. split; [done|]. split.
  - destruct (can_come_back r (new_sound _ _ Ht)) as [joining Hj]. exists joining.
    destruct (Tcp_Stop_run fds joining r Ho) as (r' & -> & _). by rewrite Hj.
  - intros joining r' Hstop.
    destruct (Tcp_Stop_run fds joining r Ho) as (r1 & Hr1 & Hl1 & Hrun & Ha & Hev1 & _ & Hfds).
    rewrite Hr1 in Hstop. injection Hstop as Hj <-. destruct (Hfds Hj) as [_ Hfds'].
    rewrite Hl1, Hev1. by split_and!.
Qed.

Lemma start_stop_closes_witness :
  let net := MkNet 3 true true (-1) in
  let s := MkSpdlog [] 1 1 INFO INFO in
  exists r, Tcp_Start net (Reactor_new 6379 0 {[0; 1; 2]} (own s [])) = (Ret false, r) /\
    (exists joining, (Tcp_Stop joining r).1 = Ret true) /\
    forall joining r', Tcp_Stop joining r = (Ret true, r') ->
      open_fds r' = {[0; 1; 2]} /\ running r' = false /\ pool_alive r' = false /\
      logger r' = own s [(INFO, str "Thread pool started with 4 threads")] /\ event_loops r' = 0%nat.
Proof.
  apply (start_stop_closes (MkNet 3 true true (-1)) 6379 0 {[0; 1; 2]} (MkSpdlog [] 1 1 INFO INFO) []).
  unfold fresh. cbn. split_and!; [set_solver|set_solver|done].
Defined.

(** *** While the server runs *)

(** What the loop and the pool leave alone. *)
Definition same_frame (r r' : Reactor) : Prop :=
  server_fd_ r' = server_fd_ r /\ epoll_fd_ r' = epoll_fd_ r /\ open_fds r' = open_fds r /\
  event_loops r' = event_loops r.

#[local] Instance same_frame_preorder : PreOrder same_frame.
Proof. split; [done|]. intros r1 r2 r3 (? & ? & ? & ?) (? & ? & ? & ?). unfold same_frame. by split_and!; etrans. Qed.

Lemma owns_frame fds r r' : same_frame r r' -> owns fds r -> owns fds r'.
Proof. intros (E1 & E2 & E3 & _). unfold owns. by rewrite E1, E2, E3. Qed.

(** The log lines of accepted connections. *)
Definition accept_lines (address : Z -> bytes) (client_fds : list Z) : list (LogLevel * bytes) :=
  map (fun fd => (INFO, str "New connection from " ++ address fd ++ str " (fd=" ++ to_string fd ++ str ")"))
    client_fds.

Definition activity_lines (address : Z -> bytes) (a : activity) : list (LogLevel * bytes) :=
  match a with Looped (Acceptable fds) => accept_lines address fds | _ => [] end.

Definition live_lines (address : Z -> bytes) (live : list activity) : list (LogLevel * bytes) :=
  concat (map (activity_lines address) live).

(** The connections that are accepted, and those a [recv] reports as closed or broken. *)
Definition accepts (a : activity) : gset Z :=
  match a with Looped (Acceptable fds) => list_to_set fds | _ => ∅ end.
Definition hangs_up (a : activity) : gset Z :=
  match a with Looped (Readable fd results) => if closes results then {[fd]} else ∅ | _ => ∅ end.

Lemma accept_all_run address fds s : forall r ls,
  logger r = own s ls ->
  exists r', accept_all address fds r = (Ret tt, r') /\ same_frame r r' /\ pool_alive r' = pool_alive r /\
    logger r' = own s (ls ++ kept (level s) (accept_lines address fds)) /\
    thread_pool_ (tcp r') = thread_pool_ (tcp r) /\ write_buffers_ (tcp r') = write_buffers_ (tcp r) /\
    connections (tcp r') = connections (tcp r) ∪ list_to_set fds.
Proof.
  induction fds as [|fd fds IH]; intros r ls Hl; cbn [accept_all accept_lines map].
  { exists r. rewrite app_nil_r. split_and!; try done. set_solver. }
  destruct r as [p n sfd efd run alive t loops fs g]. cbn [logger] in Hl. subst g.
  unfold bind at 1, on_log, zoom. cbn [logger]. rewrite LOG_own.
  unfold bind at 1, modify. cbn [tcp set_logger pool_alive].
  match goal with |- context [accept_all address fds ?r] => set (r1 := r) end.
  destruct (IH r1 _ eq_refl) as (r' & Hrun & Hf & Ha & Hl & Hp & Hw & Hc).
  exists r'. rewrite Hl, <-app_assoc, <-kept_app. split_and!; try done.
  rewrite Hc. cbn. set_solver.
Qed.

Lemma HandleRead_connections fd results : forall t t',
  HandleRead fd results t = Ret t' ->
  connections t' = if closes results then connections t ∖ {[fd]} else connections t.
Proof.
  induction results as [|[c| | |] results IH]; intros t t'; cbn [HandleRead closes].
  1,3-5: by intros [= <-].
  unfold Submit. destruct (running_ _); cbn [res_bind]; [|done]. intros E. by apply IH in E.
Qed.

Lemma HandleRead_reachable n fd results : forall t t',
  reachable n (thread_pool_ t) -> dtor (thread_pool_ t) = Alive ->
  mutex_ (thread_pool_ t) = None \/ submits (Readable fd results) = false ->
  HandleRead fd results t = Ret t' -> reachable n (thread_pool_ t').
Proof.
  induction results as [|[c| | |] results IH]; intros t t' Hn Hd Hm; cbn [HandleRead].
  1,3-5: by intros [= <-].
  destruct Hm as [Hm|]; [|done].
  destruct (Submit (fd, c) (thread_pool_ t)) as [p| | |] eqn:Hsub; cbn [res_bind]; try done.
  assert (fire (ESubmit (fd, c)) (thread_pool_ t) = Some p) as Hf by (cbn [fire]; by rewrite Hm, Hd, Hsub).
  assert (mutex_ p = None /\ dtor p = Alive) as [Hm' Hd'].
  { unfold Submit in Hsub. destruct (running_ _); [|done]. injection Hsub as <-. by split. }
  apply IH; cbn [thread_pool_]; [by eapply reachable_fire|done|by left].
Qed.

(** The steps of the pool that an activity can be do not stop it. *)
Lemma pool_step_keeps n a e p :
  pool_step a = Some e -> reachable n p -> running_ p = true -> running_ (scheduled [e] p) = true.
Proof.
  intros He Hn Hr. unfold scheduled. cbn [foldl].
  destruct (fire e p) as [p'|] eqn:Hf; [|done]. cbn [default id].
  destruct a as [?|i|who|i]; cbn [pool_step] in He; [done|injection He as <-..]; cbn [fire] in Hf;
    unfold work in Hf; repeat case_match; simplify_eq; done.
Qed.

(** One activity of a running server: it keeps running, and the log gets the line of each
    accepted connection. *)
Lemma act_run address a r s ls :
  serving r -> logger r = own s ls ->
  exists r', act address a r = (Ret tt, r') /\ serving r' /\ same_frame r r' /\
    logger r' = own s (ls ++ kept (level s) (activity_lines address a)) /\
    connections (tcp r') ⊆ connections (tcp r) ∪ accepts a /\
    (connections (tcp r) ∪ accepts a) ∖ hangs_up a ⊆ connections (tcp r').
Proof.
  intros (Ha & Hr & Hb & (n & Hn) & _) Hl.
  assert (dtor (thread_pool_ (tcp r)) = Alive) as Hd by by apply (inv_dtor _ (reachable_inv _ _ Hn)).
  assert (forall p, reachable n p -> running_ p = true ->
    serving (set_pool true (MkTcp p (write_buffers_ (tcp r)) (connections (tcp r))) r)) as Hpool.
  { intros p Hp Hrp. split_and!; try done; [by exists n|by exists s, ls]. }
  unfold act. rewrite !bind_gets, Ha.
  assert (forall e, pool_step a = Some e -> serving (set_pool true (MkTcp (scheduled [e] (thread_pool_ (tcp r)))
    (write_buffers_ (tcp r)) (connections (tcp r))) r)) as Hstep.
  { intros e He. apply Hpool; [by apply scheduled_reachable|by eapply pool_step_keeps]. }
  destruct a as [[fds|fd results|fd sends]|i|who|i]; cbn [pool_step submits andb] in *.
  4-6: eexists; split; [reflexivity|]; split_and!; try done; cbn [activity_lines accepts hangs_up];
    [by apply Hstep|by rewrite app_nil_r|cbn; set_solver..].
  - cbn [handle_event]. unfold handle_event. rewrite bind_gets.
    destruct (accept_all_run address fds s r ls Hl) as (r' & Hr' & Hf & Ha' & Hl' & Hp & Hw & Hc).
    exists r'. split_and!; try done; [|cbn [accepts hangs_up]; set_solver..].
    split_and!; [congruence..| |by eexists _, _]. exists n. by rewrite Hp.
  - destruct (match results with Received _ :: _ => true | _ => false end
              && bool_decide (is_Some (mutex_ (thread_pool_ (tcp r))))) eqn:Hwait.
    + exists r. split_and!; try done; cbn [activity_lines accepts hangs_up];
        [by split_and!; [..|exists n|exists s, ls]|by rewrite app_nil_r|set_solver..].
    + unfold handle_event. rewrite bind_gets, Ha. cbn [negb andb]. rewrite bind_gets.
      destruct (HandleRead_ok fd results (tcp r) Hr) as (t & Ht & _ & _ & Hr' & Hb').
      rewrite Ht, bind_lift_Ret. unfold bind at 1, modify at 1.
      assert (serving (set_pool true t r)) as Hserv.
      { split_and!; [done|done|by apply Hb'| |by exists s, ls]. exists n.
        eapply HandleRead_reachable; [exact Hn|exact Hd| |exact Ht].
        apply andb_false_iff in Hwait as [?|Hm%bool_decide_eq_false]; [by right|left].
        destruct (mutex_ _); [by destruct Hm|done]. }
      pose proof (HandleRead_connections _ _ _ _ Ht) as Hc.
      exists (set_pool true t r). split_and!; try done; cbn [activity_lines accepts hangs_up].
      * destruct (closes results); [|done]. unfold on_log, zoom, LOG. cbn [compiled_in].
        by destruct r.
      * by rewrite app_nil_r.
      * cbn [tcp set_pool]. rewrite Hc. destruct (closes results); set_solver.
      * cbn [tcp set_pool]. rewrite Hc. destruct (closes results); set_solver.
  - unfold handle_event. rewrite !bind_gets. unfold HandleWrite. rewrite Hb, lookup_empty, bind_lift_Ret, Ha.
    exists (set_pool true (tcp r) r). split_and!; try done; cbn [activity_lines accepts hangs_up];
      [by split_and!; [..|exists n|exists s, ls]|by rewrite app_nil_r|cbn; set_solver..].
Qed.

Lemma acts_app address live live' r :
  acts address (live ++ live') r = (do! acts address live in acts address live') r.
Proof.
  revert r. induction live as [|a live IH]; intros r; cbn [app acts]; [done|].
  unfold bind in *. destruct (act address a r) as [[[]| | |] r1]; [apply IH|done..].
Qed.

(** Any activities. *)
Lemma acts_run address s live : forall r ls,
  serving r -> logger r = own s ls ->
  exists r', acts address live r = (Ret tt, r') /\ serving r' /\ same_frame r r' /\
    logger r' = own s (ls ++ kept (level s) (live_lines address live)) /\
    connections (tcp r') ⊆ connections (tcp r) ∪ ⋃ (map accepts live) /\
    (connections (tcp r) ∪ ⋃ (map accepts live)) ∖ ⋃ (map hangs_up live) ⊆ connections (tcp r').
Proof.
  induction live as [|a live IH]; intros r ls Hs Hl; cbn [acts live_lines map concat union_list].
  { exists r. rewrite app_nil_r. split_and!; try done; set_solver. }
  destruct (act_run address a r s ls Hs Hl) as (r1 & Hr1 & Hs1 & Hf1 & Hl1 & Hc1 & Hd1).
  destruct (IH r1 _ Hs1 Hl1) as (r' & Hr' & Hs' & Hf' & Hl' & Hc' & Hd').
  exists r'. rewrite (bind_Ret _ _ _ _ _ Hr1), Hl', <-app_assoc, <-kept_app.
  split_and!; try done; [by etrans|clear -Hc1 Hc'; set_solver|clear -Hd1 Hd'; set_solver].
Qed.

(** ** The process *)
















(** ** The command line *)

(** The options of the server; [long] says which of its two names one is given by. *)
Inductive setting :=
  | SPort (n : Z)
  | SDataDir (d : bytes)
  | SLevel (l : bytes)
  | SConfig (path : bytes).

Definition render (o : bool * setting) : list bytes :=
  let (long, s) := o in
  match s with
  | SPort n => [str (if long : bool then "--port" else "-p"); to_string n]
  | SDataDir d => [str (if long : bool then "--data-dir" else "-d"); d]
  | SLevel l => [str (if long : bool then "--log-level" else "-l"); l]
  | SConfig path => [str (if long : bool then "--config" else "-c"); path]
  end.

Definition command_line (os : list (bool * setting)) : list bytes := os ≫= render.

Definition config_flag (s : bytes) : Prop := s = str "-c" \/ s = str "--config".

Definition other_flag (s : bytes) : Prop :=
  s ∈ [str "-p"; str "--port"; str "-d"; str "--data-dir"; str "-l"; str "--log-level"; str "-h"; str "--help"].

(** Values that are not taken for options: the two scans of the arguments skip the values
    of their own options only. *)
Definition setting_ok (s : setting) : Prop :=
  match s with
  | SPort n => 0 <= n < 65536
  | SDataDir v | SLevel v => ~ config_flag v
  | SConfig path => ~ other_flag path
  end.

Definition apply_setting (c : ServerConfig) (s : setting) : ServerConfig :=
  match s with
  | SPort n => MkServerConfig n (data_dir c) (log_level c) (log_dir c) (log_max_files c) (log_max_size_mb c)
  | SDataDir d => MkServerConfig (port c) d (log_level c) (log_dir c) (log_max_files c) (log_max_size_mb c)
  | SLevel l => MkServerConfig (port c) (data_dir c) (ToLower l) (log_dir c) (log_max_files c) (log_max_size_mb c)
  | SConfig _ => c
  end.

Definition choose_path (path : bytes) (s : setting) : bytes :=
  match s with SConfig p => p | _ => path end.

(** A number is no option. *)
Lemma to_string_no_flag n s : 0 <= n -> head s = Some Byte.x2d -> to_string n <> s.
Proof.
  intros Hn Hs E. destruct (to_string_head n Hn) as (c & t & d & Et & Hd). subst s. rewrite Et in Hs.
  injection Hs as ->. discriminate Hd.
Qed.

Lemma config_path_run os : Forall (fun o => setting_ok o.2) os -> forall path,
  config_path (command_line os) path = foldl choose_path path (map snd os).
Proof.
  induction 1 as [|[long s] os Hs _ IH]; intros path; [done|].
  change (command_line ((long, s) :: os)) with (render (long, s) ++ command_line os).
  assert (forall v, ~ config_flag v -> config_path (v :: command_line os) path = config_path (command_line os) path)
    as Hskip.
  { intros v Hv. destruct (command_line os); [done|]. cbn [config_path].
    by rewrite decide_False by exact Hv. }
  destruct s as [n|d|l|p]; cbn [render app map snd foldl choose_path setting_ok] in *; rewrite <-IH; clear IH.
  - rewrite <-(Hskip (to_string n)); [destruct long; reflexivity|].
    intros [E|E]; revert E; (apply to_string_no_flag; [lia|reflexivity]).
  - rewrite <-(Hskip d) by done. destruct long; reflexivity.
  - rewrite <-(Hskip l) by done. destruct long; reflexivity.
  - cbn [config_path]. rewrite decide_True; [done|]. destruct long; [by right|by left].
Qed.

Lemma OverrideFromArgs_skip v rest c :
  ~ other_flag v -> OverrideFromArgs (v :: rest) c = OverrideFromArgs rest c.
Proof.
  unfold other_flag. rewrite !elem_of_cons. intros Hv. cbn [OverrideFromArgs].
  destruct rest as [|w rest]; rewrite !decide_False by tauto; done.
Qed.

Lemma OverrideFromArgs_run os : Forall (fun o => setting_ok o.2) os -> forall c,
  OverrideFromArgs (command_line os) c = Ret (Some (foldl apply_setting c (map snd os))).
Proof.
  induction 1 as [|[long s] os Hs _ IH]; intros c; [done|].
  change (command_line ((long, s) :: os)) with (render (long, s) ++ command_line os).
  destruct s as [n|d|l|p]; cbn [render app map snd foldl apply_setting setting_ok] in *; rewrite <-IH; clear IH.
  - assert (stoi (to_string n) = Ret n) as Hn by (apply stoi_to_string_exact; unfold INT_MAX; lia).
    assert (u16 n = n) as Hu by (unfold u16; apply Z.mod_small; lia).
    destruct long; cbn [OverrideFromArgs];
      (rewrite decide_True by (first [by left|by right])); rewrite Hn; cbn [res_bind]; by rewrite Hu.
  - destruct long; reflexivity.
  - destruct long; reflexivity.
  - rewrite OverrideFromArgs_skip.
    + by rewrite OverrideFromArgs_skip.
    + destruct long; apply (bool_decide_unpack _); vm_compute; exact I.
Qed.

(** C40: The configuration a server runs with. For every list of options, in any order
    and by either name, repeated or not: the file is the last one named by [--config], or
    [config.txt]; its settings replace the defaults, and the options replace those of the
    file, the last one of each kind winning. *)
Theorem server_command_line contents os :
  Forall (fun o => setting_ok o.2) os ->
  server_config contents (command_line os)
  = let? c := Load (contents (foldl choose_path (str "config.txt") (map snd os))) in
    Ret (Some (foldl apply_setting c (map snd os))).
Proof.
  intros Hos. unfold server_config. rewrite config_path_run by done.
  destruct (Load _) as [c|e| |]; cbn [res_bind]; [|done..]. by apply OverrideFromArgs_run.
Qed.

Lemma server_command_line_witness :
  server_config (fun p => if decide (p = str "my.conf") then Some (str "port = 7000" ++ [LF] ++ str "data_dir=/x") else None)
    [str "-p"; str "80"; str "--config"; str "my.conf"; str "-l"; str "WARN"; str "--port"; str "8080"]
  = Ret (Some (MkServerConfig 8080 (str "/x") (str "warn") (str "logs") 5 5)).
Proof.
  pose proof (server_command_line
    (fun p => if decide (p = str "my.conf") then Some (str "port = 7000" ++ [LF] ++ str "data_dir=/x") else None)
    [(false, SPort 80); (true, SConfig (str "my.conf")); (false, SLevel (str "WARN")); (true, SPort 8080)]) as H.
  apply H. repeat (apply Forall_cons; split); [..|by apply Forall_nil]; cbn.
  - lia.
  - apply (bool_decide_unpack _). vm_compute. exact I.
  - apply (bool_decide_unpack _). vm_compute. exact I.
  - lia.
Defined.

(** ** The event loop and [Stop] *)

(** C35: Stopping the server leaves its event loop behind. After any successful start,
    whatever the event loop and the workers have done, and when a client has then connected:
    [Stop] returns under some schedule of the pool's threads, and from its first steps on,
    whether it has returned or still joins them, the connection is open, the event-loop
    thread still waits, and the next bytes of that client make that thread call [Submit]
    through a null pointer. *)
Theorem stop_leaves_event_loop net port n fds s ls address live fd :
  fresh net fds -> starts net = true -> 0 <= fd ->
  exists r r1,
    Tcp_Start net (Reactor_new port n fds (own s ls)) = (Ret true, r) /\
    acts address (live ++ [Looped (Acceptable [fd])]) r = (Ret tt, r1) /\
    (exists joining, (Tcp_Stop joining r1).1 = Ret true) /\
    forall joining, exists back r2, Tcp_Stop joining r1 = (Ret back, r2) /\
      running r2 = false /\ event_loops r2 = 1%nat /\ fd ∈ connections (tcp r2) /\
      forall chunk results, (act address (Looped (Readable fd (Received chunk :: results))) r2).1 = Undefined.
Proof.
  intros Hf Hs Hfd. destruct (Tcp_Start_run net port n fds s ls Hf) as (r & Hr & Ho & Hl & Hev & _ & _ & Hserv).
  rewrite Hs in Hr, Hev. specialize (Hserv Hs).
  destruct (acts_run address s live r _ Hserv Hl) as (r0 & Hr0 & Hs0 & Hf0 & Hl0 & _).
  destruct (act_run address (Looped (Acceptable [fd])) r0 s _ Hs0 Hl0) as (r1 & Hr1 & Hs1 & Hf1 & _ & _ & Hc1).
  assert (same_frame r r1) as Hfr by by etrans.
  exists r, r1. split_and!; [done|..].
  - rewrite acts_app, (bind_Ret _ _ _ _ _ Hr0). cbn [acts]. by rewrite (bind_Ret _ _ _ _ _ Hr1).
  - destruct (can_come_back r1 (serving_sound _ Hs1)) as [joining Hj]. exists joining.
    destruct (Tcp_Stop_run fds joining r1 (owns_frame _ _ _ Hfr Ho)) as (r2 & -> & _). by rewrite Hj.
  - intros joining.
    destruct (Tcp_Stop_run fds joining r1 (owns_frame _ _ _ Hfr Ho)) as (r2 & Hr2 & _ & Hrun & Ha & Hev2 & Hc & _).
    exists (comes_back joining r1), r2. split_and!; [done|done| | |].
    + destruct Hfr as (_ & _ & _ & E). congruence.
    + rewrite Hc. apply Hc1. cbn. set_solver.
    + intros chunk results. unfold act, handle_event. rewrite !bind_gets, Ha. cbn [andb pool_step].
      rewrite bind_gets. by rewrite Ha.
Qed.

Lemma stop_leaves_event_loop_witness :
  exists r r1,
    Tcp_Start (MkNet 3 true true 4) (Reactor_new 6379 0 {[0; 1; 2]} (own (MkSpdlog [] 1 1 INFO INFO) [])) = (Ret true, r) /\
    acts (fun _ => []) ([Looped (Readable 3 [WouldBlock]); Worked 0] ++ [Looped (Acceptable [5])]) r = (Ret tt, r1) /\
    (exists joining, (Tcp_Stop joining r1).1 = Ret true) /\
    forall joining, exists back r2, Tcp_Stop joining r1 = (Ret back, r2) /\
      running r2 = false /\ event_loops r2 = 1%nat /\ 5 ∈ connections (tcp r2) /\
      forall chunk results, (act (fun _ => []) (Looped (Readable 5 (Received chunk :: results))) r2).1 = Undefined.
Proof.
  apply (stop_leaves_event_loop (MkNet 3 true true 4)); [|reflexivity|lia].
  unfold fresh. cbn. split_and!; [set_solver|set_solver|done].
Defined.
